(** * Well-Architected Interviewer: the report documents of [wai.py]

    A shallow embedding of [skills/well-architected-interviewer/scripts/wai.py]:
    the field codec ([_parse_field], [_replace_field]), the document index
    ([_parse_questions_from_report]), the status reconciler inside
    [cmd_apply_evidence], answer recording ([cmd_record_answer]), the identity
    resolver ([_resolve_full_id]) and the tracker sync ([cmd_sync_kanbus]).

    Python [str] values are sequences of Unicode code points; they are modelled
    as lists of code points.  The regular expressions of the program are written
    as patterns of a small backtracking matcher that follows Python's [re]
    (leftmost match, greedy repetition, MULTILINE anchors). *)

From Stdlib Require Import List NArith Arith Bool Lia Ascii Sorted.
From Stdlib Require String.
Import String.StringSyntax.
Import ListNotations.

(** ** Python strings *)

(** A character: a Unicode code point. *)
Definition char := N.
(** A Python [str]. *)
Definition str := list char.

(** An ASCII literal as a Python string. *)
Definition lit (s : String.string) : str :=
  map N_of_ascii (String.list_ascii_of_string s).

(** The characters that the program names. *)
Definition NL : char := 10%N.
Definition BACKSLASH : char := 92%N.
Definition COLON : char := 58%N.
Definition NBSP : char := 160%N.            (* " " *)
Definition A_CIRCUMFLEX : char := 194%N.    (* "Â" *)

(** [join sep parts] is [sep.join(parts)]. *)
Fixpoint join (sep : str) (parts : list str) : str :=
  match parts with
  | [] => []
  | [p] => p
  | p :: ps => p ++ sep ++ join sep ps
  end.

(** A text given line by line: the lines joined by a line feed. *)
Definition text (ls : list String.string) : str := join [NL] (map lit ls).

(** [a == b] on strings. *)
Fixpoint eqb_str (a b : str) : bool :=
  match a, b with
  | [], [] => true
  | x :: a', y :: b' => N.eqb x y && eqb_str a' b'
  | _, _ => false
  end.

(** Truth value of a string: [if s:] holds for a non-empty string. *)
Definition truthy (s : str) : bool :=
  match s with [] => false | _ :: _ => true end.

(** [startswith s p] is [s.startswith(p)]. *)
Fixpoint startswith (s p : str) {struct p} : bool :=
  match p with
  | [] => true
  | x :: p' =>
      match s with
      | [] => false
      | y :: s' => N.eqb x y && startswith s' p'
      end
  end.

(** [Py_UNICODE_ISSPACE]: the class behind [str.strip()] and the [\s] of [re]. *)
Definition is_space (c : char) : bool :=
  ((9 <=? c) && (c <=? 13) || (28 <=? c) && (c <=? 32)
   || (c =? 133) || (c =? 160) || (c =? 5760)
   || (8192 <=? c) && (c <=? 8202)
   || (c =? 8232) || (c =? 8233) || (c =? 8239) || (c =? 8287)
   || (c =? 12288))%N.

(** The line boundaries of [str.splitlines()]. *)
Definition is_linebreak (c : char) : bool :=
  ((10 <=? c) && (c <=? 13) || (28 <=? c) && (c <=? 30)
   || (c =? 133) || (c =? 8232) || (c =? 8233))%N.

(** [lstrip s] is [s.lstrip()], [rstrip s] is [s.rstrip()]. *)
Fixpoint lstrip (s : str) : str :=
  match s with
  | c :: t => if is_space c then lstrip t else s
  | [] => []
  end.

(** [s.rstrip()]. *)
Definition rstrip (s : str) : str := rev (lstrip (rev s)).

(** [strip s] is [s.strip()]. *)
Definition strip (s : str) : str := rstrip (lstrip s).

(** [slice s a b] is [s[a:b]] for [0 <= a]. *)
Definition slice (s : str) (a b : nat) : str := firstn (b - a) (skipn a s).

(** The first occurrence of [sub] in [s], counted from [pos]. *)
Fixpoint find_from (sub s : str) (pos : nat) : option nat :=
  if startswith s sub then Some pos
  else match s with
       | [] => None
       | _ :: t => find_from sub t (S pos)
       end.

(** [find s sub start] is [s.find(sub, start)], with [None] for [-1]. *)
Definition find (s sub : str) (start : nat) : option nat :=
  if length s <? start then None else find_from sub (skipn start s) start.

(** [count s c] is [s.count(c)] for a one-character [c]. *)
Definition count (s : str) (c : char) : nat :=
  length (filter (N.eqb c) s).

(** [str.replace] for a non-empty [old]: all occurrences, left to right,
    without overlap.  [skip] counts the characters of a replaced occurrence
    that are still to be passed over. *)
Fixpoint replace_from (old new : str) (skip : nat) (s : str) : str :=
  match s with
  | [] => []
  | c :: t =>
      match skip with
      | S k => replace_from old new k t
      | O =>
          if startswith s old
          then new ++ replace_from old new (length old - 1) t
          else c :: replace_from old new 0 t
      end
  end.

(** [replace s old new] is [s.replace(old, new)]; an empty [old] matches
    before every character and at the end. *)
Definition replace (s old new : str) : str :=
  match old with
  | [] => new ++ flat_map (fun c => c :: new) s
  | _ :: _ => replace_from old new 0 s
  end.

(** The text up to the first line boundary. *)
Fixpoint first_line (s : str) : str :=
  match s with
  | [] => []
  | c :: t => if is_linebreak c then [] else c :: first_line t
  end.

(** [splitlines_first s] is [s.splitlines()[0]]; an empty string has no line. *)
Definition splitlines_first (s : str) : option str :=
  match s with
  | [] => None
  | _ :: _ => Some (first_line s)
  end.

(** [split_once s sep] is [s.split(sep, 1)] when [sep] occurs in [s]: the text
    before the first occurrence and the text after it. *)
Fixpoint split_once (s sep : str) : option (str * str) :=
  if startswith s sep then Some ([], skipn (length sep) s)
  else match s with
       | [] => None
       | c :: t =>
           match split_once t sep with
           | Some (a, b) => Some (c :: a, b)
           | None => None
           end
       end.

(** Lexicographic order on code points: [a <= b] on Python strings. *)
Fixpoint leb_str (a b : str) : bool :=
  match a, b with
  | [], _ => true
  | _ :: _, [] => false
  | x :: a', y :: b' => (x <? y)%N || (N.eqb x y && leb_str a' b')
  end.

(** ** Exceptions *)

(** The exceptions that the modelled code raises. *)
Inductive exn :=
| WAIError (msg : str)
| ReError            (* re.error: a bad replacement template *)
| GroupNameError     (* re.error or IndexError: a [\g<name>] with no such group *)
| ValueError         (* unpacking a [split] that found no separator *)
| IndexError
| KeyError.

(** The outcome of a call: a value, or an exception. *)
Inductive result (A : Type) :=
| Ok (a : A)
| Raise (e : exn).
Arguments Ok {A} a.
Arguments Raise {A} e.

(** A computation that returns a value or raises. *)
Definition bind {A B} (r : result A) (f : A -> result B) : result B :=
  match r with
  | Ok a => f a
  | Raise e => Raise e
  end.

Notation "x <- r ;; k" := (bind r (fun x => k))
  (at level 61, r at next level, right associativity).

(** A loop that collects results and stops at the first exception. *)
Fixpoint mapM {A B} (f : A -> result B) (l : list A) : result (list B) :=
  match l with
  | [] => Ok []
  | a :: t => b <- f a ;; bs <- mapM f t ;; Ok (b :: bs)
  end.


(** ** Regular expressions

    The patterns of the program are sequences of anchors, single-character
    classes and greedy repetitions of a class, with capture groups.  [Bol] and
    [Eol] are [^] and [$] under [re.MULTILINE], the only mode in which the
    program uses them. *)

(** The atoms of a pattern. *)
Inductive atom :=
| Bol                          (* ^ *)
| Eol                          (* $ *)
| One (p : char -> bool)       (* one character of a class *)
| Star (p : char -> bool)      (* greedy [*] over a class *)
| Open                         (* ( *)
| Close.                       (* ) *)

(** A pattern: its atoms in sequence. *)
Definition pattern := list atom.

(** [p+] is [pp*]. *)
Definition plus (p : char -> bool) : pattern := [One p; Star p].

(** A literal text, as [re.escape] makes it. *)
Definition lits (s : str) : pattern := map (fun c => One (N.eqb c)) s.

(** The classes of the patterns: [.], [[^:]] and [[ \t]]. *)
Definition dot (c : char) : bool := negb (N.eqb c NL).                (* .      *)
Definition not_colon (c : char) : bool := negb (N.eqb c COLON).       (* [^:]   *)
Definition space_or_tab (c : char) : bool := N.eqb c 32 || N.eqb c 9. (* [ \t]  *)

(** [^] holds at the start of the text and after a line feed; [$] holds at
    the end of the text and before a line feed. *)
Definition at_bol (prev : option char) : bool :=
  match prev with
  | None => true
  | Some c => N.eqb c NL
  end.

(** [$] at the head of [s]. *)
Definition at_eol (s : str) : bool :=
  match s with
  | [] => true
  | c :: _ => N.eqb c NL
  end.

(** [match_here pat opens caps prev s] matches [pat] at the head of [s], the
    character before it being [prev].  A repetition first tries to take one
    more character and falls back to the rest of the pattern, which is the
    order of a backtracking matcher.  The result is the text left after the
    match and the captured groups in order. *)
Fixpoint match_here (pat : pattern) (opens caps : list str)
    (prev : option char) (s : str) {struct pat} : option (str * list str) :=
  match pat with
  | [] => Some (s, caps)
  | Bol :: r => if at_bol prev then match_here r opens caps prev s else None
  | Eol :: r => if at_eol s then match_here r opens caps prev s else None
  | One p :: r =>
      match s with
      | c :: t => if p c then match_here r opens caps (Some c) t else None
      | [] => None
      end
  | Star p :: r =>
      (fix star (prev : option char) (s : str) {struct s} :=
         match s with
         | c :: t =>
             if p c then
               match star (Some c) t with
               | Some x => Some x
               | None => match_here r opens caps prev s
               end
             else match_here r opens caps prev s
         | [] => match_here r opens caps prev s
         end) prev s
  | Open :: r => match_here r (s :: opens) caps prev s
  | Close :: r =>
      match opens with
      | o :: os =>
          match_here r os (caps ++ [firstn (length o - length s) o]) prev s
      | [] => None
      end
  end.

(** A match: where it starts, how long it is, its groups. *)
Record rmatch := { m_start : nat; m_len : nat; m_groups : list str }.

(** [m.end()]. *)
Definition m_end (m : rmatch) : nat := m_start m + m_len m.

(** The match of [pat] at position [pos], where the text [s] starts. *)
Definition match_at (pat : pattern) (prev : option char) (s : str) (pos : nat)
  : option rmatch :=
  match match_here pat [] [] prev s with
  | Some (rest, caps) =>
      Some {| m_start := pos; m_len := length s - length rest; m_groups := caps |}
  | None => None
  end.

(** [re.search]: the leftmost match. *)
Fixpoint search_from (pat : pattern) (prev : option char) (s : str) (pos : nat)
  : option rmatch :=
  match match_at pat prev s pos with
  | Some m => Some m
  | None =>
      match s with
      | [] => None
      | c :: t => search_from pat (Some c) t (S pos)
      end
  end.

(** [re.search(pat, s)]. *)
Definition re_search (pat : pattern) (s : str) : option rmatch :=
  search_from pat None s 0.

(** [re.finditer]: the successive matches.  [skip] counts the characters of
    the last match still to be passed over.  No pattern of the program matches
    the empty string, so the rule of [re] for empty matches is not needed. *)
Fixpoint finditer_from (pat : pattern) (skip : nat) (prev : option char)
    (s : str) (pos : nat) : list rmatch :=
  match skip with
  | S k =>
      match s with
      | [] => []
      | c :: t => finditer_from pat k (Some c) t (S pos)
      end
  | O =>
      match match_at pat prev s pos with
      | Some m =>
          m :: match s with
               | [] => []
               | c :: t => finditer_from pat (m_len m - 1) (Some c) t (S pos)
               end
      | None =>
          match s with
          | [] => []
          | c :: t => finditer_from pat 0 (Some c) t (S pos)
          end
      end
  end.

(** [re.finditer(pat, s)]. *)
Definition re_finditer (pat : pattern) (s : str) : list rmatch :=
  finditer_from pat 0 None s 0.

(** *** Replacement templates

    [re.sub] reads a replacement string as a template: a backslash introduces
    an escape or a group reference.  The reading follows
    [re._parser.parse_template] of CPython 3.12, where a group name that is not
    a plain decimal number is an error; the releases before it accept a few
    more spellings of a number, with a warning. *)

(** A compiled template: literal characters and group references. *)
Inductive titem :=
| TChar (c : char)
| TGroup (n : nat).

(** [DIGITS], [OCTDIGITS] and [ASCIILETTERS] of [re._parser]. *)
Definition is_digit (c : char) : bool := ((48 <=? c) && (c <=? 57))%N.
Definition is_octdigit (c : char) : bool := ((48 <=? c) && (c <=? 55))%N.
Definition is_ascii_letter (c : char) : bool :=
  ((65 <=? c) && (c <=? 90) || (97 <=? c) && (c <=? 122))%N.

(** [int(ds, base)] for a text of digits. *)
Definition int_of (base : N) (ds : str) : N :=
  fold_left (fun acc d => acc * base + (d - 48))%N ds 0%N.

(** [ESCAPES] of [re._parser]: a, b, f, n, r, t, v and the backslash. *)
Definition escape_char (c : char) : option char :=
  if (c =? 97)%N then Some 7%N
  else if (c =? 98)%N then Some 8%N
  else if (c =? 102)%N then Some 12%N
  else if (c =? 110)%N then Some 10%N
  else if (c =? 114)%N then Some 13%N
  else if (c =? 116)%N then Some 9%N
  else if (c =? 118)%N then Some 11%N
  else if (c =? BACKSLASH)%N then Some BACKSLASH
  else None.

(** The text before the first [stop], if [stop] occurs. *)
Fixpoint getuntil (stop : char) (s : str) : option str :=
  match s with
  | [] => None
  | c :: t =>
      if N.eqb c stop then Some []
      else match getuntil stop t with
           | Some n => Some (c :: n)
           | None => None
           end
  end.

(** At most [n] leading characters of class [p]. *)
Fixpoint take_while (p : char -> bool) (n : nat) (s : str) : str :=
  match n, s with
  | S k, c :: t => if p c then c :: take_while p k t else []
  | _, _ => []
  end.

(** [parse_template_from groups skip s]: the template [s] for a pattern with
    [groups] capture groups; [skip] counts the characters of the last escape
    still to be passed over. *)
Fixpoint parse_template_from (groups : nat) (skip : nat) (s : str)
  : result (list titem) :=
  match s with
  | [] => Ok []
  | c :: t =>
      match skip with
      | S k => parse_template_from groups k t
      | O =>
          if negb (N.eqb c BACKSLASH) then
            rest <- parse_template_from groups 0 t ;; Ok (TChar c :: rest)
          else
            let group (ds : str) :=
              if (N.of_nat groups <? int_of 10 ds)%N then Raise ReError
              else rest <- parse_template_from groups (length ds) t ;;
                   Ok (TGroup (N.to_nat (int_of 10 ds)) :: rest) in
            match t with
            | [] => Raise ReError                      (* bad escape (end of pattern) *)
            | e :: u =>
                if N.eqb e 103 then                    (* \g<number> *)
                  match u with
                  | [] => Raise ReError                (* missing < *)
                  | lt :: v =>
                      if negb (N.eqb lt 60) then Raise ReError
                      else
                        match getuntil 62%N v with
                        | None => Raise ReError        (* missing > *)
                        | Some [] => Raise ReError     (* missing group name *)
                        | Some name =>
                            if negb (forallb is_digit name) then Raise GroupNameError
                            else if (N.of_nat groups <? int_of 10 name)%N
                            then Raise ReError         (* invalid group reference *)
                            else
                              rest <- parse_template_from groups (length name + 3) t ;;
                              Ok (TGroup (N.to_nat (int_of 10 name)) :: rest)
                        end
                  end
                else if N.eqb e 48 then                (* \0, \0d, \0dd: octal *)
                  let ds := take_while is_octdigit 2 u in
                  rest <- parse_template_from groups (1 + length ds) t ;;
                  Ok (TChar (N.land (int_of 8 ds) 255) :: rest)
                else if is_digit e then
                  match u with
                  | d2 :: w =>
                      if is_digit d2 then
                        match w with
                        | d3 :: _ =>
                            if is_octdigit e && is_octdigit d2 && is_octdigit d3
                            then
                              if (255 <? int_of 8 [e; d2; d3])%N then Raise ReError
                              else
                                rest <- parse_template_from groups 3 t ;;
                                Ok (TChar (int_of 8 [e; d2; d3]) :: rest)
                            else group [e; d2]
                        | [] => group [e; d2]
                        end
                      else group [e]
                  | [] => group [e]
                  end
                else
                  match escape_char e with
                  | Some x =>
                      rest <- parse_template_from groups 1 t ;; Ok (TChar x :: rest)
                  | None =>
                      if is_ascii_letter e then Raise ReError   (* bad escape *)
                      else
                        rest <- parse_template_from groups 1 t ;;
                        Ok (TChar c :: TChar e :: rest)
                  end
            end
      end
  end.

(** The compiled template of [repl], or the error of [re]. *)
Definition parse_template (groups : nat) (repl : str) : result (list titem) :=
  parse_template_from groups 0 repl.

(** The replacement text of one match. *)
Definition expand (tpl : list titem) (whole : str) (caps : list str) : str :=
  flat_map (fun i =>
              match i with
              | TChar c => [c]
              | TGroup O => whole
              | TGroup (S n) => nth n caps []
              end) tpl.

(** The scan of [re.sub]: every match, left to right, gives way to the
    expanded template. *)
Fixpoint sub_from (pat : pattern) (tpl : list titem) (skip : nat)
    (prev : option char) (s : str) : str :=
  match skip with
  | S k =>
      match s with
      | [] => []
      | c :: t => sub_from pat tpl k (Some c) t
      end
  | O =>
      match match_at pat prev s 0 with
      | Some m =>
          expand tpl (firstn (m_len m) s) (m_groups m)
          ++ match s with
             | [] => []
             | c :: t =>
                 (if m_len m =? 0 then [c] else [])
                 ++ sub_from pat tpl (m_len m - 1) (Some c) t
             end
      | None =>
          match s with
          | [] => []
          | c :: t => c :: sub_from pat tpl 0 (Some c) t
          end
      end
  end.

(** [re_sub pat groups repl s] is [re.sub(pat, repl, s)] for a pattern with
    [groups] capture groups: the template is compiled before the scan, so a
    bad template raises whether or not the pattern matches. *)
Definition re_sub (pat : pattern) (groups : nat) (repl s : str) : result str :=
  tpl <- parse_template groups repl ;;
  Ok (sub_from pat tpl 0 None s).

(** [re.sub] with a replacement that holds no backslash, which [re] uses as
    it stands. *)
Definition re_sub_lit (pat : pattern) (repl s : str) : str :=
  sub_from pat (map TChar repl) 0 None s.

(** ** The program *)

Local Open Scope string_scope.

(** The constants [PILLARS], [STATUS_VALUES] and [CONFIDENCE_VALUES] (lines 17-52). *)
Definition PILLARS : list str :=
  [ lit "operational-excellence"; lit "security"; lit "reliability";
    lit "performance-efficiency"; lit "cost-optimization"; lit "sustainability" ].

Definition STATUS_VALUES : list str :=
  [ lit "unanswered"; lit "partial"; lit "answered"; lit "needs_human" ].

Definition CONFIDENCE_VALUES : list str :=
  [ lit "low"; lit "medium"; lit "high"; lit "n/a" ].

(** [x in values] for a set of strings. *)
Definition mem (x : str) (values : list str) : bool := existsb (eqb_str x) values.

(** *** The patterns of the program *)

(** The record heading: [^## ], the group [id] = [[^:]+], [: ], the group
    [title] = [.*], [$]. *)
Definition heading_re : pattern :=
  [Bol] ++ lits (lit "## ") ++ [Open] ++ plus not_colon ++ [Close]
  ++ lits (lit ": ") ++ [Open; Star dot; Close; Eol].

(** The field line read by [_parse_field]: [^], the escaped field name, [:],
    [[ \t]*], the group [.*], [$]. *)
Definition parse_field_re (field : str) : pattern :=
  [Bol] ++ lits field
  ++ [One (N.eqb COLON); Star space_or_tab; Open; Star dot; Close; Eol].

(** The field line rewritten by [_replace_field]: [^], the escaped field name,
    [:.*$]. *)
Definition replace_field_re (field : str) : pattern :=
  [Bol] ++ lits field ++ [One (N.eqb COLON); Star dot; Eol].

(** The heading line rewritten by [cmd_apply_evidence]: [^##\s+[^:]+:.*$]. *)
Definition heading_line_re : pattern :=
  [Bol] ++ lits (lit "##") ++ plus is_space ++ plus not_colon
  ++ [One (N.eqb COLON); Star dot; Eol].

(** The heading separator: [^##\s+], the group [[^:]+], [:\s+]. *)
Definition heading_sep_re : pattern :=
  [Bol] ++ lits (lit "##") ++ plus is_space ++ [Open] ++ plus not_colon
  ++ [Close; One (N.eqb COLON)] ++ plus is_space.

(** [\s+] *)
Definition spaces_re : pattern := plus is_space.

(** *** Text helpers *)

(** [_normalize_text] (lines 95-98). *)
Definition _normalize_text (t : str) : str :=
  let t := replace t [NBSP] (lit " ") in
  let t := replace t [A_CIRCUMFLEX] (lit " ") in
  strip (re_sub_lit spaces_re (lit " ") t).

(** [_short_title] (lines 138-142). *)
Definition _short_title (question : str) : str :=
  let title := strip question in
  if 80 <? length title then rstrip (firstn 77 title) ++ lit "..." else title.

(** *** Field codec *)

(** [_parse_field] (lines 377-381). *)
Definition _parse_field (block field : str) : str :=
  match re_search (parse_field_re field) block with
  | None => []
  | Some m => strip (nth 0 (m_groups m) [])
  end.

(** [_replace_field] (lines 384-389): the replacement is built from the field
    name and the value and handed to [pattern.sub] as a template. *)
Definition _replace_field (block field value : str) : result str :=
  let pat := replace_field_re field in
  let repl := field ++ lit ": " ++ value in
  match re_search pat block with
  | Some _ => re_sub pat 0 repl block
  | None => Ok block
  end.

(** *** Document index *)

(** The dictionary that [_parse_question_block] returns. *)
Record entry := {
  entry_id : str;
  entry_title : str;
  entry_question : str;
  entry_status : str;
  entry_confidence : str;
  entry_kanbus : str;
  entry_block : str
}.

(** [_parse_question_block] (lines 392-404): the heading is the first line of
    the block; the unpacking of the split raises when it has no separator. *)
Definition _parse_question_block (block : str) : result entry :=
  match splitlines_first block with
  | None => Raise IndexError
  | Some header =>
      match split_once (skipn 3 header) (lit ": ") with
      | None => Raise ValueError
      | Some (qid, title) =>
          Ok {| entry_id := strip qid;
                entry_title := strip title;
                entry_question := _parse_field block (lit "Question");
                entry_status := _parse_field block (lit "Status");
                entry_confidence := _parse_field block (lit "Confidence");
                entry_kanbus := _parse_field block (lit "Kanbus Task");
                entry_block := block |}
      end
  end.

(** The span of the record that starts at the match [m]: up to the next
    ["\n## "] after the heading line, or to the end of the document. *)
Definition block_of (content : str) (m : rmatch) : str :=
  let start := m_start m in
  let end_ :=
    match find content (NL :: lit "## ") (m_end m) with
    | Some i => i
    | None => length content
    end in
  slice content start end_.

(** [_parse_questions_from_report] (lines 363-374). *)
Definition _parse_questions_from_report (content : str) : result (list entry) :=
  mapM (fun m => _parse_question_block (block_of content m))
       (re_finditer heading_re content).

(** *** The report files

    The reports of one assessment: the text of [<pillar>.md] for each pillar
    that has a report. *)

(** The report of a pillar, by the name of the pillar. *)
Definition store := str -> option str.

(** [_write_text] on the report of a pillar.  The store holds every text as
    [_read_text] returns it.  A file opened in text mode hands a carriage
    return back as a line feed, and UTF-8 takes no surrogate, so a text is
    read back as it was written only when it holds neither; the statements on
    rewritten reports say where that is so. *)
Definition write (st : store) (pillar content : str) : store :=
  fun p => if eqb_str p pillar then Some content else st p.

(** *** Status reconciler ([cmd_apply_evidence]) *)

(** The start of the prompt that the program writes into Human Questions. *)
Definition PROMPT_PREFIX : str := lit "Please describe how your team addresses:".

(** The inventory of [evidence.json]. *)
Record inventory := {
  languages : list str;
  infra : list str;
  ci : list str
}.

(** The evidence summary (lines 514-522). *)
Definition summary_of (inv : inventory) : str :=
  let bit (name : str) (values : list str) : list str :=
    match values with
    | [] => []
    | _ :: _ => [name ++ lit "=" ++ join (lit ",") values]
    end in
  join (lit ", ")
       (bit (lit "languages") (languages inv)
        ++ bit (lit "infra") (infra inv)
        ++ bit (lit "ci") (ci inv)).

(** The status the loop settles on for a record (lines 534-539): an answer
    makes it [answered]; an [answered] record without an answer is degraded. *)
Definition reconcile_status (status answer_text summary : str) : str :=
  let current_status := if truthy status then status else lit "unanswered" in
  if truthy answer_text then lit "answered"
  else if eqb_str current_status (lit "answered")
       then (if truthy summary then lit "partial" else lit "needs_human")
       else current_status.

(** The loop body up to the rewrite of the Status field (lines 532-548): the
    Evidence field takes the summary, the Status field the reconciled status. *)
Definition apply_status (summary : str) (e : entry) : result str :=
  let block := entry_block e in
  let current_status :=
    reconcile_status (entry_status e) (_parse_field block (lit "Answer")) summary in
  let ev_value := if truthy summary then summary else [] in
  block_new <- _replace_field block (lit "Evidence") ev_value ;;
  block_new <-
    (if eqb_str current_status (lit "answered")
     then _replace_field block_new (lit "Status") (lit "answered")
     else Ok block_new) ;;
  if negb (eqb_str current_status (lit "answered")) then
    if truthy summary
    then _replace_field block_new (lit "Status") (lit "partial")
    else _replace_field block_new (lit "Status") (lit "needs_human")
  else Ok block_new.

(** The rewrite of the Human Questions field (lines 549-556). *)
Definition apply_human_questions (question_text current_status block_new : str)
  : result str :=
  if truthy question_text && negb (eqb_str current_status (lit "answered")) then
    let existing_hq := _parse_field block_new (lit "Human Questions") in
    if negb (truthy existing_hq) || startswith existing_hq PROMPT_PREFIX
    then _replace_field block_new (lit "Human Questions")
                        (PROMPT_PREFIX ++ lit " " ++ question_text)
    else Ok block_new
  else Ok block_new.

(** The normalisation of a heading separator and of stray characters, done on
    every block (lines 566-567) and on the whole document (lines 569-570). *)
Definition tidy (t : str) : result str :=
  t <- re_sub heading_sep_re 1 (lit "## \1: ") t ;;
  Ok (replace (replace t [NBSP] (lit " ")) [A_CIRCUMFLEX] (lit " ")).

(** The rewrite of the Question field and of the heading (lines 557-565). *)
Definition apply_question (question_text : str) (e : entry) (block_new : str)
  : result str :=
  if truthy question_text then
    block_new <- _replace_field block_new (lit "Question") question_text ;;
    let title := _short_title question_text in
    re_sub heading_line_re 0 (lit "## " ++ entry_id e ++ lit ": " ++ title) block_new
  else Ok block_new.

(** One turn of the loop over the entries: the new text of the block. *)
Definition apply_evidence_entry (summary : str) (e : entry) : result str :=
  let block := entry_block e in
  let question_text :=
    _normalize_text
      (if truthy (entry_question e) then entry_question e else entry_title e) in
  let current_status :=
    reconcile_status (entry_status e) (_parse_field block (lit "Answer")) summary in
  block_new <- apply_status summary e ;;
  block_new <- apply_human_questions question_text current_status block_new ;;
  block_new <- apply_question question_text e block_new ;;
  tidy block_new.

(** The loop over the entries (lines 531-568). *)
Fixpoint apply_evidence_entries (summary : str) (entries : list entry)
    (new_content : str) : result str :=
  match entries with
  | [] => Ok new_content
  | e :: rest =>
      block_new <- apply_evidence_entry summary e ;;
      apply_evidence_entries summary rest
        (replace new_content (entry_block e) block_new)
  end.

(** The new text of one report. *)
Definition apply_evidence_report (summary content : str) : result str :=
  entries <- _parse_questions_from_report content ;;
  new_content <- apply_evidence_entries summary entries content ;;
  tidy new_content.

(** The loop over the pillars (lines 524-571): every report that is there is
    written again. *)
Fixpoint apply_evidence_pillars (summary : str) (pillars : list str) (st : store)
  : store * result unit :=
  match pillars with
  | [] => (st, Ok tt)
  | pillar :: rest =>
      match st pillar with
      | None => apply_evidence_pillars summary rest st
      | Some content =>
          match apply_evidence_report summary content with
          | Ok new_content =>
              apply_evidence_pillars summary rest (write st pillar new_content)
          | Raise e => (st, Raise e)
          end
      end
  end.

(** [cmd_apply_evidence]: [evidence] is the inventory of [evidence.json], if
    the file is there. *)
Definition cmd_apply_evidence (evidence : option inventory) (st : store)
  : store * result unit :=
  match evidence with
  | None => (st, Raise (WAIError (lit "evidence.json not found. Run wai scan first.")))
  | Some inv => apply_evidence_pillars (summary_of inv) PILLARS st
  end.

(** *** Answer recording ([cmd_record_answer]) *)

(** The arguments of [record-answer]. *)
Record record_args := {
  question_id : str;
  status : str;
  confidence : str;
  raw_answer : str       (* the text of [answer_file] *)
}.

(** The new text of a block whose record takes the answer (lines 607-612);
    [now] is the reading of the clock. *)
Definition record_block (args : record_args) (answer_text now block : str)
  : result str :=
  block_new <- _replace_field block (lit "Status") (status args) ;;
  block_new <- _replace_field block_new (lit "Confidence") (confidence args) ;;
  block_new <- re_sub (replace_field_re (lit "Answer")) 0
                      (lit "Answer: " ++ answer_text) block_new ;;
  _replace_field block_new (lit "Last Updated") now.

Section RecordAnswer.

(** The clock: [clock n] is the time read by the [n]-th call of [now]. *)
Variable clock : nat -> str.
Variable args : record_args.
Variable answer_text : str.

(** The loop over the entries of one report: the new content, whether a
    record was updated, the number of clock readings. *)
Fixpoint record_entries (entries : list entry) (new_content : str)
    (updated : bool) (tick : nat) : result (str * bool * nat) :=
  match entries with
  | [] => Ok (new_content, updated, tick)
  | e :: rest =>
      if negb (eqb_str (entry_id e) (question_id args))
      then record_entries rest new_content updated tick
      else
        block_new <- record_block args answer_text (clock tick) (entry_block e) ;;
        record_entries rest
          (replace new_content (entry_block e) block_new) true (S tick)
  end.

(** The loop over the pillars; a report is written only if its text changed. *)
Fixpoint record_pillars (pillars : list str) (st : store) (updated : bool)
    (tick : nat) : store * result bool :=
  match pillars with
  | [] => (st, Ok updated)
  | pillar :: rest =>
      match st pillar with
      | None => record_pillars rest st updated tick
      | Some content =>
          match
            entries <- _parse_questions_from_report content ;;
            record_entries entries content updated tick
          with
          | Raise e => (st, Raise e)
          | Ok (new_content, updated', tick') =>
              record_pillars rest
                (if eqb_str new_content content then st
                 else write st pillar new_content)
                updated' tick'
          end
      end
  end.

End RecordAnswer.

(** The error of a question id that no report holds. *)
Definition NOT_FOUND : exn := WAIError (lit "Question ID not found in reports").

(** [cmd_record_answer] (lines 590-619). *)
Definition cmd_record_answer (clock : nat -> str) (args : record_args) (st : store)
  : store * result unit :=
  let answer_text := strip (re_sub_lit spaces_re (lit " ") (raw_answer args)) in
  match record_pillars clock args answer_text PILLARS st false 0 with
  | (st', Ok updated) =>
      if updated then (st', Ok tt) else (st', Raise NOT_FOUND)
  | (st', Raise e) => (st', Raise e)
  end.

(** *** Validation ([cmd_validate]) *)

(** The checks of [cmd_validate] on the entries of one report (lines 682-690). *)
Fixpoint validate_entries (pillar : str) (entries : list entry) (ids : list str)
  : list str :=
  match entries with
  | [] => []
  | e :: rest =>
      (if mem (entry_id e) ids
       then [lit "duplicate question id " ++ entry_id e ++ lit " in " ++ pillar]
       else [])
      ++ (if truthy (entry_status e) && negb (mem (entry_status e) STATUS_VALUES)
          then [lit "invalid status " ++ entry_status e ++ lit " in " ++ entry_id e]
          else [])
      ++ (if truthy (entry_confidence e)
             && negb (mem (entry_confidence e) CONFIDENCE_VALUES)
          then [lit "invalid confidence " ++ entry_confidence e
                ++ lit " in " ++ entry_id e]
          else [])
      ++ validate_entries pillar rest (entry_id e :: ids)
  end.

(** The loop over the pillars (lines 675-690). *)
Fixpoint validate_pillars (pillars : list str) (st : store) : result (list str) :=
  match pillars with
  | [] => Ok []
  | pillar :: rest =>
      match st pillar with
      | None =>
          errors <- validate_pillars rest st ;;
          Ok ((lit "missing pillar report: " ++ pillar) :: errors)
      | Some content =>
          entries <- _parse_questions_from_report content ;;
          errors <- validate_pillars rest st ;;
          Ok (validate_entries pillar entries [] ++ errors)
      end
  end.

(** [cmd_validate]: the errors found; the command exits with failure when
    there are any. *)
Definition cmd_validate (st : store) : result (list str) :=
  validate_pillars PILLARS st.

(** *** The tracker

    The [kanbus] command line is an external process.  Its reply to a command
    may depend on the commands it was given before, so the tracker is a
    function of that history; the history is also the record of what the
    program asked for. *)

(** A command line. *)
Definition command := list str.

(** What a process that was started returns: exit code zero with its output,
    or a failure with its error text.  A command that cannot be started is
    outside this type: [subprocess.run] then raises [FileNotFoundError], which
    is no [WAIError], and the program stops there unless the call is the
    guarded one of the snapshot. *)
Inductive outcome :=
| Exit0 (stdout : str)
| ExitFail (stderr : str).

(** An entity of the snapshot: the keys [id], [title], [parent] and
    [created_at] of its JSON object, each a string where present.  A key that
    holds [null] or a value of another type is outside this record; on such an
    [id] the program raises [AttributeError]. *)
Record issue := {
  issue_id : option str;
  issue_title : option str;
  issue_parent : option str;
  issue_created_at : option str
}.

(** [dict.get(key, default)]. *)
Definition get (field : option str) (default : str) : str :=
  match field with
  | Some v => v
  | None => default
  end.

(** [field == value] for the result of [dict.get]. *)
Definition get_eqb (field : option str) (value : str) : bool :=
  match field with
  | Some v => eqb_str v value
  | None => false
  end.

(** [_is_full_id] (lines 285-286). *)
Definition _is_full_id (issue_id : str) : bool := 5 <=? count issue_id 45%N.

(** The sort key of [_resolve_full_id]: [i.get("created_at") or ""]. *)
Definition created_key (i : issue) : str := get (issue_created_at i) [].

(** [list.sort(key=...)] is stable: an element goes before the first element
    of the sorted rest whose key is not smaller. *)
Fixpoint insert_by (key : issue -> str) (x : issue) (l : list issue) : list issue :=
  match l with
  | [] => [x]
  | y :: t =>
      if leb_str (key x) (key y) then x :: l else y :: insert_by key x t
  end.

(** [l.sort(key=key)]. *)
Definition sort_by (key : issue -> str) (l : list issue) : list issue :=
  fold_right (insert_by key) [] l.

(** The candidates of [_resolve_full_id]: the entities whose identifier starts
    with [short_id], narrowed by the title and by the parent when given. *)
Definition candidates_of (short_id title parent : str) (issues : list issue)
  : list issue :=
  let candidates :=
    filter (fun i => startswith (get (issue_id i) []) short_id) issues in
  let candidates :=
    if truthy title
    then filter (fun i => get_eqb (issue_title i) title) candidates
    else candidates in
  if truthy parent
  then filter (fun i => get_eqb (issue_parent i) parent) candidates
  else candidates.

(** [_resolve_full_id] once the snapshot is at hand: the identifier of the
    last candidate in the order of creation. *)
Definition resolve_in (short_id title parent : str) (issues : list issue)
  : result str :=
  match candidates_of short_id title parent issues with
  | [] => Ok short_id
  | c :: rest =>
      match issue_id (last (sort_by created_key (c :: rest)) c) with
      | Some full => Ok full
      | None => Raise KeyError
      end
  end.

(** [sub in s]. *)
Definition contains (s sub : str) : bool :=
  match find s sub 0 with
  | Some _ => true
  | None => false
  end.

(** [d.get(k)] on the items of a dictionary. *)
Fixpoint lookup (d : list (str * str)) (k : str) : option str :=
  match d with
  | [] => None
  | (k', v) :: t => if eqb_str k' k then Some v else lookup t k
  end.

(** [kanbus-map.json]: the tasks by question id, the epics by pillar. *)
Record kanbus_map := {
  tasks : list (str * str);
  epics : list (str * str)
}.

Section Tracker.

(** The reply of the tracker to a command, given the commands before it. *)
Variable tracker : list command -> command -> outcome.

(** [json.loads(out).get("issues", [])] when that is a list of entities;
    [None] when the call raises.  An output whose [issues] is no list, such as
    [null], is outside both cases: nothing raises there, the program goes on
    without a snapshot at hand, asks for it again at the next identifier that
    is not full, and ends with a [TypeError]. *)
Variable json_issues : str -> option (list issue).

(** A computation that talks to the tracker: from the history so far to the
    history afterwards and a result. *)
Definition io (A : Type) := list command -> list command * result A.

(** Return, sequence, and a computation that does not call the tracker. *)
Definition ret {A} (a : A) : io A := fun h => (h, Ok a).

Definition io_bind {A B} (m : io A) (k : A -> io B) : io B :=
  fun h =>
    match m h with
    | (h', Ok a) => k a h'
    | (h', Raise e) => (h', Raise e)
    end.

Definition lift {A} (r : result A) : io A := fun h => (h, r).

Notation "x <~ m ;; k" := (io_bind m (fun x => k))
  (at level 61, m at next level, right associativity).

(** A [for] loop: it ends at the first exception. *)
Fixpoint for_each {A} (f : A -> io unit) (l : list A) : io unit :=
  match l with
  | [] => ret tt
  | a :: t => _ <~ f a ;; for_each f t
  end.

(** The message of the [WAIError] of a failed command. *)
Definition failure_message (cmd : command) (stderr : str) : str :=
  if truthy (strip stderr) then strip stderr
  else lit "Command failed: " ++ join (lit " ") cmd.

(** [_run] (lines 78-82): the command joins the history; a failure raises
    [WAIError]. *)
Definition _run (cmd : command) : io str :=
  fun h =>
    (h ++ [cmd],
     match tracker h cmd with
     | Exit0 out => Ok out
     | ExitFail err => Raise (WAIError (failure_message cmd err))
     end).

(** The command that fetches the snapshot. *)
Definition SNAPSHOT : command := [lit "kanbus"; lit "console"; lit "snapshot"].

(** [_resolve_full_id] (lines 289-308): [issues] is the snapshot when the caller
    passes one. *)
Definition _resolve_full_id (short_id title parent : str)
    (issues : option (list issue)) : io str :=
  if _is_full_id short_id then ret short_id
  else
    match issues with
    | Some issues => lift (resolve_in short_id title parent issues)
    | None =>
        fun h =>
          match _run SNAPSHOT h with
          | (h', Ok out) =>
              match json_issues out with
              | Some issues => (h', resolve_in short_id title parent issues)
              | None => (h', Ok short_id)
              end
          | (h', Raise _) => (h', Ok short_id)
          end
    end.

(** [_kanbus_comment] (lines 311-312). *)
Definition _kanbus_comment (issue_id text : str) : io unit :=
  _ <~ _run [lit "kanbus"; lit "comment"; issue_id; text] ;; ret tt.

(** [_kanbus_update_status] (lines 315-322). *)
Definition _kanbus_update_status (issue_id status : str) : io unit :=
  fun h =>
    match _run [lit "kanbus"; lit "update"; issue_id; lit "--status"; status] h with
    | (h', Ok _) => (h', Ok tt)
    | (h', Raise (WAIError msg)) =>
        if contains msg (lit "no updates requested") then (h', Ok tt)
        else (h', Raise (WAIError msg))
    | (h', Raise e) => (h', Raise e)
    end.

(** *** Tracker sync ([cmd_sync_kanbus]) *)

Section Sync.

Variable st : store.
Variable kmap : kanbus_map.
Variable issues : list issue.

(** One turn of the loop over the entries (lines 638-651). *)
Definition sync_entry (e : entry) : io unit :=
  match lookup (tasks kmap) (entry_id e) with
  | None => ret tt
  | Some task_id =>
      if negb (truthy task_id) then ret tt
      else
        task_id <~ _resolve_full_id task_id [] [] (Some issues) ;;
        let status := entry_status e in
        let answer := _parse_field (entry_block e) (lit "Answer") in
        _ <~ (if truthy answer
              then _kanbus_comment task_id (lit "Answer:" ++ NL :: answer)
              else ret tt) ;;
        if eqb_str status (lit "answered")
        then _kanbus_update_status task_id (lit "closed")
        else if eqb_str status (lit "needs_human")
             then _kanbus_update_status task_id (lit "blocked")
             else ret tt
  end.

(** One turn of the loop over the pillars (lines 632-651). *)
Definition sync_pillar (pillar : str) : io unit :=
  match st pillar with
  | None => ret tt
  | Some content =>
      entries <~ lift (_parse_questions_from_report content) ;;
      for_each sync_entry entries
  end.

(** Close the epic of a pillar when all its records are answered. *)
Definition sync_epic (item : str * str) : io unit :=
  let (pillar, epic_id) := item in
  epic_id <~ _resolve_full_id epic_id [] [] (Some issues) ;;
  match st pillar with
  | None => ret tt
  | Some content =>
      entries <~ lift (_parse_questions_from_report content) ;;
      let all_closed :=
        forallb (fun e => eqb_str (entry_status e) (lit "answered")) entries in
      if all_closed then _kanbus_update_status epic_id (lit "closed")
      else ret tt
  end.

End Sync.

(** [cmd_sync_kanbus] (lines 622-668): the snapshot is fetched on a best
    effort; then the records of every pillar, then the epics. *)
Definition cmd_sync_kanbus (st : store) (kmap : kanbus_map) : io unit :=
  fun h =>
    let (h', issues) :=
      match _run SNAPSHOT h with
      | (h', Ok out) => (h', match json_issues out with Some l => l | None => [] end)
      | (h', Raise _) => (h', [])
      end in
    (_ <~ for_each (sync_pillar st kmap issues) PILLARS ;;
     for_each (sync_epic st issues) (epics kmap)) h'.

End Tracker.

(** *** Report generation ([_write_reports])

    [cmd_init] writes the reports of an assessment from the cached questions:
    an index and, for every pillar, a header, one block for each question of
    the pillar and a footer. *)

(** The cased letters of ASCII and their other case. *)
Definition is_upper (c : char) : bool := ((65 <=? c) && (c <=? 90))%N.
Definition is_lower (c : char) : bool := ((97 <=? c) && (c <=? 122))%N.
Definition to_upper (c : char) : char := if is_lower c then (c - 32)%N else c.
Definition to_lower (c : char) : char := if is_upper c then (c + 32)%N else c.

(** [str.title()] on ASCII text, which the names of the pillars are: a letter
    that follows a letter is made lower case, any other letter upper case. *)
Fixpoint title_from (previous_is_cased : bool) (s : str) : str :=
  match s with
  | [] => []
  | c :: t =>
      (if previous_is_cased then to_lower c else to_upper c)
      :: title_from (is_upper c || is_lower c) t
  end.

(** [s.title()]. *)
Definition title (s : str) : str := title_from false s.

(** [AWS_WA_BASE] and [PILLAR_URLS] (lines 26-34). *)
Definition AWS_WA_BASE : str :=
  lit "https://docs.aws.amazon.com/wellarchitected/latest/framework".

Definition PILLAR_URLS : list (str * str) :=
  [ (lit "operational-excellence", AWS_WA_BASE ++ lit "/operational-excellence.html");
    (lit "security", AWS_WA_BASE ++ lit "/security.html");
    (lit "reliability", AWS_WA_BASE ++ lit "/reliability.html");
    (lit "performance-efficiency", AWS_WA_BASE ++ lit "/performance-efficiency.html");
    (lit "cost-optimization", AWS_WA_BASE ++ lit "/cost-optimization.html");
    (lit "sustainability", AWS_WA_BASE ++ lit "/sustainability.html") ].

(** [_attribution_block] (lines 214-215): [ATTRIBUTION_TEMPLATE] with the
    source in its one placeholder, at the end. *)
Definition _attribution_block (url : str) : str :=
  lit "AWS Well-Architected Framework (c) Amazon.com, Inc. or its affiliates. "
  ++ lit "Licensed under Creative Commons Attribution-ShareAlike 4.0 International (CC BY-SA 4.0). "
  ++ lit "Source: " ++ url.

(** The display name of a pillar: [pillar.replace('-', ' ').title()]. *)
Definition pillar_title (pillar : str) : str :=
  title (replace pillar (lit "-") (lit " ")).

(** [_pillar_header] (lines 218-222). *)
Definition _pillar_header (pillar url : str) : str :=
  lit "# " ++ pillar_title pillar ++ [NL; NL]
  ++ lit "> Attribution: " ++ _attribution_block url ++ [NL; NL].

(** [_pillar_footer] (lines 225-226). *)
Definition _pillar_footer (url : str) : str :=
  [NL] ++ lit "> Attribution: " ++ _attribution_block url ++ [NL].

(** An entry of the questions cache, as [cmd_fetch] writes it; of its keys the
    reports use [pillar], [question_id] and [question_text]. *)
Record question := {
  q_pillar : str;
  q_question_id : str;
  q_question_text : str
}.

(** [_question_block] (lines 229-243); [now] is the reading of the clock. *)
Definition _question_block (now : str) (q : question) : str :=
  let question_text := _normalize_text (q_question_text q) in
  let title := _short_title question_text in
  lit "## " ++ q_question_id q ++ lit ": " ++ title ++ [NL]
  ++ lit "Question: " ++ question_text ++ [NL]
  ++ lit "Status: unanswered" ++ [NL]
  ++ lit "Confidence: n/a" ++ [NL]
  ++ lit "Answer:" ++ [NL]
  ++ lit "Evidence:" ++ [NL]
  ++ lit "Human Questions:" ++ [NL]
  ++ lit "Kanbus Task: " ++ [NL]
  ++ lit "Last Updated: " ++ now ++ [NL; NL].

(** The text of [index.md] (lines 251-258). *)
Definition index_text (assessment : str) : str :=
  let index_lines :=
    [ lit "# Well-Architected Assessment: " ++ assessment; []; lit "## Pillars" ]
    ++ map (fun pillar =>
              lit "- [" ++ pillar_title pillar ++ lit "](" ++ pillar ++ lit ".md)")
           PILLARS in
  join [NL] index_lines ++ [NL].

Section WriteReports.

(** The clock: [clock n] is the time read by the [n]-th call of [now]. *)
Variable clock : nat -> str.

(** The blocks of the questions of a pillar, in the order of the cache
    (lines 266-268), and the number of clock readings afterwards. *)
Fixpoint question_blocks (pillar : str) (questions : list question) (tick : nat)
  : list str * nat :=
  match questions with
  | [] => ([], tick)
  | q :: rest =>
      if eqb_str (q_pillar q) pillar
      then
        let (blocks, tick') := question_blocks pillar rest (S tick) in
        (_question_block (clock tick) q :: blocks, tick')
      else question_blocks pillar rest tick
  end.

(** The loop over the pillars (lines 262-270). *)
Fixpoint write_pillars (questions : list question) (pillars : list str)
    (st : store) (tick : nat) : store * result unit :=
  match pillars with
  | [] => (st, Ok tt)
  | pillar :: rest =>
      match lookup PILLAR_URLS pillar with
      | None => (st, Raise KeyError)
      | Some url =>
          let header := _pillar_header pillar url in
          let (blocks, tick') := question_blocks pillar questions tick in
          write_pillars questions rest
            (write st pillar (concat ([header] ++ blocks ++ [_pillar_footer url])))
            tick'
      end
  end.

(** [_write_reports] (lines 246-270): the text written to [index.md], and the
    reports of the pillars; [questions] is [cache.get("questions", [])]. *)
Definition _write_reports (questions : list question) (assessment : str)
    (st : store) : str * (store * result unit) :=
  (index_text assessment, write_pillars questions PILLARS st 0).

End WriteReports.

(** *** Tracker identifiers in the reports ([_apply_kanbus_ids]) *)

(** The loop over the entries of one report (lines 415-421). *)
Fixpoint apply_ids_entries (tasks : list (str * str)) (entries : list entry)
    (new_content : str) : result str :=
  match entries with
  | [] => Ok new_content
  | e :: rest =>
      let task_id := get (lookup tasks (entry_id e)) [] in
      if truthy task_id then
        block_new <- _replace_field (entry_block e) (lit "Kanbus Task") task_id ;;
        apply_ids_entries tasks rest (replace new_content (entry_block e) block_new)
      else apply_ids_entries tasks rest new_content
  end.

(** The loop over the pillars (lines 408-423); a report is written only if
    its text changed. *)
Fixpoint apply_ids_pillars (kmap : kanbus_map) (pillars : list str) (st : store)
  : store * result unit :=
  match pillars with
  | [] => (st, Ok tt)
  | pillar :: rest =>
      match st pillar with
      | None => apply_ids_pillars kmap rest st
      | Some content =>
          match
            entries <- _parse_questions_from_report content ;;
            apply_ids_entries (tasks kmap) entries content
          with
          | Raise e => (st, Raise e)
          | Ok new_content =>
              apply_ids_pillars kmap rest
                (if eqb_str new_content content then st
                 else write st pillar new_content)
          end
      end
  end.

(** [_apply_kanbus_ids] (lines 407-423). *)
Definition _apply_kanbus_ids (kmap : kanbus_map) (st : store)
  : store * result unit :=
  apply_ids_pillars kmap PILLARS st.

(** *** Open records ([cmd_list_unanswered]) *)

(** The statuses that [cmd_list_unanswered] lists (line 585). *)
Definition UNANSWERED_VALUES : list str :=
  [ []; lit "unanswered"; lit "needs_human"; lit "partial" ].

(** An item of the list that the command prints. *)
Record listed := {
  listed_pillar : str;
  listed_question_id : str;
  listed_status : str
}.

(** The loop over the pillars (lines 578-586). *)
Fixpoint list_unanswered_pillars (pillars : list str) (st : store)
  : result (list listed) :=
  match pillars with
  | [] => Ok []
  | pillar :: rest =>
      match st pillar with
      | None => list_unanswered_pillars rest st
      | Some content =>
          entries <- _parse_questions_from_report content ;;
          output <- list_unanswered_pillars rest st ;;
          Ok (map (fun e => {| listed_pillar := pillar;
                               listed_question_id := entry_id e;
                               listed_status := entry_status e |})
                  (filter (fun e => mem (entry_status e) UNANSWERED_VALUES) entries)
              ++ output)
      end
  end.

(** [cmd_list_unanswered] (lines 574-587): the list that is printed as JSON. *)
Definition cmd_list_unanswered (st : store) : result (list listed) :=
  list_unanswered_pillars PILLARS st.

(** *** Creating tracker entities ([_create_kanbus_issue]) *)

Section Create.

Variable tracker : list command -> command -> outcome.
Variable json_issues : str -> option (list issue).

(** The class [\w] of [re] on Python strings: the alphanumeric characters of
    Unicode and the underscore. *)
Variable is_word : char -> bool.

(** [[\w-]] *)
Definition word_or_dash (c : char) : bool := is_word c || N.eqb c 45.

(** The identifier in the output of [kanbus create]: [ID: ], then the group
    [kanbus-[\w-]+]. *)
Definition kanbus_id_re : pattern :=
  lits (lit "ID: ") ++ [Open] ++ lits (lit "kanbus-") ++ plus word_or_dash
  ++ [Close].

(** The command line of [_create_kanbus_issue] (lines 274-276). *)
Definition create_command (title issue_type parent : str) : command :=
  [lit "kanbus"; lit "create"; title; lit "--type"; issue_type]
  ++ (if truthy parent then [lit "--parent"; parent] else []).

(** [_create_kanbus_issue] (lines 273-282). *)
Definition _create_kanbus_issue (title issue_type parent : str) : io str :=
  io_bind (_run tracker (create_command title issue_type parent))
    (fun out =>
       match re_search kanbus_id_re out with
       | None => lift (Raise (WAIError (lit "Failed to parse Kanbus ID")))
       | Some m =>
           let short_id := nth 0 (m_groups m) [] in
           _resolve_full_id tracker json_issues short_id title parent None
       end).

End Create.

(** *** Fallback question identifiers ([_qid]) *)

(** [str.upper()] on ASCII text, which the names of the pillars are. *)
Definition upper (s : str) : str := map to_upper s.

(** The decimal digits of a number, most significant first; [fuel] bounds the
    number of digits. *)
Fixpoint digits_from (fuel n : nat) (acc : str) : str :=
  match fuel with
  | O => acc
  | S fuel' =>
      let acc' := (48 + N.of_nat (n mod 10))%N :: acc in
      if n <? 10 then acc' else digits_from fuel' (n / 10) acc'
  end.

(** [str(n)] for a natural number. *)
Definition decimal (n : nat) : str := digits_from (S n) n [].

(** The format [03d]: the decimal digits, filled with zeros on the left to
    three characters. *)
Definition format_03d (n : nat) : str :=
  repeat 48%N (3 - length (decimal n)) ++ decimal n.

(** [_qid] (lines 145-147), for an index that is not negative. *)
Definition _qid (pillar : str) (idx : nat) : str :=
  let prefix := firstn 8 (replace pillar (lit "-") (lit "_")) in
  upper prefix ++ lit "-" ++ format_03d idx.

(** *** Initialising an assessment ([cmd_init]) *)

(** [d[k] = v] on the items of a dictionary: the value of a key that is there
    is replaced where it stands, a new key joins at the end. *)
Fixpoint dict_set (d : list (str * str)) (k v : str) : list (str * str) :=
  match d with
  | [] => [(k, v)]
  | (k', v') :: t =>
      if eqb_str k' k then (k', v) :: t else (k', v') :: dict_set t k v
  end.

(** What [cmd_init] leaves behind: the reports of the pillars, the text of
    [index.md] and the content of [kanbus-map.json] (the initiative and the
    map) where it wrote them, the commands given to the tracker, and its
    result. *)
Record init_outcome := {
  out_reports : store;
  out_index : option str;
  out_map : option (str * kanbus_map);
  out_history : list command;
  out_result : result unit
}.

Section Init.

Variable tracker : list command -> command -> outcome.
Variable json_issues : str -> option (list issue).
Variable is_word : char -> bool.
Variable clock : nat -> str.

(** The title of the task of a question (line 352). *)
Definition task_title (q : question) : str :=
  q_question_id q ++ lit " " ++ _short_title (q_question_text q).

(** The loop over the questions of a pillar (lines 348-354). *)
Fixpoint init_tasks (pillar epic_id : str) (questions : list question)
    (tasks : list (str * str)) : io (list (str * str)) :=
  match questions with
  | [] => ret tasks
  | q :: rest =>
      if eqb_str (q_pillar q) pillar
      then
        io_bind (_create_kanbus_issue tracker json_issues is_word
                   (task_title q) (lit "task") epic_id)
          (fun task_id =>
             init_tasks pillar epic_id rest
                        (dict_set tasks (q_question_id q) task_id))
      else init_tasks pillar epic_id rest tasks
  end.

(** The loop over the pillars (lines 344-354). *)
Fixpoint init_pillars (initiative_id : str) (questions : list question)
    (pillars : list str) (kmap : kanbus_map) : io kanbus_map :=
  match pillars with
  | [] => ret kmap
  | pillar :: rest =>
      io_bind (_create_kanbus_issue tracker json_issues is_word
                 (pillar_title pillar ++ lit " Pillar") (lit "epic") initiative_id)
        (fun epic_id =>
           io_bind (init_tasks pillar epic_id questions (tasks kmap))
             (fun tasks' =>
                init_pillars initiative_id questions rest
                  {| tasks := tasks';
                     epics := dict_set (epics kmap) pillar epic_id |}))
  end.

(** The tracker structure of an assessment (lines 339-354): the initiative,
    then the epics and the tasks. *)
Definition init_structure (assessment : str) (questions : list question)
  : io (str * kanbus_map) :=
  io_bind (_create_kanbus_issue tracker json_issues is_word
             (lit "Well-Architected Assessment: " ++ assessment)
             (lit "initiative") [])
    (fun initiative_id =>
       io_bind (init_pillars initiative_id questions PILLARS
                             {| tasks := []; epics := [] |})
         (fun kmap => ret (initiative_id, kmap))).

(** [cmd_init] (lines 325-360).  [target_exists] tells whether the target
    directory is there; [cache] is the list of questions of the cache file,
    if the file is there; [assessment] is the name of the assessment, given or
    made from the name of the target and the date; [st] holds the reports in
    the directory of the assessment. *)
Definition cmd_init (target_exists : bool) (cache : option (list question))
    (assessment : str) (st : store) (h : list command) : init_outcome :=
  let stop st index e :=
    {| out_reports := st; out_index := index; out_map := None;
       out_history := h; out_result := Raise e |} in
  if negb target_exists
  then stop st None (WAIError (lit "target-dir not found"))
  else
    match cache with
    | None =>
        stop st None (WAIError (lit "Questions cache not found. Run wai fetch first."))
    | Some questions =>
        match _write_reports clock questions assessment st with
        | (index, (st1, Raise e)) => stop st1 (Some index) e
        | (index, (st1, Ok _)) =>
            match init_structure assessment questions h with
            | (h', Raise e) =>
                {| out_reports := st1; out_index := Some index; out_map := None;
                   out_history := h'; out_result := Raise e |}
            | (h', Ok (initiative_id, kmap)) =>
                let (st2, r) := _apply_kanbus_ids kmap st1 in
                {| out_reports := st2; out_index := Some index;
                   out_map := Some (initiative_id, kmap);
                   out_history := h'; out_result := r |}
            end
        end
    end.

End Init.

(** * Vocabulary of the statements *)

(** The character before the position reached after reading [f]. *)
Definition prev_after (prev : option char) (f : str) : option char :=
  fold_left (fun _ c => Some c) f prev.

(** [s] without, and the part of [s] in, its longest prefix of class [p]. *)
Fixpoint span_drop (p : char -> bool) (s : str) : str :=
  match s with
  | c :: t => if p c then span_drop p t else s
  | [] => []
  end.

Fixpoint span_take (p : char -> bool) (s : str) : str :=
  match s with
  | c :: t => if p c then c :: span_take p t else []
  | [] => []
  end.

(** A text with no backslash: as a replacement, [re] takes it as it stands. *)
Definition plain (s : str) : bool := forallb (fun c => negb (N.eqb c BACKSLASH)) s.

(** A text with no line feed. *)
Definition one_line (s : str) : bool := forallb dot s.

(** [lines s] is [s.split("\n")]. *)
Fixpoint lines (s : str) : list str :=
  match s with
  | [] => [[]]
  | c :: t =>
      if N.eqb c NL then [] :: lines t
      else match lines t with
           | l :: ls => (c :: l) :: ls
           | [] => [[c]]
           end
  end.

(** The prefix [<field>:] that marks a field line. *)
Definition field_prefix (field : str) : str := field ++ [COLON].

(** What the scan of [re.sub] makes of a line, for a pattern that matches the
    lines selected by [sel] with the groups [grp]. *)
Definition sub_line (sel : str -> bool) (grp : str -> list str)
    (tpl : list titem) (l : str) : str :=
  if sel l then expand tpl l (grp l) else l.

(** The scan of [re.sub] from a position that is not the start of a line. *)
Definition sub_tail (pat : pattern) (tpl : list titem) (rest : str) : str :=
  match rest with
  | [] => []
  | c :: r => c :: sub_from pat tpl 0 (Some c) r
  end.

(** The groups of the match that [re.search] finds. *)
Definition found (pat : pattern) (prev : option char) (s : str) (pos : nat)
  : option (list str) :=
  option_map m_groups (search_from pat prev s pos).

(** The same from a position that is not the start of a line. *)
Definition found_tail (pat : pattern) (rest : str) (pos : nat)
  : option (list str) :=
  match rest with
  | [] => None
  | c :: r => found pat (Some c) r (S pos)
  end.

(** A line of the field: one that starts with [<field>:]. *)
Definition is_field_line (field l : str) : bool := startswith l (field_prefix field).

(** The line that [_replace_field] writes. *)
Definition field_line (field value : str) : str := field ++ lit ": " ++ value.

(** The line-wise rewrite of a field with a plain value. *)
Definition set_line (field value : str) (l : str) : str :=
  if is_field_line field l then field_line field value else l.

(** Whether the block has a line of the field. *)
Definition has_field (block field : str) : bool :=
  existsb (is_field_line field) (lines block).

(** The text of a field line after the prefix and the blanks that follow it:
    the group of [_parse_field]. *)
Definition field_group (field l : str) : str :=
  span_drop space_or_tab (skipn (length (field_prefix field)) l).

(** The value of a field line: what follows the prefix, stripped. *)
Definition field_value (field l : str) : str :=
  strip (skipn (length (field_prefix field)) l).

(** The number of lines in which two texts of as many lines differ. *)
Definition changed_lines (a b : str) : nat :=
  length (filter (fun p => negb (eqb_str (fst p) (snd p)))
                 (combine (lines a) (lines b))).

(** Two field names neither of whose prefixes starts with the other: no line
    is a line of both. *)
Definition fields_apart (f g : str) : bool :=
  negb (startswith (field_prefix f) (field_prefix g))
  && negb (startswith (field_prefix g) (field_prefix f)).




(** A report with one record as [_question_block] writes it. *)
Definition fresh_report : str :=
  text ["# Security"; String.EmptyString;
        "## SECURITY-001: How do you handle security?";
        "Question: How do you handle security?";
        "Status: unanswered";
        "Confidence: n/a";
        "Answer:";
        "Evidence:";
        "Human Questions:";
        "Kanbus Task: kanbus-test-3";
        "Last Updated: 2026-01-01T00:00:00+00:00";
        String.EmptyString].

(** The reports of an assessment with that one report. *)
Definition one_record_store : store :=
  fun p => if eqb_str p (lit "security") then Some fresh_report else None.

(** The recording of an answer for that record. *)
Definition answered_args : record_args :=
  {| question_id := lit "SECURITY-001"; status := lit "answered";
     confidence := lit "medium"; raw_answer := lit "We do Y" |}.

(** The rewrite of a report in which every record keeps its block. *)
Definition rewrite_unchanged (entries : list entry) (content : str) : str :=
  fold_left (fun new_content e => replace new_content (entry_block e) (entry_block e))
            entries content.

(** A report to which a person has added a section of notes. *)
Definition noted_report : str :=
  text ["# Security"; String.EmptyString;
        "## SECURITY-001: How do you handle security?";
        "Question: How do you handle security?";
        "Status: unanswered";
        "Answer:";
        String.EmptyString;
        "## Notes";
        "Remember: ask Bob about the backups";
        String.EmptyString].

(** The block after the rewrite of a field, line by line. *)
Definition set_field (block field value : str) : str :=
  join [NL] (map (set_line field value) (lines block)).

(** The block that [record_block] returns for plain values. *)
Definition recorded (args : record_args) (answer_text now block : str) : str :=
  set_field
    (set_field
       (set_field (set_field block (lit "Status") (status args))
                  (lit "Confidence") (confidence args))
       (lit "Answer") answer_text)
    (lit "Last Updated") now.

(** A value that a replacement writes as it stands, on one line. *)
Definition simple (v : str) : bool := one_line v && plain v.

(** A text without any line boundary of [str.splitlines]. *)
Definition no_linebreak (s : str) : bool :=
  forallb (fun c => negb (is_linebreak c)) s.

(** A character that a file opened in text mode, in UTF-8, takes and hands
    back as it is: no carriage return, which comes back as a line feed, and no
    surrogate, which UTF-8 does not encode. *)
Definition file_char (c : char) : bool :=
  (negb (c =? 13) && negb ((55296 <=? c) && (c <=? 57343)))%N.

(** A text as a file hands it back, and as a file takes it. *)
Definition storable (s : str) : bool := forallb file_char s.

(** A value that stays within its line, that a replacement writes as it
    stands, and that a file takes: no line boundary, no backslash and no
    surrogate. *)
Definition clean (v : str) : bool := no_linebreak v && plain v && storable v.

(** An answer recorded with a status and a confidence outside the enums. *)
Definition bogus_args : record_args :=
  {| question_id := lit "SECURITY-001"; status := lit "bogus";
     confidence := lit "certain"; raw_answer := lit "We do Y" |}.

(** The records of a list that carry the question id. *)
Definition matching (args : record_args) (entries : list entry) : list entry :=
  filter (fun e => eqb_str (entry_id e) (question_id args)) entries.

(** The report after every record of [matches] has taken the answer, each
    with its own reading of the clock. *)
Fixpoint rewrite_matching (clock : nat -> str) (args : record_args)
    (answer_text : str) (matches : list entry) (new_content : str) (tick : nat)
  : str :=
  match matches with
  | [] => new_content
  | e :: rest =>
      rewrite_matching clock args answer_text rest
        (replace new_content (entry_block e)
                 (recorded args answer_text (clock tick) (entry_block e)))
        (S tick)
  end.

(** The records of the report of a pillar. *)
Definition entries_of (st : store) (pillar : str) : list entry :=
  match st pillar with
  | Some content =>
      match _parse_questions_from_report content with
      | Ok entries => entries
      | Raise _ => []
      end
  | None => []
  end.

(** The number of records, over the reports of [pillars], that carry the
    question id. *)
Definition hits (args : record_args) (st : store) (pillars : list str) : nat :=
  length (flat_map (fun p => matching args (entries_of st p)) pillars).

(** The answer as [cmd_record_answer] writes it. *)
Definition answer_text_of (args : record_args) : str :=
  strip (re_sub_lit spaces_re (lit " ") (raw_answer args)).

(** Every report that is there parses. *)
Definition reports_parse (st : store) (pillars : list str) : Prop :=
  forall p content, In p pillars -> st p = Some content ->
    exists entries, _parse_questions_from_report content = Ok entries.

(** An answer that names a Windows path. *)
Definition path_args : record_args :=
  {| question_id := lit "SECURITY-001"; status := lit "answered";
     confidence := lit "medium";
     raw_answer := lit "Runbooks live in C:\playbooks" |}.


(** An entity of a snapshot with all its keys. *)
Definition snapshot_issue (id_ title parent created : String.string) : issue :=
  {| issue_id := Some (lit id_); issue_title := Some (lit title);
     issue_parent := Some (lit parent); issue_created_at := Some (lit created) |}.

(** A snapshot: three entities under the prefix [kanbus-7f3], one apart. *)
Definition sample_snapshot : list issue :=
  [ snapshot_issue "kanbus-7f3a-11-22-33-44" "SEC-1 How?" "kanbus-e1" "2026-01-01T10:00:00";
    snapshot_issue "kanbus-7f3b-55-66-77-88" "SEC-1 How?" "kanbus-e1" "2026-01-03T10:00:00";
    snapshot_issue "kanbus-7f3c-99-aa-bb-cc" "SEC-1 How?" "kanbus-e1" "2026-01-02T10:00:00";
    snapshot_issue "kanbus-9000-00-00-00-00" "SEC-2 Why?" "kanbus-e1" "2026-01-09T10:00:00" ].


Definition no_json : str -> option (list issue) := fun _ => None.






(** A snapshot whose entities differ in title, parent and time. *)
Definition mixed_snapshot : list issue :=
  [ snapshot_issue "kanbus-7f3a-11-22-33-44" "SEC-1 How?" "kanbus-e1" "2026-01-01T10:00:00";
    snapshot_issue "kanbus-7f3b-55-66-77-88" "SEC-1 How?" "kanbus-e1" "2026-01-03T10:00:00";
    snapshot_issue "kanbus-7f3c-99-aa-bb-cc" "SEC-1 How?" "kanbus-e2" "2026-01-05T10:00:00";
    snapshot_issue "kanbus-7f3d-dd-ee-ff-00" "SEC-9 Else" "kanbus-e1" "2026-01-07T10:00:00";
    snapshot_issue "kanbus-9000-00-00-00-00" "SEC-2 Why?" "kanbus-e1" "2026-01-09T10:00:00" ].

(** A [kanbus update] command. *)
Definition is_update (cmd : command) : bool :=
  eqb_str (nth 1 cmd []) (lit "update").

(** A failure that [_kanbus_update_status] lets pass: an update that the
    tracker turns down with "no updates requested". *)
Definition tolerated (cmd : command) (stderr : str) : bool :=
  is_update cmd
  && contains (failure_message cmd stderr) (lit "no updates requested").

(** The command [cmd], given after the history [h], fails and the failure is
    not let pass. *)
Definition failed (tracker : list command -> command -> outcome)
    (h : list command) (cmd : command) : bool :=
  match tracker h cmd with
  | Exit0 _ => false
  | ExitFail stderr => negb (tolerated cmd stderr)
  end.

(** A computation stops at the first failed command: it only adds commands to
    the history; a failed command is the last one, and the computation raises;
    and a [WAIError] comes from a failed command only. *)
Definition stops_at_failure {A} (tracker : list command -> command -> outcome)
    (m : list command -> list command * result A) : Prop :=
  forall h,
    exists ext,
      fst (m h) = h ++ ext
      /\ (forall h1 c h2,
            ext = h1 ++ c :: h2 -> failed tracker (h ++ h1) c = true ->
            h2 = [] /\ exists msg, snd (m h) = Raise (WAIError msg))
      /\ (forall msg,
            snd (m h) = Raise (WAIError msg) ->
            exists h1 c, ext = h1 ++ [c] /\ failed tracker (h ++ h1) c = true).

(** A report with two records that have answers. *)
Definition two_records : str :=
  text ["## SECURITY-001: How?"; "Status: answered"; "Answer: We do X";
        String.EmptyString;
        "## SECURITY-002: Why?"; "Status: needs_human"; "Answer: because";
        String.EmptyString].

(** The reports and the tracker map of that assessment. *)
Definition two_records_store : store :=
  fun p => if eqb_str p (lit "security") then Some two_records else None.

Definition two_records_map : kanbus_map :=
  {| tasks := [(lit "SECURITY-001", lit "kanbus-1"); (lit "SECURITY-002", lit "kanbus-2")];
     epics := [(lit "security", lit "kanbus-e")] |}.

(** A tracker that is down for every comment on [kanbus-1]. *)
Definition comment_fails : list command -> command -> outcome :=
  fun _ cmd =>
    if eqb_str (nth 1 cmd []) (lit "comment") && eqb_str (nth 2 cmd []) (lit "kanbus-1")
    then ExitFail (lit "connection refused")
    else Exit0 [].

(** [s.rstrip()], from the left: the text up to its last character that is
    not white space. *)
Fixpoint rstrip_rec (s : str) : str :=
  match s with
  | [] => []
  | c :: t =>
      match rstrip_rec t with
      | [] => if is_space c then [] else [c]
      | r => c :: r
      end
  end.

(** What [re.sub] with the pattern of white space and a blank makes of a
    text: every run of white space becomes one blank.  [in_space] tells that
    the character before was white space. *)
Fixpoint squeeze_from (in_space : bool) (s : str) : str :=
  match s with
  | [] => []
  | c :: t =>
      if is_space c
      then (if in_space then [] else [32%N]) ++ squeeze_from true t
      else c :: squeeze_from false t
  end.

(** A text in which white space is single blanks: every white space character
    is a blank, and no blank follows white space. *)
Fixpoint spaced (prev_space : bool) (s : str) : bool :=
  match s with
  | [] => true
  | c :: t =>
      if is_space c then N.eqb c 32 && negb prev_space && spaced true t
      else spaced false t
  end.

(** The normal form that [_normalize_text] returns: white space is single
    blanks, there is none at either end, and no [A_CIRCUMFLEX]. *)
Definition normalized (s : str) : Prop :=
  (forall c, In c s -> is_space c = true -> c = 32%N)
  /\ (forall a b, s <> a ++ [32%N; 32%N] ++ b)
  /\ ~ In A_CIRCUMFLEX s
  /\ strip s = s.

(** The lines after the first of a text: every one with the line feed before
    it. *)
Definition tail_text (ls : list str) : str := flat_map (fun l => NL :: l) ls.

(** A line that starts a record: [## ], an identifier without colon, a colon
    and a blank. *)
Definition is_heading (l : str) : bool :=
  startswith l (lit "## ")
  && match skipn 3 l with
     | c :: t => not_colon c && startswith (span_drop not_colon t) (lit ": ")
     | [] => false
     end.

(** The identifier and the title of a heading line, as the pattern reads
    them. *)
Definition heading_id (l : str) : str := span_take not_colon (skipn 3 l).

Definition heading_title (l : str) : str :=
  skipn 2 (span_drop not_colon (skipn 3 l)).

(** A line that starts with [## ]. *)
Definition is_hash_line (l : str) : bool := startswith l (lit "## ").

(** The text before the first occurrence of [sub]. *)
Fixpoint before (sub s : str) : str :=
  if startswith s sub then []
  else match s with
       | [] => []
       | c :: t => c :: before sub t
       end.

(** The lines of a record after its heading: those before the next line that
    starts with [## ]. *)
Fixpoint take_block (ls : list str) : list str :=
  match ls with
  | [] => []
  | l :: rest => if is_hash_line l then [] else l :: take_block rest
  end.

(** The blocks of the records of a text given by its lines. *)
Fixpoint block_texts (ls : list str) : list str :=
  match ls with
  | [] => []
  | l :: rest =>
      (if is_heading l then [l ++ tail_text (take_block rest)] else [])
      ++ block_texts rest
  end.

(** The scan of [re.finditer] from a position that is not the start of a
    line. *)
Definition finditer_tail (pat : pattern) (rest : str) (pos : nat) : list rmatch :=
  match rest with
  | [] => []
  | c :: r => finditer_from pat 0 (Some c) r (S pos)
  end.

(** A line that starts with [## ] is in order when it holds a colon and has
    no line boundary of [str.splitlines] before its first colon: the pattern
    then reads its identifier within the line, and [_parse_question_block]
    finds the separator in the first line of the block. *)
Definition heading_ok (l : str) : bool :=
  if is_hash_line l
  then truthy (span_drop not_colon (skipn 3 l))
       && forallb (fun c => negb (is_linebreak c)) (heading_id l)
  else true.

(** The record that [_parse_question_block] reads from a block with the
    heading line [l]. *)
Definition entry_of (l block : str) : entry :=
  {| entry_id := strip (heading_id l);
     entry_title := strip (first_line (skipn (3 + length (heading_id l) + 2) block));
     entry_question := _parse_field block (lit "Question");
     entry_status := _parse_field block (lit "Status");
     entry_confidence := _parse_field block (lit "Confidence");
     entry_kanbus := _parse_field block (lit "Kanbus Task");
     entry_block := block |}.

(** The records of a text given by its lines. *)
Fixpoint entries_of_lines (ls : list str) : list entry :=
  match ls with
  | [] => []
  | l :: rest =>
      (if is_heading l then [entry_of l (l ++ tail_text (take_block rest))] else [])
      ++ entries_of_lines rest
  end.

(** A status, or a confidence, that [cmd_validate] lets pass: empty, or one of
    the known values. *)
Definition status_ok (s : str) : Prop := s = [] \/ In s STATUS_VALUES.

Definition confidence_ok (s : str) : Prop := s = [] \/ In s CONFIDENCE_VALUES.

(** A report in which every pillar has the fresh report. *)
Definition all_fresh : store := fun _ => Some fresh_report.

(** A text given by its lines, every line ended by a line feed. *)
Definition unlines (ls : list str) : str := flat_map (fun l => l ++ [NL]) ls.

(** A question identifier that makes a heading: not empty, without colon and
    without line boundary. *)
Definition id_ok (id : str) : bool :=
  truthy id && forallb not_colon id && no_linebreak id.

(** The lines of the block of a question. *)
Definition heading_line (q : question) : str :=
  lit "## " ++ q_question_id q ++ lit ": "
  ++ _short_title (_normalize_text (q_question_text q)).

Definition field_lines (now : str) (q : question) : list str :=
  [ lit "Question: " ++ _normalize_text (q_question_text q);
    lit "Status: unanswered";
    lit "Confidence: n/a";
    lit "Answer:";
    lit "Evidence:";
    lit "Human Questions:";
    lit "Kanbus Task: ";
    lit "Last Updated: " ++ now;
    [] ].

Definition block_lines (now : str) (q : question) : list str :=
  heading_line q :: field_lines now q.

(** The lines of the header and of the footer of a report. *)
Definition header_lines (pillar url : str) : list str :=
  [ lit "# " ++ pillar_title pillar; [];
    lit "> Attribution: " ++ _attribution_block url; [] ].

Definition footer_lines (url : str) : list str :=
  [ []; lit "> Attribution: " ++ _attribution_block url ].

(** The questions of a pillar, each with the time that its block takes from
    the clock. *)
Fixpoint stamped (clock : nat -> str) (pillar : str) (questions : list question)
    (tick : nat) : list (str * question) :=
  match questions with
  | [] => []
  | q :: rest =>
      if eqb_str (q_pillar q) pillar
      then (clock tick, q) :: stamped clock pillar rest (S tick)
      else stamped clock pillar rest tick
  end.

(** The questions of a pillar. *)
Definition questions_of (pillar : str) (questions : list question) : list question :=
  filter (fun q => eqb_str (q_pillar q) pillar) questions.

(** The lines of the report of a pillar. *)
Definition report_lines (pillar url : str) (blocks : list (str * question))
  : list str :=
  header_lines pillar url
  ++ flat_map (fun nq => block_lines (fst nq) (snd nq)) blocks
  ++ footer_lines url.

(** The text of the report of a pillar, written at the time [tick]. *)
Definition report_text (clock : nat -> str) (questions : list question)
    (pillar : str) (tick : nat) : str :=
  let url := get (lookup PILLAR_URLS pillar) [] in
  concat ([_pillar_header pillar url]
          ++ fst (question_blocks clock pillar questions tick)
          ++ [_pillar_footer url]).

(** What a fresh record reads as. *)
Definition fresh_record (e : entry) (q : question) : Prop :=
  entry_id e = strip (q_question_id q)
  /\ entry_title e = _short_title (_normalize_text (q_question_text q))
  /\ entry_question e = _normalize_text (q_question_text q)
  /\ entry_status e = lit "unanswered"
  /\ entry_confidence e = lit "n/a"
  /\ entry_kanbus e = [].

(** A cache of two questions, and a clock that stands still. *)
Definition two_questions : list question :=
  [ {| q_pillar := lit "security"; q_question_id := lit "SEC-1";
       q_question_text := lit "How do you  manage identities?" |};
    {| q_pillar := lit "reliability"; q_question_id := lit "REL-1";
       q_question_text := lit "How do you plan for failure?" |} ].

Definition still_clock : nat -> str := fun _ => lit "2026-01-01T00:00:00+00:00".

(** A line of one of the fields. *)
Definition touches (fields : list str) (l : str) : bool :=
  existsb (fun f => is_field_line f l) fields.

(** Two lines that are the same, or both lines of one of the fields. *)
Definition same_or_touched (fields : list str) (x y : str) : Prop :=
  x = y \/ (touches fields x = true /\ touches fields y = true).

(** Two texts of as many lines that differ in lines of the fields only. *)
Definition only_lines_of (fields : list str) (a b : str) : Prop :=
  Forall2 (same_or_touched fields) (lines a) (lines b).

(** Two sets of reports: the same reports are there, and each differs in
    lines of the fields only. *)
Definition stores_differ_in (fields : list str) (st st' : store) : Prop :=
  forall p,
    match st p, st' p with
    | None, None => True
    | Some c, Some c' => only_lines_of fields c c'
    | _, _ => False
    end.

(** The lines of two texts put end to end: the last line of the first text
    and the first line of the second make one line. *)
Fixpoint glue (la ly : list str) : list str :=
  match la with
  | [] => ly
  | l :: la' =>
      match la' with
      | [] => (l ++ hd [] ly) :: tl ly
      | _ :: _ => l :: glue la' ly
      end
  end.

(** Two texts that differ in lines of the fields only, and not in the first
    line. *)
Definition akin (fields : list str) (a b : str) : Prop :=
  only_lines_of fields a b /\ hd [] (lines a) = hd [] (lines b).

(** The fields that [cmd_record_answer] writes. *)
Definition RECORD_FIELDS : list str :=
  [ lit "Status"; lit "Confidence"; lit "Answer"; lit "Last Updated" ].

(** A tracker map for the fresh report. *)
Definition one_task_map : kanbus_map :=
  {| tasks := [(lit "SECURITY-001", lit "kanbus-7f3a9c")]; epics := [] |}.

(** The prefix of every identifier that [_create_kanbus_issue] accepts. *)
Definition KANBUS_PREFIX : str := lit "kanbus-".

(** The snapshot command. *)
Definition is_snapshot (cmd : command) : bool :=
  match cmd with
  | [k; a; b] =>
      eqb_str k (lit "kanbus") && eqb_str a (lit "console")
      && eqb_str b (lit "snapshot")
  | _ => false
  end.

(** A command that the sync gives after the snapshot: a comment that starts
    with [Answer:] and a line feed, or an update of the status to [closed] or
    [blocked]. *)
Definition sync_command (cmd : command) : bool :=
  match cmd with
  | [k; verb; _; text] =>
      eqb_str k (lit "kanbus") && eqb_str verb (lit "comment")
      && startswith text (lit "Answer:" ++ [NL])
  | [k; verb; _; flag; status] =>
      eqb_str k (lit "kanbus") && eqb_str verb (lit "update")
      && eqb_str flag (lit "--status")
      && (eqb_str status (lit "closed") || eqb_str status (lit "blocked"))
  | _ => false
  end.

(** A computation that only adds commands of a kind to the history. *)
Definition emits {A} (P : command -> bool)
    (m : list command -> list command * result A) : Prop :=
  forall h, exists ext, fst (m h) = h ++ ext /\ forallb P ext = true.

(** A block with two lines of the field Status. *)
Definition twice_block : str :=
  text ["## A-1: How?"; "Status:   partial  "; "Answer:"; "Status: answered"].




Definition python_inventory : inventory :=
  {| languages := [lit ".py"]; infra := []; ci := [lit "github-actions"] |}.


(** The part of a fallback identifier that names the pillar. *)
Definition qid_prefix (pillar : str) : str :=
  upper (firstn 8 (replace pillar (lit "-") (lit "_"))).

(** A [kanbus create] command. *)
Definition is_create (cmd : command) : bool :=
  match cmd with
  | k :: verb :: _ => eqb_str k (lit "kanbus") && eqb_str verb (lit "create")
  | _ => false
  end.

(** The commands of a history other than the snapshots. *)
Definition creates (ext : list command) : list command :=
  filter (fun cmd => negb (is_snapshot cmd)) ext.

(** The names of the epics of the pillars, in the order of the pillars. *)
Definition PILLAR_EPICS : list (str * str) :=
  [ (lit "operational-excellence", lit "Operational Excellence Pillar");
    (lit "security", lit "Security Pillar");
    (lit "reliability", lit "Reliability Pillar");
    (lit "performance-efficiency", lit "Performance Efficiency Pillar");
    (lit "cost-optimization", lit "Cost Optimization Pillar");
    (lit "sustainability", lit "Sustainability Pillar") ].

(** The command line that creates an entity under a parent. *)
Definition create_under (parent title issue_type : str) : command :=
  [ lit "kanbus"; lit "create"; title; lit "--type"; issue_type;
    lit "--parent"; parent ].

(** The identifier of the epic of a pillar in a map. *)
Definition epic_of (kmap : kanbus_map) (pillar : str) : str :=
  match lookup (epics kmap) pillar with Some id => id | None => [] end.

(** The create commands of an assessment: the initiative, without parent;
    then for every pillar its epic under the initiative, and under the epic a
    task for every question of the pillar, in the order of the cache, named
    by the identifier of the question, a blank and the short title of its
    text. *)
Definition init_creates (assessment : str) (questions : list question)
    (initiative_id : str) (kmap : kanbus_map) : list command :=
  [ lit "kanbus"; lit "create"; lit "Well-Architected Assessment: " ++ assessment;
    lit "--type"; lit "initiative" ]
  :: flat_map
       (fun named : str * str =>
          create_under initiative_id (snd named) (lit "epic")
          :: map (fun q =>
                    create_under (epic_of kmap (fst named))
                      (q_question_id q ++ lit " " ++ _short_title (q_question_text q))
                      (lit "task"))
                 (questions_of (fst named) questions))
       PILLAR_EPICS.

(** The same commands as the calls of [_create_kanbus_issue] make them. *)
Definition init_creates_run (assessment : str) (questions : list question)
    (initiative_id : str) (kmap : kanbus_map) : list command :=
  create_command (lit "Well-Architected Assessment: " ++ assessment)
                 (lit "initiative") []
  :: flat_map
       (fun pillar =>
          let epic_id := get (lookup (epics kmap) pillar) [] in
          create_command (pillar_title pillar ++ lit " Pillar") (lit "epic")
                         initiative_id
          :: map (fun q => create_command (task_title q) (lit "task") epic_id)
                 (questions_of pillar questions))
       PILLARS.

(** No occurrence of [old] starts in the line [L], which a line feed and [R]
    follow. *)
Definition line_clear (old L R : str) : Prop :=
  forall X Y, L = X ++ Y -> startswith (Y ++ NL :: R) old = false.

(** No occurrence of [old] starts in the lines [Ls], which [Z] follows. *)
Fixpoint lines_clear (old : str) (Ls : list str) (Z : str) : Prop :=
  match Ls with
  | [] => True
  | L :: C => line_clear old L (unlines C ++ Z) /\ lines_clear old C Z
  end.

(** A question identifier without [#]. *)
Definition hash_free (id : str) : bool :=
  forallb (fun c => negb (N.eqb c 35)) id.

(** The Question line of the block of a question. *)
Definition qline (q : question) : str :=
  lit "Question: " ++ _normalize_text (q_question_text q).

(** The lines of the block of a question whose Kanbus Task field holds
    [task]. *)
Definition task_lines (task now : str) (q : question) : list str :=
  [ qline q;
    lit "Status: unanswered";
    lit "Confidence: n/a";
    lit "Answer:";
    lit "Evidence:";
    lit "Human Questions:";
    lit "Kanbus Task: " ++ task;
    lit "Last Updated: " ++ now;
    [] ].

(** The lines of the block of a question with the task that [task_of] gives
    it. *)
Definition tasked_block (task_of : question -> str) (nq : str * question)
  : list str :=
  heading_line (snd nq) :: task_lines (task_of (snd nq)) (fst nq) (snd nq).

(** A text that starts with the heading line and the Question line of a
    question. *)
Definition block_text (q : question) (B2 : str) : str :=
  heading_line q ++ NL :: qline q ++ NL :: B2.

(** The task that the map holds for a question, as [_apply_kanbus_ids] looks
    it up: under the stripped identifier; the empty text when there is
    none. *)
Definition task_in (kmap : kanbus_map) (q : question) : str :=
  get (lookup (tasks kmap) (strip (q_question_id q))) [].

(** What the blocks of a report need for their questions to be told apart. *)
Definition block_ok (nq : str * question) : Prop :=
  id_ok (q_question_id (snd nq)) = true
  /\ hash_free (q_question_id (snd nq)) = true
  /\ one_line (fst nq) = true.

(** What a fresh record reads as once its Kanbus Task field holds [task]. *)
Definition tasked_record (task : str) (e : entry) (q : question) : Prop :=
  entry_id e = strip (q_question_id q)
  /\ entry_title e = _short_title (_normalize_text (q_question_text q))
  /\ entry_question e = _normalize_text (q_question_text q)
  /\ entry_status e = lit "unanswered"
  /\ entry_confidence e = lit "n/a"
  /\ entry_kanbus e = strip task.

(** The lines and the text of the report of a pillar in which every block
    holds the task of its question. *)
Definition tasked_lines (task_of : question -> str) (pillar url : str)
    (blocks : list (str * question)) : list str :=
  header_lines pillar url
  ++ flat_map (tasked_block task_of) blocks
  ++ footer_lines url.

Definition tasked_text (kmap : kanbus_map) (clock : nat -> str)
    (questions : list question) (pillar : str) (tick : nat) : str :=
  unlines (tasked_lines (task_in kmap) pillar
             (get (lookup PILLAR_URLS pillar) [])
             (stamped clock pillar questions tick)).

(** A map with the tasks of the two questions. *)
Definition two_tasks_map : kanbus_map :=
  {| tasks := [(lit "SEC-1", lit "kanbus-a1"); (lit "REL-1", lit "kanbus-b2")];
     epics := [] |}.

(** A tracker that creates what it is asked to and has no console, and the
    word characters of ASCII. *)
Definition demo_tracker : list command -> command -> outcome :=
  fun h cmd =>
    if is_create cmd
    then Exit0 (lit "Created issue. ID: kanbus-" ++ decimal (length h) ++ [NL])
    else ExitFail (lit "no console").

Definition ascii_word (c : char) : bool :=
  is_digit c || is_upper c || is_lower c || N.eqb c 95.

(** The map that [cmd_init] writes with that tracker for the two questions. *)
Definition demo_map : kanbus_map :=
  {| tasks := [(lit "SEC-1", lit "kanbus-6"); (lit "REL-1", lit "kanbus-10")];
     epics := [(lit "operational-excellence", lit "kanbus-2");
               (lit "security", lit "kanbus-4");
               (lit "reliability", lit "kanbus-8");
               (lit "performance-efficiency", lit "kanbus-12");
               (lit "cost-optimization", lit "kanbus-14");
               (lit "sustainability", lit "kanbus-16")] |}.

(** * Properties *)

(** ** Strings *)

Lemma eqb_str_eq (a b : str) : eqb_str a b = true <-> a = b.
Proof.
  revert b; induction a as [|x a IH]; intros [|y b]; simpl; split;
    try congruence; try reflexivity.
  - intros H. apply andb_true_iff in H as [Hx Hy].
    apply N.eqb_eq in Hx. apply IH in Hy. congruence.
  - intros H. injection H as -> ->.
    rewrite N.eqb_refl. simpl. now apply IH.
Qed.

Lemma eqb_str_refl (a : str) : eqb_str a a = true.
Proof. now apply eqb_str_eq. Qed.

Lemma eqb_str_neq (a b : str) : eqb_str a b = false <-> a <> b.
Proof.
  split.
  - intros H E. apply eqb_str_eq in E. congruence.
  - intros H. destruct (eqb_str a b) eqn:E; [|reflexivity].
    apply eqb_str_eq in E. contradiction.
Qed.

Lemma startswith_app (p r : str) : startswith (p ++ r) p = true.
Proof.
  induction p as [|x p IH]; simpl; [reflexivity|].
  now rewrite N.eqb_refl.
Qed.

Lemma startswith_inv (s p : str) :
  startswith s p = true -> s = p ++ skipn (length p) s.
Proof.
  revert s; induction p as [|x p IH]; intros s H; simpl in *; [reflexivity|].
  destruct s as [|y s]; [discriminate|].
  apply andb_true_iff in H as [Hx Hp]. apply N.eqb_eq in Hx. subst y.
  simpl. f_equal. now apply IH.
Qed.

(** ** The matcher *)

Lemma span_take_drop p s : span_take p s ++ span_drop p s = s.
Proof.
  induction s as [|c t IH]; simpl; [reflexivity|].
  destruct (p c); simpl; [now rewrite IH|reflexivity].
Qed.

Lemma span_drop_length p s : length (span_drop p s) <= length s.
Proof.
  induction s as [|c t IH]; simpl; [lia|]. destruct (p c); simpl; lia.
Qed.

Lemma firstn_span p s :
  firstn (length s - length (span_drop p s)) s = span_take p s.
Proof.
  rewrite <- (span_take_drop p s) at 1 3.
  rewrite length_app.
  replace (length (span_take p s) + length (span_drop p s)
           - length (span_drop p s)) with (length (span_take p s) + 0) by lia.
  now rewrite firstn_app_2, app_nil_r.
Qed.

Lemma match_star_cons p r o c prev x t :
  match_here (Star p :: r) o c prev (x :: t) =
  if p x then
    match match_here (Star p :: r) o c (Some x) t with
    | Some y => Some y
    | None => match_here r o c prev (x :: t)
    end
  else match_here r o c prev (x :: t).
Proof. reflexivity. Qed.

(** A repetition takes all it can when the rest of the pattern matches
    there. *)
Lemma match_star_greedy p r o c s :
  (forall prev, match_here r o c prev (span_drop p s) <> None) ->
  forall prev,
    match_here (Star p :: r) o c prev s =
    match_here r o c (prev_after prev (span_take p s)) (span_drop p s).
Proof.
  induction s as [|x t IH]; intros H prev.
  - reflexivity.
  - rewrite match_star_cons. simpl in *. destruct (p x) eqn:E.
    + rewrite IH by exact H. simpl.
      destruct (match_here r o c _ (span_drop p t)) eqn:M; [reflexivity|].
      now apply H in M.
    + reflexivity.
Qed.

Lemma match_lits f r o c prev s :
  match_here (lits f ++ r) o c prev s =
  if startswith s f
  then match_here r o c (prev_after prev f) (skipn (length f) s)
  else None.
Proof.
  revert prev s; induction f as [|x f IH]; intros prev s; simpl.
  - reflexivity.
  - destruct s as [|y s]; [reflexivity|].
    destruct (N.eqb x y) eqn:E; simpl; [|reflexivity].
    apply N.eqb_eq in E. subst y. apply IH.
Qed.

(** ** Replacement templates *)

Lemma parse_template_literal groups repl :
  plain repl = true -> parse_template groups repl = Ok (map TChar repl).
Proof.
  unfold parse_template, plain.
  induction repl as [|c t IH]; intros H; simpl in *; [reflexivity|].
  apply andb_true_iff in H as [Hc Ht].
  rewrite Hc. simpl. now rewrite IH.
Qed.

Lemma expand_literal repl whole caps : expand (map TChar repl) whole caps = repl.
Proof.
  unfold expand. induction repl as [|c t IH]; simpl; [reflexivity|].
  now rewrite IH.
Qed.

Lemma re_sub_literal pat groups repl s :
  plain repl = true -> re_sub pat groups repl s = Ok (re_sub_lit pat repl s).
Proof.
  intros H. unfold re_sub. now rewrite parse_template_literal.
Qed.

Lemma plain_app a b : plain (a ++ b) = plain a && plain b.
Proof. apply forallb_app. Qed.

Lemma one_line_app a b : one_line (a ++ b) = one_line a && one_line b.
Proof. apply forallb_app. Qed.

(** ** Lines *)

Lemma lines_not_nil s : lines s <> [].
Proof.
  destruct s as [|c t]; simpl; [discriminate|].
  destruct (N.eqb c NL); [discriminate|]. destruct (lines t); discriminate.
Qed.

Lemma join_cons2 sep a b l : join sep (a :: b :: l) = a ++ sep ++ join sep (b :: l).
Proof. reflexivity. Qed.

Lemma join_lines s : join [NL] (lines s) = s.
Proof.
  induction s as [|c t IH]; simpl; [reflexivity|].
  destruct (N.eqb c NL) eqn:E.
  - apply N.eqb_eq in E. subst c.
    destruct (lines t) as [|l ls] eqn:L; [now apply lines_not_nil in L|].
    rewrite join_cons2, IH. reflexivity.
  - destruct (lines t) as [|l ls] eqn:L; [now apply lines_not_nil in L|].
    destruct ls as [|l2 ls]; simpl in *; now rewrite <- IH.
Qed.

Lemma lines_one_line s : Forall (fun l => one_line l = true) (lines s).
Proof.
  induction s as [|c t IH]; simpl; [repeat constructor|].
  destruct (N.eqb c NL) eqn:E.
  - constructor; [reflexivity|exact IH].
  - destruct (lines t) as [|l ls]; [repeat constructor; simpl; unfold dot; now rewrite E|].
    inversion IH; subst. constructor; [|assumption].
    simpl. unfold dot at 1. now rewrite E.
Qed.

Lemma lines_one l : one_line l = true -> lines l = [l].
Proof.
  induction l as [|c t IH]; simpl; [reflexivity|].
  intros H. apply andb_true_iff in H as [Hc Ht]. unfold dot in Hc.
  apply negb_true_iff in Hc. rewrite Hc, IH by exact Ht. reflexivity.
Qed.

Lemma lines_app_nl l r :
  one_line l = true -> lines (l ++ NL :: r) = l :: lines r.
Proof.
  induction l as [|c t IH]; simpl; intros H.
  - reflexivity.
  - apply andb_true_iff in H as [Hc Ht]. unfold dot in Hc.
    apply negb_true_iff in Hc. rewrite Hc, IH by exact Ht. reflexivity.
Qed.

Lemma lines_join ls :
  ls <> [] -> Forall (fun l => one_line l = true) ls -> lines (join [NL] ls) = ls.
Proof.
  induction ls as [|l ls IH]; intros Hne Hall; [contradiction|].
  inversion Hall as [|? ? Hl Hls]; subst.
  destruct ls as [|l2 ls].
  - simpl. now apply lines_one.
  - rewrite join_cons2. simpl app. rewrite lines_app_nl by exact Hl.
    f_equal. apply IH; [discriminate|exact Hls].
Qed.

(** ** The field codec, line by line *)

Lemma startswith_app_r s a b :
  startswith s (a ++ b) = startswith s a && startswith (skipn (length a) s) b.
Proof.
  revert s; induction a as [|x a IH]; intros s; simpl; [reflexivity|].
  destruct s as [|y s]; [reflexivity|].
  rewrite IH. now rewrite andb_assoc.
Qed.

Lemma at_eol_span_drop s : at_eol (span_drop dot s) = true.
Proof.
  induction s as [|c t IH]; simpl; [reflexivity|].
  destruct (dot c) eqn:E; [exact IH|].
  simpl. unfold dot in E. now apply negb_false_iff in E.
Qed.

Lemma match_dot_eol o c prev s :
  match_here [Star dot; Eol] o c prev s = Some (span_drop dot s, c).
Proof.
  rewrite match_star_greedy; simpl; now rewrite at_eol_span_drop.
Qed.

Lemma match_one_cons p r o c prev x t :
  match_here (One p :: r) o c prev (x :: t) =
  if p x then match_here r o c (Some x) t else None.
Proof. reflexivity. Qed.

Lemma match_replace_field_re field prev s :
  match_here (replace_field_re field) [] [] prev s =
  if at_bol prev && startswith s (field_prefix field)
  then Some (span_drop dot (skipn (length (field_prefix field)) s), [])
  else None.
Proof.
  unfold replace_field_re, field_prefix. simpl app at 1.
  cbn [match_here]. destruct (at_bol prev); [|reflexivity]. cbn [andb].
  rewrite match_lits, startswith_app_r.
  destruct (startswith s field); [|reflexivity]. cbn [andb].
  rewrite length_app. cbn [length].
  replace (length field + 1) with (1 + length field) by lia.
  rewrite <- skipn_skipn.
  destruct (skipn (length field) s) as [|x t]; [reflexivity|].
  rewrite match_one_cons. cbn [startswith skipn].
  destruct (N.eqb COLON x); [|reflexivity].
  cbn [andb]. apply match_dot_eol.
Qed.

Lemma span_drop_line l rest :
  one_line l = true -> at_eol rest = true -> span_drop dot (l ++ rest) = rest.
Proof.
  induction l as [|c t IH]; simpl; intros Hl Hr.
  - destruct rest as [|x r]; [reflexivity|]. simpl in *.
    unfold dot. now rewrite Hr.
  - apply andb_true_iff in Hl as [Hc Ht]. rewrite Hc. now apply IH.
Qed.

Lemma one_line_skipn n l : one_line l = true -> one_line (skipn n l) = true.
Proof.
  revert l; induction n as [|n IH]; intros l H; [exact H|].
  destruct l as [|c t]; [reflexivity|]. simpl in *.
  apply andb_true_iff in H as [_ Ht]. now apply IH.
Qed.

Lemma startswith_line l rest p :
  one_line p = true -> at_eol rest = true ->
  startswith (l ++ rest) p = startswith l p.
Proof.
  revert l; induction p as [|x p IH]; intros l Hp Hr; simpl; [reflexivity|].
  simpl in Hp. apply andb_true_iff in Hp as [Hx Hp].
  destruct l as [|y l]; simpl.
  - destruct rest as [|c r]; [reflexivity|]. simpl in Hr.
    apply N.eqb_eq in Hr. subst c. unfold dot in Hx.
    apply negb_true_iff in Hx. now rewrite Hx.
  - now rewrite IH.
Qed.

Lemma startswith_length s p : startswith s p = true -> length p <= length s.
Proof.
  intros H. apply startswith_inv in H. rewrite H.
  rewrite length_app. lia.
Qed.

Lemma one_line_field_prefix field :
  one_line field = true -> one_line (field_prefix field) = true.
Proof.
  intros H. unfold field_prefix. rewrite one_line_app, H. reflexivity.
Qed.

(** On a line at the start of which the pattern is tried: the match is the
    whole line, when the line starts with the prefix. *)
Lemma match_at_field_line field prev l rest pos :
  one_line field = true -> one_line l = true -> at_eol rest = true ->
  match_at (replace_field_re field) prev (l ++ rest) pos =
  if at_bol prev && startswith l (field_prefix field)
  then Some {| m_start := pos; m_len := length l; m_groups := [] |}
  else None.
Proof.
  intros Hf Hl Hr. unfold match_at.
  rewrite match_replace_field_re.
  rewrite startswith_line by (try apply one_line_field_prefix; assumption).
  destruct (at_bol prev && startswith l (field_prefix field)) eqn:E;
    [|reflexivity].
  apply andb_true_iff in E as [_ E]. apply startswith_length in E.
  rewrite skipn_app.
  replace (length (field_prefix field) - length l) with 0 by lia.
  simpl skipn. rewrite span_drop_line by (try apply one_line_skipn; assumption).
  rewrite length_app. do 2 f_equal. lia.
Qed.

Lemma sub_from_skip pat tpl a b prev :
  sub_from pat tpl (length a) prev (a ++ b) =
  sub_from pat tpl 0 (prev_after prev a) b.
Proof.
  revert prev; induction a as [|x a IH]; intros prev; [reflexivity|].
  simpl. apply IH.
Qed.

Lemma at_bol_prev_after prev l :
  one_line l = true -> at_bol prev = false -> at_bol (prev_after prev l) = false.
Proof.
  revert prev; induction l as [|c t IH]; intros prev Hl Hp; [exact Hp|].
  simpl in *. apply andb_true_iff in Hl as [Hc Ht]. apply IH; [exact Ht|].
  simpl. unfold dot in Hc. now apply negb_true_iff in Hc.
Qed.

Lemma at_bol_dot c : dot c = true -> at_bol (Some c) = false.
Proof. unfold dot. simpl. apply negb_true_iff. Qed.

(** *** Patterns that match whole lines

    A pattern anchored at the start of a line that, on a line selected by
    [sel], matches the whole line with the groups [grp]. *)
Section LinePattern.

Variable pat : pattern.
Variable sel : str -> bool.
Variable grp : str -> list str.

Hypothesis not_bol : forall prev s pos,
  at_bol prev = false -> match_at pat prev s pos = None.

Hypothesis on_line : forall prev l rest pos,
  at_bol prev = true -> one_line l = true -> at_eol rest = true ->
  match_at pat prev (l ++ rest) pos =
  if sel l
  then Some {| m_start := pos; m_len := length l; m_groups := grp l |}
  else None.

Hypothesis sel_nil : sel [] = false.

Variable tpl : list titem.

Lemma sub_from_not_bol prev s :
  at_bol prev = false -> sub_from pat tpl 0 prev s = sub_tail pat tpl s.
Proof.
  intros H. destruct s as [|c r]; simpl; now rewrite not_bol.
Qed.

Lemma sub_from_inside prev l rest :
  one_line l = true -> at_bol prev = false ->
  sub_from pat tpl 0 prev (l ++ rest) = l ++ sub_tail pat tpl rest.
Proof.
  revert prev; induction l as [|c t IH]; intros prev Hl Hp.
  - now apply sub_from_not_bol.
  - simpl app. rewrite sub_from_not_bol by exact Hp. simpl.
    simpl in Hl. apply andb_true_iff in Hl as [Hc Ht].
    rewrite IH; [reflexivity|exact Ht|now apply at_bol_dot].
Qed.

Lemma sub_from_line prev l rest :
  one_line l = true -> at_eol rest = true -> at_bol prev = true ->
  sub_from pat tpl 0 prev (l ++ rest) =
  sub_line sel grp tpl l ++ sub_tail pat tpl rest.
Proof.
  intros Hl Hr Hp.
  assert (M := on_line prev l rest 0 Hp Hl Hr).
  unfold sub_line. destruct (sel l) eqn:E.
  - destruct l as [|c t]; [congruence|].
    simpl app in *. cbn [sub_from]. rewrite M.
    cbn [m_len m_groups]. simpl length. simpl Nat.eqb. cbn [app].
    replace (S (length t) - 1) with (length t) by lia.
    change (c :: t ++ rest) with ((c :: t) ++ rest).
    change (S (length t)) with (length (c :: t)).
    rewrite firstn_app, Nat.sub_diag, firstn_all. simpl firstn.
    rewrite app_nil_r. f_equal.
    rewrite sub_from_skip. apply sub_from_not_bol.
    simpl in Hl. apply andb_true_iff in Hl as [Hc Ht].
    apply at_bol_prev_after; [exact Ht|now apply at_bol_dot].
  - destruct l as [|c t].
    + simpl app in *. destruct rest as [|x r]; cbn [sub_from];
        rewrite M; reflexivity.
    + simpl app in *. cbn [sub_from]. rewrite M.
      simpl in Hl. apply andb_true_iff in Hl as [Hc Ht].
      rewrite sub_from_inside; [reflexivity|exact Ht|now apply at_bol_dot].
Qed.

Lemma sub_from_lines ls prev :
  ls <> [] -> Forall (fun l => one_line l = true) ls -> at_bol prev = true ->
  sub_from pat tpl 0 prev (join [NL] ls) =
  join [NL] (map (sub_line sel grp tpl) ls).
Proof.
  revert prev; induction ls as [|l ls IH]; intros prev Hne Hall Hp;
    [contradiction|].
  inversion Hall as [|? ? Hl Hls]; subst.
  destruct ls as [|l2 ls].
  - simpl. rewrite <- (app_nil_r l) at 1.
    rewrite sub_from_line by (reflexivity || assumption).
    simpl. now rewrite app_nil_r.
  - rewrite join_cons2. simpl map. rewrite join_cons2.
    rewrite sub_from_line by (reflexivity || assumption).
    f_equal. simpl. f_equal. apply IH; [discriminate|exact Hls|reflexivity].
Qed.

(** [re.sub] rewrites the selected lines and no other. *)
Lemma sub_from_text s :
  sub_from pat tpl 0 None s =
  join [NL] (map (sub_line sel grp tpl) (lines s)).
Proof.
  rewrite <- (join_lines s) at 1.
  apply sub_from_lines;
    [apply lines_not_nil|apply lines_one_line|reflexivity].
Qed.

Lemma found_not_bol prev s pos :
  at_bol prev = false -> found pat prev s pos = found_tail pat s pos.
Proof.
  intros H. unfold found. destruct s as [|c r]; simpl; now rewrite not_bol.
Qed.

Lemma found_inside prev l rest pos :
  one_line l = true -> at_bol prev = false ->
  found pat prev (l ++ rest) pos = found_tail pat rest (pos + length l).
Proof.
  revert prev pos; induction l as [|c t IH]; intros prev pos Hl Hp.
  - simpl. rewrite Nat.add_0_r. now apply found_not_bol.
  - simpl app. rewrite found_not_bol by exact Hp. simpl found_tail.
    simpl in Hl. apply andb_true_iff in Hl as [Hc Ht].
    rewrite IH; [|exact Ht|now apply at_bol_dot].
    simpl. f_equal. lia.
Qed.

Lemma found_line prev l rest pos :
  one_line l = true -> at_eol rest = true -> at_bol prev = true ->
  found pat prev (l ++ rest) pos =
  if sel l then Some (grp l) else found_tail pat rest (pos + length l).
Proof.
  intros Hl Hr Hp.
  assert (M := on_line prev l rest pos Hp Hl Hr).
  destruct (sel l) eqn:E.
  - unfold found. destruct (l ++ rest); simpl; now rewrite M.
  - destruct l as [|c t].
    + simpl app in *. rewrite Nat.add_0_r.
      unfold found, found_tail. destruct rest as [|x r]; simpl;
        now rewrite M.
    + simpl app in *. unfold found at 1. simpl search_from. rewrite M.
      fold (found pat (Some c) (t ++ rest) (S pos)).
      simpl in Hl. apply andb_true_iff in Hl as [Hc Ht].
      rewrite found_inside; [|exact Ht|now apply at_bol_dot].
      simpl. f_equal. lia.
Qed.

Lemma found_lines ls prev pos :
  ls <> [] -> Forall (fun l => one_line l = true) ls -> at_bol prev = true ->
  found pat prev (join [NL] ls) pos = option_map grp (List.find sel ls).
Proof.
  revert prev pos; induction ls as [|l ls IH]; intros prev pos Hne Hall Hp;
    [contradiction|].
  inversion Hall as [|? ? Hl Hls]; subst.
  destruct ls as [|l2 ls].
  - simpl join. rewrite <- (app_nil_r l) at 1.
    rewrite found_line by (reflexivity || assumption).
    simpl. destruct (sel l); reflexivity.
  - rewrite join_cons2.
    rewrite found_line by (reflexivity || assumption).
    cbn [List.find]. destruct (sel l); [reflexivity|].
    simpl app. cbn [found_tail].
    apply IH; [discriminate|exact Hls|reflexivity].
Qed.

(** [re.search] finds the first selected line. *)
Lemma search_text s :
  option_map m_groups (re_search pat s) = option_map grp (List.find sel (lines s)).
Proof.
  rewrite <- (join_lines s) at 1.
  apply found_lines;
    [apply lines_not_nil|apply lines_one_line|reflexivity].
Qed.

End LinePattern.

Lemma match_at_pos pat prev s pos :
  match_at pat prev s pos = None <-> match_at pat prev s 0 = None.
Proof.
  unfold match_at. destruct (match_here pat [] [] prev s) as [[rest caps]|];
    split; congruence.
Qed.

(** Where [re.search] finds nothing, [re.sub] changes nothing. *)
Lemma search_none_sub pat tpl s : forall prev pos,
  search_from pat prev s pos = None -> sub_from pat tpl 0 prev s = s.
Proof.
  induction s as [|c t IH]; intros prev pos H; simpl in *.
  - destruct (match_at pat prev [] pos) eqn:M; [discriminate|].
    apply match_at_pos in M. now rewrite M.
  - destruct (match_at pat prev (c :: t) pos) eqn:M; [discriminate|].
    apply match_at_pos in M. rewrite M. f_equal. now apply (IH _ (S pos)).
Qed.

(** *** [_replace_field] *)

Lemma replace_field_re_not_bol field prev s pos :
  at_bol prev = false -> match_at (replace_field_re field) prev s pos = None.
Proof.
  intros H. unfold match_at. now rewrite match_replace_field_re, H.
Qed.

Lemma replace_field_re_on_line field :
  one_line field = true ->
  forall prev l rest pos,
    at_bol prev = true -> one_line l = true -> at_eol rest = true ->
    match_at (replace_field_re field) prev (l ++ rest) pos =
    if is_field_line field l
    then Some {| m_start := pos; m_len := length l; m_groups := [] |}
    else None.
Proof.
  intros Hf prev l rest pos Hp Hl Hr.
  rewrite match_at_field_line by assumption. now rewrite Hp.
Qed.

Lemma is_field_line_nil field : is_field_line field [] = false.
Proof. unfold is_field_line, field_prefix. now destruct field. Qed.

(** [_replace_field] line by line, for any template that compiles: a line of
    the field gives way to the expanded template, every other line stays. *)
Lemma replace_field_sub block field value tpl :
  one_line field = true ->
  parse_template 0 (field_line field value) = Ok tpl ->
  _replace_field block field value =
  Ok (join [NL]
        (map (sub_line (is_field_line field) (fun _ => []) tpl) (lines block))).
Proof.
  intros Hf Ht. unfold _replace_field. fold (field_line field value).
  assert (T := sub_from_text (replace_field_re field) (is_field_line field)
                 (fun _ => []) (replace_field_re_not_bol field)
                 (replace_field_re_on_line field Hf)
                 (is_field_line_nil field) tpl block).
  destruct (re_search (replace_field_re field) block) eqn:Hs.
  - unfold re_sub. rewrite Ht. simpl. now rewrite T.
  - apply search_none_sub with (tpl := tpl) in Hs.
    rewrite T in Hs. now rewrite Hs.
Qed.

Lemma replace_field_lines block field value :
  one_line field = true -> plain field = true -> plain value = true ->
  _replace_field block field value =
  Ok (join [NL] (map (set_line field value) (lines block))).
Proof.
  intros Hf Hp Hv.
  rewrite replace_field_sub with (tpl := map TChar (field_line field value)).
  - f_equal. f_equal. apply map_ext. intros l. unfold sub_line, set_line.
    now rewrite expand_literal.
  - exact Hf.
  - apply parse_template_literal. unfold field_line.
    now rewrite !plain_app, Hp, Hv.
Qed.

Lemma find_none_existsb {A} (f : A -> bool) l :
  List.find f l = None <-> existsb f l = false.
Proof.
  induction l as [|a l IH]; simpl; [tauto|].
  destruct (f a); simpl; [split; discriminate|exact IH].
Qed.

Lemma re_search_replace_field block field :
  one_line field = true ->
  re_search (replace_field_re field) block = None <-> has_field block field = false.
Proof.
  intros Hf.
  assert (T := search_text (replace_field_re field) (is_field_line field)
                 (fun _ => []) (replace_field_re_not_bol field)
                 (replace_field_re_on_line field Hf) block).
  unfold has_field. rewrite <- find_none_existsb.
  destruct (re_search (replace_field_re field) block);
    destruct (List.find (is_field_line field) (lines block));
    simpl in T; split; congruence.
Qed.

(** Without a line of the field the block comes back as it is, whatever the
    value. *)
Lemma replace_field_absent block field value :
  one_line field = true -> has_field block field = false ->
  _replace_field block field value = Ok block.
Proof.
  intros Hf Hn. unfold _replace_field.
  apply re_search_replace_field in Hn; [|exact Hf]. now rewrite Hn.
Qed.

(** *** [_parse_field] *)

Lemma match_group_dot_eol o c prev s :
  match_here [Open; Star dot; Close; Eol] o c prev s =
  Some (span_drop dot s, c ++ [span_take dot s]).
Proof.
  cbn [match_here].
  change ((fix star (prev0 : option char) (s0 : str) {struct s0} :
             option (str * list str) := _) prev s)
    with (match_here [Star dot; Close; Eol] (s :: o) c prev s).
  rewrite match_star_greedy.
  - cbn [match_here]. rewrite at_eol_span_drop. now rewrite firstn_span.
  - intros prev'. cbn [match_here]. now rewrite at_eol_span_drop.
Qed.

Lemma match_parse_field_re field prev s :
  match_here (parse_field_re field) [] [] prev s =
  if at_bol prev && startswith s (field_prefix field)
  then
    let r := span_drop space_or_tab (skipn (length (field_prefix field)) s) in
    Some (span_drop dot r, [span_take dot r])
  else None.
Proof.
  unfold parse_field_re, field_prefix. simpl app at 1.
  cbn [match_here]. destruct (at_bol prev); [|reflexivity]. cbn [andb].
  rewrite match_lits, startswith_app_r.
  destruct (startswith s field); [|reflexivity]. cbn [andb].
  rewrite length_app. cbn [length].
  replace (length field + 1) with (1 + length field) by lia.
  rewrite <- skipn_skipn.
  destruct (skipn (length field) s) as [|x t]; [reflexivity|].
  rewrite match_one_cons. cbn [startswith skipn].
  destruct (N.eqb COLON x); [|reflexivity].
  cbn [andb]. rewrite match_star_greedy.
  - now rewrite match_group_dot_eol.
  - intros prev'. now rewrite match_group_dot_eol.
Qed.

Lemma span_drop_space_line x rest :
  at_eol rest = true ->
  span_drop space_or_tab (x ++ rest) = span_drop space_or_tab x ++ rest.
Proof.
  intros Hr. induction x as [|c t IH]; simpl.
  - destruct rest as [|y r]; [reflexivity|]. simpl in Hr.
    apply N.eqb_eq in Hr. subst y. reflexivity.
  - destruct (space_or_tab c); [exact IH|reflexivity].
Qed.

Lemma one_line_span_drop p x : one_line x = true -> one_line (span_drop p x) = true.
Proof.
  induction x as [|c t IH]; simpl; intros H; [reflexivity|].
  destruct (p c); [|exact H]. apply andb_true_iff in H as [_ H]. now apply IH.
Qed.

Lemma span_take_line y rest :
  one_line y = true -> at_eol rest = true -> span_take dot (y ++ rest) = y.
Proof.
  intros Hy Hr. induction y as [|c t IH]; cbn [app span_take].
  - destruct rest as [|x r]; [reflexivity|]. cbn [at_eol] in Hr.
    cbn [span_take]. unfold dot. now rewrite Hr.
  - simpl in Hy. apply andb_true_iff in Hy as [Hc Ht]. rewrite Hc.
    now rewrite IH.
Qed.

Lemma parse_field_re_not_bol field prev s pos :
  at_bol prev = false -> match_at (parse_field_re field) prev s pos = None.
Proof.
  intros H. unfold match_at. now rewrite match_parse_field_re, H.
Qed.

Lemma parse_field_re_on_line field :
  one_line field = true ->
  forall prev l rest pos,
    at_bol prev = true -> one_line l = true -> at_eol rest = true ->
    match_at (parse_field_re field) prev (l ++ rest) pos =
    if is_field_line field l
    then Some {| m_start := pos; m_len := length l;
                 m_groups := [field_group field l] |}
    else None.
Proof.
  intros Hf prev l rest pos Hp Hl Hr. unfold match_at.
  rewrite match_parse_field_re, Hp. cbn [andb].
  rewrite startswith_line by (try apply one_line_field_prefix; assumption).
  unfold is_field_line.
  destruct (startswith l (field_prefix field)) eqn:E; [|reflexivity].
  apply startswith_length in E. cbv zeta.
  rewrite skipn_app.
  replace (length (field_prefix field) - length l) with 0 by lia.
  simpl skipn. rewrite span_drop_space_line by exact Hr.
  fold (field_group field l).
  assert (Hg : one_line (field_group field l) = true).
  { unfold field_group. now apply one_line_span_drop, one_line_skipn. }
  rewrite span_drop_line, span_take_line by assumption.
  rewrite length_app. do 2 f_equal. lia.
Qed.

Lemma lstrip_span_drop x : lstrip (span_drop space_or_tab x) = lstrip x.
Proof.
  induction x as [|c t IH]; simpl; [reflexivity|].
  destruct (space_or_tab c) eqn:E.
  - assert (is_space c = true) as ->; [|exact IH].
    unfold space_or_tab in E. apply orb_true_iff in E as [E|E];
      apply N.eqb_eq in E; subst c; reflexivity.
  - reflexivity.
Qed.

(** [_parse_field] reads the first line of the field. *)
Lemma parse_field_lines block field :
  one_line field = true ->
  _parse_field block field =
  match List.find (is_field_line field) (lines block) with
  | Some l => field_value field l
  | None => []
  end.
Proof.
  intros Hf.
  assert (T := search_text (parse_field_re field) (is_field_line field)
                 (fun l => [field_group field l]) (parse_field_re_not_bol field)
                 (parse_field_re_on_line field Hf) block).
  unfold _parse_field.
  destruct (re_search (parse_field_re field) block) as [m|];
    destruct (List.find (is_field_line field) (lines block)) as [l|];
    simpl in T; try discriminate; [|reflexivity].
  injection T as ->. simpl. unfold field_value, field_group, strip.
  now rewrite lstrip_span_drop.
Qed.

(** *** Rewriting a field twice *)

Lemma one_line_field_line field value :
  one_line field = true -> one_line value = true ->
  one_line (field_line field value) = true.
Proof.
  intros Hf Hv. unfold field_line. now rewrite !one_line_app, Hf, Hv.
Qed.

Lemma is_field_line_field_line field value :
  is_field_line field (field_line field value) = true.
Proof.
  unfold is_field_line, field_line, field_prefix.
  change (lit ": " ++ value) with ([COLON] ++ (32%N :: value)).
  rewrite app_assoc. apply startswith_app.
Qed.

Lemma is_field_line_set_line field value l :
  is_field_line field (set_line field value l) = is_field_line field l.
Proof.
  unfold set_line. destruct (is_field_line field l) eqn:E; [|exact E].
  apply is_field_line_field_line.
Qed.

Lemma set_line_idem field value l :
  set_line field value (set_line field value l) = set_line field value l.
Proof.
  unfold set_line at 1. rewrite is_field_line_set_line.
  unfold set_line. now destruct (is_field_line field l).
Qed.

Lemma one_line_set_line field value l :
  one_line field = true -> one_line value = true -> one_line l = true ->
  one_line (set_line field value l) = true.
Proof.
  intros Hf Hv Hl. unfold set_line. destruct (is_field_line field l);
    [now apply one_line_field_line|exact Hl].
Qed.

(** The lines of a block after the rewrite of a field with a one-line value. *)
Lemma lines_set_field field value block :
  one_line field = true -> one_line value = true ->
  lines (join [NL] (map (set_line field value) (lines block))) =
  map (set_line field value) (lines block).
Proof.
  intros Hf Hv. apply lines_join.
  - destruct (lines block) eqn:L; [now apply lines_not_nil in L|discriminate].
  - apply Forall_map. eapply Forall_impl; [|apply lines_one_line].
    intros l Hl. now apply one_line_set_line.
Qed.

Lemma find_set_line field value ls :
  List.find (is_field_line field) (map (set_line field value) ls) =
  option_map (fun _ => field_line field value) (List.find (is_field_line field) ls).
Proof.
  induction ls as [|l ls IH]; simpl; [reflexivity|].
  rewrite is_field_line_set_line.
  destruct (is_field_line field l) eqn:E; [|exact IH].
  simpl. unfold set_line. now rewrite E.
Qed.

Lemma field_value_field_line field value :
  field_value field (field_line field value) = strip value.
Proof.
  unfold field_value, field_line, field_prefix.
  change (lit ": " ++ value) with ([COLON] ++ (32%N :: value)).
  rewrite app_assoc, skipn_app, skipn_all, Nat.sub_diag. reflexivity.
Qed.

Lemma has_field_find block field :
  has_field block field = true ->
  exists l, List.find (is_field_line field) (lines block) = Some l.
Proof.
  unfold has_field. intros H.
  destruct (List.find (is_field_line field) (lines block)) as [l|] eqn:F;
    [now exists l|].
  apply find_none_existsb in F. congruence.
Qed.

(** What [_parse_field] reads after a rewrite of the field. *)
Lemma parse_after_set field value block :
  one_line field = true -> one_line value = true ->
  has_field block field = true ->
  _parse_field (join [NL] (map (set_line field value) (lines block))) field =
  strip value.
Proof.
  intros Hf Hv Hh. rewrite parse_field_lines by exact Hf.
  rewrite lines_set_field by assumption. rewrite find_set_line.
  apply has_field_find in Hh as [l ->]. simpl.
  apply field_value_field_line.
Qed.

(** C5, as stated, fails.  A field line is rewritten in the form
    [<field>: <value>]: the [Answer:] line of a fresh record, whose parsed
    value is empty, gains a space when it is replaced by its own value; a value
    of two lines is added once more by a second replacement; and so is a value
    that refers to the match ([\g<0>]). *)
Lemma replace_field_own_value_counterexample :
  has_field (lit "Answer:") (lit "Answer") = true
  /\ _replace_field (lit "Answer:") (lit "Answer")
       (_parse_field (lit "Answer:") (lit "Answer")) = Ok (lit "Answer: ")
  /\ lit "Answer: " <> lit "Answer:"
  /\ (let twice b v := bind (_replace_field b (lit "F") v)
                            (fun b1 => _replace_field b1 (lit "F") v) in
      twice (lit "F: 1") (text ["x"; "y"]) = Ok (text ["F: x"; "y"; "y"])
      /\ _replace_field (lit "F: 1") (lit "F") (text ["x"; "y"])
         = Ok (text ["F: x"; "y"])
      /\ twice (lit "F: 1") (lit "\g<0>!") = Ok (lit "F: F: F: 1!!")
      /\ _replace_field (lit "F: 1") (lit "F") (lit "\g<0>!")
         = Ok (lit "F: F: 1!")).
Proof. vm_compute. repeat split; congruence. Qed.

(** C5, amended.  For a field name and a value of one line without
    backslash, a second replacement changes nothing; and after a replacement
    with a trimmed value the field reads as that value, so that replacing it
    by its own current value leaves the block as it is. *)
Theorem replace_field_idempotent (block field value : str) :
  one_line field = true -> plain field = true ->
  one_line value = true -> plain value = true ->
  exists b1,
    _replace_field block field value = Ok b1
    /\ _replace_field b1 field value = Ok b1
    /\ (strip value = value -> has_field block field = true ->
        _parse_field b1 field = value
        /\ _replace_field b1 field (_parse_field b1 field) = Ok b1).
Proof.
  intros Hf Hpf Hv Hpv.
  exists (join [NL] (map (set_line field value) (lines block))).
  assert (Idem : _replace_field
                   (join [NL] (map (set_line field value) (lines block)))
                   field value
                 = Ok (join [NL] (map (set_line field value) (lines block)))).
  { rewrite replace_field_lines by assumption.
    rewrite lines_set_field by assumption. rewrite map_map.
    do 2 f_equal. apply map_ext. intros l. apply set_line_idem. }
  split; [now apply replace_field_lines|]. split; [exact Idem|].
  intros Hs Hh.
  assert (P := parse_after_set field value block Hf Hv Hh).
  rewrite Hs in P. split; [exact P|]. rewrite P. exact Idem.
Qed.

Lemma replace_field_idempotent_witness :
  exists b1,
    _replace_field (text ["## A-1: How?"; "Status: unanswered"; "Answer:"])
                   (lit "Status") (lit "partial") = Ok b1
    /\ _replace_field b1 (lit "Status") (lit "partial") = Ok b1
    /\ _parse_field b1 (lit "Status") = lit "partial"
    /\ _replace_field b1 (lit "Status") (_parse_field b1 (lit "Status")) = Ok b1.
Proof.
  destruct (replace_field_idempotent
              (text ["## A-1: How?"; "Status: unanswered"; "Answer:"])
              (lit "Status") (lit "partial")
              eq_refl eq_refl eq_refl eq_refl) as [b1 [H1 [H2 H3]]].
  exists b1. split; [exact H1|]. split; [exact H2|].
  apply H3; reflexivity.
Defined.

(** C6, as stated, fails: the replacement rewrites every line of the field,
    not a single one.  Of two [Status:] lines both change. *)
Lemma replace_field_single_line_counterexample :
  _replace_field (text ["Status: a"; "Status: b"]) (lit "Status") (lit "x")
  = Ok (text ["Status: x"; "Status: x"])
  /\ changed_lines (text ["Status: a"; "Status: b"])
                   (text ["Status: x"; "Status: x"]) = 2.
Proof. vm_compute. split; reflexivity. Qed.

(** A replacement that returns rewrites lines of the field only. *)
Lemma replace_field_frame (block field value r : str) :
  one_line field = true ->
  _replace_field block field value = Ok r ->
  exists new_line : str -> str,
    r = join [NL]
          (map (fun l => if is_field_line field l then new_line l else l)
               (lines block)).
Proof.
  intros Hf Hr.
  destruct (parse_template 0 (field_line field value)) as [tpl|e] eqn:T.
  - rewrite (replace_field_sub block field value tpl Hf T) in Hr.
    injection Hr as <-. exists (fun l => expand tpl l []). reflexivity.
  - unfold _replace_field in Hr. fold (field_line field value) in Hr.
    unfold re_sub in Hr. rewrite T in Hr. simpl in Hr.
    destruct (re_search (replace_field_re field) block); [discriminate|].
    injection Hr as <-. exists (fun l => l).
    rewrite <- (join_lines block) at 1. do 2 f_equal.
    rewrite <- (map_id (lines block)) at 1. apply map_ext.
    intros l. now destruct (is_field_line field l).
Qed.

(** C6, amended.  For a field name of one line, a replacement that returns
    rewrites the lines that start with [<field>:], all of them, and leaves
    every other line and the line breaks as they are; with a value of no
    backslash each such line becomes [<field>: <value>]; and without such a
    line the block is returned as it is. *)
Theorem replace_field_local (block field value : str) :
  one_line field = true ->
  (forall r, _replace_field block field value = Ok r ->
     exists new_line : str -> str,
       r = join [NL]
             (map (fun l => if is_field_line field l then new_line l else l)
                  (lines block)))
  /\ (plain field = true -> plain value = true ->
      _replace_field block field value =
      Ok (join [NL]
            (map (fun l => if is_field_line field l
                           then field ++ lit ": " ++ value else l)
                 (lines block))))
  /\ (has_field block field = false -> _replace_field block field value = Ok block).
Proof.
  intros Hf. split; [|split].
  - intros r Hr. now apply (replace_field_frame block field value).
  - intros Hp Hv. now apply replace_field_lines.
  - now apply replace_field_absent.
Qed.

Lemma replace_field_local_witness :
  (forall r,
     _replace_field (text ["Status: a"; "Answer: b"]) (lit "Status") (lit "x") = Ok r ->
     exists new_line : str -> str,
       r = join [NL]
             (map (fun l => if is_field_line (lit "Status") l then new_line l else l)
                  (lines (text ["Status: a"; "Answer: b"]))))
  /\ _replace_field (text ["Status: a"; "Answer: b"]) (lit "Status") (lit "x")
     = Ok (text ["Status: x"; "Answer: b"])
  /\ _replace_field (text ["Answer: b"]) (lit "Status") (lit "x")
     = Ok (text ["Answer: b"]).
Proof.
  split; [|split].
  - exact (proj1 (replace_field_local (text ["Status: a"; "Answer: b"])
                    (lit "Status") (lit "x") eq_refl)).
  - exact (proj1 (proj2 (replace_field_local (text ["Status: a"; "Answer: b"])
                           (lit "Status") (lit "x") eq_refl))
                 eq_refl eq_refl).
  - exact (proj2 (proj2 (replace_field_local (text ["Answer: b"])
                           (lit "Status") (lit "x") eq_refl))
                 eq_refl).
Defined.

(** *** Two fields *)

Lemma startswith_both l a b :
  startswith l a = true -> startswith l b = true -> length a <= length b ->
  startswith b a = true.
Proof.
  revert l b; induction a as [|x a IH]; intros l b Ha Hb Hlen; [reflexivity|].
  destruct b as [|y b]; [simpl in Hlen; lia|].
  destruct l as [|z l]; [discriminate|]. simpl in *.
  apply andb_true_iff in Ha as [Hx Ha]. apply andb_true_iff in Hb as [Hy Hb].
  apply N.eqb_eq in Hx, Hy. subst. rewrite N.eqb_refl. simpl.
  apply (IH l); [assumption..|lia].
Qed.

Lemma fields_apart_line f g l :
  fields_apart f g = true -> is_field_line f l = true -> is_field_line g l = false.
Proof.
  unfold fields_apart, is_field_line. intros H Hf.
  apply andb_true_iff in H as [H1 H2].
  apply negb_true_iff in H1, H2.
  destruct (startswith l (field_prefix g)) eqn:Hg; [|reflexivity].
  destruct (Nat.le_ge_cases (length (field_prefix f)) (length (field_prefix g))).
  - rewrite (startswith_both l _ _ Hf Hg) in H2; [discriminate|assumption].
  - rewrite (startswith_both l _ _ Hg Hf) in H1; [discriminate|assumption].
Qed.

Lemma fields_apart_sym f g : fields_apart f g = fields_apart g f.
Proof. unfold fields_apart. apply andb_comm. Qed.

Lemma lines_app_nl_any x r : lines (x ++ NL :: r) = lines x ++ lines r.
Proof.
  induction x as [|c t IH]; [reflexivity|].
  simpl app. cbn [lines]. rewrite IH.
  destruct (N.eqb c NL); [reflexivity|].
  destruct (lines t) eqn:L; [now apply lines_not_nil in L|reflexivity].
Qed.

Lemma lines_join_any xs : xs <> [] -> lines (join [NL] xs) = flat_map lines xs.
Proof.
  induction xs as [|x xs IH]; intros Hne; [contradiction|].
  destruct xs as [|y xs].
  - simpl. now rewrite app_nil_r.
  - rewrite join_cons2.
    change ([NL] ++ join [NL] (y :: xs)) with (NL :: join [NL] (y :: xs)).
    rewrite lines_app_nl_any. rewrite IH by discriminate. reflexivity.
Qed.


(** A replacement of the field [g] with a plain value of one line keeps
    what [_parse_field] reads of another field [f]. *)
Lemma parse_field_replace_other block f g value :
  one_line f = true -> one_line g = true -> plain g = true ->
  one_line value = true -> plain value = true ->
  fields_apart f g = true ->
  _parse_field (join [NL] (map (set_line g value) (lines block))) f =
  _parse_field block f.
Proof.
  intros Hf Hg Hpg Hv Hpv Ha.
  rewrite !parse_field_lines by exact Hf.
  rewrite lines_set_field by assumption.
  induction (lines block) as [|l ls IH]; [reflexivity|].
  cbn [map List.find].
  destruct (is_field_line f l) eqn:E.
  - unfold set_line. rewrite (fields_apart_line f g l Ha E). now rewrite E.
  - unfold set_line at 1. destruct (is_field_line g l) eqn:G.
    + rewrite fields_apart_sym in Ha.
      rewrite (fields_apart_line g f _ Ha (is_field_line_field_line g value)).
      exact IH.
    + rewrite E. exact IH.
Qed.

Lemma has_field_set_other block f g value :
  one_line g = true -> one_line value = true ->
  fields_apart f g = true ->
  has_field (join [NL] (map (set_line g value) (lines block))) f =
  has_field block f.
Proof.
  intros Hg Hv Ha. unfold has_field.
  rewrite lines_set_field by assumption.
  induction (lines block) as [|l ls IH]; [reflexivity|].
  cbn [map existsb]. rewrite IH. f_equal.
  unfold set_line. destruct (is_field_line g l) eqn:G; [|reflexivity].
  rewrite fields_apart_sym in Ha.
  rewrite (fields_apart_line g f _ Ha (is_field_line_field_line g value)).
  now rewrite (fields_apart_line g f l Ha G).
Qed.

(** ** Status reconciliation *)


Lemma one_line_truthy_or summary :
  (if truthy summary then summary else []) = summary.
Proof. now destruct summary. Qed.





(** C3: [cmd_apply_evidence] never reads the clock and never rewrites the Last
    Updated field.  On a fresh record the evidence turns the status from
    [unanswered] to [partial] and the Last Updated line stays as it was, where
    [cmd_record_answer] rewrites it. *)
Lemma apply_evidence_keeps_last_updated :
  (exists report,
     apply_evidence_report (lit "languages=.py") fresh_report = Ok report
     /\ _parse_field fresh_report (lit "Status") = lit "unanswered"
     /\ _parse_field report (lit "Status") = lit "partial"
     /\ _parse_field report (lit "Last Updated")
        = _parse_field fresh_report (lit "Last Updated"))
  /\ (exists st' report,
        cmd_record_answer (fun _ => lit "2026-02-02T00:00:00+00:00")
                          answered_args one_record_store = (st', Ok tt)
        /\ st' (lit "security") = Some report
        /\ _parse_field report (lit "Status") = lit "answered"
        /\ _parse_field report (lit "Last Updated")
           = lit "2026-02-02T00:00:00+00:00").
Proof.
  split.
  - eexists. split; [vm_compute; reflexivity|]. vm_compute. repeat split.
  - eexists. eexists. split; [vm_compute; reflexivity|].
    split; [vm_compute; reflexivity|]. vm_compute. repeat split.
Qed.

(** ** Round trip of a report *)

Lemma replace_from_self old s : old <> [] -> forall k,
  k <= length s -> firstn k s ++ replace_from old old k s = s.
Proof.
  intros Hne. induction s as [|c t IH]; intros k Hk.
  - simpl in Hk. now replace k with 0 by lia.
  - destruct k as [|k]; simpl.
    + destruct (startswith (c :: t) old) eqn:E.
      * destruct old as [|x old']; [contradiction|].
        simpl in E. apply andb_true_iff in E as [Hx Ht].
        apply N.eqb_eq in Hx. subst x. simpl. f_equal.
        rewrite Nat.sub_0_r.
        assert (Hl := startswith_length _ _ Ht).
        specialize (IH (length old') Hl).
        apply startswith_inv in Ht. rewrite Ht in IH at 1.
        rewrite firstn_app, Nat.sub_diag, firstn_all in IH.
        simpl in IH. now rewrite app_nil_r in IH.
      * f_equal. apply (IH 0). lia.
    + f_equal. apply IH. simpl in Hk. lia.
Qed.

(** Putting a text back for itself changes nothing. *)
Lemma replace_self s old : replace s old old = s.
Proof.
  unfold replace. destruct old as [|x old'].
  - simpl. induction s as [|c t IH]; simpl; [reflexivity|now rewrite IH].
  - apply (replace_from_self (x :: old') s) with (k := 0); [discriminate|lia].
Qed.

(** C7: the round trip of a document breaks where the document does not
    parse.  The class [[^:]] of the heading pattern takes line breaks, so the
    heading [## Notes] is matched together with the line after it, up to the
    first colon; [_parse_question_block] then looks for the separator in the
    first line alone, finds none, and raises instead of returning records. *)
Lemma parse_report_multiline_heading :
  map (fun m => nth 0 (m_groups m) []) (re_finditer heading_re noted_report)
  = [lit "SECURITY-001"; text ["Notes"; "Remember"]]
  /\ _parse_questions_from_report noted_report = Raise ValueError
  /\ apply_evidence_report (lit "languages=.py") noted_report = Raise ValueError
  /\ _parse_questions_from_report (text ["## a"; "b: c"]) = Raise ValueError.
Proof. vm_compute. repeat split. Qed.

Lemma mapM_in {A B} (f : A -> result B) l ys :
  mapM f l = Ok ys -> forall y, In y ys -> exists x, In x l /\ f x = Ok y.
Proof.
  revert ys; induction l as [|a l IH]; intros ys H y Hy; simpl in H.
  - injection H as <-. contradiction.
  - destruct (f a) as [b|] eqn:Fa; [|discriminate]. simpl in H.
    destruct (mapM f l) as [bs|] eqn:M; [|discriminate]. simpl in H.
    injection H as <-. destruct Hy as [<-|Hy].
    + exists a. split; [now left|exact Fa].
    + destruct (IH bs eq_refl y Hy) as [x [Hx Fx]].
      exists x. split; [now right|exact Fx].
Qed.

Lemma parse_question_block_block block e :
  _parse_question_block block = Ok e -> entry_block e = block.
Proof.
  unfold _parse_question_block.
  destruct (splitlines_first block); [|discriminate].
  destruct (split_once _ _) as [[qid title]|]; [|discriminate].
  intros H. injection H as <-. reflexivity.
Qed.

Lemma slice_span s a b : exists pre post, s = pre ++ slice s a b ++ post.
Proof.
  exists (firstn a s), (skipn (b - a) (skipn a s)). unfold slice.
  now rewrite firstn_skipn, firstn_skipn.
Qed.

(** The round trip of a document that parses: the block of each record is a
    span of the document, and putting each block back for itself gives the
    document again. *)
Theorem parse_rewrite_roundtrip (content : str) (entries : list entry) :
  _parse_questions_from_report content = Ok entries ->
  (forall e, In e entries ->
     exists pre post, content = pre ++ entry_block e ++ post)
  /\ rewrite_unchanged entries content = content.
Proof.
  intros P. split.
  - intros e He. unfold _parse_questions_from_report in P.
    destruct (mapM_in _ _ _ P e He) as [m [_ Hm]].
    apply parse_question_block_block in Hm. rewrite Hm.
    apply slice_span.
  - clear P. unfold rewrite_unchanged.
    induction entries as [|e rest IH]; simpl; [reflexivity|].
    now rewrite replace_self.
Qed.

Lemma parse_rewrite_roundtrip_fresh :
  exists entries,
    _parse_questions_from_report fresh_report = Ok entries
    /\ length entries = 1
    /\ (forall e, In e entries ->
         exists pre post, fresh_report = pre ++ entry_block e ++ post)
    /\ rewrite_unchanged entries fresh_report = fresh_report.
Proof.
  destruct (_parse_questions_from_report fresh_report) as [entries|] eqn:P;
    [|vm_compute in P; discriminate].
  exists entries. split; [reflexivity|]. split.
  - vm_compute in P. injection P as <-. reflexivity.
  - exact (parse_rewrite_roundtrip fresh_report entries P).
Defined.

(** ** Answer recording *)

Lemma simple_inv v : simple v = true -> one_line v = true /\ plain v = true.
Proof. apply andb_true_iff. Qed.

Lemma no_linebreak_one_line s : no_linebreak s = true -> one_line s = true.
Proof.
  unfold no_linebreak, one_line. rewrite !forallb_forall.
  intros H c Hc. specialize (H c Hc). unfold dot.
  destruct (N.eqb c NL) eqn:E; [|reflexivity].
  apply N.eqb_eq in E. subst c. discriminate.
Qed.

Lemma clean_inv v :
  clean v = true ->
  no_linebreak v = true /\ plain v = true /\ storable v = true.
Proof.
  unfold clean. rewrite !andb_true_iff. tauto.
Qed.

Lemma clean_simple v : clean v = true -> simple v = true.
Proof.
  intros H. apply clean_inv in H as (H1 & H2 & _). unfold simple.
  now rewrite (no_linebreak_one_line _ H1), H2.
Qed.

Lemma clean_storable v : clean v = true -> storable v = true.
Proof. intros H. now apply clean_inv in H. Qed.

Lemma re_sub_field_lines block field value :
  one_line field = true -> plain field = true -> plain value = true ->
  re_sub (replace_field_re field) 0 (field_line field value) block =
  Ok (set_field block field value).
Proof.
  intros Hf Hp Hv. rewrite re_sub_literal.
  - unfold re_sub_lit, set_field.
    rewrite (sub_from_text (replace_field_re field) (is_field_line field)
               (fun _ => []) (replace_field_re_not_bol field)
               (replace_field_re_on_line field Hf) (is_field_line_nil field)).
    do 2 f_equal. apply map_ext. intros l. unfold sub_line, set_line.
    now rewrite expand_literal.
  - unfold field_line. now rewrite !plain_app, Hp, Hv.
Qed.

Lemma record_block_recorded args answer_text now block :
  simple (status args) = true -> simple (confidence args) = true ->
  simple answer_text = true -> simple now = true ->
  record_block args answer_text now block = Ok (recorded args answer_text now block).
Proof.
  intros Hs Hc Ha Hn.
  apply simple_inv in Hs as [Hs1 Hs2], Hc as [Hc1 Hc2],
    Ha as [Ha1 Ha2], Hn as [Hn1 Hn2].
  unfold record_block, recorded.
  rewrite replace_field_lines by (reflexivity || assumption). cbn [bind].
  rewrite replace_field_lines by (reflexivity || assumption). cbn [bind].
  change (lit "Answer: " ++ answer_text)
    with (field_line (lit "Answer") answer_text).
  rewrite re_sub_field_lines by (reflexivity || assumption). cbn [bind].
  rewrite replace_field_lines by (reflexivity || assumption).
  reflexivity.
Qed.

Lemma parse_set_field_same block field value :
  one_line field = true -> one_line value = true ->
  has_field block field = true ->
  _parse_field (set_field block field value) field = strip value.
Proof. apply parse_after_set. Qed.

Lemma parse_set_field_other block f g value :
  one_line f = true -> one_line g = true -> plain g = true ->
  simple value = true -> fields_apart f g = true ->
  _parse_field (set_field block g value) f = _parse_field block f.
Proof.
  intros Hf Hg Hpg Hv Ha. apply simple_inv in Hv as [Hv1 Hv2].
  now apply parse_field_replace_other.
Qed.

Lemma has_set_field_other block f g value :
  one_line g = true -> one_line value = true -> fields_apart f g = true ->
  has_field (set_field block g value) f = has_field block f.
Proof. apply has_field_set_other. Qed.

(** C4, as stated, fails: [cmd_record_answer] checks neither argument.  A
    status and a confidence outside the enums are written into the report, and
    the command returns without error. *)
Lemma record_answer_unvalidated_counterexample :
  mem (status bogus_args) STATUS_VALUES = false
  /\ mem (confidence bogus_args) CONFIDENCE_VALUES = false
  /\ exists st' report,
       cmd_record_answer (fun _ => lit "2026-02-02T00:00:00+00:00")
                         bogus_args one_record_store = (st', Ok tt)
       /\ st' (lit "security") = Some report
       /\ _parse_field report (lit "Status") = lit "bogus"
       /\ _parse_field report (lit "Confidence") = lit "certain".
Proof.
  split; [reflexivity|]. split; [reflexivity|].
  eexists. eexists. split; [vm_compute; reflexivity|].
  split; [vm_compute; reflexivity|]. vm_compute. repeat split.
Qed.

(** What is read back from a block that took the answer: the Status and
    Confidence fields, where the block has such a line, read as the
    arguments, stripped. *)
Lemma recorded_reads (args : record_args) (answer_text now block : str) :
  simple (status args) = true -> simple (confidence args) = true ->
  simple answer_text = true -> simple now = true ->
  (has_field block (lit "Status") = true ->
   _parse_field (recorded args answer_text now block) (lit "Status")
   = strip (status args))
  /\ (has_field block (lit "Confidence") = true ->
      _parse_field (recorded args answer_text now block) (lit "Confidence")
      = strip (confidence args)).
Proof.
  intros Hs Hc Ha Hn.
  destruct (simple_inv _ Hs) as [Hs1 Hs2].
  destruct (simple_inv _ Hc) as [Hc1 Hc2].
  unfold recorded. split.
  - intros H.
    rewrite !parse_set_field_other by (reflexivity || assumption).
    now apply parse_set_field_same.
  - intros H.
    rewrite !parse_set_field_other by (reflexivity || assumption).
    apply parse_set_field_same; [reflexivity|assumption|].
    now rewrite has_set_field_other by (reflexivity || assumption).
Qed.

(** ** Evidence and the Last Updated field *)

Lemma reconcile_status_no_answer status answer_text summary :
  truthy answer_text = false ->
  eqb_str (reconcile_status status answer_text summary) (lit "answered") = false.
Proof.
  intros Ha. unfold reconcile_status. rewrite Ha.
  destruct (eqb_str (if truthy status then status else lit "unanswered")
                    (lit "answered")) eqn:Q; [|exact Q].
  destruct (truthy summary); reflexivity.
Qed.

(** The rewrite of the Evidence and Status fields leaves the Last Updated
    field as it reads, for every record and every summary of one line without
    backslash; and it turns the status of a record without an answer into
    [partial] when there is a summary. *)
Lemma apply_status_keeps_last_updated (summary : str) (e : entry) :
  simple summary = true ->
  exists b,
    apply_status summary e = Ok b
    /\ _parse_field b (lit "Last Updated")
       = _parse_field (entry_block e) (lit "Last Updated")
    /\ (truthy (_parse_field (entry_block e) (lit "Answer")) = false ->
        truthy summary = true ->
        has_field (entry_block e) (lit "Status") = true ->
        _parse_field b (lit "Status") = lit "partial").
Proof.
  intros Hs. destruct (simple_inv _ Hs) as [H1 H2].
  set (b0 := set_field (entry_block e) (lit "Evidence") summary).
  assert (E : _replace_field (entry_block e) (lit "Evidence") summary = Ok b0)
    by now apply replace_field_lines.
  assert (St : forall v, simple v = true ->
             _replace_field b0 (lit "Status") v = Ok (set_field b0 (lit "Status") v)).
  { intros v Hv. apply simple_inv in Hv as [? ?]. now apply replace_field_lines. }
  assert (K : forall v, simple v = true ->
             _parse_field (set_field b0 (lit "Status") v) (lit "Last Updated")
             = _parse_field (entry_block e) (lit "Last Updated")).
  { intros v Hv. unfold b0.
    now rewrite !parse_set_field_other by (reflexivity || assumption). }
  unfold apply_status. rewrite one_line_truthy_or, E. cbn [bind].
  destruct (eqb_str (reconcile_status _ _ _) (lit "answered")) eqn:R; cbn [negb bind].
  - rewrite St by reflexivity. cbn [bind]. eexists. split; [reflexivity|].
    split; [now apply K|].
    intros Ha. now rewrite reconcile_status_no_answer in R.
  - destruct (truthy summary) eqn:T.
    + rewrite St by reflexivity. eexists. split; [reflexivity|].
      split; [now apply K|]. intros _ _ Hf.
      apply parse_set_field_same; try reflexivity.
      unfold b0. now rewrite has_set_field_other by (reflexivity || assumption).
    + rewrite St by reflexivity. eexists. split; [reflexivity|].
      split; [now apply K|]. intros _ Hd. discriminate Hd.
Qed.

(** The answer that is written holds single spaces for the blanks of the
    answer file, and otherwise characters of the file. *)
Lemma match_spaces_re prev s :
  match_here spaces_re [] [] prev s =
  match s with
  | c :: t => if is_space c then Some (span_drop is_space t, []) else None
  | [] => None
  end.
Proof.
  unfold spaces_re, plus. destruct s as [|c t]; [reflexivity|].
  rewrite match_one_cons. destruct (is_space c); [|reflexivity].
  now rewrite match_star_greedy.
Qed.

Lemma sub_spaces_chars s : forall skip prev c,
  In c (sub_from spaces_re [TChar 32%N] skip prev s) ->
  c = 32%N \/ (In c s /\ is_space c = false).
Proof.
  induction s as [|x t IH]; intros skip prev c H.
  - destruct skip; cbn [sub_from] in H; [|contradiction].
    unfold match_at in H. rewrite match_spaces_re in H. contradiction.
  - destruct skip as [|k].
    + cbn [sub_from] in H. unfold match_at in H. rewrite match_spaces_re in H.
      destruct (is_space x) eqn:E.
      * cbn [m_len m_groups] in H.
        assert (L : length (x :: t) - length (span_drop is_space t) <> 0).
        { assert (Hl := span_drop_length is_space t). cbn [length]. lia. }
        apply Nat.eqb_neq in L. rewrite L in H.
        cbn [expand flat_map app] in H. destruct H as [<-|H]; [now left|].
        apply IH in H as [->|[H1 H2]]; [now left|right].
        split; [now right|exact H2].
      * destruct H as [<-|H]; [right; split; [now left|exact E]|].
        apply IH in H as [->|[H1 H2]]; [now left|right].
        split; [now right|exact H2].
    + cbn [sub_from] in H. apply IH in H as [->|[H1 H2]]; [now left|right].
      split; [now right|exact H2].
Qed.

Lemma lstrip_in c s : In c (lstrip s) -> In c s.
Proof.
  induction s as [|x t IH]; simpl; [tauto|].
  destruct (is_space x); [|tauto]. intros H. right. now apply IH.
Qed.

Lemma strip_in c s : In c (strip s) -> In c s.
Proof.
  unfold strip, rstrip. intros H. apply in_rev in H. apply lstrip_in in H.
  apply in_rev in H. now apply lstrip_in in H.
Qed.

Lemma answer_text_simple args :
  plain (raw_answer args) = true -> simple (answer_text_of args) = true.
Proof.
  intros Hp. unfold simple, one_line, plain in *.
  rewrite forallb_forall in Hp.
  apply andb_true_iff. split; apply forallb_forall; intros c Hc;
    apply strip_in in Hc; apply sub_spaces_chars in Hc as [->|[Hin Hs]];
    try reflexivity.
  - unfold dot. destruct (N.eqb c NL) eqn:E; [|reflexivity].
    apply N.eqb_eq in E. subst c. discriminate Hs.
  - now apply Hp.
Qed.

Section RecordAnswerFacts.

Variable clock : nat -> str.
Variable args : record_args.
Variable answer_text : str.

Hypothesis status_simple : simple (status args) = true.
Hypothesis confidence_simple : simple (confidence args) = true.
Hypothesis answer_simple : simple answer_text = true.
Hypothesis clock_simple : forall n, simple (clock n) = true.

Lemma record_entries_spec entries : forall new_content updated tick,
  record_entries clock args answer_text entries new_content updated tick =
  Ok (rewrite_matching clock args answer_text (matching args entries)
        new_content tick,
      updated || negb (length (matching args entries) =? 0),
      tick + length (matching args entries)).
Proof.
  induction entries as [|e rest IH]; intros nc updated tick.
  - simpl. now rewrite orb_false_r, Nat.add_0_r.
  - cbn [record_entries matching filter].
    destruct (eqb_str (entry_id e) (question_id args)) eqn:E; cbn [negb].
    + rewrite record_block_recorded by (assumption || apply clock_simple).
      cbn [bind]. rewrite IH. fold (matching args rest).
      cbn [rewrite_matching length Nat.eqb negb orb]. rewrite orb_true_r.
      rewrite Nat.add_succ_r. reflexivity.
    + apply IH.
Qed.

Lemma entries_of_ext st st' p : st' p = st p -> entries_of st' p = entries_of st p.
Proof. unfold entries_of. now intros ->. Qed.

Lemma hits_ext st st' ps :
  (forall p, In p ps -> st' p = st p) -> hits args st' ps = hits args st ps.
Proof.
  intros H. unfold hits. f_equal.
  induction ps as [|p ps IH]; [reflexivity|]. simpl.
  rewrite (entries_of_ext st st' p) by (apply H; now left).
  rewrite IH; [reflexivity|]. intros q Hq. apply H. now right.
Qed.

Lemma hits_cons st p ps :
  hits args st (p :: ps) = length (matching args (entries_of st p)) + hits args st ps.
Proof. unfold hits. simpl. now rewrite length_app. Qed.

Lemma write_other st p c q : q <> p -> write st p c q = st q.
Proof.
  intros H. unfold write. destruct (eqb_str q p) eqn:E; [|reflexivity].
  apply eqb_str_eq in E. contradiction.
Qed.

Lemma write_same st p c : write st p c p = Some c.
Proof. unfold write. now rewrite eqb_str_refl. Qed.

(** The loop over the pillars, for reports that parse. *)
Lemma record_pillars_spec ps : forall st updated tick,
  NoDup ps -> reports_parse st ps ->
  exists st',
    record_pillars clock args answer_text ps st updated tick =
    (st', Ok (updated || negb (hits args st ps =? 0)))
    /\ (hits args st ps = 0 -> st' = st)
    /\ (forall p, In p ps ->
          exists t,
            st' p =
            option_map
              (fun content =>
                 rewrite_matching clock args answer_text
                   (matching args (entries_of st p)) content t)
              (st p))
    /\ (forall p, ~ In p ps -> st' p = st p).
Proof.
  induction ps as [|p ps IH]; intros st updated tick Hnd Hparse.
  - exists st. cbn [record_pillars]. unfold hits. simpl.
    rewrite orb_false_r. repeat split; try reflexivity.
    intros p [].
  - inversion Hnd as [|? ? Hnotin Hnd']; subst.
    cbn [record_pillars]. rewrite hits_cons.
    destruct (st p) as [content|] eqn:Sp.
    + destruct (Hparse p content (or_introl eq_refl) Sp) as [entries Pe].
      assert (Ee : entries_of st p = entries) by
          (unfold entries_of; now rewrite Sp, Pe).
      rewrite Pe. cbn [bind]. rewrite record_entries_spec.
      set (nc := rewrite_matching clock args answer_text
                   (matching args entries) content tick).
      set (st1 := if eqb_str nc content then st else write st p nc).
      assert (Hst1 : forall q, q <> p -> st1 q = st q).
      { intros q Hq. unfold st1. destruct (eqb_str nc content);
          [reflexivity|now apply write_other]. }
      assert (Hst1p : st1 p = Some nc).
      { unfold st1. destruct (eqb_str nc content) eqn:En.
        - apply eqb_str_eq in En. now rewrite En.
        - apply write_same. }
      assert (Hrest : forall q, In q ps -> st1 q = st q).
      { intros q Hq. apply Hst1. intros ->. contradiction. }
      destruct (IH st1 (updated || negb (length (matching args entries) =? 0))
                   (tick + length (matching args entries)) Hnd')
        as [st' [Hrun [Hzero [Hin Hout]]]].
      { intros q c Hq Hc. rewrite Hrest in Hc by exact Hq.
        apply (Hparse q c); [now right|exact Hc]. }
      exists st'. rewrite Hrun. rewrite (hits_ext st st1 ps Hrest) in *.
      rewrite Ee. split; [|split; [|split]].
      * f_equal. f_equal. rewrite <- orb_assoc. f_equal.
        destruct (length (matching args entries)); simpl; [reflexivity|].
        reflexivity.
      * intros Hz.
        assert (Hm : matching args entries = []).
        { destruct (matching args entries); [reflexivity|simpl in Hz; lia]. }
        rewrite Hzero by (rewrite Hm in Hz; exact Hz).
        unfold st1, nc. rewrite Hm. cbn [rewrite_matching].
        now rewrite eqb_str_refl.
      * intros q [<-|Hq].
        -- exists tick. rewrite Hout by exact Hnotin.
           rewrite Hst1p, Sp, Ee. reflexivity.
        -- destruct (Hin q Hq) as [t Ht]. exists t. rewrite Ht.
           rewrite (entries_of_ext st st1 q) by now apply Hrest.
           now rewrite Hrest.
      * intros q Hq. rewrite Hout by (intros H; apply Hq; now right).
        apply Hst1. intros ->. apply Hq. now left.
    + assert (Ee : entries_of st p = []) by (unfold entries_of; now rewrite Sp).
      rewrite Ee. cbn [matching filter length Nat.add].
      destruct (IH st updated tick Hnd') as [st' [Hrun [Hzero [Hin Hout]]]].
      { intros q c Hq Hc. apply (Hparse q c); [now right|exact Hc]. }
      exists st'. rewrite Hrun. split; [reflexivity|]. split; [exact Hzero|].
      split.
      * intros q [<-|Hq].
        -- exists 0. rewrite Hout by exact Hnotin. now rewrite Sp.
        -- now apply Hin.
      * intros q Hq. apply Hout. intros H. apply Hq. now right.
Qed.

End RecordAnswerFacts.

Lemma PILLARS_NoDup : NoDup PILLARS.
Proof.
  unfold PILLARS.
  repeat (constructor;
          [cbn [In]; intros H;
           repeat (destruct H as [H|H]; [vm_compute in H; discriminate H|]);
           exact H|]).
  constructor.
Qed.

(** C10: the command fails although a record carries the identifier.  The
    answer is handed to [re.sub] as a replacement template; a backslash that is
    no escape of [re] raises [re.error] at the record that was found, and the
    report is left as it was. *)
Lemma record_answer_bad_escape :
  hits path_args one_record_store PILLARS = 1
  /\ cmd_record_answer (fun _ => lit "2026-02-02T00:00:00+00:00")
                       path_args one_record_store
     = (one_record_store, Raise ReError).
Proof. split; vm_compute; reflexivity. Qed.

(** The recording of an answer where nothing else raises.  When every report
    that is there parses, the answer file holds no backslash, and the status,
    the confidence and the clock readings are of one line without backslash:
    the command raises the not-found error exactly when no record of
    any report carries the identifier, and then no report is changed; otherwise
    it returns, and the report of every pillar is the old one in which each of
    its records with the identifier, not only the first, has taken the
    answer. *)
Theorem record_answer_all (clock : nat -> str) (args : record_args) (st : store) :
  simple (status args) = true -> simple (confidence args) = true ->
  plain (raw_answer args) = true ->
  (forall n, simple (clock n) = true) ->
  reports_parse st PILLARS ->
  exists st',
    cmd_record_answer clock args st =
    (st', if hits args st PILLARS =? 0 then Raise NOT_FOUND else Ok tt)
    /\ (hits args st PILLARS = 0 -> st' = st)
    /\ (forall p, In p PILLARS ->
          exists t,
            st' p =
            option_map
              (fun content =>
                 rewrite_matching clock args (answer_text_of args)
                   (matching args (entries_of st p)) content t)
              (st p))
    /\ (forall p, ~ In p PILLARS -> st' p = st p).
Proof.
  intros Hs Hc Ha Hn Hp. apply answer_text_simple in Ha.
  destruct (record_pillars_spec clock args (answer_text_of args) Hs Hc Ha Hn
              PILLARS st false 0 PILLARS_NoDup Hp)
    as [st' [Hrun [Hzero [Hin Hout]]]].
  exists st'. unfold cmd_record_answer. fold (answer_text_of args).
  rewrite Hrun. cbn [orb].
  split; [|auto].
  destruct (hits args st PILLARS =? 0); reflexivity.
Qed.

Lemma record_answer_all_fresh :
  exists st',
    cmd_record_answer (fun _ => lit "2026-02-02T00:00:00+00:00")
                      bogus_args one_record_store =
    (st', if hits bogus_args one_record_store PILLARS =? 0
          then Raise NOT_FOUND else Ok tt)
    /\ (hits bogus_args one_record_store PILLARS = 0 -> st' = one_record_store)
    /\ (forall p, In p PILLARS ->
          exists t,
            st' p =
            option_map
              (fun content =>
                 rewrite_matching (fun _ => lit "2026-02-02T00:00:00+00:00")
                   bogus_args (answer_text_of bogus_args)
                   (matching bogus_args (entries_of one_record_store p)) content t)
              (one_record_store p))
    /\ (forall p, ~ In p PILLARS -> st' p = one_record_store p).
Proof.
  apply (record_answer_all (fun _ => lit "2026-02-02T00:00:00+00:00")
           bogus_args one_record_store); try reflexivity.
  intros p content Hin Hc. unfold one_record_store in Hc.
  destruct (eqb_str p (lit "security")); [|discriminate].
  injection Hc as <-. eexists. vm_compute. reflexivity.
Defined.

(** ** The characters of a rewritten report *)

Section Characters.

Variable f : char -> bool.

Lemma forallb_join_lines ls :
  Forall (fun l => forallb f l = true) ls ->
  (2 <= length ls -> f NL = true) ->
  forallb f (join [NL] ls) = true.
Proof.
  induction ls as [|l ls IH]; intros Hl Hn; [reflexivity|].
  inversion Hl as [|? ? Hl1 Hl2]; subst.
  destruct ls as [|l2 ls]; [exact Hl1|].
  change (join [NL] (l :: l2 :: ls)) with (l ++ [NL] ++ join [NL] (l2 :: ls)).
  rewrite !forallb_app, Hl1. cbn [forallb andb].
  rewrite Hn by (cbn [length]; lia). cbn [andb].
  apply IH; [exact Hl2|]. intros _. apply Hn. cbn [length]. lia.
Qed.

Lemma forallb_lines s :
  forallb f s = true ->
  Forall (fun l => forallb f l = true) (lines s)
  /\ (2 <= length (lines s) -> f NL = true).
Proof.
  induction s as [|c t IH]; intros H.
  - cbn [lines length]. split; [now repeat constructor|lia].
  - cbn [forallb] in H. apply andb_true_iff in H as [Hc Ht].
    destruct (IH Ht) as [IH1 IH2]. cbn [lines].
    destruct (N.eqb c NL) eqn:E.
    + apply N.eqb_eq in E. subst c. split; [now constructor|now intros _].
    + destruct (lines t) as [|l ls].
      * split; [|cbn [length]; lia]. constructor; [|constructor].
        cbn [forallb]. now rewrite Hc.
      * inversion IH1; subst. split.
        -- constructor; [|assumption]. cbn [forallb]. now rewrite Hc.
        -- exact IH2.
Qed.

Lemma forallb_set_field block field value :
  forallb f block = true -> forallb f (field_line field value) = true ->
  forallb f (set_field block field value) = true.
Proof.
  intros Hb Hv. destruct (forallb_lines block Hb) as [H1 H2].
  unfold set_field. apply forallb_join_lines.
  - apply Forall_map. revert H1. apply Forall_impl. intros l Hl.
    unfold set_line. now destruct (is_field_line field l).
  - now rewrite length_map.
Qed.

Lemma forallb_replace_from old new s : forall skip,
  forallb f s = true -> forallb f new = true ->
  forallb f (replace_from old new skip s) = true.
Proof.
  induction s as [|c t IH]; intros skip Hs Hn; [reflexivity|].
  cbn [forallb] in Hs. apply andb_true_iff in Hs as [Hc Ht].
  cbn [replace_from]. destruct skip as [|k]; [|now apply IH].
  destruct (startswith (c :: t) old).
  - rewrite forallb_app, Hn. now apply IH.
  - cbn [forallb]. rewrite Hc. now apply IH.
Qed.

Lemma forallb_replace s old new :
  forallb f s = true -> forallb f new = true ->
  forallb f (replace s old new) = true.
Proof.
  intros Hs Hn. unfold replace. destruct old as [|o old].
  - rewrite forallb_app, Hn. cbn [andb].
    induction s as [|c t IH]; [reflexivity|].
    cbn [forallb] in Hs. apply andb_true_iff in Hs as [Hc Ht].
    cbn [flat_map app forallb]. rewrite Hc, forallb_app, Hn. now apply IH.
  - now apply forallb_replace_from.
Qed.

End Characters.

(** A replacement changes a text only when the old text occurs in it. *)
Lemma replace_occurs s old new :
  replace s old new = s \/ (forall c, In c old -> In c s).
Proof.
  unfold replace. destruct old as [|o old]; [right; intros c []|].
  induction s as [|c t IH]; [now left|].
  cbn [replace_from]. destruct (startswith (c :: t) (o :: old)) eqn:E.
  - right. apply startswith_inv in E. intros x Hx. rewrite E.
    apply in_or_app. now left.
  - destruct IH as [IH|IH]; [left; now rewrite IH|].
    right. intros x Hx. right. now apply IH.
Qed.

Lemma forallb_rewrite_matching (f : char -> bool) clock args answer_text :
  forallb f (lit ": ") = true ->
  forallb f (lit "Status") = true -> forallb f (lit "Confidence") = true ->
  forallb f (lit "Answer") = true -> forallb f (lit "Last Updated") = true ->
  forallb f (status args) = true -> forallb f (confidence args) = true ->
  forallb f answer_text = true -> (forall n, forallb f (clock n) = true) ->
  forall matches content tick,
    forallb f content = true ->
    forallb f (rewrite_matching clock args answer_text matches content tick) = true.
Proof.
  intros F0 F1 F2 F3 F4 Hs Hc Ha Hn.
  assert (L : forall field value, forallb f field = true ->
                forallb f value = true ->
                forallb f (field_line field value) = true).
  { intros field value H1 H2. unfold field_line.
    now rewrite !forallb_app, H1, F0, H2. }
  induction matches as [|e rest IH]; intros content tick Hcont; [exact Hcont|].
  cbn [rewrite_matching]. apply IH.
  destruct (replace_occurs content (entry_block e)
              (recorded args answer_text (clock tick) (entry_block e)))
    as [-> | Hin]; [exact Hcont|].
  apply forallb_replace; [exact Hcont|].
  assert (Hb : forallb f (entry_block e) = true).
  { apply forallb_forall. intros c Hx.
    rewrite forallb_forall in Hcont. now apply Hcont, Hin. }
  unfold recorded. repeat apply forallb_set_field; auto.
Qed.

(** The answer that is written is as a file hands it back when the answer
    file is. *)
Lemma answer_text_storable args :
  storable (raw_answer args) = true -> storable (answer_text_of args) = true.
Proof.
  unfold storable. rewrite !forallb_forall. intros H c Hx.
  unfold answer_text_of in Hx. apply strip_in in Hx.
  apply sub_spaces_chars in Hx as [->|[Hin _]]; [reflexivity|now apply H].
Qed.

(** ** What the validation reports *)

Lemma validate_entries_status pillar entries : forall ids e,
  In e entries ->
  truthy (entry_status e) = true ->
  mem (entry_status e) STATUS_VALUES = false ->
  In (lit "invalid status " ++ entry_status e ++ lit " in " ++ entry_id e)
     (validate_entries pillar entries ids).
Proof.
  induction entries as [|x rest IH]; intros ids e Hin Ht Hm; [destruct Hin|].
  destruct Hin as [<-|Hin];
    cbn [validate_entries]; apply in_or_app; right; apply in_or_app.
  - left. rewrite Ht, Hm. now left.
  - right. apply in_or_app. right. now apply IH.
Qed.

Lemma validate_entries_confidence pillar entries : forall ids e,
  In e entries ->
  truthy (entry_confidence e) = true ->
  mem (entry_confidence e) CONFIDENCE_VALUES = false ->
  In (lit "invalid confidence " ++ entry_confidence e ++ lit " in " ++ entry_id e)
     (validate_entries pillar entries ids).
Proof.
  induction entries as [|x rest IH]; intros ids e Hin Ht Hm; [destruct Hin|].
  destruct Hin as [<-|Hin];
    cbn [validate_entries]; apply in_or_app; right; apply in_or_app; right;
    apply in_or_app.
  - left. rewrite Ht, Hm. now left.
  - right. now apply IH.
Qed.

Lemma validate_pillars_reports ps st :
  reports_parse st ps ->
  exists errors,
    validate_pillars ps st = Ok errors
    /\ forall p content entries,
         In p ps -> st p = Some content ->
         _parse_questions_from_report content = Ok entries ->
         incl (validate_entries p entries []) errors.
Proof.
  induction ps as [|p ps IH]; intros Hp.
  - exists []. split; [reflexivity|]. intros p content entries [].
  - destruct IH as [errors [Hv Hi]].
    { intros q c Hq Hc. apply (Hp q c); [now right|exact Hc]. }
    cbn [validate_pillars]. destruct (st p) as [content|] eqn:Sp.
    + destruct (Hp p content (or_introl eq_refl) Sp) as [entries Pe].
      rewrite Pe, Hv. cbn [bind]. eexists. split; [reflexivity|].
      intros q c es [<-|Hq] Hc He.
      * rewrite Sp in Hc. injection Hc as <-. rewrite Pe in He.
        injection He as <-. now apply incl_appl.
      * apply incl_appr. now apply (Hi q c es).
    + rewrite Hv. cbn [bind]. eexists. split; [reflexivity|].
      intros q c es [<-|Hq] Hc He; [congruence|].
      apply incl_tl. now apply (Hi q c es).
Qed.

(** C4, amended.  [cmd_record_answer] checks neither the status nor the
    confidence against the enums.  When every report that is there parses,
    the answer is as its file hands it back and holds no backslash, and the
    status, the confidence and the readings of the clock hold no line
    boundary, no backslash and no surrogate, then, for values in the enums or
    not: the command raises the not-found error exactly
    when no record of any report carries the identifier, and otherwise
    returns; the report of every pillar is the old one in which the block of
    each record with the identifier is replaced by the block with the four
    fields rewritten, and no other file is touched; that block is what
    [record_block] returns, and its Status and Confidence fields, where the
    block has such a line, read as the arguments, stripped; and a report that
    was as a file hands it back, without carriage return and surrogate, is
    still so.  The enums are checked by
    [cmd_validate]: when every report that is there parses, it returns errors
    among which are [invalid status] and [invalid confidence] for every record
    of a report whose status, or confidence, is not empty and not in the
    enum. *)
Theorem record_answer_unchecked
    (clock : nat -> str) (args : record_args) (st : store) :
  clean (status args) = true -> clean (confidence args) = true ->
  plain (raw_answer args) = true -> storable (raw_answer args) = true ->
  (forall n, clean (clock n) = true) ->
  reports_parse st PILLARS ->
  (exists st',
     cmd_record_answer clock args st =
     (st', if hits args st PILLARS =? 0 then Raise NOT_FOUND else Ok tt)
     /\ (forall p, In p PILLARS ->
           exists t,
             st' p =
             option_map
               (fun content =>
                  rewrite_matching clock args (answer_text_of args)
                    (matching args (entries_of st p)) content t)
               (st p))
     /\ (forall p, ~ In p PILLARS -> st' p = st p)
     /\ (forall p content content',
           st p = Some content -> st' p = Some content' ->
           storable content = true -> storable content' = true))
  /\ (forall block n,
        let b := recorded args (answer_text_of args) (clock n) block in
        record_block args (answer_text_of args) (clock n) block = Ok b
        /\ (has_field block (lit "Status") = true ->
            _parse_field b (lit "Status") = strip (status args))
        /\ (has_field block (lit "Confidence") = true ->
            _parse_field b (lit "Confidence") = strip (confidence args)))
  /\ (forall s, reports_parse s PILLARS ->
        exists errors,
          cmd_validate s = Ok errors
          /\ forall p content entries e,
               In p PILLARS -> s p = Some content ->
               _parse_questions_from_report content = Ok entries ->
               In e entries ->
               (truthy (entry_status e) = true ->
                mem (entry_status e) STATUS_VALUES = false ->
                In (lit "invalid status " ++ entry_status e
                    ++ lit " in " ++ entry_id e) errors)
               /\ (truthy (entry_confidence e) = true ->
                   mem (entry_confidence e) CONFIDENCE_VALUES = false ->
                   In (lit "invalid confidence " ++ entry_confidence e
                       ++ lit " in " ++ entry_id e) errors)).
Proof.
  intros Hs Hc Ha Hst Hn Hp.
  assert (Hs' := clean_simple _ Hs). assert (Hc' := clean_simple _ Hc).
  assert (Ha' := answer_text_simple _ Ha).
  assert (Hn' : forall n, simple (clock n) = true)
    by (intros n; apply clean_simple, Hn).
  split; [|split].
  - destruct (record_pillars_spec clock args (answer_text_of args) Hs' Hc' Ha' Hn'
                PILLARS st false 0 PILLARS_NoDup Hp)
      as [st' [Hrun [_ [Hin Hout]]]].
    exists st'. unfold cmd_record_answer. fold (answer_text_of args).
    rewrite Hrun. cbn [orb].
    split; [destruct (hits args st PILLARS =? 0); reflexivity|].
    split; [exact Hin|]. split; [exact Hout|].
    intros p content content' Sp Sp' Hcr.
    destruct (in_dec (list_eq_dec N.eq_dec) p PILLARS) as [Hi|Hi].
    + destruct (Hin p Hi) as [t Ht]. rewrite Sp, Sp' in Ht. cbn [option_map] in Ht.
      injection Ht as ->.
      apply forallb_rewrite_matching; try reflexivity; try exact Hcr.
      * now apply clean_storable.
      * now apply clean_storable.
      * now apply answer_text_storable.
      * intros n. apply clean_storable, Hn.
    + rewrite (Hout p Hi), Sp in Sp'. now injection Sp' as <-.
  - intros block n b. split.
    + now apply record_block_recorded.
    + now apply recorded_reads.
  - intros s Hps. destruct (validate_pillars_reports PILLARS s Hps)
      as [errors [Hv Hi]].
    exists errors. split; [exact Hv|].
    intros p content entries e Hin Sc Pe He. split; intros Ht Hm;
      apply (Hi p content entries Hin Sc Pe).
    + now apply validate_entries_status.
    + now apply validate_entries_confidence.
Qed.

Lemma record_answer_unchecked_witness :
  let clock := fun _ : nat => lit "2026-02-02T00:00:00+00:00" in
  (exists st',
     cmd_record_answer clock bogus_args one_record_store =
     (st', if hits bogus_args one_record_store PILLARS =? 0
           then Raise NOT_FOUND else Ok tt)
     /\ (forall p, In p PILLARS ->
           exists t,
             st' p =
             option_map
               (fun content =>
                  rewrite_matching clock bogus_args (answer_text_of bogus_args)
                    (matching bogus_args (entries_of one_record_store p)) content t)
               (one_record_store p))
     /\ (forall p, ~ In p PILLARS -> st' p = one_record_store p)
     /\ (forall p content content',
           one_record_store p = Some content -> st' p = Some content' ->
           storable content = true -> storable content' = true))
  /\ (forall block n,
        let b := recorded bogus_args (answer_text_of bogus_args) (clock n) block in
        record_block bogus_args (answer_text_of bogus_args) (clock n) block = Ok b
        /\ (has_field block (lit "Status") = true ->
            _parse_field b (lit "Status") = strip (status bogus_args))
        /\ (has_field block (lit "Confidence") = true ->
            _parse_field b (lit "Confidence") = strip (confidence bogus_args)))
  /\ (forall s, reports_parse s PILLARS ->
        exists errors,
          cmd_validate s = Ok errors
          /\ forall p content entries e,
               In p PILLARS -> s p = Some content ->
               _parse_questions_from_report content = Ok entries ->
               In e entries ->
               (truthy (entry_status e) = true ->
                mem (entry_status e) STATUS_VALUES = false ->
                In (lit "invalid status " ++ entry_status e
                    ++ lit " in " ++ entry_id e) errors)
               /\ (truthy (entry_confidence e) = true ->
                   mem (entry_confidence e) CONFIDENCE_VALUES = false ->
                   In (lit "invalid confidence " ++ entry_confidence e
                       ++ lit " in " ++ entry_id e) errors)).
Proof.
  cbv zeta.
  apply (record_answer_unchecked (fun _ => lit "2026-02-02T00:00:00+00:00")
           bogus_args one_record_store); try reflexivity.
  intros p content Hin Hc. unfold one_record_store in Hc.
  destruct (eqb_str p (lit "security")); [|discriminate].
  injection Hc as <-. eexists. vm_compute. reflexivity.
Defined.

(** ** Identity resolution *)




Lemma insert_by_in key x l y : In y (insert_by key x l) <-> y = x \/ In y l.
Proof.
  induction l as [|z l IH]; simpl.
  - intuition.
  - destruct (leb_str (key x) (key z)); simpl; [intuition|].
    rewrite IH. intuition.
Qed.

Lemma sort_by_in key l y : In y (sort_by key l) <-> In y l.
Proof.
  induction l as [|x l IH]; simpl; [tauto|].
  rewrite insert_by_in, IH. intuition.
Qed.



Lemma last_in {A} (l : list A) d : l <> [] -> In (last l d) l.
Proof.
  induction l as [|a l IH]; intros H; [contradiction|].
  destruct l as [|b l]; [now left|]. right. apply IH. discriminate.
Qed.


Lemma candidates_of_prefix short_id title parent issues c :
  In c (candidates_of short_id title parent issues) ->
  startswith (get (issue_id c) []) short_id = true.
Proof.
  unfold candidates_of. intros H.
  destruct (truthy parent); [apply filter_In in H as [H _]|];
    (destruct (truthy title); [apply filter_In in H as [H _]|]);
    now apply filter_In in H as [_ H].
Qed.

Lemma candidate_has_id short_id title parent issues c :
  truthy short_id = true ->
  In c (candidates_of short_id title parent issues) ->
  exists full, issue_id c = Some full.
Proof.
  intros Ht Hc. apply candidates_of_prefix in Hc.
  destruct (issue_id c) as [full|]; [now exists full|].
  destruct short_id; discriminate.
Qed.

(** *** The statement of the resolution, in words of its own *)












(** With the title and the parent given, the entity that is returned is the
    latest of those that carry them, not the latest under the prefix. *)
Example resolve_latest :
  resolve_in (lit "kanbus-7f3") (lit "SEC-1 How?") (lit "kanbus-e1") mixed_snapshot
  = Ok (lit "kanbus-7f3b-55-66-77-88")
  /\ resolve_in (lit "kanbus-7f3") [] [] mixed_snapshot
     = Ok (lit "kanbus-7f3d-dd-ee-ff-00").
Proof. split; vm_compute; reflexivity. Qed.

(** ** Tracker sync *)

Section SyncFacts.

Variable tracker : list command -> command -> outcome.
Variable json_issues : str -> option (list issue).

Lemma stops_ret {A} (a : A) : stops_at_failure tracker (ret a).
Proof.
  intros h. exists []. simpl. rewrite app_nil_r. repeat split.
  - destruct h1; discriminate.
  - destruct h1; discriminate.
  - discriminate.
Qed.

Lemma stops_lift {A} (r : result A) :
  (forall msg, r <> Raise (WAIError msg)) ->
  stops_at_failure tracker (lift r).
Proof.
  intros Hr h. exists []. simpl. rewrite app_nil_r. repeat split.
  - destruct h1; discriminate.
  - destruct h1; discriminate.
  - intros msg H. now apply Hr in H.
Qed.

Lemma app_cons_split {A} (e1 e2 h1 h2 : list A) c :
  e1 ++ e2 = h1 ++ c :: h2 ->
  (exists t, e1 = h1 ++ c :: t /\ h2 = t ++ e2)
  \/ (exists t, h1 = e1 ++ t /\ e2 = t ++ c :: h2).
Proof.
  revert h1; induction e1 as [|x e1 IH]; intros h1 H.
  - right. exists h1. now split.
  - destruct h1 as [|y h1]; simpl in H.
    + injection H as <- <-. left. exists e1. now split.
    + injection H as <- H. destruct (IH h1 H) as [[t [-> ->]]|[t [-> ->]]].
      * left. exists t. now split.
      * right. exists t. now split.
Qed.

Lemma stops_bind {A B} (m : io A) (k : A -> io B) :
  stops_at_failure tracker m -> (forall a, stops_at_failure tracker (k a)) ->
  stops_at_failure tracker (io_bind m k).
Proof.
  intros Hm Hk h. destruct (Hm h) as [e1 [H1 [F1 W1]]].
  unfold io_bind. destruct (m h) as [h' [a|e]] eqn:M; simpl in *; subst h'.
  - destruct (Hk a (h ++ e1)) as [e2 [H2 [F2 W2]]].
    exists (e1 ++ e2). rewrite H2, app_assoc. split; [reflexivity|]. split.
    + intros h1 c h2 E Hf.
      apply app_cons_split in E as [[t [-> ->]]|[t [-> ->]]].
      * destruct (F1 h1 c t eq_refl Hf) as [_ [msg Hmsg]]. discriminate.
      * rewrite app_assoc in Hf. exact (F2 t c h2 eq_refl Hf).
    + intros msg Hr. destruct (W2 msg Hr) as [h1 [c [-> Hf]]].
      exists (e1 ++ h1), c. rewrite <- !app_assoc in *. now split.
  - exists e1. split; [reflexivity|]. split.
    + intros h1 c h2 E Hf. destruct (F1 h1 c h2 E Hf) as [-> [msg Hmsg]].
      split; [reflexivity|]. exists msg. injection Hmsg as ->. reflexivity.
    + intros msg Hr. injection Hr as ->. exact (W1 msg eq_refl).
Qed.

Lemma single_split {A} (cmd c : A) h1 h2 :
  [cmd] = h1 ++ c :: h2 -> h1 = [] /\ c = cmd /\ h2 = [].
Proof.
  destruct h1 as [|x h1]; simpl; intros H.
  - injection H as -> <-. auto.
  - injection H as _ H. destruct h1; discriminate.
Qed.

(** A computation that gives one command. *)
Lemma stops_single {A} (m : io A) cmd :
  (forall h, fst (m h) = h ++ [cmd]) ->
  (forall h, failed tracker h cmd = true ->
             exists msg, snd (m h) = Raise (WAIError msg)) ->
  (forall h msg, snd (m h) = Raise (WAIError msg) -> failed tracker h cmd = true) ->
  stops_at_failure tracker m.
Proof.
  intros H1 H2 H3 h. exists [cmd]. split; [apply H1|]. split.
  - intros h1 c h2 E F. apply single_split in E as [-> [-> ->]].
    rewrite app_nil_r in F. split; [reflexivity|now apply H2].
  - intros msg Hr. exists [], cmd. rewrite app_nil_r.
    split; [reflexivity|now apply (H3 h msg)].
Qed.

Lemma stops_comment issue_id text :
  stops_at_failure tracker (_kanbus_comment tracker issue_id text).
Proof.
  apply stops_single with (cmd := [lit "kanbus"; lit "comment"; issue_id; text]);
    intros h; unfold _kanbus_comment, io_bind, _run, ret, failed, tolerated;
    cbn [is_update nth andb negb];
    destruct (tracker h _) as [out|err]; simpl; try reflexivity;
    try discriminate; eauto.
Qed.

Lemma stops_update issue_id status :
  stops_at_failure tracker (_kanbus_update_status tracker issue_id status).
Proof.
  apply stops_single
    with (cmd := [lit "kanbus"; lit "update"; issue_id; lit "--status"; status]);
    intros h; unfold _kanbus_update_status, _run, failed, tolerated;
    change (is_update [lit "kanbus"; lit "update"; issue_id; lit "--status"; status])
      with true; cbn [andb];
    destruct (tracker h _) as [out|err]; cbn [fst snd];
    try reflexivity; try discriminate;
    destruct (contains _ _); cbn [fst snd negb];
    try reflexivity; try discriminate; eauto.
Qed.

Lemma resolve_in_not_wai short_id title parent issues msg :
  resolve_in short_id title parent issues <> Raise (WAIError msg).
Proof.
  unfold resolve_in. destruct (candidates_of _ _ _ _); [discriminate|].
  destruct (issue_id _); discriminate.
Qed.

Lemma stops_resolve short_id title parent issues :
  stops_at_failure tracker
    (_resolve_full_id tracker json_issues short_id title parent (Some issues)).
Proof.
  unfold _resolve_full_id. destruct (_is_full_id short_id).
  - apply stops_ret.
  - apply stops_lift. intros msg. apply resolve_in_not_wai.
Qed.

Lemma stops_for_each {A} (f : A -> io unit) l :
  (forall a, stops_at_failure tracker (f a)) ->
  stops_at_failure tracker (for_each f l).
Proof.
  intros Hf. induction l as [|a l IH]; simpl.
  - apply stops_ret.
  - apply stops_bind; [apply Hf|intros _; exact IH].
Qed.

Lemma mapM_not_wai {A B} (f : A -> result B) l msg :
  (forall a, f a <> Raise (WAIError msg)) -> mapM f l <> Raise (WAIError msg).
Proof.
  intros Hf. induction l as [|a l IH]; simpl; [discriminate|].
  specialize (Hf a). destruct (f a); simpl.
  - destruct (mapM f l); simpl; [discriminate|].
    intros H. apply IH. injection H as ->. reflexivity.
  - intros H. apply Hf. injection H as ->. reflexivity.
Qed.

Lemma parse_report_not_wai content msg :
  _parse_questions_from_report content <> Raise (WAIError msg).
Proof.
  apply mapM_not_wai. intros m. unfold _parse_question_block.
  destruct (splitlines_first _); [|discriminate].
  destruct (split_once _ _) as [[? ?]|]; discriminate.
Qed.

Lemma stops_sync_entry kmap issues e :
  stops_at_failure tracker (sync_entry tracker json_issues kmap issues e).
Proof.
  unfold sync_entry. destruct (lookup _ _) as [task_id|]; [|apply stops_ret].
  destruct (truthy task_id); cbn [negb]; [|apply stops_ret].
  apply stops_bind; [apply stops_resolve|]. intros full.
  apply stops_bind.
  - destruct (truthy _); [apply stops_comment|apply stops_ret].
  - intros _. destruct (eqb_str _ _); [apply stops_update|].
    destruct (eqb_str _ _); [apply stops_update|apply stops_ret].
Qed.

Lemma stops_sync_pillar st kmap issues pillar :
  stops_at_failure tracker (sync_pillar tracker json_issues st kmap issues pillar).
Proof.
  unfold sync_pillar. destruct (st pillar) as [content|]; [|apply stops_ret].
  apply stops_bind.
  - apply stops_lift. intros msg. apply parse_report_not_wai.
  - intros entries. apply stops_for_each. intros e. apply stops_sync_entry.
Qed.

Lemma stops_sync_epic st issues item :
  stops_at_failure tracker (sync_epic tracker json_issues st issues item).
Proof.
  unfold sync_epic. destruct item as [pillar epic_id].
  apply stops_bind; [apply stops_resolve|]. intros full.
  destruct (st pillar) as [content|]; [|apply stops_ret].
  apply stops_bind.
  - apply stops_lift. intros msg. apply parse_report_not_wai.
  - intros entries. destruct (forallb _ _); [apply stops_update|apply stops_ret].
Qed.

End SyncFacts.

(** C2, as stated, fails: nothing in [cmd_sync_kanbus] catches the failure
    of a comment or of a status update.  When the comment for the first record
    fails, the run ends with that error, and the tracker is never asked about
    the second record. *)
Lemma sync_failure_aborts_counterexample :
  cmd_sync_kanbus comment_fails (fun _ => None)
                  two_records_store two_records_map []
  = ([SNAPSHOT;
      [lit "kanbus"; lit "comment"; lit "kanbus-1"; text ["Answer:"; "We do X"]]],
     Raise (WAIError (lit "connection refused")))
  /\ ~ In [lit "kanbus"; lit "comment"; lit "kanbus-2"; text ["Answer:"; "because"]]
          (fst (cmd_sync_kanbus comment_fails (fun _ => None)
                                two_records_store two_records_map []))
  /\ cmd_sync_kanbus (fun _ _ => Exit0 []) (fun _ => None)
                     two_records_store two_records_map []
     = ([SNAPSHOT;
         [lit "kanbus"; lit "comment"; lit "kanbus-1"; text ["Answer:"; "We do X"]];
         [lit "kanbus"; lit "update"; lit "kanbus-1"; lit "--status"; lit "closed"];
         [lit "kanbus"; lit "comment"; lit "kanbus-2"; text ["Answer:"; "because"]];
         [lit "kanbus"; lit "update"; lit "kanbus-2"; lit "--status"; lit "blocked"]],
        Ok tt).
Proof.
  split; [vm_compute; reflexivity|]. split; [|vm_compute; reflexivity].
  vm_compute. intros [H|[H|[]]]; discriminate H.
Qed.

(** C2, amended.  After the snapshot, a comment or a status update that
    fails (other than an update turned down with "no updates requested", which
    counts as done) is the last command of the run, and the run ends with the
    error of that command: the records and the categories after it are not
    processed.  A [WAIError] ends the run only in this way. *)
Theorem sync_stops_at_failure
    (tracker : list command -> command -> outcome)
    (json_issues : str -> option (list issue))
    (st : store) (kmap : kanbus_map) (h : list command) :
  exists ext,
    fst (cmd_sync_kanbus tracker json_issues st kmap h) = h ++ SNAPSHOT :: ext
    /\ (forall h1 c h2,
          ext = h1 ++ c :: h2 ->
          failed tracker (h ++ SNAPSHOT :: h1) c = true ->
          h2 = []
          /\ exists msg,
               snd (cmd_sync_kanbus tracker json_issues st kmap h)
               = Raise (WAIError msg))
    /\ (forall msg,
          snd (cmd_sync_kanbus tracker json_issues st kmap h) = Raise (WAIError msg) ->
          exists h1 c,
            ext = h1 ++ [c] /\ failed tracker (h ++ SNAPSHOT :: h1) c = true).
Proof.
  unfold cmd_sync_kanbus.
  set (issues := match _run tracker SNAPSHOT h with
                 | (_, Ok out) => match json_issues out with Some l => l | None => [] end
                 | (_, Raise _) => []
                 end).
  assert (E : (let (h', issues0) :=
                 match _run tracker SNAPSHOT h with
                 | (h', Ok out) =>
                     (h', match json_issues out with Some l => l | None => [] end)
                 | (h', Raise _) => (h', [])
                 end in
               io_bind (for_each (sync_pillar tracker json_issues st kmap issues0) PILLARS)
                 (fun _ => for_each (sync_epic tracker json_issues st issues0) (epics kmap))
                 h')
              = io_bind (for_each (sync_pillar tracker json_issues st kmap issues) PILLARS)
                  (fun _ => for_each (sync_epic tracker json_issues st issues) (epics kmap))
                  (h ++ [SNAPSHOT])).
  { unfold issues, _run. destruct (tracker h SNAPSHOT); reflexivity. }
  rewrite E. clear E.
  assert (S : stops_at_failure tracker
                (io_bind (for_each (sync_pillar tracker json_issues st kmap issues) PILLARS)
                   (fun _ => for_each (sync_epic tracker json_issues st issues) (epics kmap)))).
  { apply stops_bind.
    - apply stops_for_each. intros p. apply stops_sync_pillar.
    - intros _. apply stops_for_each. intros item. apply stops_sync_epic. }
  destruct (S (h ++ [SNAPSHOT])) as [ext [H1 [F W]]].
  exists ext. rewrite H1, <- app_assoc. split; [reflexivity|]. split.
  - intros h1 c h2 Eq Hf. apply (F h1 c h2 Eq).
    now rewrite <- app_assoc.
  - intros msg Hr. destruct (W msg Hr) as [h1 [c [Eq Hf]]].
    exists h1, c. split; [exact Eq|]. now rewrite <- app_assoc in Hf.
Qed.

(** ** Normalised text *)

Lemma lstrip_app_nonspace u c :
  is_space c = false -> lstrip (u ++ [c]) = lstrip u ++ [c].
Proof.
  intros H. induction u as [|x u IH]; simpl.
  - now rewrite H.
  - destruct (is_space x); [exact IH|reflexivity].
Qed.

Lemma lstrip_app_space u c :
  is_space c = true ->
  lstrip (u ++ [c]) = match lstrip u with [] => [] | r => r ++ [c] end.
Proof.
  intros H. induction u as [|x u IH]; simpl.
  - now rewrite H.
  - destruct (is_space x) eqn:E; [exact IH|reflexivity].
Qed.

Lemma rstrip_rec_eq s : rstrip s = rstrip_rec s.
Proof.
  unfold rstrip. induction s as [|c t IH]; [reflexivity|].
  simpl rev. simpl rstrip_rec. rewrite <- IH.
  destruct (is_space c) eqn:E.
  - rewrite lstrip_app_space by exact E.
    destruct (lstrip (rev t)) as [|x r]; [reflexivity|].
    rewrite rev_app_distr. simpl.
    destruct (rev r ++ [x]) eqn:R; [now destruct (rev r)|reflexivity].
  - rewrite lstrip_app_nonspace by exact E.
    rewrite rev_app_distr. simpl.
    destruct (rev (lstrip (rev t))); reflexivity.
Qed.

Lemma lstrip_head s :
  match lstrip s with [] => True | c :: _ => is_space c = false end.
Proof.
  induction s as [|x s IH]; simpl; [exact I|].
  destruct (is_space x) eqn:E; [exact IH|exact E].
Qed.

Lemma lstrip_fix c t : is_space c = false -> lstrip (c :: t) = c :: t.
Proof. intros H. simpl. now rewrite H. Qed.

Lemma rstrip_rec_head c t :
  is_space c = false -> rstrip_rec (c :: t) = c :: rstrip_rec t.
Proof.
  intros H. simpl. rewrite H. destruct (rstrip_rec t); reflexivity.
Qed.

Lemma rstrip_rec_idem s : rstrip_rec (rstrip_rec s) = rstrip_rec s.
Proof.
  induction s as [|c t IH]; [reflexivity|]. simpl.
  destruct (rstrip_rec t) as [|x r] eqn:R.
  - destruct (is_space c) eqn:E; [reflexivity|]. simpl. now rewrite E.
  - change (rstrip_rec (c :: x :: r)) with
      (match rstrip_rec (x :: r) with
       | [] => if is_space c then [] else [c]
       | r' => c :: r'
       end).
    now rewrite IH.
Qed.

Lemma rstrip_rec_length s : length (rstrip_rec s) <= length s.
Proof.
  induction s as [|c t IH]; simpl; [lia|].
  destruct (rstrip_rec t); [destruct (is_space c)|]; simpl in *; lia.
Qed.

(** The last character of a text stripped on the right is not white space. *)
Lemma rstrip_rec_last s a c : rstrip_rec s = a ++ [c] -> is_space c = false.
Proof.
  revert a; induction s as [|x t IH]; intros a H; simpl in H.
  - now destruct a.
  - destruct (rstrip_rec t) as [|y r] eqn:R.
    + destruct (is_space x) eqn:E; [now destruct a|].
      destruct a as [|z a]; [injection H as <-; exact E|].
      injection H as _ H. now destruct a.
    + destruct a as [|z a]; [discriminate|].
      injection H as _ H. now apply (IH a).
Qed.

Lemma rstrip_rec_app_nonspace a c :
  is_space c = false -> rstrip_rec (a ++ [c]) = a ++ [c].
Proof.
  intros H. induction a as [|x a IH]; simpl.
  - now rewrite H.
  - rewrite IH. now destruct a.
Qed.

Lemma rstrip_rec_fix s a c :
  s = a ++ [c] -> is_space c = false -> rstrip_rec s = s.
Proof. intros -> H. now apply rstrip_rec_app_nonspace. Qed.

Lemma strip_rec s : strip s = rstrip_rec (lstrip s).
Proof. unfold strip. apply rstrip_rec_eq. Qed.

Lemma lstrip_rstrip_rec s :
  match s with [] => True | c :: _ => is_space c = false end ->
  lstrip (rstrip_rec s) = rstrip_rec s.
Proof.
  destruct s as [|c t]; [reflexivity|]. intros H.
  rewrite rstrip_rec_head by exact H. now apply lstrip_fix.
Qed.

(** Stripping twice is stripping once. *)
Lemma strip_idem s : strip (strip s) = strip s.
Proof.
  rewrite !strip_rec.
  rewrite lstrip_rstrip_rec by apply lstrip_head.
  apply rstrip_rec_idem.
Qed.

Lemma strip_head s :
  match strip s with [] => True | c :: _ => is_space c = false end.
Proof.
  rewrite strip_rec. assert (H := lstrip_head s).
  destruct (lstrip s) as [|c t]; [exact I|].
  rewrite rstrip_rec_head by exact H. exact H.
Qed.

Lemma strip_length s : length (strip s) <= length s.
Proof.
  rewrite strip_rec.
  assert (length (lstrip s) <= length s).
  { induction s as [|c t IH]; simpl; [lia|].
    destruct (is_space c); simpl; lia. }
  assert (H' := rstrip_rec_length (lstrip s)). lia.
Qed.

(** A text that starts and ends with characters that are not white space is
    its own stripped text. *)
Lemma strip_fix c a d :
  is_space c = false -> is_space d = false ->
  strip (c :: a ++ [d]) = c :: a ++ [d].
Proof.
  intros Hc Hd. rewrite strip_rec, lstrip_fix by exact Hc.
  change (c :: a ++ [d]) with ((c :: a) ++ [d]).
  now apply rstrip_rec_app_nonspace.
Qed.

(** *** Runs of white space *)

Lemma squeeze_from_true s :
  squeeze_from true s = squeeze_from false (span_drop is_space s).
Proof.
  induction s as [|c t IH]; simpl; [reflexivity|].
  destruct (is_space c) eqn:E; simpl; [exact IH|now rewrite E].
Qed.

Lemma sub_spaces_squeeze_len n : forall s prev,
  length s <= n ->
  sub_from spaces_re [TChar 32%N] 0 prev s = squeeze_from false s.
Proof.
  induction n as [|n IH]; intros s prev Hn.
  - destruct s; [|simpl in Hn; lia]. cbn [sub_from]. unfold match_at.
    now rewrite match_spaces_re.
  - destruct s as [|c t];
      [cbn [sub_from]; unfold match_at; now rewrite match_spaces_re|].
    cbn [sub_from]. unfold match_at. rewrite match_spaces_re.
    cbn [squeeze_from]. destruct (is_space c) eqn:E.
    + cbn [m_len m_groups expand flat_map app].
      assert (L := span_drop_length is_space t).
      replace (length (c :: t) - length (span_drop is_space t) =? 0) with false
        by (symmetry; apply Nat.eqb_neq; cbn [length]; lia).
      cbn [app]. f_equal.
      rewrite squeeze_from_true.
      replace (length (c :: t) - length (span_drop is_space t) - 1)
        with (length (span_take is_space t)).
      * rewrite <- (span_take_drop is_space t) at 2.
        rewrite sub_from_skip. apply IH. simpl in Hn. lia.
      * rewrite <- (span_take_drop is_space t) at 2.
        cbn [length]. rewrite length_app. lia.
    + f_equal. apply IH. simpl in Hn. lia.
Qed.

(** [re.sub] of white space by a blank squeezes every run to one blank. *)
Lemma sub_spaces_squeeze s :
  re_sub_lit spaces_re (lit " ") s = squeeze_from false s.
Proof. apply (sub_spaces_squeeze_len (length s)). lia. Qed.

Lemma spaced_weaken s : spaced true s = true -> spaced false s = true.
Proof.
  destruct s as [|c t]; [reflexivity|]. simpl.
  destruct (is_space c); [|trivial]. rewrite andb_false_r. discriminate.
Qed.

Lemma spaced_squeeze s : forall b, spaced b (squeeze_from b s) = true.
Proof.
  induction s as [|c t IH]; intros b; simpl; [reflexivity|].
  destruct (is_space c) eqn:E.
  - destruct b; simpl; [apply IH|]. apply IH.
  - simpl. rewrite E. apply IH.
Qed.

Lemma squeeze_spaced s : forall b, spaced b s = true -> squeeze_from b s = s.
Proof.
  induction s as [|c t IH]; intros b H; simpl in *; [reflexivity|].
  destruct (is_space c) eqn:E.
  - apply andb_true_iff in H as [H Ht]. apply andb_true_iff in H as [Hc Hb].
    apply N.eqb_eq in Hc. apply negb_true_iff in Hb. subst b c.
    simpl. f_equal. now apply IH.
  - f_equal. now apply IH.
Qed.

Lemma spaced_app_l a : forall b m, spaced b (a ++ m) = true -> spaced b a = true.
Proof.
  induction a as [|c t IH]; intros b m H; simpl in *; [reflexivity|].
  destruct (is_space c).
  - apply andb_true_iff in H as [H Ht]. rewrite H. simpl. now apply (IH _ m).
  - now apply (IH _ m).
Qed.

Lemma spaced_app_r a : forall b m, spaced b (a ++ m) = true -> spaced false m = true.
Proof.
  induction a as [|c t IH]; intros b m H; simpl in *.
  - destruct b; [now apply spaced_weaken|exact H].
  - destruct (is_space c).
    + apply andb_true_iff in H as [_ Ht]. now apply (IH true).
    + now apply (IH false).
Qed.

Lemma lstrip_suffix s : exists a, s = a ++ lstrip s.
Proof.
  induction s as [|c t [a IH]]; simpl; [now exists []|].
  destruct (is_space c); [|now exists []].
  exists (c :: a). simpl. now f_equal.
Qed.

Lemma rstrip_rec_prefix s : exists b, s = rstrip_rec s ++ b.
Proof.
  induction s as [|c t [b IH]]; simpl; [now exists []|].
  destruct (rstrip_rec t) as [|x r] eqn:R.
  - destruct (is_space c); [now exists (c :: t)|]. exists b. simpl in *. now f_equal.
  - exists b. simpl in *. now f_equal.
Qed.

(** The stripped text is a part of the text. *)
Lemma strip_middle s : exists a b, s = a ++ strip s ++ b.
Proof.
  rewrite strip_rec.
  destruct (lstrip_suffix s) as [a Ha].
  destruct (rstrip_rec_prefix (lstrip s)) as [b Hb].
  exists a, b. now rewrite <- Hb.
Qed.

Lemma spaced_strip s : spaced false s = true -> spaced false (strip s) = true.
Proof.
  intros H. destruct (strip_middle s) as (a & b & E).
  rewrite E in H. apply spaced_app_r in H. now apply spaced_app_l in H.
Qed.

Lemma spaced_space s b c : spaced b s = true -> In c s -> is_space c = true -> c = 32%N.
Proof.
  revert b; induction s as [|x t IH]; intros b H Hin Hc; [contradiction|].
  simpl in H. destruct Hin as [->|Hin].
  - rewrite Hc in H. apply andb_true_iff in H as [H _].
    apply andb_true_iff in H as [H _]. now apply N.eqb_eq in H.
  - destruct (is_space x).
    + apply andb_true_iff in H as [_ H]. now apply (IH true).
    + now apply (IH false).
Qed.

Lemma spaced_no_double s : forall b a r,
  spaced b s = true -> s <> a ++ [32%N; 32%N] ++ r.
Proof.
  intros b a r H E. subst s. apply spaced_app_r in H.
  simpl in H. discriminate.
Qed.

(** *** Replacing a character *)

Lemma replace_char s x new :
  replace s [x] new = flat_map (fun c => if N.eqb x c then new else [c]) s.
Proof.
  unfold replace. induction s as [|c t IH]; [reflexivity|].
  cbn [replace_from startswith flat_map]. rewrite andb_true_r.
  destruct (N.eqb x c); simpl; now rewrite IH.
Qed.

Lemma replace_char_absent s x new : ~ In x s -> replace s [x] new = s.
Proof.
  intros H. rewrite replace_char. induction s as [|c t IH]; [reflexivity|].
  simpl. destruct (N.eqb x c) eqn:E.
  - apply N.eqb_eq in E. subst c. exfalso. apply H. now left.
  - simpl. f_equal. apply IH. intros Hin. apply H. now right.
Qed.

Lemma replace_char_in s x new c :
  In c (replace s [x] new) -> In c new \/ (In c s /\ c <> x).
Proof.
  rewrite replace_char. induction s as [|y t IH]; simpl; [contradiction|].
  intros H. apply in_app_or in H as [H|H].
  - destruct (N.eqb x y) eqn:E; [now left|].
    destruct H as [<-|[]]. right. split; [now left|].
    intros ->. now rewrite N.eqb_refl in E.
  - destruct (IH H) as [H'|[H1 H2]]; [now left|]. right. split; [now right|exact H2].
Qed.

Lemma squeeze_in s c : forall b,
  In c (squeeze_from b s) -> c = 32%N \/ In c s.
Proof.
  induction s as [|x t IH]; intros b H; simpl in *; [contradiction|].
  destruct (is_space x).
  - apply in_app_or in H as [H|H].
    + destruct b; [contradiction|]. destruct H as [<-|[]]. now left.
    + destruct (IH _ H); [now left|right; now right].
  - destruct H as [<-|H]; [right; now left|].
    destruct (IH _ H); [now left|right; now right].
Qed.

(** ** [_normalize_text] *)

Lemma spaced_of_normalized s : normalized s -> spaced false s = true.
Proof.
  intros (Hs & Hd & _ & _).
  assert (G : forall b, (b = true -> match s with [] => True | c :: _ => is_space c = false end) ->
                        spaced b s = true).
  { induction s as [|c t IH]; intros b Hb; [reflexivity|]. simpl.
    destruct (is_space c) eqn:E.
    - assert (c = 32%N) by (apply Hs; [now left|exact E]). subst c.
      destruct b; [specialize (Hb eq_refl); simpl in Hb; congruence|].
      simpl. apply IH.
      + intros c Hc. apply Hs. now right.
      + intros a r E'. apply (Hd (32%N :: a) r). simpl. now f_equal.
      + intros _. destruct t as [|d t']; [exact I|].
        destruct (is_space d) eqn:Ed; [|reflexivity].
        assert (d = 32%N) by (apply Hs; [right; now left|exact Ed]). subst d.
        exfalso. now apply (Hd [] t').
    - apply IH.
      + intros d Hd'. apply Hs. now right.
      + intros a r E'. apply (Hd (c :: a) r). simpl. now f_equal.
      + discriminate. }
  apply G. discriminate.
Qed.

Lemma normalize_text_fix s : normalized s -> _normalize_text s = s.
Proof.
  intros N. assert (S := spaced_of_normalized s N).
  destruct N as (Hs & Hd & Ha & Hst).
  unfold _normalize_text.
  rewrite (replace_char_absent s NBSP).
  - rewrite (replace_char_absent s A_CIRCUMFLEX) by exact Ha.
    rewrite sub_spaces_squeeze, squeeze_spaced by exact S. exact Hst.
  - intros H. apply Hs in H; [discriminate|reflexivity].
Qed.

Lemma normalize_text_normalized t : normalized (_normalize_text t).
Proof.
  unfold _normalize_text. rewrite sub_spaces_squeeze.
  set (u := replace (replace t [NBSP] (lit " ")) [A_CIRCUMFLEX] (lit " ")).
  assert (S : spaced false (strip (squeeze_from false u)) = true)
    by (apply spaced_strip, spaced_squeeze).
  repeat split.
  - intros c Hc. now apply (spaced_space _ _ _ S).
  - intros a b. now apply (spaced_no_double _ false).
  - intros H. apply strip_in in H. apply squeeze_in in H as [H|H]; [discriminate|].
    unfold u in H. apply replace_char_in in H as [H|[_ H]].
    + destruct H as [H|[]]. discriminate.
    + now apply H.
  - apply strip_idem.
Qed.

(** X1.  [_normalize_text] returns a text in normal form -- every white space
    character is a blank, no two blanks are adjacent, there is no white space
    at either end and no [A_CIRCUMFLEX] -- and it leaves every text in that
    form as it is, so that normalising twice is normalising once. *)
Theorem normalize_text_idempotent (t : str) :
  normalized (_normalize_text t)
  /\ (normalized t -> _normalize_text t = t)
  /\ _normalize_text (_normalize_text t) = _normalize_text t.
Proof.
  split; [apply normalize_text_normalized|].
  split; [apply normalize_text_fix|].
  apply normalize_text_fix, normalize_text_normalized.
Qed.

Lemma normalize_text_idempotent_witness :
  _normalize_text (lit "  How do
   you  respond? ") = lit "How do you respond?"
  /\ _normalize_text (lit "How do you respond?") = lit "How do you respond?".
Proof.
  assert (E : _normalize_text (lit "  How do
   you  respond? ") = lit "How do you respond?") by (vm_compute; reflexivity).
  split; [exact E|].
  apply (proj1 (proj2 (normalize_text_idempotent (lit "How do you respond?")))).
  rewrite <- E. apply normalize_text_normalized.
Defined.

(** ** [_short_title] *)

Lemma firstn_prefix {A} n (l : list A) : exists r, l = firstn n l ++ r.
Proof. exists (skipn n l). now rewrite firstn_skipn. Qed.

Lemma startswith_prefix p r : startswith (p ++ r) p = true.
Proof. apply startswith_app. Qed.

Lemma short_title_long q :
  80 < length (strip q) ->
  exists c p,
    is_space c = false
    /\ _short_title q = (c :: p) ++ lit "..."
    /\ startswith (strip q) (c :: p) = true
    /\ length (c :: p) <= 77.
Proof.
  intros L. unfold _short_title.
  apply Nat.ltb_lt in L. rewrite L. apply Nat.ltb_lt in L.
  assert (H := strip_head q).
  destruct (strip q) as [|c t] eqn:E; [simpl in L; lia|].
  rewrite rstrip_rec_eq. cbn [firstn]. rewrite rstrip_rec_head by exact H.
  exists c, (rstrip_rec (firstn 76 t)). repeat split.
  - exact H.
  - destruct (rstrip_rec_prefix (firstn 76 t)) as [b Hb].
    destruct (firstn_prefix 76 t) as [r Hr].
    rewrite Hr at 1. rewrite Hb at 1.
    change (c :: (rstrip_rec (firstn 76 t) ++ b) ++ r)
      with ((c :: rstrip_rec (firstn 76 t)) ++ (b ++ r)) || rewrite <- app_assoc.
    apply (startswith_app (c :: rstrip_rec (firstn 76 t)) (b ++ r)).
  - assert (H1 := rstrip_rec_length (firstn 76 t)).
    rewrite length_firstn in H1. cbn [length]. lia.
Qed.

Lemma short_title_short q :
  length (strip q) <= 80 -> _short_title q = strip q.
Proof.
  intros L. unfold _short_title.
  replace (80 <? length (strip q)) with false; [reflexivity|].
  symmetry. apply Nat.ltb_ge. exact L.
Qed.

(** A short title has no white space at either end. *)
Lemma short_title_stripped q : strip (_short_title q) = _short_title q.
Proof.
  destruct (Nat.le_gt_cases (length (strip q)) 80) as [L|L].
  - rewrite (short_title_short _ L). apply strip_idem.
  - destruct (short_title_long q L) as (c & p & Hc & E & _). rewrite E.
    replace ((c :: p) ++ lit "...") with (c :: (p ++ lit "..") ++ [46%N])
      by (simpl; now rewrite <- app_assoc).
    apply strip_fix; [exact Hc|reflexivity].
Qed.

(** The characters of a short title are characters of the question, or
    dots. *)
Lemma short_title_in q c : In c (_short_title q) -> In c q \/ c = 46%N.
Proof.
  unfold _short_title. destruct (80 <? length (strip q)).
  - intros H. apply in_app_or in H as [H|H].
    + left. apply strip_in. rewrite rstrip_rec_eq in H.
      destruct (rstrip_rec_prefix (firstn 77 (strip q))) as [b Hb].
      rewrite <- (firstn_skipn 77 (strip q)). apply in_or_app. left.
      rewrite Hb. apply in_or_app. now left.
    + right. simpl in H. intuition congruence.
  - intros H. left. now apply strip_in.
Qed.

(** X2.  A short title has at most 80 characters.  It is the stripped question
    when that has at most 80 characters; otherwise it is a part of the first 77
    characters of the stripped question followed by three dots.  Shortening a
    short title returns it unchanged. *)
Theorem short_title_bound (question : str) :
  length (_short_title question) <= 80
  /\ (length (strip question) <= 80 -> _short_title question = strip question)
  /\ (80 < length (strip question) ->
      exists p, _short_title question = p ++ lit "..."
                /\ startswith (strip question) p = true
                /\ length p <= 77)
  /\ _short_title (_short_title question) = _short_title question.
Proof.
  assert (B : length (_short_title question) <= 80).
  { destruct (Nat.le_gt_cases (length (strip question)) 80) as [L|L].
    - now rewrite (short_title_short _ L).
    - destruct (short_title_long question L) as (c & p & _ & E & _ & Hl).
      rewrite E, length_app. simpl in *. lia. }
  split; [exact B|]. split; [apply short_title_short|]. split.
  - intros L. destruct (short_title_long question L) as (c & p & _ & E & Hp & Hl).
    exists (c :: p). now repeat split.
  - rewrite short_title_short; rewrite short_title_stripped; [reflexivity|exact B].
Qed.

(** ** The heading pattern *)

(** A repetition followed by something that cannot start where the
    repetition can go on: the repetition takes all it can. *)
Lemma match_star_exact p r o c s :
  (forall prev x t, p x = true -> match_here r o c prev (x :: t) = None) ->
  forall prev,
    match_here (Star p :: r) o c prev s =
    match_here r o c (prev_after prev (span_take p s)) (span_drop p s).
Proof.
  intros H. induction s as [|x t IH]; intros prev.
  - reflexivity.
  - rewrite match_star_cons. simpl. destruct (p x) eqn:E; [|reflexivity].
    rewrite IH. simpl.
    destruct (match_here r o c _ (span_drop p t)); [reflexivity|].
    now apply H.
Qed.

Lemma span_take_length p s :
  length (span_take p s) = length s - length (span_drop p s).
Proof.
  rewrite <- (span_take_drop p s) at 2. rewrite length_app. lia.
Qed.

Lemma match_open r o c prev s :
  match_here (Open :: r) o c prev s = match_here r (s :: o) c prev s.
Proof. reflexivity. Qed.

Lemma match_close r o os c prev s :
  match_here (Close :: r) (o :: os) c prev s =
  match_here r os (c ++ [firstn (length o - length s) o]) prev s.
Proof. reflexivity. Qed.

Lemma match_heading_re prev s :
  match_here heading_re [] [] prev s =
  if at_bol prev && startswith s (lit "## ") then
    match skipn 3 s with
    | c :: t =>
        if not_colon c && startswith (span_drop not_colon t) (lit ": ") then
          let s3 := skipn 2 (span_drop not_colon t) in
          Some (span_drop dot s3, [c :: span_take not_colon t; span_take dot s3])
        else None
    | [] => None
    end
  else None.
Proof.
  unfold heading_re. cbn [app match_here].
  destruct (at_bol prev); [|reflexivity]. cbn [andb].
  rewrite match_lits.
  destruct (startswith s (lit "## ")); [|reflexivity].
  change (length (lit "## ")) with 3.
  destruct (skipn 3 s) as [|c t]; [reflexivity|].
  unfold plus. cbn [app]. rewrite match_open, match_one_cons.
  destruct (not_colon c) eqn:Ec; [|reflexivity]. cbn [andb].
  rewrite match_star_exact.
  - rewrite match_close.
    assert (L := span_drop_length not_colon t).
    replace (length (c :: t) - length (span_drop not_colon t))
      with (S (length t - length (span_drop not_colon t)))
      by (cbn [length]; lia).
    cbn [firstn app]. rewrite firstn_span.
    rewrite match_lits.
    destruct (startswith (span_drop not_colon t) (lit ": ")); [|reflexivity].
    change (length (lit ": ")) with 2.
    now rewrite match_group_dot_eol.
  - intros prev' x t' Hx. rewrite match_close.
    change (lits (lit ": ") ++ [Open; Star dot; Close; Eol])
      with (One (N.eqb COLON) :: One (N.eqb 32%N) :: [Open; Star dot; Close; Eol]).
    rewrite match_one_cons. unfold not_colon in Hx.
    apply negb_true_iff in Hx. rewrite N.eqb_sym in Hx. now rewrite Hx.
Qed.

Lemma heading_re_not_bol prev s pos :
  at_bol prev = false -> match_at heading_re prev s pos = None.
Proof.
  intros H. unfold match_at. now rewrite match_heading_re, H.
Qed.

(** ** The scan of [re.finditer], line by line *)

Lemma finditer_skip pat a : forall b prev pos,
  finditer_from pat (length a) prev (a ++ b) pos =
  finditer_from pat 0 (prev_after prev a) b (pos + length a).
Proof.
  induction a as [|x a IH]; intros b prev pos.
  - simpl. now rewrite Nat.add_0_r.
  - cbn [length app finditer_from]. rewrite IH. simpl. f_equal. lia.
Qed.

Lemma finditer_not_bol prev s pos :
  at_bol prev = false ->
  finditer_from heading_re 0 prev s pos = finditer_tail heading_re s pos.
Proof.
  intros H. destruct s as [|c r]; cbn [finditer_from finditer_tail];
    now rewrite heading_re_not_bol.
Qed.

Lemma finditer_inside l : forall prev rest pos,
  one_line l = true -> at_bol prev = false ->
  finditer_from heading_re 0 prev (l ++ rest) pos =
  finditer_tail heading_re rest (pos + length l).
Proof.
  induction l as [|c t IH]; intros prev rest pos Hl Hp.
  - simpl. rewrite Nat.add_0_r. now apply finditer_not_bol.
  - simpl app. rewrite finditer_not_bol by exact Hp. cbn [finditer_tail].
    simpl in Hl. apply andb_true_iff in Hl as [Hc Ht].
    rewrite IH; [|exact Ht|now apply at_bol_dot].
    simpl. f_equal. lia.
Qed.

Lemma span_app p a b :
  truthy (span_drop p a) = true ->
  span_drop p (a ++ b) = span_drop p a ++ b
  /\ span_take p (a ++ b) = span_take p a.
Proof.
  induction a as [|x a IH]; simpl; [discriminate|].
  destruct (p x); [|now split].
  intros H. destruct (IH H) as [H1 H2]. now rewrite H1, H2.
Qed.

Lemma skipn_app_le {A} n (a b : list A) :
  n <= length a -> skipn n (a ++ b) = skipn n a ++ b.
Proof.
  intros H. rewrite skipn_app. replace (n - length a) with 0 by lia. reflexivity.
Qed.

Lemma skipn_length_app {A} (a b : list A) : skipn (length a) (a ++ b) = b.
Proof. induction a; simpl; congruence. Qed.

Lemma firstn_length_app {A} (a b : list A) : firstn (length a) (a ++ b) = a.
Proof. induction a; simpl; congruence. Qed.

Lemma one_line_span_take p x : one_line x = true -> one_line (span_take p x) = true.
Proof.
  induction x as [|c t IH]; simpl; [reflexivity|]. intros H.
  apply andb_true_iff in H as [Hc Ht]. destruct (p c); [|reflexivity].
  simpl. now rewrite Hc, IH.
Qed.

(** On a line in order the pattern matches within the line: the whole line
    if it is a heading, nothing otherwise. *)
Lemma heading_re_on_line prev l rest pos :
  at_bol prev = true -> one_line l = true -> at_eol rest = true ->
  heading_ok l = true ->
  match_at heading_re prev (l ++ rest) pos =
  if is_heading l
  then Some {| m_start := pos; m_len := length l;
               m_groups := [heading_id l; heading_title l] |}
  else None.
Proof.
  intros Hp Hl Hr Hok. unfold match_at. rewrite match_heading_re, Hp.
  cbn [andb]. rewrite startswith_line by (reflexivity || assumption).
  unfold heading_ok, is_hash_line in Hok. unfold is_heading, heading_id, heading_title.
  destruct (startswith l (lit "## ")) eqn:Eh; [|reflexivity].
  cbn [andb]. apply startswith_length in Eh. change (length (lit "## ")) with 3 in Eh.
  rewrite skipn_app_le by exact Eh.
  apply andb_true_iff in Hok as [Hc _].
  assert (Hl3 := one_line_skipn 3 l Hl).
  destruct (skipn 3 l) as [|c t] eqn:E3; [discriminate|].
  cbn [app]. unfold span_drop at 1 in Hc. fold (span_drop not_colon t) in Hc.
  cbn [span_take span_drop].
  destruct (not_colon c) eqn:Ec; [|reflexivity]. cbn [andb].
  destruct (span_app not_colon t rest Hc) as [D T]. rewrite D, T.
  rewrite startswith_line by (reflexivity || assumption).
  destruct (startswith (span_drop not_colon t) (lit ": ")) eqn:Es; [|reflexivity].
  cbv zeta.
  apply startswith_length in Es. change (length (lit ": ")) with 2 in Es.
  rewrite skipn_app_le by exact Es.
  assert (Hx : one_line (skipn 2 (span_drop not_colon t)) = true).
  { apply one_line_skipn, one_line_span_drop. simpl in Hl3.
    now apply andb_true_iff in Hl3 as [_ Hl3]. }
  rewrite span_drop_line, span_take_line by assumption.
  do 2 f_equal. rewrite length_app. lia.
Qed.

(** The scan of one line. *)
Lemma finditer_line prev l rest pos :
  at_bol prev = true -> one_line l = true -> at_eol rest = true ->
  heading_ok l = true ->
  finditer_from heading_re 0 prev (l ++ rest) pos =
  (if is_heading l
   then [{| m_start := pos; m_len := length l;
            m_groups := [heading_id l; heading_title l] |}]
   else [])
  ++ finditer_tail heading_re rest (pos + length l).
Proof.
  intros Hp Hl Hr Hok.
  assert (M := heading_re_on_line prev l rest pos Hp Hl Hr Hok).
  destruct l as [|c t].
  - assert (is_heading [] = false) by reflexivity.
    rewrite H in *. simpl app in *. rewrite Nat.add_0_r.
    destruct rest as [|x r]; cbn [finditer_from finditer_tail]; now rewrite M.
  - simpl app in *. cbn [finditer_from]. rewrite M.
    simpl in Hl. apply andb_true_iff in Hl as [Hc Ht].
    destruct (is_heading (c :: t)).
    + cbn [m_len length app]. f_equal.
      replace (S (length t) - 1) with (length t) by lia.
      rewrite finditer_skip, finditer_not_bol.
      * f_equal. lia.
      * apply at_bol_prev_after; [exact Ht|now apply at_bol_dot].
    + cbn [app]. rewrite finditer_inside; [|exact Ht|now apply at_bol_dot].
      f_equal. simpl. lia.
Qed.

(** *** The span of a record *)

Lemma before_prefix sub s : exists r, s = before sub s ++ r.
Proof.
  induction s as [|c t [r IH]]; simpl.
  - destruct (startswith [] sub); now exists [].
  - destruct (startswith (c :: t) sub); [now exists (c :: t)|].
    exists r. simpl. now f_equal.
Qed.

Lemma find_from_before sub s : forall p,
  match find_from sub s p with
  | Some i => i = p + length (before sub s)
  | None => before sub s = s
  end.
Proof.
  induction s as [|c t IH]; intros p; simpl.
  - destruct (startswith [] sub); simpl; [lia|reflexivity].
  - destruct (startswith (c :: t) sub); simpl; [lia|].
    specialize (IH (S p)). destruct (find_from sub t (S p)); [lia|now f_equal].
Qed.

Lemma block_of_line pre l rest g :
  block_of (pre ++ l ++ rest)
           {| m_start := length pre; m_len := length l; m_groups := g |}
  = l ++ before (NL :: lit "## ") rest.
Proof.
  unfold block_of, m_end, find, slice. cbn [m_start m_len].
  replace (length (pre ++ l ++ rest) <? length pre + length l) with false
    by (symmetry; apply Nat.ltb_ge; rewrite !length_app; lia).
  rewrite skipn_length_app.
  replace (skipn (length pre + length l) (pre ++ l ++ rest)) with rest
    by (rewrite app_assoc, <- length_app; now rewrite skipn_length_app).
  assert (F := find_from_before (NL :: lit "## ") rest (length pre + length l)).
  destruct (before_prefix (NL :: lit "## ") rest) as [r Hr].
  destruct (find_from _ rest _) as [i|].
  - subst i.
    replace (length pre + length l + length (before (NL :: lit "## ") rest)
             - length pre)
      with (length l + length (before (NL :: lit "## ") rest)) by lia.
    rewrite firstn_app.
    replace (length l + length (before (NL :: lit "## ") rest) - length l)
      with (length (before (NL :: lit "## ") rest)) by lia.
    rewrite firstn_all2 by lia. f_equal.
    rewrite Hr at 2. apply firstn_length_app.
  - rewrite F. rewrite !length_app.
    replace (length pre + (length l + length rest) - length pre)
      with (length (l ++ rest)) by (rewrite length_app; lia).
    apply firstn_all.
Qed.

Lemma before_inside sub l rest :
  one_line l = true ->
  before (NL :: sub) (l ++ rest) = l ++ before (NL :: sub) rest.
Proof.
  induction l as [|c t IH]; intros H; [reflexivity|].
  simpl in H. apply andb_true_iff in H as [Hc Ht].
  simpl app. cbn [before startswith].
  unfold dot in Hc. apply negb_true_iff in Hc. rewrite N.eqb_sym in Hc.
  rewrite Hc. cbn [andb]. now rewrite IH.
Qed.

Lemma at_eol_tail_text ls : at_eol (tail_text ls) = true.
Proof. destruct ls; reflexivity. Qed.

(** The text of a record ends before the next line that starts with [## ]. *)
Lemma before_tail_text ls :
  Forall (fun l => one_line l = true) ls ->
  before (NL :: lit "## ") (tail_text ls) = tail_text (take_block ls).
Proof.
  induction 1 as [|l ls Hl Hls IH]; [reflexivity|].
  cbn [tail_text flat_map take_block]. fold (tail_text ls).
  change ((NL :: l) ++ tail_text ls) with (NL :: l ++ tail_text ls).
  cbn [before startswith]. rewrite N.eqb_refl. cbn [andb].
  rewrite startswith_line by (reflexivity || apply at_eol_tail_text).
  unfold is_hash_line. destruct (startswith l (lit "## ")); [reflexivity|].
  cbn [tail_text flat_map]. fold (tail_text (take_block ls)).
  cbn [app]. f_equal. rewrite before_inside by exact Hl. now rewrite IH.
Qed.

Lemma join_tail_text l ls : join [NL] (l :: ls) = l ++ tail_text ls.
Proof.
  revert l; induction ls as [|l2 ls IH]; intros l.
  - simpl. now rewrite app_nil_r.
  - rewrite join_cons2, IH. reflexivity.
Qed.

(** The blocks that [_parse_questions_from_report] cuts out of a text whose
    lines are in order. *)
Lemma finditer_blocks ls : forall l pre prev,
  one_line l = true -> Forall (fun l => one_line l = true) ls ->
  heading_ok l = true -> Forall (fun l => heading_ok l = true) ls ->
  at_bol prev = true ->
  map (block_of (pre ++ l ++ tail_text ls))
      (finditer_from heading_re 0 prev (l ++ tail_text ls) (length pre))
  = block_texts (l :: ls).
Proof.
  induction ls as [|l2 ls IH]; intros l pre prev Hl Hls Hok Hoks Hp.
  - cbn [tail_text flat_map]. rewrite finditer_line by (reflexivity || assumption).
    cbn [finditer_tail block_texts take_block tail_text flat_map].
    destruct (is_heading l); [|reflexivity].
    cbn [map app]. now rewrite block_of_line.
  - rewrite finditer_line by (assumption || apply at_eol_tail_text).
    rewrite map_app. cbn [block_texts]. f_equal.
    + destruct (is_heading l); [|reflexivity].
      cbn [map]. rewrite block_of_line, before_tail_text by exact Hls.
      reflexivity.
    + inversion Hls as [|? ? Hl2 Hls']; subst.
      inversion Hoks as [|? ? Hok2 Hoks']; subst.
      cbn [tail_text flat_map]. fold (tail_text ls).
      change ((NL :: l2) ++ tail_text ls) with (NL :: l2 ++ tail_text ls).
      cbn [finditer_tail].
      replace (pre ++ l ++ NL :: l2 ++ tail_text ls)
        with ((pre ++ l ++ [NL]) ++ l2 ++ tail_text ls)
        by (rewrite <- !app_assoc; reflexivity).
      replace (S (length pre + length l)) with (length (pre ++ l ++ [NL]))
        by (rewrite !length_app; simpl; lia).
      apply IH; try assumption. reflexivity.
Qed.

(** ** The document index on texts whose lines are in order *)

Lemma first_line_app a y :
  no_linebreak a = true -> first_line (a ++ y) = a ++ first_line y.
Proof.
  induction a as [|c t IH]; intros H; [reflexivity|].
  simpl in *. apply andb_true_iff in H as [Hc Ht].
  apply negb_true_iff in Hc. rewrite Hc. f_equal. now apply IH.
Qed.

Lemma startswith_not_colon c s p :
  not_colon c = true -> startswith (c :: s) (COLON :: p) = false.
Proof.
  unfold not_colon. intros H. apply negb_true_iff in H. cbn [startswith].
  rewrite N.eqb_sym in H. now rewrite H.
Qed.

Lemma split_once_id id y :
  forallb not_colon id = true ->
  split_once (id ++ lit ": " ++ y) (lit ": ") = Some (id, y).
Proof.
  induction id as [|c t IH]; intros H.
  - reflexivity.
  - simpl in H. apply andb_true_iff in H as [Hc Ht].
    change ((c :: t) ++ lit ": " ++ y) with (c :: (t ++ lit ": " ++ y)).
    cbn [split_once].
    assert (S := startswith_not_colon c (t ++ lit ": " ++ y) (lit " ") Hc).
    change (COLON :: lit " ") with (lit ": ") in S. rewrite S.
    now rewrite IH.
Qed.

Lemma forallb_span_take p s : forallb p (span_take p s) = true.
Proof.
  induction s as [|c t IH]; simpl; [reflexivity|].
  destruct (p c) eqn:E; [|reflexivity]. simpl. now rewrite E.
Qed.

(** A heading line is [## ], its identifier, a colon and a blank, its title. *)
Lemma heading_split l :
  is_heading l = true ->
  l = lit "## " ++ heading_id l ++ lit ": " ++ heading_title l.
Proof.
  unfold is_heading, heading_id, heading_title. intros H.
  apply andb_true_iff in H as [H1 H2]. apply startswith_inv in H1.
  change (length (lit "## ")) with 3 in H1. rewrite H1 at 1. f_equal.
  rewrite <- (span_take_drop not_colon (skipn 3 l)) at 1. f_equal.
  destruct (skipn 3 l) as [|c t]; [discriminate|].
  apply andb_true_iff in H2 as [Hc H2]. simpl. rewrite Hc.
  now apply startswith_inv in H2.
Qed.

Lemma no_linebreak_app a b : no_linebreak (a ++ b) = no_linebreak a && no_linebreak b.
Proof. apply forallb_app. Qed.

Lemma parse_block_heading l x :
  is_heading l = true -> no_linebreak (heading_id l) = true ->
  _parse_question_block (l ++ x) = Ok (entry_of l (l ++ x)).
Proof.
  intros H Hn. assert (E := heading_split l H).
  assert (Hc : forallb not_colon (heading_id l) = true)
    by apply forallb_span_take.
  unfold entry_of.
  set (id := heading_id l) in *. set (ttl := heading_title l) in *.
  clearbody id ttl. clear H. subst l.
  unfold _parse_question_block, splitlines_first.
  replace ((lit "## " ++ id ++ lit ": " ++ ttl) ++ x)
    with ((lit "## " ++ id ++ lit ": ") ++ ttl ++ x)
    by (now rewrite <- !app_assoc).
  set (hd := lit "## " ++ id ++ lit ": ").
  assert (Lh : length hd = 3 + length id + 2)
    by (unfold hd; rewrite !length_app; simpl; lia).
  destruct (hd ++ ttl ++ x) as [|c0 b0] eqn:Eb; [discriminate|].
  rewrite <- Eb. clear Eb c0 b0.
  rewrite first_line_app
    by (unfold hd; rewrite !no_linebreak_app, Hn; reflexivity).
  replace (skipn 3 (hd ++ first_line (ttl ++ x)))
    with (id ++ lit ": " ++ first_line (ttl ++ x))
    by (unfold hd; now rewrite <- !app_assoc).
  rewrite split_once_id by exact Hc.
  rewrite <- Lh, skipn_length_app. reflexivity.
Qed.

Lemma mapM_map {A B C} (f : B -> result C) (g : A -> B) l :
  mapM (fun a => f (g a)) l = mapM f (map g l).
Proof.
  induction l as [|a l IH]; simpl; [reflexivity|]. now rewrite IH.
Qed.

Lemma heading_is_hash l : is_heading l = true -> is_hash_line l = true.
Proof. unfold is_heading, is_hash_line. intros H. now apply andb_true_iff in H. Qed.

Lemma parse_blocks ls :
  forallb heading_ok ls = true ->
  mapM _parse_question_block (block_texts ls) = Ok (entries_of_lines ls).
Proof.
  induction ls as [|l ls IH]; intros H; [reflexivity|].
  simpl in H. apply andb_true_iff in H as [Hl Hls].
  cbn [block_texts entries_of_lines]. destruct (is_heading l) eqn:E.
  - cbn [app mapM]. rewrite parse_block_heading.
    + cbn [bind]. now rewrite IH.
    + exact E.
    + unfold heading_ok in Hl. rewrite (heading_is_hash l E) in Hl.
      now apply andb_true_iff in Hl.
  - now apply IH.
Qed.

Lemma forallb_Forall {A} (f : A -> bool) l :
  forallb f l = true <-> Forall (fun x => f x = true) l.
Proof.
  induction l as [|a l IH]; simpl; split; intros H.
  - constructor.
  - reflexivity.
  - apply andb_true_iff in H as [Ha Hl]. constructor; [exact Ha|now apply IH].
  - inversion H; subst. apply andb_true_iff. split; [assumption|now apply IH].
Qed.

(** On a text whose lines are in order the document index returns the records
    of its heading lines. *)
Lemma parse_lines_ok (content : str) :
  forallb heading_ok (lines content) = true ->
  _parse_questions_from_report content = Ok (entries_of_lines (lines content)).
Proof.
  intros H.
  unfold _parse_questions_from_report, re_finditer. rewrite mapM_map.
  assert (L := lines_one_line content).
  assert (J := join_lines content).
  destruct (lines content) as [|l ls] eqn:E;
    [now apply lines_not_nil in E|].
  rewrite join_tail_text in J.
  inversion L as [|? ? Hl Hls]; subst.
  simpl in H. apply andb_true_iff in H as [Hok Hoks].
  assert (B := finditer_blocks ls l [] None Hl Hls Hok
                 (proj1 (forallb_Forall _ _) Hoks) eq_refl).
  simpl app in B. simpl length in B. rewrite B.
  apply parse_blocks. simpl. now rewrite Hok, Hoks.
Qed.

(** X3.  On a text in which every line that starts with [## ] holds a colon,
    with no line boundary before the first one, [_parse_questions_from_report]
    returns: one record for each heading line (a line [## ], an identifier
    without colon, a colon and a blank), in the order of the text; the
    identifier of a record is the stripped text between [## ] and the colon,
    and its block runs from the heading line to the line before the next line
    that starts with [## ], or to the end of the text. *)
Theorem parse_report_lines (content : str) :
  forallb heading_ok (lines content) = true ->
  _parse_questions_from_report content = Ok (entries_of_lines (lines content))
  /\ map entry_id (entries_of_lines (lines content))
     = map (fun l => strip (heading_id l)) (filter is_heading (lines content))
  /\ map entry_block (entries_of_lines (lines content))
     = block_texts (lines content).
Proof.
  intros H. split; [now apply parse_lines_ok|]. clear H. split.
  - induction (lines content) as [|l ls IH]; [reflexivity|].
    cbn [entries_of_lines filter]. destruct (is_heading l); simpl; now rewrite IH.
  - induction (lines content) as [|l ls IH]; [reflexivity|].
    cbn [entries_of_lines block_texts]. destruct (is_heading l); simpl; now rewrite IH.
Qed.

Lemma parse_report_lines_witness :
  forallb heading_ok (lines fresh_report) = true
  /\ _parse_questions_from_report fresh_report
     = Ok (entries_of_lines (lines fresh_report))
  /\ map entry_id (entries_of_lines (lines fresh_report)) = [lit "SECURITY-001"].
Proof.
  split; [reflexivity|].
  destruct (parse_report_lines fresh_report eq_refl) as (P & I & _).
  split; [exact P|]. rewrite I. reflexivity.
Defined.

(** ** What the document index raises *)

Lemma finditer_from_match pat s : forall skip prev pos m,
  In m (finditer_from pat skip prev s pos) ->
  exists a b prev',
    s = a ++ b /\ match_at pat prev' b (pos + length a) = Some m.
Proof.
  induction s as [|c t IH]; intros skip prev pos m H.
  - destruct skip as [|k]; [|contradiction]. cbn [finditer_from] in H.
    destruct (match_at pat prev [] pos) as [m'|] eqn:M; [|contradiction].
    destruct H as [<-|[]]. exists [], [], prev. simpl. rewrite Nat.add_0_r.
    now split.
  - assert (Next : forall k, In m (finditer_from pat k (Some c) t (S pos)) ->
                   exists a b prev',
                     c :: t = a ++ b
                     /\ match_at pat prev' b (pos + length a) = Some m).
    { intros k Hk. destruct (IH _ _ _ _ Hk) as (a & b & prev' & E & M).
      exists (c :: a), b, prev'. split; [simpl; now f_equal|].
      simpl. now replace (pos + S (length a)) with (S pos + length a) by lia. }
    destruct skip as [|k]; cbn [finditer_from] in H; [|now apply (Next k)].
    destruct (match_at pat prev (c :: t) pos) as [m'|] eqn:M.
    + destruct H as [<-|H]; [|now apply (Next _ H)].
      exists [], (c :: t), prev. simpl. rewrite Nat.add_0_r. now split.
    + now apply (Next 0).
Qed.

Lemma length_span_drop_skip n p s :
  length (span_drop p (skipn n s)) <= length s - n.
Proof.
  assert (H := span_drop_length p (skipn n s)). rewrite length_skipn in H. exact H.
Qed.

(** A match of the heading pattern starts with [## ] and is at least that
    long. *)
Lemma match_at_heading prev b pos m :
  match_at heading_re prev b pos = Some m ->
  m_start m = pos /\ startswith b (lit "## ") = true
  /\ 3 <= m_len m /\ m_len m <= length b.
Proof.
  unfold match_at. rewrite match_heading_re.
  destruct (at_bol prev); [|discriminate]. cbn [andb].
  destruct (startswith b (lit "## ")) eqn:Hs; [|discriminate].
  assert (L3 := length_skipn 3 b).
  destruct (skipn 3 b) as [|c t] eqn:E3; [discriminate|].
  destruct (not_colon c && _); [|discriminate].
  cbv zeta. intros H. injection H as <-. cbn [m_start m_len].
  assert (L := length_span_drop_skip 2 dot (span_drop not_colon t)).
  assert (L' := span_drop_length not_colon t).
  simpl length in L3. cbn [skipn] in L. repeat split; try reflexivity; lia.
Qed.

Lemma find_ge s sub start i : find s sub start = Some i -> start <= i.
Proof.
  unfold find. destruct (length s <? start); [discriminate|].
  assert (F := find_from_before sub (skipn start s) start).
  destruct (find_from sub (skipn start s) start); [|discriminate].
  intros H. injection H as <-. lia.
Qed.

(** The block of a match of the heading pattern starts with [## ]. *)
Lemma block_of_heading content m :
  In m (re_finditer heading_re content) ->
  startswith (block_of content m) (lit "## ") = true.
Proof.
  intros H. apply finditer_from_match in H as (a & b & prev & E & M).
  simpl in M. apply match_at_heading in M as (Hs & Hb & L3 & Lb).
  unfold block_of, slice, m_end. rewrite Hs. subst content.
  rewrite skipn_length_app.
  set (end_ := match find (a ++ b) (NL :: lit "## ") (length a + m_len m) with
               | Some i => i
               | None => length (a ++ b)
               end).
  assert (G : 3 <= end_ - length a).
  { unfold end_. destruct (find _ _ _) as [i|] eqn:F.
    - apply find_ge in F. lia.
    - rewrite length_app. lia. }
  apply startswith_inv in Hb. rewrite Hb.
  change (length (lit "## ")) with 3.
  destruct (end_ - length a) as [|[|[|k]]]; try lia. reflexivity.
Qed.

Lemma mapM_raise {A B} (f : A -> result B) l e :
  mapM f l = Raise e -> exists x, In x l /\ f x = Raise e.
Proof.
  induction l as [|a l IH]; simpl; [discriminate|].
  destruct (f a) as [b|e'] eqn:Fa; simpl.
  - destruct (mapM f l) as [bs|e'] eqn:M; simpl; [discriminate|].
    intros H. injection H as ->. destruct (IH eq_refl) as [x [Hx Fx]].
    exists x. split; [now right|exact Fx].
  - intros H. injection H as ->. exists a. split; [now left|exact Fa].
Qed.

(** The block of every record that the document index returns starts with
    [## ]. *)
Lemma parse_entry_heading content entries e :
  _parse_questions_from_report content = Ok entries -> In e entries ->
  startswith (entry_block e) (lit "## ") = true.
Proof.
  unfold _parse_questions_from_report. intros M He.
  destruct (mapM_in _ _ _ M e He) as (m & Hm & P).
  apply parse_question_block_block in P. rewrite P.
  now apply block_of_heading.
Qed.

Lemma parse_raises_value_error content e :
  _parse_questions_from_report content = Raise e -> e = ValueError.
Proof.
  unfold _parse_questions_from_report. intros M.
  apply mapM_raise in M as (m & Hm & P).
  apply block_of_heading in Hm.
  unfold _parse_question_block, splitlines_first in P.
  destruct (block_of content m) as [|c t]; [discriminate|].
  destruct (split_once _ _) as [[qid ttl]|]; [discriminate|].
  now injection P as <-.
Qed.

(** X4.  Whatever the text, [_parse_questions_from_report] either returns
    records whose blocks all start with [## ], or raises [ValueError]; it
    raises nothing else. *)
Theorem parse_report_raises (content : str) :
  match _parse_questions_from_report content with
  | Ok entries =>
      forall e, In e entries -> startswith (entry_block e) (lit "## ") = true
  | Raise e => e = ValueError
  end.
Proof.
  destruct (_parse_questions_from_report content) as [entries|e] eqn:M.
  - intros e He. now apply (parse_entry_heading content entries).
  - now apply (parse_raises_value_error content).
Qed.

(** ** Validation *)

Lemma mem_In x l : mem x l = true <-> In x l.
Proof.
  unfold mem. rewrite existsb_exists. split.
  - intros (y & Hy & E). apply eqb_str_eq in E. now subst.
  - intros H. exists x. split; [exact H|apply eqb_str_refl].
Qed.

Lemma mem_not_In x l : mem x l = false <-> ~ In x l.
Proof.
  rewrite <- mem_In. destruct (mem x l); intuition congruence.
Qed.

Lemma truthy_false s : truthy s = false <-> s = [].
Proof. destruct s; simpl; split; congruence. Qed.

Lemma check_ok s values :
  truthy s && negb (mem s values) = false <-> s = [] \/ In s values.
Proof.
  rewrite andb_false_iff, negb_false_iff, truthy_false, mem_In. reflexivity.
Qed.

Lemma app_nil_iff {A} (a b : list A) : a ++ b = [] <-> a = [] /\ b = [].
Proof.
  split; [apply app_eq_nil|]. now intros [-> ->].
Qed.

Lemma if_nil {A} (b : bool) (x : A) : (if b then [x] else []) = [] <-> b = false.
Proof. destruct b; split; congruence. Qed.

(** The checks on the records of one report find nothing exactly when no
    identifier comes twice and every status and confidence passes. *)
Lemma validate_entries_nil pillar entries : forall ids,
  validate_entries pillar entries ids = [] <->
  (forall e, In e entries -> ~ In (entry_id e) ids)
  /\ NoDup (map entry_id entries)
  /\ (forall e, In e entries ->
        status_ok (entry_status e) /\ confidence_ok (entry_confidence e)).
Proof.
  induction entries as [|e rest IH]; intros ids.
  - simpl. split; [|reflexivity]. intros _. repeat split; try constructor; contradiction.
  - cbn [validate_entries]. rewrite !app_nil_iff, !if_nil, !check_ok, mem_not_In, IH.
    split.
    + intros (Hid & Hs & Hc & Hrest & Hnd & Hok). repeat split.
      * intros e' [<-|He']; [exact Hid|].
        intros Hin. apply (Hrest e' He'). now right.
      * cbn [map]. constructor; [|exact Hnd].
        intros Hin. apply in_map_iff in Hin as (e' & E & He').
        apply (Hrest e' He'). left. now symmetry.
      * destruct H as [<-|He']; [exact Hs|now apply Hok].
      * destruct H as [<-|He']; [exact Hc|now apply Hok].
    + intros (Hids & Hnd & Hok). cbn [map] in Hnd. inversion Hnd as [|? ? Hn Hnd']; subst.
      repeat split.
      * apply Hids. now left.
      * apply Hok. now left.
      * apply Hok. now left.
      * intros e' He' [E|Hin].
        -- apply Hn. apply in_map_iff. exists e'. split; [now symmetry|exact He'].
        -- apply (Hids e'); [now right|exact Hin].
      * exact Hnd'.
      * apply Hok. now right.
      * apply Hok. now right.
Qed.

Lemma validate_pillars_nil ps st :
  validate_pillars ps st = Ok [] <->
  forall pillar, In pillar ps ->
    exists content entries,
      st pillar = Some content
      /\ _parse_questions_from_report content = Ok entries
      /\ validate_entries pillar entries [] = [].
Proof.
  induction ps as [|p ps IH]; cbn [validate_pillars].
  - split; [intros _ ? []|reflexivity].
  - destruct (st p) as [content|] eqn:Sp.
    + destruct (_parse_questions_from_report content) as [entries|e] eqn:P;
        cbn [bind].
      * destruct (validate_pillars ps st) as [errors|e] eqn:V; cbn [bind].
        -- split.
           ++ intros H. injection H as H. apply app_eq_nil in H as [H1 H2].
              subst errors. intros q [<-|Hq].
              ** exists content, entries. now repeat split.
              ** now apply (proj1 IH eq_refl).
           ++ intros H. destruct (H p (or_introl eq_refl)) as (c & es & Hc & He & Hv).
              rewrite Sp in Hc. injection Hc as <-. rewrite P in He.
              injection He as <-. rewrite Hv. cbn [app]. f_equal.
              assert (G : Ok errors = Ok (@nil str)).
              { apply IH. intros q Hq. apply H. now right. }
              now injection G.
        -- split; [discriminate|]. intros H.
           assert (G : @Raise (list str) e = Ok []).
           { apply IH. intros q Hq. apply H. now right. }
           discriminate.
      * split; [discriminate|]. intros H.
        destruct (H p (or_introl eq_refl)) as (c & es & Hc & He & _).
        rewrite Sp in Hc. injection Hc as <-. rewrite P in He. discriminate.
    + split.
      * destruct (validate_pillars ps st); cbn [bind]; discriminate.
      * intros H. destruct (H p (or_introl eq_refl)) as (c & es & Hc & _).
        rewrite Sp in Hc. discriminate.
Qed.

(** X5.  [cmd_validate] finds no error exactly when every pillar has a report,
    every report parses, no report holds a question identifier twice, and every
    status and confidence is empty or one of the known values. *)
Theorem validate_ok (st : store) :
  cmd_validate st = Ok [] <->
  forall pillar, In pillar PILLARS ->
    exists content entries,
      st pillar = Some content
      /\ _parse_questions_from_report content = Ok entries
      /\ NoDup (map entry_id entries)
      /\ (forall e, In e entries ->
            status_ok (entry_status e) /\ confidence_ok (entry_confidence e)).
Proof.
  unfold cmd_validate. rewrite validate_pillars_nil.
  split; intros H pillar Hp; destruct (H pillar Hp) as (c & es & Hc & He & Hv);
    exists c, es; repeat split; try assumption.
  - now apply validate_entries_nil in Hv.
  - apply validate_entries_nil in Hv as (_ & _ & Hok). now apply Hok.
  - apply validate_entries_nil in Hv as (_ & _ & Hok). now apply Hok.
  - apply validate_entries_nil. destruct Hv as [Hnd Hok].
    repeat split; try assumption; try (now apply Hok). intros e _ [].
Qed.

Lemma validate_ok_witness : cmd_validate all_fresh = Ok [].
Proof.
  apply (proj2 (validate_ok all_fresh)). intros pillar _.
  exists fresh_report.
  destruct (_parse_questions_from_report fresh_report) as [entries|] eqn:P;
    [|discriminate P].
  exists entries. split; [reflexivity|]. split; [reflexivity|].
  vm_compute in P. injection P as <-. split.
  - repeat constructor. intros [].
  - intros e [<-|[]]. split; right; simpl; tauto.
Defined.

(** A report that is missing is reported under the name of its pillar, and
    nothing else is reported that way. *)
Lemma validate_entries_not_missing pillar entries p : forall ids,
  ~ In (lit "missing pillar report: " ++ p) (validate_entries pillar entries ids).
Proof.
  induction entries as [|e rest IH]; intros ids; [intros []|].
  cbn [validate_entries]. intros H.
  repeat (apply in_app_or in H as [H|H]).
  - destruct (mem _ _); [|contradiction]. destruct H as [H|[]]. discriminate.
  - destruct (_ && _); [|contradiction]. destruct H as [H|[]]. discriminate.
  - destruct (_ && _); [|contradiction]. destruct H as [H|[]]. discriminate.
  - now apply (IH _ H).
Qed.

Lemma validate_pillars_missing ps st : forall errors,
  validate_pillars ps st = Ok errors ->
  forall p, In (lit "missing pillar report: " ++ p) errors <->
            In p ps /\ st p = None.
Proof.
  induction ps as [|q ps IH]; intros errors H p; cbn [validate_pillars] in H.
  - injection H as <-. split; [intros []|intros [[] _]].
  - destruct (st q) as [content|] eqn:Sq.
    + destruct (_parse_questions_from_report content) as [entries|]; [|discriminate].
      cbn [bind] in H.
      destruct (validate_pillars ps st) as [errs|]; [|discriminate].
      cbn [bind] in H. injection H as <-. rewrite in_app_iff, (IH errs eq_refl).
      split.
      * intros [H|[H1 H2]]; [now apply validate_entries_not_missing in H|].
        split; [now right|exact H2].
      * intros [[<-|H1] H2]; [congruence|]. right. now split.
    + destruct (validate_pillars ps st) as [errs|]; [|discriminate].
      cbn [bind] in H. injection H as <-. cbn [In]. rewrite (IH errs eq_refl).
      split.
      * intros [H|[H1 H2]].
        -- apply (app_inv_head (lit "missing pillar report: ")) in H.
           subst q. split; [now left|exact Sq].
        -- split; [now right|exact H2].
      * intros [[<-|H1] H2]; [now left|]. right. now split.
Qed.

(** X6.  When [cmd_validate] returns, it reports a missing report for exactly
    the pillars that have none. *)
Theorem validate_missing (st : store) (errors : list str) :
  cmd_validate st = Ok errors ->
  forall pillar,
    In (lit "missing pillar report: " ++ pillar) errors <->
    In pillar PILLARS /\ st pillar = None.
Proof. apply validate_pillars_missing. Qed.

Lemma validate_missing_witness :
  exists errors,
    cmd_validate one_record_store = Ok errors
    /\ (In (lit "missing pillar report: reliability") errors <->
        In (lit "reliability") PILLARS /\ one_record_store (lit "reliability") = None)
    /\ In (lit "missing pillar report: reliability") errors.
Proof.
  destruct (cmd_validate one_record_store) as [errors|] eqn:V; [|discriminate V].
  exists errors. split; [reflexivity|].
  assert (W := validate_missing one_record_store errors V (lit "reliability")).
  split; [exact W|]. apply W. split; [simpl; tauto|reflexivity].
Defined.

(** ** Open records *)

Lemma unanswered_values s :
  mem s UNANSWERED_VALUES = true <-> s <> lit "answered" /\ status_ok s.
Proof.
  rewrite mem_In. unfold status_ok, UNANSWERED_VALUES, STATUS_VALUES. simpl.
  split.
  - intros [<-|[<-|[<-|[<-|[]]]]]; (split; [discriminate|tauto]).
  - intros [Hn [->|[<-|[<-|[<-|[<-|[]]]]]]]; tauto.
Qed.

Lemma list_unanswered_pillars_spec ps st :
  (reports_parse st ps -> exists out, list_unanswered_pillars ps st = Ok out)
  /\ forall out, list_unanswered_pillars ps st = Ok out ->
     forall item,
       In item out <->
       In (listed_pillar item) ps
       /\ exists content entries e,
            st (listed_pillar item) = Some content
            /\ _parse_questions_from_report content = Ok entries
            /\ In e entries
            /\ listed_question_id item = entry_id e
            /\ listed_status item = entry_status e
            /\ entry_status e <> lit "answered"
            /\ status_ok (entry_status e).
Proof.
  induction ps as [|p ps [IH1 IH2]]; cbn [list_unanswered_pillars].
  - split; [intros _; now exists []|].
    intros out H item. injection H as <-. split; [intros []|intros [[] _]].
  - split.
    + intros R.
      assert (R' : reports_parse st ps).
      { intros q c Hq. apply R. now right. }
      destruct (IH1 R') as [out Hout]. rewrite Hout.
      destruct (st p) as [content|] eqn:Sp; [|now exists out].
      destruct (R p content (or_introl eq_refl) Sp) as [entries He].
      rewrite He. cbn [bind]. eauto.
    + intros out H item.
      destruct (st p) as [content|] eqn:Sp.
      * destruct (_parse_questions_from_report content) as [entries|] eqn:P;
          [|discriminate].
        cbn [bind] in H.
        destruct (list_unanswered_pillars ps st) as [rest|]; [|discriminate].
        cbn [bind] in H. injection H as <-.
        rewrite in_app_iff, in_map_iff, (IH2 rest eq_refl). split.
        -- intros [(e & <- & He)|(Hp & Hx)].
           ++ apply filter_In in He as [He Hm]. apply unanswered_values in Hm.
              cbn [listed_pillar listed_question_id listed_status].
              split; [now left|]. exists content, entries, e. tauto.
           ++ split; [now right|exact Hx].
        -- intros ([Ep|Hp] & content' & entries' & e & Hc & He & Hin & Hi & Hs & Hn & Hok).
           ++ left. rewrite <- Ep, Sp in Hc. injection Hc as <-. rewrite P in He.
              injection He as <-. exists e. split.
              ** destruct item; cbn in *. congruence.
              ** apply filter_In. split; [exact Hin|]. now apply unanswered_values.
           ++ right. split; [exact Hp|]. exists content', entries', e. tauto.
      * rewrite (IH2 out H). split.
        -- intros [Hp Hx]. split; [now right|exact Hx].
        -- intros ([Ep|Hp] & Hx).
           ++ destruct Hx as (c & ? & ? & Hc & _). congruence.
           ++ now split.
Qed.

(** X7.  [cmd_list_unanswered] returns whenever the reports that are there
    parse, reports that are missing being passed over; and it lists a record
    exactly when its status is empty or a known value other than [answered]:
    a record with any other status is not listed. *)
Theorem list_unanswered_spec (st : store) :
  (reports_parse st PILLARS -> exists out, cmd_list_unanswered st = Ok out)
  /\ forall out, cmd_list_unanswered st = Ok out ->
     forall item,
       In item out <->
       In (listed_pillar item) PILLARS
       /\ exists content entries e,
            st (listed_pillar item) = Some content
            /\ _parse_questions_from_report content = Ok entries
            /\ In e entries
            /\ listed_question_id item = entry_id e
            /\ listed_status item = entry_status e
            /\ entry_status e <> lit "answered"
            /\ status_ok (entry_status e).
Proof. apply list_unanswered_pillars_spec. Qed.

Lemma list_unanswered_spec_witness :
  cmd_list_unanswered one_record_store
  = Ok [ {| listed_pillar := lit "security";
            listed_question_id := lit "SECURITY-001";
            listed_status := lit "unanswered" |} ]
  /\ forall item,
       In item [ {| listed_pillar := lit "security";
                    listed_question_id := lit "SECURITY-001";
                    listed_status := lit "unanswered" |} ] ->
       listed_status item <> lit "answered".
Proof.
  assert (E : cmd_list_unanswered one_record_store
              = Ok [ {| listed_pillar := lit "security";
                        listed_question_id := lit "SECURITY-001";
                        listed_status := lit "unanswered" |} ])
    by (vm_compute; reflexivity).
  split; [exact E|]. intros item Hin.
  apply (proj2 (list_unanswered_spec one_record_store) _ E item) in Hin
    as (_ & c & es & e & _ & _ & _ & _ & Hs & Hn & _).
  now rewrite Hs.
Defined.

(** ** The reports that [_write_reports] writes *)

Lemma unlines_app a b : unlines (a ++ b) = unlines a ++ unlines b.
Proof. apply flat_map_app. Qed.

Lemma question_block_unlines now q :
  _question_block now q = unlines (block_lines now q).
Proof.
  unfold _question_block, block_lines, field_lines, heading_line, unlines.
  cbn [flat_map]. rewrite <- !app_assoc. reflexivity.
Qed.

Lemma pillar_header_unlines pillar url :
  _pillar_header pillar url = unlines (header_lines pillar url).
Proof.
  unfold _pillar_header, header_lines, unlines.
  cbn [flat_map]. rewrite <- !app_assoc. reflexivity.
Qed.

Lemma pillar_footer_unlines url :
  _pillar_footer url = unlines (footer_lines url).
Proof.
  unfold _pillar_footer, footer_lines, unlines.
  cbn [flat_map]. rewrite <- !app_assoc. reflexivity.
Qed.

Lemma question_blocks_stamped clock pillar questions : forall tick,
  fst (question_blocks clock pillar questions tick)
  = map (fun nq => _question_block (fst nq) (snd nq))
        (stamped clock pillar questions tick).
Proof.
  induction questions as [|q rest IH]; intros tick; [reflexivity|].
  cbn [question_blocks stamped]. destruct (eqb_str (q_pillar q) pillar).
  - specialize (IH (S tick)).
    destruct (question_blocks clock pillar rest (S tick)) as [blocks t].
    cbn [fst map] in *. now rewrite IH.
  - apply IH.
Qed.

Lemma stamped_questions clock pillar questions : forall tick,
  map snd (stamped clock pillar questions tick) = questions_of pillar questions.
Proof.
  induction questions as [|q rest IH]; intros tick; [reflexivity|].
  cbn [stamped questions_of filter]. destruct (eqb_str (q_pillar q) pillar).
  - cbn [map snd]. f_equal. apply IH.
  - apply IH.
Qed.

Lemma stamped_clock clock pillar questions : forall tick nq,
  In nq (stamped clock pillar questions tick) -> exists n, fst nq = clock n.
Proof.
  induction questions as [|q rest IH]; intros tick nq H; [contradiction|].
  cbn [stamped] in H. destruct (eqb_str (q_pillar q) pillar).
  - destruct H as [<-|H]; [now exists tick|now apply (IH _ _ H)].
  - now apply (IH _ _ H).
Qed.

Lemma concat_unlines (blocks : list (str * question)) :
  concat (map (fun nq => _question_block (fst nq) (snd nq)) blocks)
  = unlines (flat_map (fun nq => block_lines (fst nq) (snd nq)) blocks).
Proof.
  induction blocks as [|nq rest IH]; [reflexivity|].
  cbn [map concat flat_map]. now rewrite unlines_app, IH, question_block_unlines.
Qed.

Lemma report_text_unlines clock questions pillar tick :
  report_text clock questions pillar tick
  = unlines (report_lines pillar (get (lookup PILLAR_URLS pillar) [])
               (stamped clock pillar questions tick)).
Proof.
  unfold report_text, report_lines. cbv zeta.
  rewrite !concat_app, question_blocks_stamped, concat_unlines.
  cbn [concat]. rewrite !app_nil_r.
  now rewrite !unlines_app, pillar_header_unlines, pillar_footer_unlines.
Qed.

Lemma lines_unlines ls s :
  Forall (fun l => one_line l = true) ls -> lines (unlines ls ++ s) = ls ++ lines s.
Proof.
  induction 1 as [|l ls Hl Hls IH]; [reflexivity|].
  cbn [unlines flat_map]. fold (unlines ls).
  rewrite <- !app_assoc. cbn [app]. rewrite lines_app_nl by exact Hl.
  cbn [app]. now rewrite IH.
Qed.

(** *** Characters *)

Lemma is_linebreak_space c :
  is_linebreak c = true -> is_space c = true /\ c <> 32%N.
Proof.
  unfold is_linebreak, is_space. intros H.
  repeat rewrite ?orb_true_iff, ?andb_true_iff, ?N.leb_le, ?N.eqb_eq in H.
  split.
  - repeat rewrite ?orb_true_iff, ?andb_true_iff, ?N.leb_le, ?N.eqb_eq. lia.
  - lia.
Qed.

Lemma normalized_no_linebreak s : normalized s -> no_linebreak s = true.
Proof.
  intros (Hs & _). unfold no_linebreak. apply forallb_forall. intros c Hc.
  destruct (is_linebreak c) eqn:E; [|reflexivity].
  apply is_linebreak_space in E as [E1 E2]. now apply Hs in E1.
Qed.

Lemma short_title_no_linebreak t :
  no_linebreak (_short_title (_normalize_text t)) = true.
Proof.
  unfold no_linebreak. apply forallb_forall. intros c Hc.
  apply short_title_in in Hc as [Hc| ->]; [|reflexivity].
  assert (N := normalized_no_linebreak _ (normalize_text_normalized t)).
  unfold no_linebreak in N. rewrite forallb_forall in N. now apply N.
Qed.

(** *** The lines of a block *)

Lemma span_id id x :
  forallb not_colon id = true ->
  span_take not_colon (id ++ COLON :: x) = id
  /\ span_drop not_colon (id ++ COLON :: x) = COLON :: x.
Proof.
  induction id as [|c t IH]; intros H; [now split|].
  simpl in H. apply andb_true_iff in H as [Hc Ht].
  destruct (IH Ht) as [T D]. simpl. now rewrite Hc, T, D.
Qed.

Lemma find_field_after field (pre : list str) l (post : list str) :
  Forall (fun x => one_line x = true) pre ->
  forallb (fun x => negb (is_field_line field x)) pre = true ->
  one_line l = true -> is_field_line field l = true ->
  List.find (is_field_line field) (flat_map lines (pre ++ l :: post)) = Some l.
Proof.
  intros P Hpre Hl1 Hl. induction P as [|x xs Hx Hxs IH].
  - cbn [app flat_map]. rewrite (lines_one l Hl1). cbn [app List.find].
    now rewrite Hl.
  - cbn [forallb] in Hpre. apply andb_true_iff in Hpre as [Hx' Hpre].
    apply negb_true_iff in Hx'.
    cbn [app flat_map]. rewrite (lines_one x Hx). cbn [app List.find].
    rewrite Hx'. now apply IH.
Qed.

Section FreshBlock.

Variable q : question.
Hypothesis id_is_ok : id_ok (q_question_id q) = true.

Lemma id_ok_parts :
  truthy (q_question_id q) = true /\ forallb not_colon (q_question_id q) = true /\ no_linebreak (q_question_id q) = true.
Proof.
  unfold id_ok in id_is_ok.
  apply andb_true_iff in id_is_ok as [H H3].
  apply andb_true_iff in H as [H1 H2]. now repeat split.
Qed.

Lemma heading_line_skip :
  skipn 3 (heading_line q) = (q_question_id q) ++ COLON :: 32%N :: _short_title (_normalize_text (q_question_text q)).
Proof. reflexivity. Qed.

Lemma heading_line_id : heading_id (heading_line q) = (q_question_id q).
Proof.
  unfold heading_id. rewrite heading_line_skip.
  apply span_id, id_ok_parts.
Qed.

Lemma heading_line_is_heading : is_heading (heading_line q) = true.
Proof.
  destruct id_ok_parts as (H1 & H2 & _).
  unfold is_heading. rewrite heading_line_skip.
  change (startswith (heading_line q) (lit "## ")) with true. cbn [andb].
  destruct (q_question_id q) as [|c t] eqn:E; [discriminate|].
  simpl in H2. apply andb_true_iff in H2 as [Hc Ht].
  cbn [app]. rewrite Hc. cbn [andb].
  destruct (span_id t (32%N :: _short_title (_normalize_text (q_question_text q))) Ht) as [_ D]. now rewrite D.
Qed.

Lemma heading_line_ok : heading_ok (heading_line q) = true.
Proof.
  destruct id_ok_parts as (H1 & H2 & H3).
  unfold heading_ok.
  change (is_hash_line (heading_line q)) with true. cbv iota.
  unfold no_linebreak in H3. rewrite heading_line_id, H3, andb_true_r.
  rewrite heading_line_skip.
  destruct (span_id (q_question_id q) (32%N :: _short_title (_normalize_text (q_question_text q))) H2) as [_ D]. now rewrite D.
Qed.

Lemma heading_line_one_line : one_line (heading_line q) = true.
Proof.
  destruct id_ok_parts as (_ & _ & H3).
  unfold heading_line. rewrite !one_line_app.
  rewrite (no_linebreak_one_line _ H3).
  rewrite (no_linebreak_one_line _ (short_title_no_linebreak _)). reflexivity.
Qed.

Variable now : str.
Hypothesis now_one_line : one_line now = true.

Lemma field_lines_one_line :
  Forall (fun l => one_line l = true) (field_lines now q).
Proof.
  unfold field_lines. repeat constructor.
  - rewrite one_line_app. cbn [andb one_line forallb lit].
    apply no_linebreak_one_line, normalized_no_linebreak, normalize_text_normalized.
  - rewrite one_line_app. now rewrite now_one_line.
Qed.

Lemma field_lines_not_hash :
  forallb (fun l => negb (is_hash_line l)) (field_lines now q) = true.
Proof. reflexivity. Qed.

(** The record of the block, whatever follows the block. *)
Lemma fresh_entry (tb : list str) :
  fresh_record
    (entry_of (heading_line q)
              (heading_line q ++ tail_text (field_lines now q ++ tb)))
    q.
Proof.
  assert (F : forall field pre l post,
             field_lines now q = pre ++ l :: post ->
             one_line field = true ->
             forallb (fun x => negb (is_field_line field x))
                     (heading_line q :: pre) = true ->
             is_field_line field l = true ->
             _parse_field (heading_line q ++ tail_text (field_lines now q ++ tb))
                          field
             = field_value field l).
  { intros field pre l post E Hf Hpre Hl.
    rewrite parse_field_lines by exact Hf.
    rewrite <- join_tail_text, lines_join_any by discriminate.
    assert (L := field_lines_one_line). rewrite E in *.
    replace (heading_line q :: (pre ++ l :: post) ++ tb)
      with ((heading_line q :: pre) ++ l :: post ++ tb)
      by (simpl; now rewrite <- app_assoc).
    apply Forall_app in L as [L1 L2].
    rewrite find_field_after; try assumption.
    - reflexivity.
    - constructor; [apply heading_line_one_line|exact L1].
    - now inversion L2. }
  unfold fresh_record, entry_of.
  cbn [entry_id entry_title entry_question entry_status entry_confidence
       entry_kanbus].
  rewrite heading_line_id.  repeat split.
  - replace (skipn (3 + length (q_question_id q) + 2)
                   (heading_line q ++ tail_text (field_lines now q ++ tb)))
      with (_short_title (_normalize_text (q_question_text q)) ++ tail_text (field_lines now q ++ tb)).
    + rewrite first_line_app by apply short_title_no_linebreak.
      cbn [field_lines app tail_text flat_map first_line].
      change (is_linebreak NL) with true. cbv iota.
      rewrite app_nil_r. apply short_title_stripped.
    + unfold heading_line. 
      replace ((lit "## " ++ (q_question_id q) ++ lit ": " ++ _short_title (_normalize_text (q_question_text q)))
               ++ tail_text (field_lines now q ++ tb))
        with ((lit "## " ++ (q_question_id q) ++ lit ": ")
              ++ _short_title (_normalize_text (q_question_text q)) ++ tail_text (field_lines now q ++ tb))
        by (now rewrite <- !app_assoc).
      replace (3 + length (q_question_id q) + 2) with (length (lit "## " ++ (q_question_id q) ++ lit ": "))
        by (rewrite !length_app; simpl; lia).
      now rewrite skipn_length_app.
  - rewrite (F (lit "Question") [] _ _ eq_refl); try reflexivity.
    change (field_value (lit "Question") (lit "Question: " ++ (_normalize_text (q_question_text q)))) with (strip (_normalize_text (q_question_text q))).
    apply (normalize_text_normalized (q_question_text q)).
  - now rewrite (F (lit "Status") [_] _ _ eq_refl).
  - now rewrite (F (lit "Confidence") [_; _] _ _ eq_refl).
  - now rewrite (F (lit "Kanbus Task") [_; _; _; _; _; _] _ _ eq_refl).
Qed.

End FreshBlock.

(** *** The lines of a report *)

Lemma not_hash_not_heading l : is_hash_line l = false -> is_heading l = false.
Proof. unfold is_hash_line, is_heading. now intros ->. Qed.

Lemma not_hash_ok l : is_hash_line l = false -> heading_ok l = true.
Proof. unfold heading_ok. now intros ->. Qed.

Lemma entries_of_lines_skip pre rest :
  forallb (fun l => negb (is_hash_line l)) pre = true ->
  entries_of_lines (pre ++ rest) = entries_of_lines rest.
Proof.
  induction pre as [|l pre IH]; intros H; [reflexivity|].
  simpl in H. apply andb_true_iff in H as [Hl Hpre].
  apply negb_true_iff in Hl. cbn [app entries_of_lines].
  rewrite (not_hash_not_heading l Hl). now apply IH.
Qed.

Lemma take_block_app pre rest :
  forallb (fun l => negb (is_hash_line l)) pre = true ->
  take_block (pre ++ rest) = pre ++ take_block rest.
Proof.
  induction pre as [|l pre IH]; intros H; [reflexivity|].
  simpl in H. apply andb_true_iff in H as [Hl Hpre].
  apply negb_true_iff in Hl. cbn [app take_block]. rewrite Hl.
  now rewrite IH.
Qed.

(** The lines of a list of blocks read as the records of their questions. *)
Lemma entries_of_blocks (blocks : list (str * question)) rest :
  (forall nq, In nq blocks ->
     id_ok (q_question_id (snd nq)) = true /\ one_line (fst nq) = true) ->
  entries_of_lines rest = [] ->
  Forall2 fresh_record
    (entries_of_lines
       (flat_map (fun nq => block_lines (fst nq) (snd nq)) blocks ++ rest))
    (map snd blocks).
Proof.
  intros H Hrest. induction blocks as [|[now q] blocks IH].
  - simpl. rewrite Hrest. constructor.
  - destruct (H (now, q) (or_introl eq_refl)) as [Hid Hnow]. cbn [fst snd] in *.
    cbn [flat_map map fst snd]. unfold block_lines at 1.
    rewrite <- app_assoc. cbn [app entries_of_lines].
    rewrite (heading_line_is_heading q Hid). cbn [app].
    rewrite take_block_app by apply field_lines_not_hash.
    rewrite entries_of_lines_skip by apply field_lines_not_hash.
    constructor.
    + now apply fresh_entry.
    + apply IH. intros nq Hnq. apply H. now right.
Qed.

Lemma heading_ok_blocks (blocks : list (str * question)) :
  (forall nq, In nq blocks -> id_ok (q_question_id (snd nq)) = true) ->
  forallb heading_ok (flat_map (fun nq => block_lines (fst nq) (snd nq)) blocks)
  = true.
Proof.
  intros H. induction blocks as [|[now q] blocks IH]; [reflexivity|].
  cbn [flat_map fst snd]. rewrite forallb_app. apply andb_true_iff. split.
  - unfold block_lines. cbn [forallb].
    rewrite (heading_line_ok q (H (now, q) (or_introl eq_refl))).
    reflexivity.
  - apply IH. intros nq Hnq. apply H. now right.
Qed.

Lemma one_line_blocks (blocks : list (str * question)) :
  (forall nq, In nq blocks ->
     id_ok (q_question_id (snd nq)) = true /\ one_line (fst nq) = true) ->
  Forall (fun l => one_line l = true)
         (flat_map (fun nq => block_lines (fst nq) (snd nq)) blocks).
Proof.
  intros H. induction blocks as [|[now q] blocks IH]; [constructor|].
  destruct (H (now, q) (or_introl eq_refl)) as [Hid Hnow]. cbn [fst snd] in *.
  cbn [flat_map fst snd]. apply Forall_app. split.
  - constructor; [now apply heading_line_one_line|now apply field_lines_one_line].
  - apply IH. intros nq Hnq. apply H. now right.
Qed.

(** The header and the footer of the report of a pillar: lines of their own,
    none of which starts with [## ]. *)
Lemma pillar_frame pillar :
  In pillar PILLARS ->
  exists url,
    lookup PILLAR_URLS pillar = Some url
    /\ forallb (fun l => one_line l && negb (is_hash_line l))
               (header_lines pillar url ++ footer_lines url) = true.
Proof.
  intros H. simpl in H.
  destruct H as [<-|[<-|[<-|[<-|[<-|[<-|[]]]]]]];
    (eexists; split; [vm_compute; reflexivity|vm_compute; reflexivity]).
Qed.

Lemma forallb_and {A} (f g : A -> bool) l :
  forallb (fun x => f x && g x) l = forallb f l && forallb g l.
Proof.
  induction l as [|a l IH]; simpl; [reflexivity|]. rewrite IH.
  destruct (f a), (g a), (forallb f l); reflexivity.
Qed.

Lemma forallb_impl {A} (f g : A -> bool) l :
  (forall x, f x = true -> g x = true) -> forallb f l = true -> forallb g l = true.
Proof.
  intros H. rewrite !forallb_forall. intros Hf x Hx. now apply H, Hf.
Qed.

(** The report of a pillar parses, and its records are those of the questions
    of the pillar, all fresh. *)
Lemma report_parses clock questions pillar tick :
  In pillar PILLARS ->
  (forall q, In q questions -> q_pillar q = pillar ->
             id_ok (q_question_id q) = true) ->
  (forall n, one_line (clock n) = true) ->
  exists entries,
    _parse_questions_from_report (report_text clock questions pillar tick)
    = Ok entries
    /\ Forall2 fresh_record entries (questions_of pillar questions).
Proof.
  intros Hp Hid Hclock.
  destruct (pillar_frame pillar Hp) as (url & Hurl & Hframe).
  rewrite forallb_and, forallb_app in Hframe.
  apply andb_true_iff in Hframe as [H1 H2].
  apply andb_true_iff in H1 as [Hh1 Hf1].
  rewrite forallb_app in H2. apply andb_true_iff in H2 as [Hh2 Hf2].
  set (blocks := stamped clock pillar questions tick).
  assert (B : forall nq, In nq blocks ->
              id_ok (q_question_id (snd nq)) = true /\ one_line (fst nq) = true).
  { intros nq Hnq. split.
    - assert (Hq : In (snd nq) (questions_of pillar questions)).
      { rewrite <- (stamped_questions clock pillar questions tick).
        now apply in_map. }
      apply filter_In in Hq as [Hq Hpq]. apply eqb_str_eq in Hpq.
      now apply Hid.
    - destruct (stamped_clock _ _ _ _ _ Hnq) as [n ->]. apply Hclock. }
  assert (L : lines (report_text clock questions pillar tick)
              = report_lines pillar url blocks ++ [[]]).
  { rewrite report_text_unlines, Hurl. cbn [get]. fold blocks.
    rewrite <- (app_nil_r (unlines _)). apply lines_unlines.
    unfold report_lines. rewrite !Forall_app. repeat split.
    - now apply forallb_Forall.
    - now apply one_line_blocks.
    - now apply forallb_Forall. }
  exists (entries_of_lines (lines (report_text clock questions pillar tick))).
  split.
  - apply parse_lines_ok. rewrite L. unfold report_lines.
    assert (E1 : forallb heading_ok (header_lines pillar url) = true).
    { apply (forallb_impl (fun l => negb (is_hash_line l))); [|exact Hh2].
      intros l Hl. apply not_hash_ok. now apply negb_true_iff. }
    assert (E2 : forallb heading_ok
                   (flat_map (fun nq => block_lines (fst nq) (snd nq)) blocks)
                 = true).
    { apply heading_ok_blocks. intros nq Hnq. now apply B. }
    assert (E3 : forallb heading_ok (footer_lines url) = true).
    { apply (forallb_impl (fun l => negb (is_hash_line l))); [|exact Hf2].
      intros l Hl. apply not_hash_ok. now apply negb_true_iff. }
    rewrite !forallb_app, E1, E2, E3. reflexivity.
  - rewrite L. unfold report_lines.
    rewrite <- !app_assoc, entries_of_lines_skip by exact Hh2.
    rewrite <- (stamped_questions clock pillar questions tick). fold blocks.
    apply entries_of_blocks; [exact B|].
    now rewrite entries_of_lines_skip by exact Hf2.
Qed.

(** The loop over the pillars writes the report of every pillar. *)
Lemma write_pillars_spec clock questions ps : forall st tick,
  NoDup ps -> (forall p, In p ps -> In p PILLARS) ->
  exists st',
    write_pillars clock questions ps st tick = (st', Ok tt)
    /\ (forall p, In p ps ->
          exists t, st' p = Some (report_text clock questions p t))
    /\ (forall p, ~ In p ps -> st' p = st p).
Proof.
  induction ps as [|p ps IH]; intros st tick Hnd Hps.
  - exists st. split; [reflexivity|]. split; [intros ? []|reflexivity].
  - inversion Hnd as [|? ? Hn Hnd']; subst.
    destruct (pillar_frame p (Hps p (or_introl eq_refl))) as (url & Hurl & _).
    cbn [write_pillars]. rewrite Hurl.
    assert (R : report_text clock questions p tick
                = concat ([_pillar_header p url]
                          ++ fst (question_blocks clock p questions tick)
                          ++ [_pillar_footer url])).
    { unfold report_text. now rewrite Hurl. }
    destruct (question_blocks clock p questions tick) as [blocks tick'].
    cbn [fst] in R. rewrite <- R.
    destruct (IH (write st p (report_text clock questions p tick)) tick' Hnd')
      as (st' & W & Hin & Hout).
    { intros r Hr. apply Hps. now right. }
    exists st'. split; [exact W|]. split.
    + intros r [<-|Hr]; [|now apply Hin].
      exists tick. rewrite (Hout p Hn). apply write_same.
    + intros r Hr. rewrite Hout by (intros Hr'; apply Hr; now right).
      apply write_other. intros ->. apply Hr. now left.
Qed.

(** X8.  [_write_reports] writes a report for every pillar, and the report of
    a pillar parses back to the questions of that pillar, in the order of the
    cache, one record each: the identifier is the stripped question
    identifier, the question the normalised question text, the title its short
    title, the status [unanswered], the confidence [n/a], and no tracker task.
    This holds when the question identifiers of the pillar are not empty and
    hold no colon and no line boundary. *)
Theorem write_reports_parse
    (clock : nat -> str) (questions : list question) (assessment : str)
    (st : store) (pillar : str) :
  In pillar PILLARS ->
  (forall q, In q questions -> q_pillar q = pillar ->
             id_ok (q_question_id q) = true) ->
  (forall n, one_line (clock n) = true) ->
  snd (snd (_write_reports clock questions assessment st)) = Ok tt
  /\ exists content entries,
       fst (snd (_write_reports clock questions assessment st)) pillar
       = Some content
       /\ _parse_questions_from_report content = Ok entries
       /\ Forall2 fresh_record entries (questions_of pillar questions).
Proof.
  intros Hp Hid Hclock. unfold _write_reports. cbn [snd].
  destruct (write_pillars_spec clock questions PILLARS st 0 PILLARS_NoDup
              (fun p H => H)) as (st' & W & Hin & _).
  rewrite W. cbn [fst snd]. split; [reflexivity|].
  destruct (Hin pillar Hp) as [t Ht].
  destruct (report_parses clock questions pillar t Hp Hid Hclock)
    as (entries & P & F).
  now exists (report_text clock questions pillar t), entries.
Qed.

Lemma write_reports_parse_witness :
  snd (snd (_write_reports still_clock two_questions (lit "demo") (fun _ => None)))
  = Ok tt
  /\ exists content entries,
       fst (snd (_write_reports still_clock two_questions (lit "demo")
                                (fun _ => None))) (lit "security")
       = Some content
       /\ _parse_questions_from_report content = Ok entries
       /\ Forall2 fresh_record entries
                  (questions_of (lit "security") two_questions).
Proof.
  apply write_reports_parse.
  - simpl. tauto.
  - intros q [<-|[<-|[]]] _; reflexivity.
  - intros n. reflexivity.
Defined.

(** X9.  The reports that [_write_reports] writes pass [cmd_validate], when the
    question identifiers are not empty, hold no colon and no line boundary,
    and are distinct, once stripped, within every pillar. *)
Theorem fresh_reports_validate
    (clock : nat -> str) (questions : list question) (assessment : str)
    (st : store) :
  (forall q, In q questions -> id_ok (q_question_id q) = true) ->
  (forall n, one_line (clock n) = true) ->
  (forall pillar, In pillar PILLARS ->
     NoDup (map (fun q => strip (q_question_id q))
                (questions_of pillar questions))) ->
  cmd_validate (fst (snd (_write_reports clock questions assessment st))) = Ok [].
Proof.
  intros Hid Hclock Hnd. unfold _write_reports. cbn [snd].
  destruct (write_pillars_spec clock questions PILLARS st 0 PILLARS_NoDup
              (fun p H => H)) as (st' & W & Hin & _).
  rewrite W. cbn [fst]. unfold cmd_validate. apply validate_pillars_nil.
  intros pillar Hp. destruct (Hin pillar Hp) as [t Ht].
  destruct (report_parses clock questions pillar t Hp
              (fun q Hq _ => Hid q Hq) Hclock) as (entries & P & F).
  exists (report_text clock questions pillar t), entries.
  split; [exact Ht|]. split; [exact P|].
  apply validate_entries_nil. split; [intros e _ []|]. split.
  - replace (map entry_id entries)
      with (map (fun q => strip (q_question_id q)) (questions_of pillar questions));
      [now apply Hnd|].
    clear -F. induction F as [|e q es qs (E & _) _ IH]; [reflexivity|].
    simpl. now rewrite IH, E.
  - intros e He. clear -F He.
    induction F as [|e' q es qs (_ & _ & _ & Es & Ec & _) _ IH]; [contradiction|].
    destruct He as [<-|He]; [|now apply IH].
    rewrite Es, Ec. split; right; simpl; tauto.
Qed.

Lemma fresh_reports_validate_witness :
  cmd_validate
    (fst (snd (_write_reports still_clock two_questions (lit "demo")
                              (fun _ => None)))) = Ok [].
Proof.
  apply fresh_reports_validate.
  - intros q [<-|[<-|[]]]; reflexivity.
  - intros n. reflexivity.
  - intros pillar Hp. simpl in Hp.
    destruct Hp as [<-|[<-|[<-|[<-|[<-|[<-|[]]]]]]];
      vm_compute; repeat constructor; simpl; tauto.
Defined.

(** ** What a rewrite of fields leaves alone *)

Lemma lines_app_glue a y : lines (a ++ y) = glue (lines a) (lines y).
Proof.
  induction a as [|c a IH].
  - simpl. destruct (lines y) as [|l ls] eqn:E; [now apply lines_not_nil in E|].
    reflexivity.
  - cbn [app lines]. rewrite IH.
    destruct (lines a) as [|h t] eqn:E; [now apply lines_not_nil in E|].
    destruct (N.eqb c NL).
    + reflexivity.
    + destruct t as [|h2 t]; reflexivity.
Qed.

Lemma touches_app fields l x :
  touches fields l = true -> touches fields (l ++ x) = true.
Proof.
  unfold touches. rewrite !existsb_exists. intros (f & Hf & H).
  exists f. split; [exact Hf|]. unfold is_field_line in *.
  apply startswith_inv in H. rewrite H, <- app_assoc. apply startswith_app.
Qed.

Lemma same_or_touched_refl fields x : same_or_touched fields x x.
Proof. now left. Qed.

Lemma same_or_touched_trans fields x y z :
  same_or_touched fields x y -> same_or_touched fields y z ->
  same_or_touched fields x z.
Proof.
  intros [->|[H1 H2]] [->|[H3 H4]]; try (now left); right; now split.
Qed.

Lemma Forall2_refl {A} (R : A -> A -> Prop) l :
  (forall x, R x x) -> Forall2 R l l.
Proof. intros H. induction l; constructor; auto. Qed.

Lemma Forall2_trans {A} (R : A -> A -> Prop) :
  (forall x y z, R x y -> R y z -> R x z) ->
  forall l1 l2 l3, Forall2 R l1 l2 -> Forall2 R l2 l3 -> Forall2 R l1 l3.
Proof.
  intros T l1 l2 l3 H. revert l3.
  induction H as [|x y l1 l2 Hxy H IH]; intros l3 H3; inversion H3; subst.
  - constructor.
  - constructor; [now apply (T x y)|now apply IH].
Qed.

Lemma only_lines_refl fields a : only_lines_of fields a a.
Proof. apply Forall2_refl, same_or_touched_refl. Qed.

Lemma only_lines_trans fields a b c :
  only_lines_of fields a b -> only_lines_of fields b c -> only_lines_of fields a c.
Proof. apply Forall2_trans, same_or_touched_trans. Qed.

Lemma akin_refl fields a : akin fields a a.
Proof. split; [apply only_lines_refl|reflexivity]. Qed.

Lemma akin_trans fields a b c :
  akin fields a b -> akin fields b c -> akin fields a c.
Proof.
  intros [H1 E1] [H2 E2]. split; [now apply (only_lines_trans _ a b)|congruence].
Qed.

Lemma glue_rel fields la : forall lb ly lz,
  Forall2 (same_or_touched fields) la lb ->
  Forall2 (same_or_touched fields) ly lz ->
  hd [] ly = hd [] lz ->
  Forall2 (same_or_touched fields) (glue la ly) (glue lb lz).
Proof.
  induction la as [|x la IH]; intros lb ly lz H Hy Hh; inversion H as [|? y ? lb' Hxy H']; subst.
  - exact Hy.
  - cbn [glue]. destruct la as [|x2 la].
    + inversion H'; subst. constructor.
      * rewrite <- Hh. destruct Hxy as [->|[H1 H2]]; [now left|].
        right. split; now apply touches_app.
      * destruct Hy; [constructor|assumption].
    + inversion H' as [|? y2 ? lb2 Hxy2 H2]; subst.
      constructor; [exact Hxy|]. now apply IH.
Qed.

Lemma glue_hd fields la lb ly lz :
  Forall2 (same_or_touched fields) la lb ->
  la <> [] -> hd [] la = hd [] lb -> hd [] ly = hd [] lz ->
  hd [] (glue la ly) = hd [] (glue lb lz).
Proof.
  intros H Hn Ha Hy. destruct H as [|x y la lb Hxy H]; [contradiction|].
  simpl in Ha. subst y. cbn [glue].
  destruct H; simpl; congruence.
Qed.

(** Putting texts end to end keeps them akin. *)
Lemma akin_app fields a b y z :
  akin fields a b -> akin fields y z -> akin fields (a ++ y) (b ++ z).
Proof.
  intros [H1 E1] [H2 E2]. unfold akin, only_lines_of.
  rewrite !lines_app_glue. split.
  - now apply glue_rel.
  - apply (glue_hd fields); try assumption. apply lines_not_nil.
Qed.

(** *** [str.replace] *)

Lemma replace_from_skip old new a b :
  replace_from old new (length a) (a ++ b) = replace_from old new 0 b.
Proof. induction a as [|x a IH]; [reflexivity|exact IH]. Qed.

Lemma replace_from_match old new s :
  old <> [] -> startswith s old = true ->
  replace_from old new 0 s = new ++ replace_from old new 0 (skipn (length old) s).
Proof.
  intros Hn H. destruct old as [|o old]; [contradiction|].
  assert (E := startswith_inv _ _ H).
  destruct s as [|x t]; [discriminate|].
  cbn [replace_from]. rewrite H. f_equal.
  replace (length (o :: old) - 1) with (length old) by (cbn [length]; lia).
  cbn [length skipn app] in *.
  injection E as _ E. rewrite E at 1. apply replace_from_skip.
Qed.

Lemma akin_replace_len fields old new :
  old <> [] -> akin fields old new ->
  forall n s, length s <= n -> akin fields s (replace_from old new 0 s).
Proof.
  intros Hn A. induction n as [|n IH]; intros s L.
  - destruct s; [apply akin_refl|simpl in L; lia].
  - destruct s as [|x t]; [apply akin_refl|].
    destruct (startswith (x :: t) old) eqn:E.
    + rewrite replace_from_match by assumption.
      assert (S := startswith_inv _ _ E). rewrite S at 1.
      apply akin_app; [exact A|]. apply IH.
      rewrite length_skipn. simpl in *.
      destruct old; [contradiction|]. simpl. lia.
    + cbn [replace_from]. rewrite E.
      change (x :: t) with ([x] ++ t).
      change (x :: replace_from old new 0 t)
        with ([x] ++ replace_from old new 0 t).
      apply akin_app; [apply akin_refl|]. apply IH. simpl in L. lia.
Qed.

(** Replacing a text by one akin to it, wherever it occurs, gives a text akin
    to the first. *)
Lemma akin_replace fields old new s :
  old <> [] -> akin fields old new -> akin fields s (replace s old new).
Proof.
  intros Hn A. unfold replace. destruct old as [|o old]; [contradiction|].
  now apply (akin_replace_len fields (o :: old) new Hn A (length s)).
Qed.

(** *** The rewrite of a field in a block *)

Lemma hd_lines_hash block :
  startswith block (lit "## ") = true ->
  startswith (hd [] (lines block)) (lit "## ") = true.
Proof.
  intros H. apply startswith_inv in H. rewrite H, lines_app_glue.
  change (lines (lit "## ")) with [lit "## "]. cbn [glue hd].
  apply startswith_app.
Qed.

Lemma startswith_cons x p y s :
  startswith (y :: s) (x :: p) = N.eqb x y && startswith s p.
Proof. reflexivity. Qed.

Lemma hash_not_field f l :
  startswith l (lit "## ") = true -> startswith f (lit "#") = false ->
  is_field_line f l = false.
Proof.
  intros Hl Hf. unfold is_field_line, field_prefix.
  apply startswith_inv in Hl. rewrite Hl.
  change (lit "## " ++ skipn (length (lit "## ")) l)
    with (35%N :: (lit "# " ++ skipn (length (lit "## ")) l)).
  destruct f as [|x f]; [reflexivity|].
  change ((x :: f) ++ [COLON]) with (x :: (f ++ [COLON])).
  rewrite startswith_cons.
  change (lit "#") with [35%N] in Hf. rewrite startswith_cons in Hf.
  destruct f; cbn [startswith] in Hf; rewrite andb_true_r in Hf;
    rewrite N.eqb_sym in Hf; now rewrite Hf.
Qed.

Lemma touches_In fields f l :
  In f fields -> is_field_line f l = true -> touches fields l = true.
Proof.
  intros Hf H. unfold touches. apply existsb_exists. now exists f.
Qed.

Lemma akin_set_field fields block f v :
  In f fields -> one_line f = true -> one_line v = true ->
  is_field_line f (hd [] (lines block)) = false ->
  akin fields block (set_field block f v).
Proof.
  intros Hf H1 Hv Hh. unfold akin, only_lines_of, set_field.
  rewrite lines_set_field by assumption. split.
  - clear Hh. induction (lines block) as [|l ls IH]; [constructor|].
    cbn [map]. constructor; [|exact IH].
    unfold set_line. destruct (is_field_line f l) eqn:E; [|now left].
    right. split; [now apply (touches_In fields f)|].
    apply (touches_In fields f); [exact Hf|apply is_field_line_field_line].
  - destruct (lines block) as [|l ls]; [reflexivity|].
    cbn [map hd] in *. unfold set_line. now rewrite Hh.
Qed.

(** A block that starts with [## ] and the block with a field rewritten. *)
Lemma akin_set_field_hash fields b f v :
  In f fields -> one_line f = true -> one_line v = true ->
  startswith f (lit "#") = false ->
  startswith (hd [] (lines b)) (lit "## ") = true ->
  akin fields b (set_field b f v)
  /\ startswith (hd [] (lines (set_field b f v))) (lit "## ") = true.
Proof.
  intros Hf H1 Hv Hn Hh.
  assert (A : akin fields b (set_field b f v)).
  { apply akin_set_field; try assumption. now apply hash_not_field. }
  split; [exact A|]. destruct A as [_ <-]. exact Hh.
Qed.

Lemma akin_recorded args answer_text now block :
  one_line (status args) = true -> one_line (confidence args) = true ->
  one_line answer_text = true -> one_line now = true ->
  startswith block (lit "## ") = true ->
  akin RECORD_FIELDS block (recorded args answer_text now block).
Proof.
  intros Hs Hc Ha Hn Hb. apply hd_lines_hash in Hb. unfold recorded.
  destruct (akin_set_field_hash RECORD_FIELDS block (lit "Status") (status args))
    as [A1 B1]; try (reflexivity || assumption); [simpl; tauto|].
  destruct (akin_set_field_hash RECORD_FIELDS _ (lit "Confidence") (confidence args)
              (or_intror (or_introl eq_refl)) eq_refl Hc eq_refl B1) as [A2 B2].
  destruct (akin_set_field_hash RECORD_FIELDS _ (lit "Answer") answer_text
              (or_intror (or_intror (or_introl eq_refl))) eq_refl Ha eq_refl B2)
    as [A3 B3].
  destruct (akin_set_field_hash RECORD_FIELDS _ (lit "Last Updated") now
              (or_intror (or_intror (or_intror (or_introl eq_refl))))
              eq_refl Hn eq_refl B3) as [A4 _].
  exact (akin_trans _ _ _ _ (akin_trans _ _ _ _ (akin_trans _ _ _ _ A1 A2) A3) A4).
Qed.

Lemma hash_not_nil block : startswith block (lit "## ") = true -> block <> [].
Proof. now destruct block. Qed.

(** *** Reports *)

Lemma stores_differ_refl fields st : stores_differ_in fields st st.
Proof. intros p. destruct (st p); [apply only_lines_refl|exact I]. Qed.

Lemma stores_differ_trans fields st1 st2 st3 :
  stores_differ_in fields st1 st2 -> stores_differ_in fields st2 st3 ->
  stores_differ_in fields st1 st3.
Proof.
  intros H1 H2 p. specialize (H1 p). specialize (H2 p).
  destruct (st1 p), (st2 p), (st3 p); try contradiction; try exact I.
  now apply (only_lines_trans fields s s0).
Qed.

Lemma stores_differ_write fields st p c c' :
  st p = Some c -> only_lines_of fields c c' ->
  stores_differ_in fields st (write st p c').
Proof.
  intros Hp H q. unfold write. destruct (eqb_str q p) eqn:E.
  - apply eqb_str_eq in E. subst q. now rewrite Hp.
  - destruct (st q); [apply only_lines_refl|exact I].
Qed.

Lemma stores_differ_update fields st p c c' :
  st p = Some c -> only_lines_of fields c c' ->
  stores_differ_in fields st (if eqb_str c' c then st else write st p c').
Proof.
  intros Hp H. destruct (eqb_str c' c);
    [apply stores_differ_refl|now apply (stores_differ_write fields st p c)].
Qed.

(** *** Answer recording *)

Lemma simple_one_line v : simple v = true -> one_line v = true.
Proof. intros H. now apply simple_inv in H. Qed.

Lemma akin_rewrite_matching clock args answer_text matches :
  one_line (status args) = true -> one_line (confidence args) = true ->
  one_line answer_text = true -> (forall n, one_line (clock n) = true) ->
  (forall e, In e matches -> startswith (entry_block e) (lit "## ") = true) ->
  forall new_content tick,
    akin RECORD_FIELDS new_content
         (rewrite_matching clock args answer_text matches new_content tick).
Proof.
  intros Hs Hc Ha Hn. induction matches as [|e rest IH]; intros Hb nc tick.
  - apply akin_refl.
  - cbn [rewrite_matching].
    assert (He := Hb e (or_introl eq_refl)).
    eapply akin_trans; [|apply IH; intros e' He'; apply Hb; now right].
    apply akin_replace; [now apply hash_not_nil|].
    now apply akin_recorded.
Qed.

Lemma record_pillars_differ clock args answer_text ps :
  simple (status args) = true -> simple (confidence args) = true ->
  simple answer_text = true -> (forall n, simple (clock n) = true) ->
  forall st updated tick,
    stores_differ_in RECORD_FIELDS st
      (fst (record_pillars clock args answer_text ps st updated tick)).
Proof.
  intros Hs Hc Ha Hn. induction ps as [|p ps IH]; intros st updated tick.
  - apply stores_differ_refl.
  - cbn [record_pillars]. destruct (st p) as [content|] eqn:Sp; [|apply IH].
    destruct (_parse_questions_from_report content) as [entries|e] eqn:P;
      cbn [bind]; [|apply stores_differ_refl].
    rewrite (record_entries_spec clock args answer_text Hs Hc Ha Hn).
    eapply stores_differ_trans; [|apply IH].
    apply (stores_differ_update _ st p content); [exact Sp|].
    apply akin_rewrite_matching; try (now apply simple_one_line).
    + intros n. apply simple_one_line, Hn.
    + intros e He. apply filter_In in He as [He _].
      now apply (parse_entry_heading content entries).
Qed.

(** The reports after a command are as a file hands them back, when they
    were so before and the values are so. *)
Lemma record_pillars_storable clock args answer_text ps :
  simple (status args) = true -> simple (confidence args) = true ->
  simple answer_text = true -> (forall n, simple (clock n) = true) ->
  storable (status args) = true -> storable (confidence args) = true ->
  storable answer_text = true -> (forall n, storable (clock n) = true) ->
  forall st updated tick p content content',
    st p = Some content ->
    fst (record_pillars clock args answer_text ps st updated tick) p = Some content' ->
    storable content = true -> storable content' = true.
Proof.
  intros Hs Hc Ha Hn Cs Cc Ca Cn.
  induction ps as [|p0 ps IH]; intros st updated tick p content content' Sp Sp' Hcr.
  - cbn [record_pillars fst] in Sp'. congruence.
  - cbn [record_pillars] in Sp'.
    destruct (st p0) as [content0|] eqn:Sp0;
      [|now apply (IH st updated tick p content content')].
    destruct (_parse_questions_from_report content0) as [entries|e] eqn:P;
      cbn [bind] in Sp'; [|cbn [fst] in Sp'; congruence].
    rewrite (record_entries_spec clock args answer_text Hs Hc Ha Hn) in Sp'.
    set (nc := rewrite_matching clock args answer_text (matching args entries)
                 content0 tick) in *.
    set (st1 := if eqb_str nc content0 then st else write st p0 nc) in *.
    destruct (eqb_str p p0) eqn:E.
    + apply eqb_str_eq in E. subst p0. rewrite Sp in Sp0. injection Sp0 as <-.
      assert (S1 : st1 p = Some nc).
      { unfold st1. destruct (eqb_str nc content) eqn:En.
        - apply eqb_str_eq in En. now rewrite En.
        - apply write_same. }
      apply (IH st1 _ _ p nc content' S1 Sp').
      unfold nc. now apply forallb_rewrite_matching.
    + assert (S1 : st1 p = Some content).
      { unfold st1. destruct (eqb_str nc content0); [exact Sp|].
        unfold write. now rewrite E. }
      now apply (IH st1 _ _ p content content' S1 Sp').
Qed.

(** X10.  Whatever [cmd_record_answer] returns or raises, it leaves the same
    reports in place, each with as many lines as before, and the only lines
    that differ are lines of the fields Status, Confidence, Answer and Last
    Updated; and a report that was as a file hands it back, without carriage
    return and surrogate, is still so, so that the file takes the text and
    hands back the lines that were written.  This holds for a status, a
    confidence and clock readings without any line boundary of
    [str.splitlines] (the carriage return is one), without backslash and
    without surrogate, and an answer that is as its file hands it back and
    holds no backslash. *)
Theorem record_answer_local
    (clock : nat -> str) (args : record_args) (st : store) :
  clean (status args) = true -> clean (confidence args) = true ->
  plain (raw_answer args) = true -> storable (raw_answer args) = true ->
  (forall n, clean (clock n) = true) ->
  stores_differ_in RECORD_FIELDS st (fst (cmd_record_answer clock args st))
  /\ (forall p content content',
        st p = Some content ->
        fst (cmd_record_answer clock args st) p = Some content' ->
        storable content = true -> storable content' = true).
Proof.
  intros Hs Hc Ha Hst Hn.
  assert (Hs' := clean_simple _ Hs). assert (Hc' := clean_simple _ Hc).
  assert (Ha' := answer_text_simple _ Ha).
  assert (Hn' : forall n, simple (clock n) = true)
    by (intros n; apply clean_simple, Hn).
  assert (D := record_pillars_differ clock args (answer_text_of args) PILLARS
                 Hs' Hc' Ha' Hn' st false 0).
  assert (C := record_pillars_storable clock args (answer_text_of args) PILLARS
                 Hs' Hc' Ha' Hn'
                 (clean_storable _ Hs) (clean_storable _ Hc)
                 (answer_text_storable args Hst)
                 (fun n => clean_storable _ (Hn n))
                 st false 0).
  unfold cmd_record_answer. unfold answer_text_of in D, C.
  destruct (record_pillars _ _ _ _ _ _ _) as [st' [updated|e]]; cbn [fst] in *.
  - destruct updated; now split.
  - now split.
Qed.

Lemma record_answer_local_witness :
  stores_differ_in RECORD_FIELDS one_record_store
    (fst (cmd_record_answer (fun _ => lit "2026-02-02T00:00:00+00:00")
                            answered_args one_record_store))
  /\ (forall p content content',
        one_record_store p = Some content ->
        fst (cmd_record_answer (fun _ => lit "2026-02-02T00:00:00+00:00")
                               answered_args one_record_store) p = Some content' ->
        storable content = true -> storable content' = true).
Proof.
  apply record_answer_local; reflexivity.
Defined.

(** *** Tracker identifiers *)

Lemma lookup_In d k v : lookup d k = Some v -> exists k', In (k', v) d.
Proof.
  induction d as [|[k' v'] d IH]; simpl; [discriminate|].
  destruct (eqb_str k' k).
  - intros H. injection H as ->. exists k'. now left.
  - intros H. destruct (IH H) as [k2 H2]. exists k2. now right.
Qed.

Lemma apply_ids_entries_akin tasks entries :
  (forall k v, In (k, v) tasks -> simple v = true) ->
  (forall e, In e entries -> startswith (entry_block e) (lit "## ") = true) ->
  forall new_content,
    exists r,
      apply_ids_entries tasks entries new_content = Ok r
      /\ akin [lit "Kanbus Task"] new_content r.
Proof.
  intros Ht. induction entries as [|e rest IH]; intros Hb nc.
  - exists nc. split; [reflexivity|apply akin_refl].
  - cbn [apply_ids_entries].
    assert (Hrest : forall e', In e' rest ->
                      startswith (entry_block e') (lit "## ") = true)
      by (intros e' He'; apply Hb; now right).
    destruct (lookup tasks (entry_id e)) as [v|] eqn:L; cbn [get truthy];
      [|now apply IH].
    destruct (truthy v) eqn:Tv; [|now apply IH].
    destruct (lookup_In _ _ _ L) as [k Hk].
    destruct (simple_inv v (Ht k v Hk)) as [V1 V2].
    rewrite replace_field_lines by (reflexivity || assumption). cbn [bind].
    fold (set_field (entry_block e) (lit "Kanbus Task") v).
    destruct (IH Hrest (replace nc (entry_block e)
                          (set_field (entry_block e) (lit "Kanbus Task") v)))
      as (r & Hr & A).
    exists r. split; [exact Hr|].
    eapply akin_trans; [|exact A].
    assert (He := Hb e (or_introl eq_refl)).
    apply akin_replace; [now apply hash_not_nil|].
    apply akin_set_field; try (reflexivity || assumption); [now left|].
    apply hash_not_field; [now apply hd_lines_hash|reflexivity].
Qed.

Lemma apply_ids_pillars_differ kmap ps :
  (forall k v, In (k, v) (tasks kmap) -> simple v = true) ->
  forall st,
    stores_differ_in [lit "Kanbus Task"] st (fst (apply_ids_pillars kmap ps st))
    /\ (snd (apply_ids_pillars kmap ps st) = Ok tt
        \/ snd (apply_ids_pillars kmap ps st) = Raise ValueError).
Proof.
  intros Ht. induction ps as [|p ps IH]; intros st.
  - split; [apply stores_differ_refl|now left].
  - cbn [apply_ids_pillars]. destruct (st p) as [content|] eqn:Sp; [|apply IH].
    destruct (_parse_questions_from_report content) as [entries|e] eqn:P;
      cbn [bind].
    + destruct (apply_ids_entries_akin (tasks kmap) entries Ht
                  (fun e => parse_entry_heading content entries e P) content)
        as (r & Hr & [A _]).
      rewrite Hr.
      destruct (IH (if eqb_str r content then st else write st p r)) as [D R].
      split; [|exact R].
      eapply stores_differ_trans; [|exact D].
      now apply (stores_differ_update _ st p content).
    + split; [apply stores_differ_refl|]. right. cbn [snd]. f_equal.
      now apply (parse_raises_value_error content).
Qed.

Lemma apply_ids_pillars_ok kmap ps :
  (forall k v, In (k, v) (tasks kmap) -> simple v = true) ->
  NoDup ps ->
  forall st, reports_parse st ps -> snd (apply_ids_pillars kmap ps st) = Ok tt.
Proof.
  intros Ht Hnd. induction Hnd as [|p ps Hn Hnd IH]; intros st R; [reflexivity|].
  assert (R' : reports_parse st ps) by (intros q c Hq; apply R; now right).
  cbn [apply_ids_pillars]. destruct (st p) as [content|] eqn:Sp; [|now apply IH].
  destruct (R p content (or_introl eq_refl) Sp) as [entries P].
  rewrite P. cbn [bind].
  destruct (apply_ids_entries_akin (tasks kmap) entries Ht
              (fun e => parse_entry_heading content entries e P) content) as (r & Hr & _).
  rewrite Hr. apply IH.
  destruct (eqb_str r content); [exact R'|].
  intros q c Hq Hc. rewrite write_other in Hc by (intros ->; contradiction).
  now apply (R' q c).
Qed.

(** X11.  [_apply_kanbus_ids] leaves the same reports in place, each with as
    many lines as before, and the only lines that differ are lines of the
    field Kanbus Task; it returns when the reports that are there parse, and
    raises nothing but the [ValueError] of the document index.  This holds for
    task identifiers on one line without backslash. *)
Theorem apply_kanbus_ids_local (kmap : kanbus_map) (st : store) :
  (forall k v, In (k, v) (tasks kmap) -> simple v = true) ->
  stores_differ_in [lit "Kanbus Task"] st (fst (_apply_kanbus_ids kmap st))
  /\ (snd (_apply_kanbus_ids kmap st) = Ok tt
      \/ snd (_apply_kanbus_ids kmap st) = Raise ValueError)
  /\ (reports_parse st PILLARS -> snd (_apply_kanbus_ids kmap st) = Ok tt).
Proof.
  intros Ht. unfold _apply_kanbus_ids.
  destruct (apply_ids_pillars_differ kmap PILLARS Ht st) as [D R].
  split; [exact D|]. split; [exact R|].
  now apply apply_ids_pillars_ok; [|apply PILLARS_NoDup].
Qed.

Lemma apply_kanbus_ids_local_witness :
  stores_differ_in [lit "Kanbus Task"] one_record_store
                   (fst (_apply_kanbus_ids one_task_map one_record_store))
  /\ snd (_apply_kanbus_ids one_task_map one_record_store) = Ok tt
  /\ option_map (fun c => _parse_field c (lit "Kanbus Task"))
       (fst (_apply_kanbus_ids one_task_map one_record_store) (lit "security"))
     = Some (lit "kanbus-7f3a9c").
Proof.
  destruct (apply_kanbus_ids_local one_task_map one_record_store)
    as (D & _ & _).
  - intros k v [E|[]]. injection E as _ <-. reflexivity.
  - split; [exact D|]. split; vm_compute; reflexivity.
Defined.

(** ** Creating tracker entities *)

Lemma search_from_match pat s : forall prev pos m,
  search_from pat prev s pos = Some m ->
  exists a b prev',
    s = a ++ b /\ match_at pat prev' b (pos + length a) = Some m.
Proof.
  induction s as [|c t IH]; intros prev pos m H; cbn [search_from] in H.
  - destruct (match_at pat prev [] pos) as [m'|] eqn:M; [|discriminate].
    injection H as <-. exists [], [], prev. simpl. rewrite Nat.add_0_r. now split.
  - destruct (match_at pat prev (c :: t) pos) as [m'|] eqn:M.
    + injection H as <-. exists [], (c :: t), prev. simpl.
      rewrite Nat.add_0_r. now split.
    + destruct (IH _ _ _ H) as (a & b & prev' & E & M').
      exists (c :: a), b, prev'. split; [simpl; now f_equal|].
      simpl. now replace (pos + S (length a)) with (S pos + length a) by lia.
Qed.

Lemma startswith_firstn s p k :
  startswith s p = true -> length p <= k -> startswith (firstn k s) p = true.
Proof.
  intros H L. apply startswith_inv in H. rewrite H, firstn_app.
  rewrite firstn_all2 by exact L. apply startswith_app.
Qed.

Lemma startswith_trans a b c :
  startswith a b = true -> startswith b c = true -> startswith a c = true.
Proof.
  intros H1 H2. apply startswith_inv in H1. apply startswith_inv in H2.
  rewrite H1, H2, <- app_assoc. apply startswith_app.
Qed.

Lemma startswith_refl a : startswith a a = true.
Proof. rewrite <- (app_nil_r a) at 1. apply startswith_app. Qed.

(** The group of the identifier pattern starts with [kanbus-]. *)
Lemma kanbus_id_group is_word prev b pos m :
  match_at (kanbus_id_re is_word) prev b pos = Some m ->
  startswith (nth 0 (m_groups m) []) KANBUS_PREFIX = true.
Proof.
  unfold match_at, kanbus_id_re. rewrite match_lits.
  destruct (startswith b (lit "ID: ")); [|discriminate].
  cbn [app]. rewrite match_open, match_lits.
  set (b1 := skipn (length (lit "ID: ")) b).
  destruct (startswith b1 (lit "kanbus-")) eqn:S1; [|discriminate].
  assert (E1 := startswith_inv _ _ S1).
  unfold plus. cbn [app].
  destruct (skipn (length (lit "kanbus-")) b1) as [|c t] eqn:E2; [discriminate|].
  rewrite match_one_cons.
  destruct (word_or_dash is_word c); [|discriminate].
  rewrite match_star_greedy
    by (intros prev'; rewrite match_close; discriminate).
  rewrite match_close. cbn [match_here app].
  intros H. injection H as <-. cbn [m_groups nth].
  apply startswith_firstn; [exact S1|].
  assert (L := span_drop_length (word_or_dash is_word) t).
  rewrite E1, length_app. cbn [length]. unfold KANBUS_PREFIX. simpl length. lia.
Qed.

Lemma resolve_in_prefix short_id title parent issues :
  truthy short_id = true ->
  exists full,
    resolve_in short_id title parent issues = Ok full
    /\ startswith full short_id = true.
Proof.
  intros T. unfold resolve_in.
  destruct (candidates_of short_id title parent issues) as [|c rest] eqn:E.
  - exists short_id. split; [reflexivity|apply startswith_refl].
  - set (l := last (sort_by created_key (c :: rest)) c).
    assert (Hl : In l (candidates_of short_id title parent issues)).
    { rewrite E. apply (sort_by_in created_key). apply last_in.
      intros N. assert (H : In c (sort_by created_key (c :: rest)))
        by (apply sort_by_in; now left).
      rewrite N in H. contradiction. }
    destruct (candidate_has_id _ _ _ _ _ T Hl) as [full Hf].
    assert (P := candidates_of_prefix _ _ _ _ _ Hl).
    rewrite Hf in *. exists full. now split.
Qed.

Lemma create_issue_cases
    (tracker : list command -> command -> outcome)
    (json_issues : str -> option (list issue))
    (is_word : char -> bool)
    (title issue_type parent : str) (h : list command) :
  let cmd := create_command title issue_type parent in
  let res := _create_kanbus_issue tracker json_issues is_word
                                  title issue_type parent h in
  (fst res = h ++ [cmd] \/ fst res = h ++ [cmd; SNAPSHOT])
  /\ match snd res with
     | Ok full =>
         startswith full KANBUS_PREFIX = true
         /\ exists out, tracker h cmd = Exit0 out
     | Raise e =>
         fst res = h ++ [cmd]
         /\ ((exists err, tracker h cmd = ExitFail err
                          /\ e = WAIError (failure_message cmd err))
             \/ (exists out, tracker h cmd = Exit0 out
                             /\ re_search (kanbus_id_re is_word) out = None
                             /\ e = WAIError (lit "Failed to parse Kanbus ID")))
     end.
Proof.
  cbv zeta. unfold _create_kanbus_issue, io_bind, _run.
  set (cmd := create_command title issue_type parent).
  destruct (tracker h cmd) as [out|err] eqn:T; cbn [fst snd].
  2:{ split; [now left|]. split; [reflexivity|]. left. now exists err. }
  destruct (re_search (kanbus_id_re is_word) out) as [m|] eqn:R.
  2:{ unfold lift. cbn [fst snd]. split; [now left|]. split; [reflexivity|].
      right. now exists out. }
  unfold re_search in R.
  apply search_from_match in R as (a & b & prev & _ & M).
  apply kanbus_id_group in M.
  set (short_id := nth 0 (m_groups m) []) in *.
  assert (Ts : truthy short_id = true).
  { apply startswith_inv in M. rewrite M. reflexivity. }
  unfold _resolve_full_id. destruct (_is_full_id short_id).
  { unfold ret. cbn [fst snd]. split; [now left|]. split; [exact M|now exists out]. }
  unfold _run. cbn [fst snd].
  assert (G : forall issues,
             exists full, resolve_in short_id title parent issues = Ok full
                          /\ startswith full KANBUS_PREFIX = true).
  { intros issues.
    destruct (resolve_in_prefix short_id title parent issues Ts) as (full & E & P).
    exists full. split; [exact E|]. now apply (startswith_trans full short_id). }
  replace ((h ++ [cmd]) ++ [SNAPSHOT]) with (h ++ [cmd; SNAPSHOT])
    by (now rewrite <- app_assoc).
  destruct (tracker (h ++ [cmd]) SNAPSHOT) as [out2|err2].
  - destruct (json_issues out2) as [issues|]; cbn [fst snd].
    + destruct (G issues) as (full & -> & P).
      split; [now right|]. split; [exact P|now exists out].
    + split; [now right|]. split; [exact M|now exists out].
  - cbn [fst snd]. split; [now right|]. split; [exact M|now exists out].
Qed.

Lemma search_from_found pat b a : forall prev pos,
  (forall prev', match_at pat prev' b (pos + length a) <> None) ->
  search_from pat prev (a ++ b) pos <> None.
Proof.
  induction a as [|c a IH]; intros prev pos H.
  - cbn [app]. cbn [length] in H. rewrite Nat.add_0_r in H.
    specialize (H prev). destruct b; cbn [search_from];
      destruct (match_at pat prev _ pos); congruence.
  - cbn [app search_from].
    destruct (match_at pat prev (c :: a ++ b) pos); [discriminate|].
    apply IH. intros prev'. specialize (H prev'). cbn [length] in H.
    now replace (S pos + length a) with (pos + S (length a)) by lia.
Qed.

(** The identifier pattern matches wherever [ID: kanbus-] is followed by a
    character of a word or a hyphen. *)
Lemma kanbus_id_found is_word prev c b pos :
  is_word c || N.eqb c 45 = true ->
  match_at (kanbus_id_re is_word) prev (lit "ID: kanbus-" ++ c :: b) pos <> None.
Proof.
  intros Hc. unfold match_at, kanbus_id_re. rewrite match_lits.
  change (startswith (lit "ID: kanbus-" ++ c :: b) (lit "ID: ")) with true.
  cbn [app]. rewrite match_open, match_lits.
  change (skipn (length (lit "ID: ")) (lit "ID: kanbus-" ++ c :: b))
    with (lit "kanbus-" ++ c :: b).
  change (startswith (lit "kanbus-" ++ c :: b) (lit "kanbus-")) with true.
  change (skipn (length (lit "kanbus-")) (lit "kanbus-" ++ c :: b)) with (c :: b).
  unfold plus. cbn [app]. rewrite match_one_cons.
  unfold word_or_dash at 1. rewrite Hc.
  rewrite match_star_greedy
    by (intros prev'; rewrite match_close; discriminate).
  rewrite match_close. cbn [match_here]. discriminate.
Qed.

(** X12.  [_create_kanbus_issue] gives the tracker one [kanbus create]
    command -- the title, the type and, when a parent is given, the parent --
    followed by at most the snapshot command.  When it returns, the create
    command had succeeded and the identifier returned starts with [kanbus-].
    When it raises [WAIError], nothing was asked after the create command, and
    either the command had failed and the message is its error text, stripped,
    or [Command failed:] with the command line when that is empty, or the
    output of the command holds no [ID: kanbus-] followed by a character of a
    word or a hyphen and the message is [Failed to parse Kanbus ID].  About
    other exceptions nothing is said. *)
Theorem create_issue_spec
    (tracker : list command -> command -> outcome)
    (json_issues : str -> option (list issue))
    (is_word : char -> bool)
    (title issue_type parent : str) (h : list command) :
  let cmd := [lit "kanbus"; lit "create"; title; lit "--type"; issue_type]
             ++ match parent with
                | [] => []
                | _ :: _ => [lit "--parent"; parent]
                end in
  let snapshot := [lit "kanbus"; lit "console"; lit "snapshot"] in
  let res := _create_kanbus_issue tracker json_issues is_word
                                  title issue_type parent h in
  (fst res = h ++ [cmd] \/ fst res = h ++ [cmd; snapshot])
  /\ match snd res with
     | Ok full =>
         startswith full (lit "kanbus-") = true
         /\ exists out, tracker h cmd = Exit0 out
     | Raise (WAIError msg) =>
         fst res = h ++ [cmd]
         /\ ((exists err,
                tracker h cmd = ExitFail err
                /\ msg = if truthy (strip err) then strip err
                         else lit "Command failed: " ++ join (lit " ") cmd)
             \/ (exists out,
                   tracker h cmd = Exit0 out
                   /\ (forall a c b, out = a ++ lit "ID: kanbus-" ++ c :: b ->
                                     is_word c || N.eqb c 45 = false)
                   /\ msg = lit "Failed to parse Kanbus ID"))
     | Raise _ => True
     end.
Proof.
  cbv zeta.
  assert (E : create_command title issue_type parent
              = [lit "kanbus"; lit "create"; title; lit "--type"; issue_type]
                ++ match parent with
                   | [] => []
                   | _ :: _ => [lit "--parent"; parent]
                   end) by now destruct parent.
  rewrite <- E.
  destruct (create_issue_cases tracker json_issues is_word
              title issue_type parent h) as [H R]. cbv zeta in H, R.
  split; [exact H|].
  destruct (snd (_create_kanbus_issue _ _ _ _ _ _ _)) as [full|e]; [exact R|].
  destruct R as [R1 [(err & T & ->)|(out & T & S & ->)]].
  - split; [exact R1|]. left. now exists err.
  - split; [exact R1|]. right. exists out. split; [exact T|].
    split; [|reflexivity]. intros a c b Eo.
    destruct (is_word c || N.eqb c 45) eqn:W; [|reflexivity].
    exfalso. unfold re_search in S. rewrite Eo in S. revert S.
    apply search_from_found. intros prev'. now apply kanbus_id_found.
Qed.

(** ** Identity resolution without a snapshot at hand *)

(** X13.  When [_resolve_full_id] is given no snapshot it asks the tracker for
    one, with the snapshot command and no other, and only for an identifier
    that is not full; it never raises [WAIError]; and when the snapshot command
    fails, or its output cannot be read, it returns the identifier unchanged. *)
Theorem resolve_full_id_best_effort
    (tracker : list command -> command -> outcome)
    (json_issues : str -> option (list issue))
    (short_id title parent : str) (h : list command) :
  let res := _resolve_full_id tracker json_issues short_id title parent None h in
  fst res = (if _is_full_id short_id then h else h ++ [SNAPSHOT])
  /\ (forall msg, snd res <> Raise (WAIError msg))
  /\ ((exists err, tracker h SNAPSHOT = ExitFail err) -> snd res = Ok short_id)
  /\ (forall out, tracker h SNAPSHOT = Exit0 out -> json_issues out = None ->
      snd res = Ok short_id).
Proof.
  cbv zeta. unfold _resolve_full_id.
  destruct (_is_full_id short_id).
  { unfold ret. cbn [fst snd]. repeat split; try reflexivity; discriminate. }
  unfold _run. destruct (tracker h SNAPSHOT) as [out|err] eqn:T.
  - destruct (json_issues out) as [issues|] eqn:J; cbn [fst snd].
    + split; [reflexivity|]. split; [intros msg; apply resolve_in_not_wai|].
      split; [intros [err E]; discriminate|].
      intros out' E J'. injection E as <-. congruence.
    + repeat split; try reflexivity; discriminate.
  - cbn [fst snd]. repeat split; try reflexivity; discriminate.
Qed.

Lemma resolve_full_id_best_effort_witness :
  _resolve_full_id (fun _ _ => ExitFail (lit "no tracker")) no_json
                   (lit "kanbus-7f3") [] [] None []
  = ([SNAPSHOT], Ok (lit "kanbus-7f3")).
Proof.
  destruct (resolve_full_id_best_effort
              (fun _ _ => ExitFail (lit "no tracker")) no_json
              (lit "kanbus-7f3") [] [] []) as (F & _ & S & _).
  rewrite (surjective_pairing (_resolve_full_id _ _ _ _ _ _ _)).
  rewrite F, S; [reflexivity|]. now exists (lit "no tracker").
Defined.

(** ** The commands of the tracker sync *)

Lemma emits_ret {A} P (a : A) : emits P (ret a).
Proof. intros h. exists []. simpl. now rewrite app_nil_r. Qed.

Lemma emits_lift {A} P (r : result A) : emits P (lift r).
Proof. intros h. exists []. simpl. now rewrite app_nil_r. Qed.

Lemma emits_bind {A B} P (m : io A) (k : A -> io B) :
  emits P m -> (forall a, emits P (k a)) -> emits P (io_bind m k).
Proof.
  intros Hm Hk h. destruct (Hm h) as (e1 & H1 & F1). unfold io_bind.
  destruct (m h) as [h' [a|e]]; cbn [fst] in *; subst h'.
  - destruct (Hk a (h ++ e1)) as (e2 & H2 & F2).
    exists (e1 ++ e2). rewrite H2, app_assoc, forallb_app, F1, F2. now split.
  - now exists e1.
Qed.

Lemma emits_for_each {A} P (f : A -> io unit) l :
  (forall a, emits P (f a)) -> emits P (for_each f l).
Proof.
  intros H. induction l as [|a l IH]; cbn [for_each].
  - apply emits_ret.
  - apply emits_bind; [apply H|intros _; exact IH].
Qed.

Section SyncCommands.

Variable tracker : list command -> command -> outcome.
Variable json_issues : str -> option (list issue).

Lemma emits_comment issue_id answer :
  emits sync_command
    (_kanbus_comment tracker issue_id (lit "Answer:" ++ NL :: answer)).
Proof.
  unfold _kanbus_comment. apply emits_bind; [|intros _; apply emits_ret].
  intros h. eexists. unfold _run. cbn [fst]. split; [reflexivity|]. reflexivity.
Qed.

Lemma emits_update issue_id status :
  status = lit "closed" \/ status = lit "blocked" ->
  emits sync_command (_kanbus_update_status tracker issue_id status).
Proof.
  intros Hs h.
  exists [[lit "kanbus"; lit "update"; issue_id; lit "--status"; status]].
  unfold _kanbus_update_status, _run. split.
  - destruct (tracker h _) as [out|err]; [reflexivity|].
    now destruct (contains _ _).
  - destruct Hs as [-> | ->]; reflexivity.
Qed.

Lemma emits_resolve short_id issues :
  emits sync_command
    (_resolve_full_id tracker json_issues short_id [] [] (Some issues)).
Proof.
  unfold _resolve_full_id. destruct (_is_full_id short_id);
    [apply emits_ret|apply emits_lift].
Qed.

Lemma emits_sync_entry kmap issues e :
  emits sync_command (sync_entry tracker json_issues kmap issues e).
Proof.
  unfold sync_entry. destruct (lookup (tasks kmap) (entry_id e)) as [task_id|];
    [|apply emits_ret].
  destruct (negb (truthy task_id)); [apply emits_ret|].
  apply emits_bind; [apply emits_resolve|]. intros full.
  apply emits_bind.
  - destruct (truthy _); [apply emits_comment|apply emits_ret].
  - intros _. destruct (eqb_str (entry_status e) (lit "answered"));
      [apply emits_update; now left|].
    destruct (eqb_str (entry_status e) (lit "needs_human"));
      [apply emits_update; now right|apply emits_ret].
Qed.

Lemma emits_sync_pillar st kmap issues pillar :
  emits sync_command (sync_pillar tracker json_issues st kmap issues pillar).
Proof.
  unfold sync_pillar. destruct (st pillar); [|apply emits_ret].
  apply emits_bind; [apply emits_lift|]. intros entries.
  apply emits_for_each. intros e. apply emits_sync_entry.
Qed.

Lemma emits_sync_epic st issues item :
  emits sync_command (sync_epic tracker json_issues st issues item).
Proof.
  unfold sync_epic. destruct item as [pillar epic_id].
  apply emits_bind; [apply emits_resolve|]. intros full.
  destruct (st pillar); [|apply emits_ret].
  apply emits_bind; [apply emits_lift|]. intros entries.
  destruct (forallb _ entries); [apply emits_update; now left|apply emits_ret].
Qed.

End SyncCommands.

(** X14.  [cmd_sync_kanbus] first asks the tracker for the snapshot; every
    command it gives after that is a comment that starts with [Answer:] and a
    line feed, an update of the status to [closed] or [blocked], or the
    snapshot command again.  It gives no command of any other kind -- it
    creates nothing and deletes nothing -- whatever the reports hold and
    whatever the tracker replies. *)
Theorem sync_commands
    (tracker : list command -> command -> outcome)
    (json_issues : str -> option (list issue))
    (st : store) (kmap : kanbus_map) (h : list command) :
  exists ext,
    fst (cmd_sync_kanbus tracker json_issues st kmap h)
    = h ++ [lit "kanbus"; lit "console"; lit "snapshot"] :: ext
    /\ forallb (fun cmd => sync_command cmd || is_snapshot cmd) ext = true.
Proof.
  unfold cmd_sync_kanbus.
  set (issues := match _run tracker SNAPSHOT h with
                 | (_, Ok out) => match json_issues out with
                                  | Some l => l
                                  | None => []
                                  end
                 | (_, Raise _) => []
                 end).
  assert (E : emits sync_command
                (io_bind (for_each (sync_pillar tracker json_issues st kmap issues)
                                   PILLARS)
                   (fun _ => for_each (sync_epic tracker json_issues st issues)
                                      (epics kmap)))).
  { apply emits_bind.
    - apply emits_for_each. intros p. apply emits_sync_pillar.
    - intros _. apply emits_for_each. intros i. apply emits_sync_epic. }
  destruct (E (h ++ [SNAPSHOT])) as (ext & He & Hf).
  exists ext. split.
  - unfold issues in *. unfold _run in *.
    change [lit "kanbus"; lit "console"; lit "snapshot"] with SNAPSHOT.
    destruct (tracker h SNAPSHOT) as [out|err].
    + rewrite He. now rewrite <- app_assoc.
    + rewrite He. now rewrite <- app_assoc.
  - rewrite forallb_forall in *. intros cmd Hc. now rewrite (Hf cmd Hc).
Qed.

(** ** Reading a field *)

Lemma find_first {A} (f : A -> bool) (pre : list A) l (post : list A) :
  forallb (fun x => negb (f x)) pre = true -> f l = true ->
  List.find f (pre ++ l :: post) = Some l.
Proof.
  intros Hpre Hl. induction pre as [|x xs IH]; cbn [app List.find].
  - now rewrite Hl.
  - cbn [forallb] in Hpre. apply andb_true_iff in Hpre as [Hx Hpre].
    apply negb_true_iff in Hx. rewrite Hx. now apply IH.
Qed.

Lemma one_line_strip s : one_line s = true -> one_line (strip s) = true.
Proof.
  unfold one_line. rewrite !forallb_forall. intros H c Hc.
  apply H. now apply strip_in.
Qed.

Lemma parse_field_one_line block field :
  one_line field = true -> one_line (_parse_field block field) = true.
Proof.
  intros Hf. rewrite parse_field_lines by exact Hf.
  destruct (List.find (is_field_line field) (lines block)) as [l|] eqn:F;
    [|reflexivity].
  apply List.find_some in F as [Hin _].
  unfold field_value. apply one_line_strip, one_line_skipn.
  assert (L := lines_one_line block). rewrite Forall_forall in L.
  now apply L.
Qed.

Lemma parse_field_stripped block field :
  strip (_parse_field block field) = _parse_field block field.
Proof.
  unfold _parse_field.
  destruct (re_search (parse_field_re field) block); [apply strip_idem|reflexivity].
Qed.

(** X15.  [_parse_field] reads the first line of the block that starts with
    the field name and a colon: it returns what follows the colon on that
    line, stripped, whatever lines of the same field come later; it returns
    the empty text when no line starts so.  What it returns is on one line and
    has no white space at either end.  This holds for a field name on one
    line. *)
Theorem parse_field_first (block field : str) :
  one_line field = true ->
  (forall pre l post,
      lines block = pre ++ l :: post ->
      forallb (fun x => negb (is_field_line field x)) pre = true ->
      is_field_line field l = true ->
      _parse_field block field = strip (skipn (length field + 1) l))
  /\ (has_field block field = false -> _parse_field block field = [])
  /\ one_line (_parse_field block field) = true
  /\ strip (_parse_field block field) = _parse_field block field.
Proof.
  intros Hf. split; [|split; [|split]].
  - intros pre l post L Hpre Hl.
    rewrite parse_field_lines by exact Hf.
    rewrite L, (find_first _ pre l post Hpre Hl).
    unfold field_value, field_prefix. now rewrite length_app.
  - intros H. rewrite parse_field_lines by exact Hf.
    unfold has_field in H. apply find_none_existsb in H. now rewrite H.
  - now apply parse_field_one_line.
  - apply parse_field_stripped.
Qed.

Lemma parse_field_first_witness :
  _parse_field twice_block (lit "Status") = lit "partial"
  /\ _parse_field twice_block (lit "Evidence") = []
  /\ one_line (_parse_field twice_block (lit "Status")) = true.
Proof.
  destruct (parse_field_first twice_block (lit "Status") eq_refl)
    as (H1 & _ & H3 & _).
  destruct (parse_field_first twice_block (lit "Evidence") eq_refl)
    as (_ & H2 & _).
  split; [|split; [exact (H2 eq_refl)|exact H3]].
  exact (H1 [lit "## A-1: How?"] (lit "Status:   partial  ")
            [lit "Answer:"; lit "Status: answered"] eq_refl eq_refl eq_refl).
Defined.

(** ** The status after the evidence *)









(** ** The reports that the evidence rewrites *)

Lemma apply_evidence_pillars_spec summary ps : forall st,
  NoDup ps ->
  let res := apply_evidence_pillars summary ps st in
  (forall p, fst res p = None <-> st p = None)
  /\ (forall p, ~ In p ps -> fst res p = st p)
  /\ (snd res = Ok tt ->
      forall p c, In p ps -> st p = Some c ->
        exists c', apply_evidence_report summary c = Ok c' /\ fst res p = Some c')
  /\ (forall e, snd res = Raise e ->
      exists p c, In p ps /\ st p = Some c
                  /\ apply_evidence_report summary c = Raise e).
Proof.
  induction ps as [|q ps IH]; intros st ND; cbv zeta.
  - cbn [apply_evidence_pillars fst snd]. split; [tauto|]. split; [tauto|].
    split; [intros _ p c []|discriminate].
  - apply NoDup_cons_iff in ND as [Nq ND].
    cbn [apply_evidence_pillars].
    destruct (st q) as [content|] eqn:Sq.
    + destruct (apply_evidence_report summary content) as [new_content|err] eqn:R.
      * specialize (IH (write st q new_content) ND). cbv zeta in IH.
        destruct IH as (I1 & I2 & I3 & I4).
        assert (W : forall p, write st q new_content p = None <-> st p = None).
        { intros p. unfold write. destruct (eqb_str p q) eqn:Epq.
          - apply eqb_str_eq in Epq. subst p. rewrite Sq. split; discriminate.
          - tauto. }
        split; [|split; [|split]].
        -- intros p. rewrite I1. apply W.
        -- intros p Hp. rewrite I2 by (intros H; apply Hp; now right).
           apply write_other. intros ->. apply Hp. now left.
        -- intros Hok p c [<-|Hp] Hc.
           ++ rewrite Sq in Hc. injection Hc as <-. exists new_content.
              split; [exact R|]. rewrite I2 by exact Nq. apply write_same.
           ++ apply (I3 Hok p c Hp).
              rewrite write_other; [exact Hc|]. intros ->. contradiction.
        -- intros e He. destruct (I4 e He) as (p & c & Hp & Hc & Hr).
           destruct (eqb_str p q) eqn:Epq.
           ++ apply eqb_str_eq in Epq. subst p. contradiction.
           ++ apply eqb_str_neq in Epq. rewrite write_other in Hc by exact Epq.
              exists p, c. split; [now right|]. now split.
      * cbn [fst snd]. split; [tauto|]. split; [tauto|].
        split; [discriminate|].
        intros e He. injection He as <-. exists q, content.
        split; [now left|]. now split.
    + specialize (IH st ND). cbv zeta in IH. destruct IH as (I1 & I2 & I3 & I4).
      split; [exact I1|]. split; [|split].
      * intros p Hp. apply I2. intros H. apply Hp. now right.
      * intros Hok p c [<-|Hp] Hc; [congruence|]. now apply (I3 Hok p c).
      * intros e He. destruct (I4 e He) as (p & c & Hp & Hc & Hr).
        exists p, c. split; [now right|]. now split.
Qed.

(** X17.  [cmd_apply_evidence] creates no report and deletes none, and it
    leaves a report that is not of a pillar as it is, whether it returns or
    raises.  When it returns, every report of a pillar holds the rewrite of the
    text it held before, each report rewritten once and on its own; when it
    raises with an inventory at hand, the error is the error of the rewrite of
    one of the reports.  Without an inventory it raises and changes nothing. *)
Theorem apply_evidence_reports (evidence : option inventory) (st : store) :
  let res := cmd_apply_evidence evidence st in
  (forall p, fst res p = None <-> st p = None)
  /\ (forall p, ~ In p PILLARS -> fst res p = st p)
  /\ (snd res = Ok tt ->
      exists inv, evidence = Some inv
        /\ forall p c, In p PILLARS -> st p = Some c ->
             exists c', apply_evidence_report (summary_of inv) c = Ok c'
                        /\ fst res p = Some c')
  /\ (forall e, snd res = Raise e ->
      match evidence with
      | None => fst res = st
      | Some inv =>
          exists p c, In p PILLARS /\ st p = Some c
                      /\ apply_evidence_report (summary_of inv) c = Raise e
      end).
Proof.
  cbv zeta. unfold cmd_apply_evidence. destruct evidence as [inv|].
  - destruct (apply_evidence_pillars_spec (summary_of inv) PILLARS st PILLARS_NoDup)
      as (H1 & H2 & H3 & H4).
    split; [exact H1|]. split; [exact H2|]. split; [|exact H4].
    intros Hok. exists inv. split; [reflexivity|]. exact (H3 Hok).
  - cbn [fst snd]. split; [tauto|]. split; [tauto|].
    split; [discriminate|reflexivity].
Qed.

(** ** Fallback question identifiers *)

Lemma digits_from_acc fuel : forall n acc,
  digits_from fuel n acc = digits_from fuel n [] ++ acc.
Proof.
  induction fuel as [|f IH]; intros n acc; cbn [digits_from]; [reflexivity|].
  destruct (n <? 10); [reflexivity|].
  rewrite IH, (IH _ [_]), <- app_assoc. reflexivity.
Qed.

Lemma int_of_snoc s d : int_of 10 (s ++ [d]) = (int_of 10 s * 10 + (d - 48))%N.
Proof. unfold int_of. now rewrite fold_left_app. Qed.

Lemma int_of_digits fuel : forall n,
  n < fuel -> int_of 10 (digits_from fuel n []) = N.of_nat n.
Proof.
  induction fuel as [|f IH]; intros n Hn; [lia|].
  cbn [digits_from]. destruct (n <? 10) eqn:L.
  - apply Nat.ltb_lt in L. rewrite Nat.mod_small by exact L.
    unfold int_of. cbn [fold_left]. lia.
  - apply Nat.ltb_ge in L. rewrite digits_from_acc.
    rewrite int_of_snoc, IH.
    + assert (D := Nat.div_mod_eq n 10). lia.
    + assert (n / 10 < n) by (apply Nat.div_lt; lia). lia.
Qed.

Lemma int_of_decimal n : int_of 10 (decimal n) = N.of_nat n.
Proof. apply int_of_digits. lia. Qed.

Lemma int_of_zeros k s : int_of 10 (repeat 48%N k ++ s) = int_of 10 s.
Proof.
  unfold int_of. rewrite fold_left_app.
  replace (fold_left _ (repeat 48%N k) 0%N) with 0%N; [reflexivity|].
  induction k as [|k IH]; [reflexivity|]. cbn [repeat fold_left].
  exact IH.
Qed.

Lemma int_of_format n : int_of 10 (format_03d n) = N.of_nat n.
Proof. unfold format_03d. now rewrite int_of_zeros, int_of_decimal. Qed.

Lemma digits_from_digits fuel : forall n acc,
  forallb is_digit acc = true -> forallb is_digit (digits_from fuel n acc) = true.
Proof.
  induction fuel as [|f IH]; intros n acc Ha; cbn [digits_from]; [exact Ha|].
  assert (D : is_digit (48 + N.of_nat (n mod 10))%N = true).
  { assert (n mod 10 < 10) by (apply Nat.mod_upper_bound; lia).
    unfold is_digit. apply andb_true_iff. split; apply N.leb_le; lia. }
  destruct (n <? 10).
  - cbn [forallb]. now rewrite D.
  - apply IH. cbn [forallb]. now rewrite D.
Qed.

Lemma digits_from_length fuel : forall n acc,
  0 < fuel -> length acc < length (digits_from fuel n acc).
Proof.
  induction fuel as [|f IH]; intros n acc Hf; [lia|].
  cbn [digits_from]. destruct (n <? 10) eqn:L; [cbn [length]; lia|].
  apply Nat.ltb_ge in L. destruct f as [|f'].
  - cbn [digits_from length]. lia.
  - specialize (IH (n / 10) ((48 + N.of_nat (n mod 10))%N :: acc)).
    cbn [length] in IH. lia.
Qed.

Lemma format_digits n :
  forallb is_digit (format_03d n) = true /\ 3 <= length (format_03d n).
Proof.
  unfold format_03d. split.
  - rewrite forallb_app. apply andb_true_iff. split.
    + apply forallb_forall. intros c Hc. apply repeat_spec in Hc. now subst c.
    + now apply digits_from_digits.
  - rewrite length_app, repeat_length.
    assert (H : forall k a : nat, a = k -> 3 <= 3 - k + a) by lia.
    now apply H.
Qed.

Lemma digit_id c : is_digit c = true -> not_colon c = true /\ is_linebreak c = false
                                        /\ is_space c = false.
Proof.
  unfold is_digit. intros H. apply andb_true_iff in H as [H1 H2].
  apply N.leb_le in H1, H2.
  assert (In c [48;49;50;51;52;53;54;55;56;57]%N).
  { assert (E : c = N.of_nat (N.to_nat c)) by lia.
    assert (L : 48 <= N.to_nat c <= 57) by lia.
    rewrite E. clear E H1 H2. set (k := N.to_nat c) in *. clearbody k.
    do 48 (destruct k as [|k]; [lia|]).
    do 10 (destruct k as [|k]; [cbn; tauto|]). lia. }
  cbn [In] in H. repeat destruct H as [H|H]; subst; try contradiction;
    repeat split; reflexivity.
Qed.

Lemma qid_parts pillar idx :
  _qid pillar idx = qid_prefix pillar ++ lit "-" ++ format_03d idx.
Proof. reflexivity. Qed.

Lemma qid_prefix_pillars :
  forallb (fun p => (length (qid_prefix p) =? 8)
                    && forallb (fun c => not_colon c && negb (is_linebreak c)
                                         && negb (is_space c))
                               (qid_prefix p)) PILLARS = true
  /\ NoDup (map qid_prefix PILLARS).
Proof.
  split; [vm_compute; reflexivity|].
  assert (D : forall a b : str, {a = b} + {a <> b})
    by (apply list_eq_dec, N.eq_dec).
  vm_compute.
  repeat (constructor; [cbn [In]; intros H;
                        repeat (destruct H as [H|H]; [discriminate H|]); exact H|]).
  constructor.
Qed.

Lemma app_inj_length {A} (a a' b b' : list A) :
  length a = length a' -> a ++ b = a' ++ b' -> a = a' /\ b = b'.
Proof.
  revert a'. induction a as [|x a IH]; intros [|x' a'] L E; try discriminate.
  - now split.
  - cbn [length] in L. injection L as L. cbn [app] in E. injection E as -> E.
    destruct (IH a' L E) as [-> ->]. now split.
Qed.

Lemma NoDup_map_inj {A B} (f : A -> B) (l : list A) :
  NoDup (map f l) -> forall x y, In x l -> In y l -> f x = f y -> x = y.
Proof.
  induction l as [|a l IH]; intros ND x y Hx Hy E; [contradiction|].
  cbn [map] in ND. apply NoDup_cons_iff in ND as [Na ND].
  destruct Hx as [<-|Hx], Hy as [<-|Hy].
  - reflexivity.
  - exfalso. apply Na. rewrite E. now apply in_map.
  - exfalso. apply Na. rewrite <- E. now apply in_map.
  - now apply IH.
Qed.

Lemma qid_prefix_ok p :
  In p PILLARS ->
  length (qid_prefix p) = 8
  /\ forall c, In c (qid_prefix p) ->
       not_colon c = true /\ is_linebreak c = false /\ is_space c = false.
Proof.
  intros Hp. destruct qid_prefix_pillars as [F _].
  rewrite forallb_forall in F. specialize (F p Hp).
  apply andb_true_iff in F as [L C]. apply Nat.eqb_eq in L.
  split; [exact L|]. intros c Hc. rewrite forallb_forall in C.
  specialize (C c Hc). apply andb_true_iff in C as [C C3].
  apply andb_true_iff in C as [C1 C2].
  apply negb_true_iff in C2, C3. now repeat split.
Qed.

Lemma qid_chars p idx c :
  In p PILLARS -> In c (_qid p idx) ->
  not_colon c = true /\ is_linebreak c = false /\ is_space c = false.
Proof.
  intros Hp Hc. rewrite qid_parts in Hc.
  apply in_app_or in Hc as [Hc|Hc]; [now apply (qid_prefix_ok p Hp)|].
  apply in_app_or in Hc as [Hc|Hc].
  - destruct Hc as [<-|[]]. now repeat split.
  - apply digit_id. destruct (format_digits idx) as [F _].
    rewrite forallb_forall in F. now apply F.
Qed.

Lemma last_split {A} (l : list A) : 0 < length l -> exists a d, l = a ++ [d].
Proof.
  intros H. destruct (exists_last (l := l)) as (a & d & E).
  - intros ->. cbn in H. lia.
  - now exists a, d.
Qed.

(** X18.  The fallback identifiers of the questions of the six pillars are
    fit for a heading and tell the questions apart: [_qid] returns a text that
    is not empty, holds no colon, no line boundary and no white space (the
    stripped text is the text itself), and two identifiers are the same only
    for the same pillar and the same index. *)
Theorem qid_unique (p p' : str) (i i' : nat) :
  In p PILLARS -> In p' PILLARS ->
  id_ok (_qid p i) = true
  /\ strip (_qid p i) = _qid p i
  /\ (_qid p i = _qid p' i' -> p = p' /\ i = i').
Proof.
  intros Hp Hp'.
  destruct (qid_prefix_ok p Hp) as [L C].
  destruct (qid_prefix_ok p' Hp') as [L' _].
  split; [|split].
  - unfold id_ok, no_linebreak. apply andb_true_iff. split;
      [apply andb_true_iff; split|].
    + rewrite qid_parts. destruct (qid_prefix p); [discriminate L|reflexivity].
    + apply forallb_forall. intros c Hc. now apply (qid_chars p i c Hp).
    + apply forallb_forall. intros c Hc. apply negb_true_iff.
      now apply (qid_chars p i c Hp).
  - assert (Q := qid_chars p i).
    rewrite qid_parts in *.
    destruct (qid_prefix p) as [|c a]; [discriminate L|].
    destruct (format_digits i) as [_ F].
    destruct (last_split (format_03d i)) as (b & d & E); [lia|].
    rewrite E in *.
    replace ((c :: a) ++ lit "-" ++ b ++ [d])
      with (c :: (a ++ lit "-" ++ b) ++ [d]) in *
      by (cbn [app]; now rewrite <- !app_assoc).
    apply strip_fix.
    + apply (Q c Hp). now left.
    + apply (Q d Hp). right. apply in_or_app. right. now left.
  - intros E. rewrite !qid_parts in E.
    apply app_inj_length in E as [E1 E2]; [|congruence].
    destruct qid_prefix_pillars as [_ ND].
    split; [exact (NoDup_map_inj qid_prefix PILLARS ND p p' Hp Hp' E1)|].
    apply app_inv_head in E2.
    apply (f_equal (int_of 10)) in E2. rewrite !int_of_format in E2. lia.
Qed.

Lemma qid_unique_witness :
  id_ok (_qid (lit "security") 7) = true
  /\ strip (_qid (lit "security") 7) = lit "SECURITY-007"
  /\ (_qid (lit "security") 7 = _qid (lit "sustainability") 7 ->
      lit "security" = lit "sustainability" /\ 7 = 7).
Proof.
  assert (H1 : In (lit "security") PILLARS) by (right; now left).
  assert (H2 : In (lit "sustainability") PILLARS) by (do 5 right; now left).
  destruct (qid_unique (lit "security") (lit "sustainability") 7 7 H1 H2)
    as (A & B & C).
  split; [exact A|]. split; [|exact C].
  rewrite B. reflexivity.
Defined.

(** ** The tracker structure of an assessment *)

Lemma eqb_str_sym a b : eqb_str a b = eqb_str b a.
Proof.
  destruct (eqb_str a b) eqn:E; symmetry.
  - apply eqb_str_eq in E. subst. apply eqb_str_refl.
  - apply eqb_str_neq in E. apply eqb_str_neq. congruence.
Qed.

Lemma lookup_dict_set d k v k' :
  lookup (dict_set d k v) k' = if eqb_str k k' then Some v else lookup d k'.
Proof.
  induction d as [|[k0 v0] t IH]; cbn [dict_set lookup]; [reflexivity|].
  destruct (eqb_str k0 k) eqn:E0.
  - apply eqb_str_eq in E0. subst k0. cbn [lookup].
    now destruct (eqb_str k k').
  - cbn [lookup]. rewrite IH.
    destruct (eqb_str k0 k') eqn:E1; [|reflexivity].
    apply eqb_str_eq in E1. subst k'. now rewrite eqb_str_sym, E0.
Qed.

Lemma dict_set_keys_new d k v :
  lookup d k = None -> map fst (dict_set d k v) = map fst d ++ [k].
Proof.
  induction d as [|[k0 v0] t IH]; cbn [dict_set lookup map app fst]; [reflexivity|].
  destruct (eqb_str k0 k); [discriminate|].
  intros H. cbn [map fst]. now rewrite IH.
Qed.

Lemma dict_set_in d k v k' v' :
  In (k', v') (dict_set d k v) -> In (k', v') d \/ (k' = k /\ v' = v).
Proof.
  induction d as [|[k0 v0] t IH]; cbn [dict_set].
  - intros [H|[]]. injection H as <- <-. now right.
  - destruct (eqb_str k0 k) eqn:E0.
    + apply eqb_str_eq in E0. subst k0.
      intros [H|H]; [injection H as <- <-; now right|left; now right].
    + intros [H|H]; [left; now left|].
      destruct (IH H) as [H'|H']; [left; now right|now right].
Qed.

Lemma create_not_snapshot title issue_type parent :
  is_snapshot (create_command title issue_type parent) = false
  /\ is_create (create_command title issue_type parent) = true.
Proof. unfold create_command. now destruct (truthy parent). Qed.

Section InitStructure.

Variable tracker : list command -> command -> outcome.
Variable json_issues : str -> option (list issue).
Variable is_word : char -> bool.

(** What one call of [_create_kanbus_issue] adds to the history. *)
Lemma create_runs title issue_type parent h :
  exists ext,
    fst (_create_kanbus_issue tracker json_issues is_word
                              title issue_type parent h) = h ++ ext
    /\ forallb (fun c => is_snapshot c || is_create c) ext = true
    /\ creates ext = [create_command title issue_type parent]
    /\ forall id,
         snd (_create_kanbus_issue tracker json_issues is_word
                                   title issue_type parent h) = Ok id ->
         startswith id KANBUS_PREFIX = true.
Proof.
  destruct (create_issue_cases tracker json_issues is_word
              title issue_type parent h) as [H R]. cbv zeta in H, R.
  destruct (create_not_snapshot title issue_type parent) as [N C].
  assert (P : forall id,
             snd (_create_kanbus_issue tracker json_issues is_word
                                       title issue_type parent h) = Ok id ->
             startswith id KANBUS_PREFIX = true).
  { intros id E. rewrite E in R. apply R. }
  destruct H as [H|H]; rewrite H.
  - exists [create_command title issue_type parent].
    split; [reflexivity|]. unfold creates. cbn [forallb filter].
    rewrite N, C. cbn. now repeat split.
  - exists [create_command title issue_type parent; SNAPSHOT].
    split; [reflexivity|]. unfold creates. cbn [forallb filter].
    rewrite N, C. cbn. now repeat split.
Qed.

Lemma creates_app a b : creates (a ++ b) = creates a ++ creates b.
Proof. apply filter_app. Qed.

Lemma init_tasks_spec pillar epic_id questions : forall tasks h,
  exists ext,
    fst (init_tasks tracker json_issues is_word pillar epic_id questions tasks h)
    = h ++ ext
    /\ forallb (fun c => is_snapshot c || is_create c) ext = true
    /\ forall tasks',
         snd (init_tasks tracker json_issues is_word pillar epic_id
                         questions tasks h) = Ok tasks' ->
         creates ext
         = map (fun q => create_command (task_title q) (lit "task") epic_id)
               (questions_of pillar questions)
         /\ (forall k, lookup tasks k <> None -> lookup tasks' k <> None)
         /\ (forall q, In q (questions_of pillar questions) ->
                       lookup tasks' (q_question_id q) <> None)
         /\ (forall k v, In (k, v) tasks' ->
               In (k, v) tasks
               \/ (In k (map q_question_id (questions_of pillar questions))
                   /\ startswith v KANBUS_PREFIX = true)).
Proof.
  induction questions as [|q rest IH]; intros tasks h.
  - exists []. cbn [init_tasks ret fst snd questions_of filter map].
    rewrite app_nil_r. split; [reflexivity|]. split; [reflexivity|].
    intros tasks' E. injection E as <-.
    split; [reflexivity|]. split; [tauto|]. split; [intros q []|]. intros k v H. now left.
  - cbn [init_tasks]. unfold questions_of. cbn [filter].
    fold (questions_of pillar rest).
    destruct (eqb_str (q_pillar q) pillar) eqn:Ep; [|apply IH].
    destruct (create_runs (task_title q) (lit "task") epic_id h)
      as (e1 & H1 & F1 & C1 & P1).
    unfold io_bind.
    destruct (_create_kanbus_issue tracker json_issues is_word
                (task_title q) (lit "task") epic_id h) as [h1 [id|err]];
      cbn [fst snd] in *; subst h1.
    + destruct (IH (dict_set tasks (q_question_id q) id) (h ++ e1))
        as (e2 & H2 & F2 & S2).
      exists (e1 ++ e2). rewrite H2, app_assoc.
      split; [reflexivity|]. split; [now rewrite forallb_app, F1, F2|].
      intros tasks' E. destruct (S2 tasks' E) as (C2 & K2 & Q2 & V2).
      rewrite creates_app, C1, C2. split; [reflexivity|].
      split; [|split].
      * intros k Hk. apply K2. rewrite lookup_dict_set.
        now destruct (eqb_str (q_question_id q) k).
      * intros q' [<-|Hq'].
        -- apply K2. rewrite lookup_dict_set, eqb_str_refl. discriminate.
        -- now apply Q2.
      * intros k v Hv. destruct (V2 k v Hv) as [Hd|[Hk Hp]].
        -- apply dict_set_in in Hd as [Hd|[-> ->]]; [now left|].
           right. split; [now left|]. now apply P1.
        -- right. split; [now right|exact Hp].
    + exists e1. split; [reflexivity|]. split; [exact F1|discriminate].
Qed.

Lemma init_pillars_spec initiative_id questions pillars : forall kmap h,
  NoDup pillars ->
  (forall p, In p pillars -> lookup (epics kmap) p = None) ->
  exists ext,
    fst (init_pillars tracker json_issues is_word initiative_id questions
                      pillars kmap h) = h ++ ext
    /\ forallb (fun c => is_snapshot c || is_create c) ext = true
    /\ forall kmap',
         snd (init_pillars tracker json_issues is_word initiative_id questions
                           pillars kmap h) = Ok kmap' ->
         creates ext
         = flat_map
             (fun pillar =>
                create_command (pillar_title pillar ++ lit " Pillar") (lit "epic")
                               initiative_id
                :: map (fun q => create_command (task_title q) (lit "task")
                                   (get (lookup (epics kmap') pillar) []))
                       (questions_of pillar questions))
             pillars
         /\ map fst (epics kmap') = map fst (epics kmap) ++ pillars
         /\ (forall p, lookup (epics kmap) p <> None ->
                       lookup (epics kmap') p = lookup (epics kmap) p)
         /\ (forall k, lookup (tasks kmap) k <> None -> lookup (tasks kmap') k <> None)
         /\ (forall p q, In p pillars -> In q (questions_of p questions) ->
                         lookup (tasks kmap') (q_question_id q) <> None)
         /\ (forall k v, In (k, v) (tasks kmap') ->
               In (k, v) (tasks kmap)
               \/ ((exists p, In p pillars
                              /\ In k (map q_question_id (questions_of p questions)))
                   /\ startswith v KANBUS_PREFIX = true))
         /\ (forall k v, In (k, v) (epics kmap') ->
               In (k, v) (epics kmap)
               \/ (In k pillars /\ startswith v KANBUS_PREFIX = true)).
Proof.
  induction pillars as [|pillar rest IH]; intros kmap h ND Fresh.
  - exists []. cbn [init_pillars ret fst snd flat_map]. rewrite !app_nil_r.
    split; [reflexivity|]. split; [reflexivity|].
    intros kmap' E. injection E as <-.
    split; [reflexivity|]. split; [reflexivity|]. split; [tauto|].
    split; [tauto|]. split; [intros p q []|]. split; intros k v H; now left.
  - apply NoDup_cons_iff in ND as [Np ND].
    cbn [init_pillars].
    destruct (create_runs (pillar_title pillar ++ lit " Pillar") (lit "epic")
                          initiative_id h) as (e1 & H1 & F1 & C1 & P1).
    unfold io_bind at 1 3.
    destruct (_create_kanbus_issue tracker json_issues is_word
                (pillar_title pillar ++ lit " Pillar") (lit "epic")
                initiative_id h) as [h1 [epic_id|err]];
      cbn [fst snd] in *; subst h1.
    2:{ exists e1. split; [reflexivity|]. split; [exact F1|discriminate]. }
    destruct (init_tasks_spec pillar epic_id questions (tasks kmap) (h ++ e1))
      as (e2 & H2 & F2 & S2).
    unfold io_bind.
    destruct (init_tasks tracker json_issues is_word pillar epic_id questions
                         (tasks kmap) (h ++ e1)) as [h2 [tasks'|err]];
      cbn [fst snd] in *; subst h2.
    2:{ exists (e1 ++ e2). rewrite app_assoc. split; [reflexivity|].
        split; [now rewrite forallb_app, F1, F2|discriminate]. }
    destruct (S2 tasks' eq_refl) as (C2 & K2 & Q2 & V2).
    set (kmap1 := {| tasks := tasks';
                     epics := dict_set (epics kmap) pillar epic_id |}).
    assert (Fresh1 : forall p, In p rest -> lookup (epics kmap1) p = None).
    { intros p Hp. cbn [kmap1 epics]. rewrite lookup_dict_set.
      destruct (eqb_str pillar p) eqn:E.
      - apply eqb_str_eq in E. subst p. contradiction.
      - apply Fresh. now right. }
    destruct (IH kmap1 ((h ++ e1) ++ e2) ND Fresh1) as (e3 & H3 & F3 & S3).
    exists (e1 ++ e2 ++ e3).
    split; [rewrite H3; now rewrite <- !app_assoc|].
    split; [now rewrite !forallb_app, F1, F2, F3|].
    intros kmap' E. destruct (S3 kmap' E) as (C3 & M3 & L3 & K3 & Q3 & V3 & W3).
    assert (Le : lookup (epics kmap') pillar = Some epic_id).
    { rewrite L3; cbn [kmap1 epics]; rewrite lookup_dict_set, eqb_str_refl;
        [reflexivity|discriminate]. }
    split; [|split; [|split; [|split; [|split; [|split]]]]].
    + rewrite !creates_app, C1, C2, C3. cbn [flat_map app].
      rewrite Le. cbn [get]. reflexivity.
    + rewrite M3. cbn [kmap1 epics].
      rewrite dict_set_keys_new by (apply Fresh; now left).
      now rewrite <- app_assoc.
    + intros p Hp. rewrite L3; cbn [kmap1 epics]; rewrite lookup_dict_set.
      * destruct (eqb_str pillar p) eqn:Epp; [|reflexivity].
        apply eqb_str_eq in Epp. subst p.
        rewrite Fresh in Hp by now left. contradiction.
      * now destruct (eqb_str pillar p).
    + intros k Hk. apply K3. cbn [kmap1 tasks]. now apply K2.
    + intros p q [<-|Hp] Hq.
      * apply K3. cbn [kmap1 tasks]. now apply Q2.
      * now apply (Q3 p q).
    + intros k v Hv. destruct (V3 k v Hv) as [Hd|[(p & Hp & Hk) Hs]].
      * cbn [kmap1 tasks] in Hd. destruct (V2 k v Hd) as [H0|[Hk Hs]]; [now left|].
        right. split; [|exact Hs]. exists pillar. split; [now left|exact Hk].
      * right. split; [|exact Hs]. exists p. split; [now right|exact Hk].
    + intros k v Hv. destruct (W3 k v Hv) as [Hd|[Hk Hs]].
      * cbn [kmap1 epics] in Hd.
        apply dict_set_in in Hd as [Hd|[-> ->]]; [now left|].
        right. split; [now left|]. now apply P1.
      * right. split; [now right|exact Hs].
Qed.

Lemma init_structure_facts (assessment : str) (questions : list question)
    (h : list command) :
  let res := init_structure tracker json_issues is_word assessment questions h in
  exists ext,
    fst res = h ++ ext
    /\ forallb (fun c => is_snapshot c || is_create c) ext = true
    /\ forall initiative_id kmap,
         snd res = Ok (initiative_id, kmap) ->
         creates ext = init_creates_run assessment questions initiative_id kmap
         /\ map fst (epics kmap) = PILLARS
         /\ (forall q, In q questions -> In (q_pillar q) PILLARS ->
                       lookup (tasks kmap) (q_question_id q) <> None)
         /\ (forall k v, In (k, v) (tasks kmap) ->
               exists q, In q questions /\ In (q_pillar q) PILLARS
                         /\ k = q_question_id q)
         /\ startswith initiative_id KANBUS_PREFIX = true
         /\ (forall k v, In (k, v) (tasks kmap ++ epics kmap) ->
               startswith v KANBUS_PREFIX = true).
Proof.
  cbv zeta. unfold init_structure.
  destruct (create_runs (lit "Well-Architected Assessment: " ++ assessment)
                        (lit "initiative") [] h) as (e1 & H1 & F1 & C1 & P1).
  unfold io_bind at 1 3.
  destruct (_create_kanbus_issue tracker json_issues is_word
              (lit "Well-Architected Assessment: " ++ assessment)
              (lit "initiative") [] h) as [h1 [initiative_id|err]];
    cbn [fst snd] in *; subst h1.
  2:{ exists e1. split; [reflexivity|]. split; [exact F1|discriminate]. }
  destruct (init_pillars_spec initiative_id questions PILLARS
              {| tasks := []; epics := [] |} (h ++ e1) PILLARS_NoDup
              (fun p _ => eq_refl)) as (e2 & H2 & F2 & S2).
  unfold io_bind.
  destruct (init_pillars tracker json_issues is_word initiative_id questions
              PILLARS {| tasks := []; epics := [] |} (h ++ e1))
    as [h2 [kmap|err]]; cbn [fst snd] in *; subst h2.
  2:{ exists (e1 ++ e2). rewrite app_assoc. split; [reflexivity|].
      split; [now rewrite forallb_app, F1, F2|discriminate]. }
  exists (e1 ++ e2). unfold ret. cbn [fst snd]. rewrite app_assoc.
  split; [reflexivity|]. split; [now rewrite forallb_app, F1, F2|].
  intros i k E. injection E as <- <-.
  destruct (S2 kmap eq_refl) as (C2 & M2 & _ & _ & Q2 & V2 & W2).
  cbn [tasks epics map app] in *.
  split; [|split; [|split; [|split; [|split]]]].
  - rewrite creates_app, C1, C2. reflexivity.
  - exact M2.
  - intros q Hq Hp. apply (Q2 (q_pillar q) q Hp).
    unfold questions_of. apply filter_In. split; [exact Hq|apply eqb_str_refl].
  - intros k v Hv. destruct (V2 k v Hv) as [[]|[(p & Hp & Hk) _]].
    apply in_map_iff in Hk as (q & <- & Hq).
    unfold questions_of in Hq. apply filter_In in Hq as [Hq Ep].
    apply eqb_str_eq in Ep. subst p. now exists q.
  - now apply P1.
  - intros k v Hv. apply in_app_or in Hv as [Hv|Hv].
    + now destruct (V2 k v Hv) as [[]|[_ Hs]].
    + now destruct (W2 k v Hv) as [[]|[_ Hs]].
Qed.

Lemma create_command_under title issue_type parent :
  startswith parent KANBUS_PREFIX = true ->
  create_command title issue_type parent = create_under parent title issue_type.
Proof.
  intros H. apply startswith_inv in H. rewrite H. reflexivity.
Qed.

Lemma lookup_key d k : In k (map fst d) -> exists v, lookup d k = Some v.
Proof.
  induction d as [|[k0 v0] t IH]; cbn [map fst In lookup]; [tauto|].
  intros [->|H].
  - rewrite eqb_str_refl. now exists v0.
  - destruct (eqb_str k0 k); [now exists v0|now apply IH].
Qed.

Lemma flat_map_ext_within {A B} (f g : A -> list B) l :
  (forall a, In a l -> f a = g a) -> flat_map f l = flat_map g l.
Proof.
  induction l as [|a l IH]; intros H; [reflexivity|]. cbn [flat_map].
  rewrite (H a (or_introl eq_refl)), IH; [reflexivity|].
  intros b Hb. apply H. now right.
Qed.

(** The commands of the calls are the commands as they are written out. *)
Lemma init_creates_written assessment questions initiative_id kmap :
  startswith initiative_id KANBUS_PREFIX = true ->
  map fst (epics kmap) = PILLARS ->
  (forall k v, In (k, v) (epics kmap) -> startswith v KANBUS_PREFIX = true) ->
  init_creates_run assessment questions initiative_id kmap
  = init_creates assessment questions initiative_id kmap.
Proof.
  intros Hi Hm Hv. unfold init_creates_run, init_creates. f_equal.
  assert (P : forall pillar, In pillar PILLARS ->
            startswith (get (lookup (epics kmap) pillar) []) KANBUS_PREFIX = true
            /\ get (lookup (epics kmap) pillar) [] = epic_of kmap pillar).
  { intros pillar Hp. rewrite <- Hm in Hp.
    destruct (lookup_key _ _ Hp) as [v L]. unfold epic_of. rewrite L. cbn [get].
    split; [|reflexivity]. destruct (lookup_In _ _ _ L) as [k' Hk].
    now apply (Hv k' v). }
  assert (Q : forall named, In named PILLAR_EPICS ->
            In (fst named) PILLARS
            /\ pillar_title (fst named) ++ lit " Pillar" = snd named).
  { intros named Hn. cbn [PILLAR_EPICS In] in Hn.
    repeat (destruct Hn as [<-|Hn];
            [split; [cbn [fst PILLARS In]; tauto|vm_compute; reflexivity]|]).
    contradiction. }
  change PILLARS with (map fst PILLAR_EPICS).
  rewrite flat_map_concat_map, map_map, <- flat_map_concat_map.
  apply flat_map_ext_within. intros named Hn.
  destruct (Q named Hn) as [Qp Qt]. destruct (P _ Qp) as [Ps Pe].
  cbv zeta. rewrite Qt, (create_command_under _ _ _ Hi). f_equal.
  apply map_ext. intros q. rewrite (create_command_under _ _ _ Ps), Pe.
  reflexivity.
Qed.

(** X19.  The tracker structure that [cmd_init] builds.  Every command it
    gives the tracker is a [kanbus create] command or the snapshot command.
    When the structure is built, the create commands were, in this order: the
    initiative, without parent; then for every pillar its epic, named after
    the pillar, with [--parent] and the identifier of the initiative,
    followed by one task for every cached question of the pillar, in cache
    order, named by the identifier of the question and the short title of its
    text, with [--parent] and the identifier of the epic of the pillar.  The
    map then holds the epics of the six pillars in the order of [PILLARS],
    and its tasks are those of the questions of the six pillars: every such
    question has a task under its identifier, and there is no other key.  All
    identifiers in the map start with [kanbus-]. *)
Theorem init_structure_spec (assessment : str) (questions : list question)
    (h : list command) :
  let res := init_structure tracker json_issues is_word assessment questions h in
  exists ext,
    fst res = h ++ ext
    /\ forallb (fun c => is_snapshot c || is_create c) ext = true
    /\ forall initiative_id kmap,
         snd res = Ok (initiative_id, kmap) ->
         creates ext = init_creates assessment questions initiative_id kmap
         /\ map fst (epics kmap) = PILLARS
         /\ (forall q, In q questions -> In (q_pillar q) PILLARS ->
                       lookup (tasks kmap) (q_question_id q) <> None)
         /\ (forall k v, In (k, v) (tasks kmap) ->
               exists q, In q questions /\ In (q_pillar q) PILLARS
                         /\ k = q_question_id q)
         /\ startswith initiative_id (lit "kanbus-") = true
         /\ (forall k v, In (k, v) (tasks kmap ++ epics kmap) ->
               startswith v (lit "kanbus-") = true).
Proof.
  destruct (init_structure_facts assessment questions h) as (ext & H1 & H2 & H3).
  exists ext. split; [exact H1|]. split; [exact H2|].
  intros initiative_id kmap E.
  destruct (H3 initiative_id kmap E) as (C & M & Q & K & I & V).
  split; [|now repeat split].
  rewrite C. apply init_creates_written; [exact I|exact M|].
  intros k v Hk. apply (V k v). apply in_or_app. now right.
Qed.

End InitStructure.

(** ** Tracker identifiers in fresh reports *)

(** *** One occurrence of a block in a text *)

Lemma startswith_line_eq Y : forall hl R W,
  one_line Y = true -> one_line hl = true ->
  startswith (Y ++ NL :: R) (hl ++ NL :: W) = true ->
  Y = hl /\ startswith R W = true.
Proof.
  induction Y as [|y Y IH]; intros [|c hl] R W HY Hh; cbn [app];
    rewrite startswith_cons; intros H; apply andb_true_iff in H as [H1 H2].
  - now split.
  - apply N.eqb_eq in H1. subst c. discriminate Hh.
  - apply N.eqb_eq in H1. subst y. discriminate HY.
  - apply N.eqb_eq in H1. subst y.
    cbn [one_line forallb] in HY, Hh.
    apply andb_true_iff in HY as [_ HY]. apply andb_true_iff in Hh as [_ Hh].
    destruct (IH hl R W HY Hh H2) as [-> S]. now split.
Qed.

Lemma scan_line old new L : forall R,
  line_clear old L R ->
  replace_from old new 0 (L ++ NL :: R) = L ++ NL :: replace_from old new 0 R.
Proof.
  induction L as [|c L IH]; intros R H.
  - assert (E := H [] [] eq_refl). cbn [app] in E.
    cbn [app replace_from]. now rewrite E.
  - cbn [app replace_from].
    assert (E := H [] (c :: L) eq_refl). cbn [app] in E. rewrite E.
    f_equal. apply IH. intros X Y ->. apply (H (c :: X) Y). reflexivity.
Qed.

Lemma scan_lines old new Ls : forall Z,
  lines_clear old Ls Z ->
  replace_from old new 0 (unlines Ls ++ Z)
  = unlines Ls ++ replace_from old new 0 Z.
Proof.
  induction Ls as [|L C IH]; intros Z H; [reflexivity|].
  destruct H as [HL HC]. cbn [unlines flat_map]. fold (unlines C).
  rewrite <- !app_assoc. cbn [app].
  rewrite scan_line by exact HL. now rewrite IH.
Qed.

Lemma lines_clear_app old A : forall C Z,
  lines_clear old A (unlines C ++ Z) -> lines_clear old C Z ->
  lines_clear old (A ++ C) Z.
Proof.
  induction A as [|L A IH]; intros C Z HA HC; [exact HC|].
  destruct HA as [HL HA]. cbn [app lines_clear]. split.
  - now rewrite unlines_app, <- app_assoc.
  - now apply IH.
Qed.

(** A block that occurs once is replaced where it stands. *)
Lemma replace_once old new P Ss :
  old <> [] ->
  lines_clear old P (old ++ unlines Ss) -> lines_clear old Ss [] ->
  replace (unlines P ++ old ++ unlines Ss) old new
  = unlines P ++ new ++ unlines Ss.
Proof.
  intros Hn HP HS. unfold replace. destruct old as [|o old']; [contradiction|].
  rewrite scan_lines by exact HP. f_equal.
  rewrite replace_from_match by (exact Hn || apply startswith_app).
  f_equal. rewrite skipn_length_app.
  rewrite <- (app_nil_r (unlines Ss)) at 1.
  rewrite scan_lines by exact HS. cbn [replace_from]. apply app_nil_r.
Qed.

(** *** The block of a question among the lines of a report *)

Lemma tasked_block_fresh nq :
  tasked_block (fun _ => []) nq = block_lines (fst nq) (snd nq).
Proof. reflexivity. Qed.

Lemma unlines_cons_app l ls Z :
  unlines (l :: ls) ++ Z = l ++ NL :: (unlines ls ++ Z).
Proof.
  cbn [unlines flat_map]. fold (unlines ls). now rewrite <- !app_assoc.
Qed.

Lemma hash_prefix X id id' :
  hash_free id' = true ->
  X ++ 35%N :: 35%N :: 32%N :: id = 35%N :: 35%N :: 32%N :: id' ->
  X = [] /\ id = id'.
Proof.
  intros Hf E. destruct X as [|c1 X].
  - cbn [app] in E. injection E as E. now split.
  - exfalso. cbn [app] in E. injection E as _ E.
    destruct X as [|c2 X]; cbn [app] in E; [discriminate E|].
    injection E as _ E.
    destruct X as [|c3 X]; cbn [app] in E; [discriminate E|].
    injection E as _ E. rewrite <- E in Hf. unfold hash_free in Hf.
    rewrite forallb_app in Hf. apply andb_true_iff in Hf as [_ Hf].
    discriminate Hf.
Qed.

Lemma qline_one_line q : one_line (qline q) = true.
Proof.
  unfold qline. rewrite one_line_app. cbn [andb one_line forallb lit].
  apply no_linebreak_one_line, normalized_no_linebreak, normalize_text_normalized.
Qed.

Lemma one_line_suffix X Y : one_line (X ++ Y) = true -> one_line Y = true.
Proof. rewrite one_line_app. intros H. now apply andb_true_iff in H as [_ H]. Qed.

Section Target.

Variable q : question.
Variable B2 : str.
Hypothesis q_ok : id_ok (q_question_id q) = true.

(** A line that is not followed by a Question line. *)
Lemma line_clear_notq L R :
  one_line L = true -> startswith R (lit "Q") = false ->
  line_clear (block_text q B2) L R.
Proof.
  intros HL HR X Y E.
  destruct (startswith (Y ++ NL :: R) (block_text q B2)) eqn:S; [|reflexivity].
  exfalso. unfold block_text in S.
  apply startswith_line_eq in S as [_ S].
  - assert (Q : startswith R (lit "Q") = true).
    { apply (startswith_trans R (qline q ++ NL :: B2)); [exact S|reflexivity]. }
    congruence.
  - subst L. now apply one_line_suffix in HL.
  - now apply heading_line_one_line.
Qed.

(** The heading line of another question. *)
Lemma line_clear_heading q' R' :
  id_ok (q_question_id q') = true ->
  hash_free (q_question_id q') = true ->
  q_question_id q <> q_question_id q' ->
  line_clear (block_text q B2) (heading_line q') (qline q' ++ NL :: R').
Proof.
  intros Hok Hf Hne X Y E.
  destruct (startswith (Y ++ NL :: qline q' ++ NL :: R') (block_text q B2))
    eqn:S; [|reflexivity].
  exfalso. unfold block_text in S.
  assert (H1 := heading_line_one_line q' Hok).
  apply startswith_line_eq in S as [EY S];
    [|rewrite E in H1; now apply one_line_suffix in H1
     |now apply heading_line_one_line].
  apply startswith_line_eq in S as [EQ _]; try apply qline_one_line.
  unfold qline in EQ. apply app_inv_head in EQ.
  subst Y. unfold heading_line in E. rewrite EQ in E.
  set (T := lit ": " ++ _short_title (_normalize_text (q_question_text q))) in E.
  change (lit "## " ++ q_question_id q' ++ T)
    with ((35%N :: 35%N :: 32%N :: q_question_id q') ++ T) in E.
  change (X ++ lit "## " ++ q_question_id q ++ T)
    with (X ++ (35%N :: 35%N :: 32%N :: q_question_id q) ++ T) in E.
  rewrite app_assoc in E. apply app_inv_tail in E.
  symmetry in E. apply hash_prefix in E as [_ E]; [|exact Hf].
  contradiction.
Qed.

(** The block of another question. *)
Lemma block_clear task_of nq Z :
  id_ok (q_question_id (snd nq)) = true ->
  hash_free (q_question_id (snd nq)) = true ->
  q_question_id q <> q_question_id (snd nq) ->
  one_line (fst nq) = true -> one_line (task_of (snd nq)) = true ->
  startswith Z (lit "Q") = false ->
  lines_clear (block_text q B2) (tasked_block task_of nq) Z.
Proof.
  intros Hok Hf Hne Hnow Htask HZ. destruct nq as [now q']. cbn [fst snd] in *.
  unfold tasked_block, task_lines. cbn [fst snd lines_clear].
  rewrite !unlines_cons_app.
  split; [now apply line_clear_heading|].
  split; [apply line_clear_notq; [apply qline_one_line|reflexivity]|].
  do 5 (split; [apply line_clear_notq; reflexivity|]).
  split; [apply line_clear_notq;
          [rewrite one_line_app; now rewrite Htask|reflexivity]|].
  split; [apply line_clear_notq;
          [rewrite one_line_app; now rewrite Hnow|reflexivity]|].
  split; [apply line_clear_notq; [reflexivity|exact HZ]|exact I].
Qed.

Lemma notq_blocks task_of (blocks : list (str * question)) Z :
  startswith Z (lit "Q") = false ->
  startswith (unlines (flat_map (tasked_block task_of) blocks) ++ Z) (lit "Q")
  = false.
Proof.
  intros HZ. destruct blocks as [|nq rest]; [exact HZ|].
  cbn [flat_map]. unfold tasked_block at 1. cbn [app].
  rewrite unlines_cons_app. reflexivity.
Qed.

(** The blocks of other questions. *)
Lemma blocks_clear task_of (blocks : list (str * question)) Z :
  Forall (fun nq =>
            id_ok (q_question_id (snd nq)) = true
            /\ hash_free (q_question_id (snd nq)) = true
            /\ q_question_id q <> q_question_id (snd nq)
            /\ one_line (fst nq) = true
            /\ one_line (task_of (snd nq)) = true) blocks ->
  startswith Z (lit "Q") = false ->
  lines_clear (block_text q B2) (flat_map (tasked_block task_of) blocks) Z.
Proof.
  intros H HZ. induction H as [|nq rest (H1 & H2 & H3 & H4 & H5) Hrest IH];
    [exact I|].
  cbn [flat_map]. apply lines_clear_app; [|exact IH].
  apply block_clear; try assumption. now apply notq_blocks.
Qed.

(** Lines none of which is followed by a Question line. *)
Lemma plain_lines_clear (Ls : list str) Z :
  Forall (fun l => one_line l = true) Ls ->
  forallb (fun l => negb (startswith (l ++ [NL]) (lit "Q"))) Ls = true ->
  startswith Z (lit "Q") = false ->
  lines_clear (block_text q B2) Ls Z.
Proof.
  intros H. revert Z. induction H as [|l rest Hl Hrest IH]; intros Z F HZ;
    [exact I|].
  cbn [forallb] in F. apply andb_true_iff in F as [_ F].
  cbn [lines_clear]. split; [|now apply IH].
  apply line_clear_notq; [exact Hl|].
  destruct rest as [|l2 rest2]; [exact HZ|].
  cbn [forallb] in F. apply andb_true_iff in F as [F2 _].
  apply negb_true_iff in F2. rewrite unlines_cons_app.
  destruct l2 as [|c l2]; [reflexivity|]. exact F2.
Qed.

End Target.

(** *** The rewrite of the blocks of a fresh report *)

Lemma tail_text_blank ls : forall l, l ++ tail_text (ls ++ [[]]) = unlines (l :: ls).
Proof.
  induction ls as [|l2 ls IH]; intros l.
  - cbn [app tail_text unlines flat_map]. now rewrite app_nil_r.
  - cbn [app tail_text flat_map]. fold (tail_text (ls ++ [[]])).
    cbn [app]. rewrite IH. cbn [unlines flat_map].
    now rewrite <- (app_assoc l [NL]).
Qed.

Lemma task_in_simple kmap q :
  (forall k v, In (k, v) (tasks kmap) -> simple v = true) ->
  simple (task_in kmap q) = true.
Proof.
  intros H. unfold task_in.
  destruct (lookup (tasks kmap) (strip (q_question_id q))) as [v|] eqn:L;
    [|reflexivity].
  apply lookup_In in L as [k Hk]. now apply (H k v).
Qed.

Lemma task_lines_one_line task now q :
  one_line task = true -> one_line now = true ->
  Forall (fun l => one_line l = true) (task_lines task now q).
Proof.
  intros Ht Hn. unfold task_lines. repeat constructor.
  - apply qline_one_line.
  - rewrite one_line_app. now rewrite Ht.
  - rewrite one_line_app. now rewrite Hn.
Qed.

Lemma tasked_block_one_line task_of nq :
  block_ok nq -> one_line (task_of (snd nq)) = true ->
  Forall (fun l => one_line l = true) (tasked_block task_of nq).
Proof.
  intros (H1 & _ & H3) Ht. unfold tasked_block. constructor.
  - now apply heading_line_one_line.
  - now apply task_lines_one_line.
Qed.

(** The first record of the lines of a fresh block and what follows it. *)
Lemma first_entry now q R :
  id_ok (q_question_id q) = true ->
  entries_of_lines (tasked_block (fun _ => []) (now, q) ++ R)
  = entry_of (heading_line q)
             (heading_line q ++ tail_text (task_lines [] now q ++ take_block R))
    :: entries_of_lines R.
Proof.
  intros Hok. unfold tasked_block. cbn [fst snd app entries_of_lines].
  rewrite (heading_line_is_heading q Hok). cbn [app].
  rewrite take_block_app by reflexivity.
  now rewrite entries_of_lines_skip by reflexivity.
Qed.

(** The rewrite of the Kanbus Task field of a fresh block. *)
Lemma set_task now q E tid :
  id_ok (q_question_id q) = true -> one_line now = true -> simple tid = true ->
  Forall (fun l => one_line l = true) E ->
  map (set_line (lit "Kanbus Task") tid) E = E ->
  _replace_field (heading_line q ++ tail_text (task_lines [] now q ++ E))
                 (lit "Kanbus Task") tid
  = Ok (heading_line q ++ tail_text (task_lines tid now q ++ E)).
Proof.
  intros Hok Hnow Ht HE HS. apply simple_inv in Ht as [T1 T2].
  rewrite replace_field_lines by (reflexivity || assumption). f_equal.
  rewrite <- !join_tail_text. rewrite lines_join.
  - cbn [map]. rewrite map_app, HS. reflexivity.
  - discriminate.
  - constructor; [now apply heading_line_one_line|].
    apply Forall_app. split; [now apply task_lines_one_line|exact HE].
Qed.

Section Inject.

Variable kmap : kanbus_map.
Hypothesis tasks_simple : forall k v, In (k, v) (tasks kmap) -> simple v = true.

Variable pillar url : str.
Hypothesis frame :
  forallb (fun l => one_line l && negb (is_hash_line l))
          (header_lines pillar url ++ footer_lines url) = true.

Lemma frame_parts :
  Forall (fun l => one_line l = true) (header_lines pillar url)
  /\ Forall (fun l => one_line l = true) (footer_lines url)
  /\ forallb (fun l => negb (is_hash_line l)) (header_lines pillar url) = true
  /\ forallb (fun l => negb (is_hash_line l)) (footer_lines url) = true.
Proof.
  assert (F := frame). rewrite forallb_and, !forallb_app in F.
  apply andb_true_iff in F as [F1 F2].
  apply andb_true_iff in F1 as [H1 H2]. apply andb_true_iff in F2 as [H3 H4].
  repeat split; try assumption; now apply forallb_Forall.
Qed.

(** The block of the first of the questions [post], and the lines after it. *)
Lemma block_split now q (post : list (str * question)) t :
  let R' := flat_map (tasked_block (fun _ => [])) post ++ footer_lines url in
  let E := take_block (flat_map (tasked_block (fun _ => [])) post
                       ++ footer_lines url ++ [[]]) in
  let Ss := match post with [] => [] | _ :: _ => [] :: R' end in
  unlines (heading_line q :: task_lines t now q ++ R')
  = (heading_line q ++ tail_text (task_lines t now q ++ E)) ++ unlines Ss
  /\ Forall (fun l => one_line l = true) E
  /\ (forall tid, map (set_line (lit "Kanbus Task") tid) E = E).
Proof.
  destruct frame_parts as (_ & F1 & _ & F2).
  cbv zeta. destruct post as [|nq post].
  - cbn [flat_map app]. rewrite take_block_app by exact F2.
    cbn [take_block is_hash_line startswith lit]. cbn [unlines flat_map].
    rewrite app_nil_r. split; [|split].
    + rewrite app_assoc, tail_text_blank. reflexivity.
    + apply Forall_app. split; [exact F1|repeat constructor].
    + intros tid. reflexivity.
  - cbn [flat_map]. unfold tasked_block at 2. cbn [app take_block].
    change (is_hash_line (heading_line (snd nq))) with true. cbv iota.
    rewrite app_nil_r. split; [|split; [constructor|reflexivity]].
    change (task_lines t now q)
      with ([qline q; lit "Status: unanswered"; lit "Confidence: n/a";
             lit "Answer:"; lit "Evidence:"; lit "Human Questions:";
             lit "Kanbus Task: " ++ t; lit "Last Updated: " ++ now] ++ [[]]).
    rewrite tail_text_blank.
    exact (unlines_app
             [heading_line q; qline q; lit "Status: unanswered";
              lit "Confidence: n/a"; lit "Answer:"; lit "Evidence:";
              lit "Human Questions:"; lit "Kanbus Task: " ++ t;
              lit "Last Updated: " ++ now]
             ([] :: tasked_block (fun _ => []) nq
                 ++ flat_map (tasked_block (fun _ => [])) post
                 ++ footer_lines url)).
Qed.

Lemma regroup task_of (pre : list (str * question)) nq X :
  unlines (header_lines pillar url ++ flat_map (tasked_block task_of) pre)
  ++ unlines (tasked_block task_of nq ++ X)
  = unlines (header_lines pillar url
             ++ flat_map (tasked_block task_of) (pre ++ [nq]))
    ++ unlines X.
Proof.
  rewrite flat_map_app. cbn [flat_map]. rewrite app_nil_r, !unlines_app.
  now rewrite <- !app_assoc.
Qed.

Lemma others_clear q task_of (blocks : list (str * question)) :
  Forall block_ok blocks ->
  ~ In (q_question_id q) (map (fun nq => q_question_id (snd nq)) blocks) ->
  (forall q', one_line (task_of q') = true) ->
  Forall (fun nq =>
            id_ok (q_question_id (snd nq)) = true
            /\ hash_free (q_question_id (snd nq)) = true
            /\ q_question_id q <> q_question_id (snd nq)
            /\ one_line (fst nq) = true
            /\ one_line (task_of (snd nq)) = true) blocks.
Proof.
  intros Hok Hn Ht. induction Hok as [|nq rest (H1 & H2 & H3) Hrest IH];
    constructor.
  - repeat split; try assumption; [|apply Ht].
    intros E. apply Hn. left. now rewrite E.
  - apply IH. intros H. apply Hn. now right.
Qed.

Lemma frame_notq :
  forallb (fun l => negb (startswith (l ++ [NL]) (lit "Q")))
          (header_lines pillar url) = true
  /\ forallb (fun l => negb (startswith (l ++ [NL]) (lit "Q")))
             (footer_lines url) = true.
Proof. split; reflexivity. Qed.

(** No occurrence of the block of [q] starts in the lines after it. *)
Lemma rest_clear q B2 (post : list (str * question)) :
  id_ok (q_question_id q) = true ->
  Forall block_ok post ->
  ~ In (q_question_id q) (map (fun nq => q_question_id (snd nq)) post) ->
  lines_clear (block_text q B2)
    (match post with
     | [] => []
     | _ :: _ =>
         [] :: flat_map (tasked_block (fun _ => [])) post ++ footer_lines url
     end) [].
Proof.
  intros Hid Hok Hn. destruct frame_parts as (_ & Ff1 & _ & _).
  destruct frame_notq as [_ Nf].
  destruct post as [|nq post]; [exact I|].
  set (bs := nq :: post) in *.
  assert (C : lines_clear (block_text q B2)
                (flat_map (tasked_block (fun _ => [])) bs ++ footer_lines url) []).
  { apply lines_clear_app.
    - apply blocks_clear; [exact Hid| |reflexivity].
      apply (others_clear q (fun _ => [])); [exact Hok|exact Hn|reflexivity].
    - now apply plain_lines_clear. }
  cbn [lines_clear]. split; [|exact C].
  apply line_clear_notq; [exact Hid|reflexivity|].
  rewrite unlines_app, <- app_assoc. now apply notq_blocks.
Qed.

(** The loop of [_apply_kanbus_ids] over the records of a fresh report: the
    blocks [pre] have their tasks, the blocks [post] are still to come. *)
Lemma inject_blocks (post : list (str * question)) : forall pre,
  Forall block_ok (pre ++ post) ->
  NoDup (map (fun nq => q_question_id (snd nq)) (pre ++ post)) ->
  apply_ids_entries (tasks kmap)
    (entries_of_lines (flat_map (tasked_block (fun _ => [])) post
                       ++ footer_lines url ++ [[]]))
    (unlines (header_lines pillar url
              ++ flat_map (tasked_block (task_in kmap)) pre)
     ++ unlines (flat_map (tasked_block (fun _ => [])) post ++ footer_lines url))
  = Ok (unlines (header_lines pillar url
                 ++ flat_map (tasked_block (task_in kmap)) (pre ++ post)
                 ++ footer_lines url)).
Proof.
  destruct frame_parts as (Fh1 & Ff1 & Fh2 & Ff2).
  destruct frame_notq as [Nh Nf].
  induction post as [|[now q] post IH]; intros pre Hok Hnd.
  - cbn [flat_map app]. rewrite entries_of_lines_skip by exact Ff2.
    change (entries_of_lines [[]]) with (@nil entry).
    cbn [apply_ids_entries]. f_equal.
    rewrite app_nil_r, !unlines_app. now rewrite <- app_assoc.
  - assert (Hok' := Hok). apply Forall_app in Hok' as [Hpre Hpost].
    inversion Hpost as [|? ? (Hid & Hhf & Hnow) Hpost']; subst.
    cbn [fst snd] in Hid, Hhf, Hnow.
    rewrite map_app in Hnd. cbn [map snd] in Hnd.
    assert (Hn := NoDup_remove_2 _ _ _ Hnd).
    assert (Hn1 : ~ In (q_question_id q)
                     (map (fun nq => q_question_id (snd nq)) pre))
      by (intros H; apply Hn, in_or_app; now left).
    assert (Hn2 : ~ In (q_question_id q)
                     (map (fun nq => q_question_id (snd nq)) post))
      by (intros H; apply Hn, in_or_app; now right).
    assert (Next :
      apply_ids_entries (tasks kmap)
        (entries_of_lines (flat_map (tasked_block (fun _ => [])) post
                           ++ footer_lines url ++ [[]]))
        (unlines (header_lines pillar url
                  ++ flat_map (tasked_block (task_in kmap)) (pre ++ [(now, q)]))
         ++ unlines (flat_map (tasked_block (fun _ => [])) post
                     ++ footer_lines url))
      = Ok (unlines (header_lines pillar url
                     ++ flat_map (tasked_block (task_in kmap))
                                 (pre ++ (now, q) :: post)
                     ++ footer_lines url))).
    { replace (pre ++ (now, q) :: post) with ((pre ++ [(now, q)]) ++ post)
        by (now rewrite <- app_assoc).
      apply IH.
      - rewrite <- app_assoc. exact Hok.
      - rewrite <- app_assoc, map_app. exact Hnd. }
    cbn [flat_map]. rewrite <- !app_assoc. rewrite first_entry by exact Hid.
    cbn [apply_ids_entries entry_id entry_block entry_of].
    rewrite (heading_line_id q Hid). fold (task_in kmap q).
    destruct (block_split now q post []) as (S0 & HE & HS).
    destruct (block_split now q post (task_in kmap q)) as (S1 & _ & _).
    cbv zeta in S0, S1, HE, HS.
    set (E := take_block (flat_map (tasked_block (fun _ => [])) post
                          ++ footer_lines url ++ [[]])) in *.
    set (Ss := match post with
               | [] => []
               | _ :: _ =>
                   [] :: flat_map (tasked_block (fun _ => [])) post
                      ++ footer_lines url
               end) in *.
    set (R' := flat_map (tasked_block (fun _ => [])) post ++ footer_lines url)
      in *.
    set (B := heading_line q ++ tail_text (task_lines [] now q ++ E)) in *.
    assert (Ts := task_in_simple kmap q tasks_simple).
    destruct (truthy (task_in kmap q)) eqn:T.
    + assert (St := set_task now q E (task_in kmap q) Hid Hnow Ts HE (HS _)).
      fold B in St. rewrite St. cbn [bind]. rewrite <- Next. f_equal.
      rewrite <- regroup. fold R'.
      change (unlines (tasked_block (fun _ => []) (now, q) ++ R'))
        with (unlines (heading_line q :: task_lines [] now q ++ R')).
      change (unlines (tasked_block (task_in kmap) (now, q) ++ R'))
        with (unlines (heading_line q
                       :: task_lines (task_in kmap q) now q ++ R')).
      rewrite S0, S1.
      set (B2 := lit "Status: unanswered"
                 ++ tail_text ([lit "Confidence: n/a"; lit "Answer:";
                                lit "Evidence:"; lit "Human Questions:";
                                lit "Kanbus Task: " ++ [];
                                lit "Last Updated: " ++ now; []] ++ E)).
      assert (HB : B = block_text q B2) by reflexivity.
      assert (NQ : startswith (B ++ unlines Ss) (lit "Q") = false)
        by (rewrite HB; reflexivity).
      apply replace_once.
      * rewrite HB. discriminate.
      * rewrite HB at 1. apply lines_clear_app.
        -- apply plain_lines_clear; try assumption. now apply notq_blocks.
        -- apply blocks_clear; [exact Hid| |exact NQ].
           apply others_clear; [exact Hpre|exact Hn1|].
           intros q'. apply simple_one_line, task_in_simple, tasks_simple.
      * rewrite HB. now apply rest_clear.
    + rewrite <- Next. f_equal. rewrite <- regroup. fold R'.
      destruct (task_in kmap q) as [|c t] eqn:Tq; [|discriminate T].
      change (tasked_block (task_in kmap) (now, q))
        with (heading_line q :: task_lines (task_in kmap q) now q).
      now rewrite Tq.
Qed.

End Inject.

(** *** The records of a report with its tasks *)

(** The record of a block with a task, whatever follows the block. *)
Lemma tasked_entry task now q (tb : list str) :
  id_ok (q_question_id q) = true -> one_line now = true ->
  one_line task = true ->
  tasked_record task
    (entry_of (heading_line q)
              (heading_line q ++ tail_text (task_lines task now q ++ tb)))
    q.
Proof.
  intros Hid Hnow Htask.
  assert (F : forall field pre l post,
             task_lines task now q = pre ++ l :: post ->
             one_line field = true ->
             forallb (fun x => negb (is_field_line field x))
                     (heading_line q :: pre) = true ->
             is_field_line field l = true ->
             _parse_field (heading_line q ++ tail_text (task_lines task now q ++ tb))
                          field
             = field_value field l).
  { intros field pre l post E Hf Hpre Hl.
    rewrite parse_field_lines by exact Hf.
    rewrite <- join_tail_text, lines_join_any by discriminate.
    assert (L := task_lines_one_line task now q Htask Hnow). rewrite E in *.
    replace (heading_line q :: (pre ++ l :: post) ++ tb)
      with ((heading_line q :: pre) ++ l :: post ++ tb)
      by (simpl; now rewrite <- app_assoc).
    apply Forall_app in L as [L1 L2].
    rewrite find_field_after; try assumption.
    - reflexivity.
    - constructor; [now apply heading_line_one_line|exact L1].
    - now inversion L2. }
  unfold tasked_record, entry_of.
  cbn [entry_id entry_title entry_question entry_status entry_confidence
       entry_kanbus].
  rewrite (heading_line_id q Hid). repeat split.
  - replace (skipn (3 + length (q_question_id q) + 2)
                   (heading_line q ++ tail_text (task_lines task now q ++ tb)))
      with (_short_title (_normalize_text (q_question_text q))
            ++ tail_text (task_lines task now q ++ tb)).
    + rewrite first_line_app by apply short_title_no_linebreak.
      cbn [task_lines app tail_text flat_map first_line].
      change (is_linebreak NL) with true. cbv iota.
      rewrite app_nil_r. apply short_title_stripped.
    + unfold heading_line.
      replace ((lit "## " ++ q_question_id q ++ lit ": "
                ++ _short_title (_normalize_text (q_question_text q)))
               ++ tail_text (task_lines task now q ++ tb))
        with ((lit "## " ++ q_question_id q ++ lit ": ")
              ++ _short_title (_normalize_text (q_question_text q))
              ++ tail_text (task_lines task now q ++ tb))
        by (now rewrite <- !app_assoc).
      replace (3 + length (q_question_id q) + 2)
        with (length (lit "## " ++ q_question_id q ++ lit ": "))
        by (rewrite !length_app; simpl; lia).
      now rewrite skipn_length_app.
  - rewrite (F (lit "Question") [] _ _ eq_refl); try reflexivity.
    change (field_value (lit "Question") (qline q))
      with (strip (_normalize_text (q_question_text q))).
    apply (normalize_text_normalized (q_question_text q)).
  - now rewrite (F (lit "Status") [_] _ _ eq_refl).
  - now rewrite (F (lit "Confidence") [_; _] _ _ eq_refl).
  - now rewrite (F (lit "Kanbus Task") [_; _; _; _; _; _] _ _ eq_refl).
Qed.

(** The lines of a list of blocks with tasks read as the records of their
    questions. *)
Lemma tasked_entries task_of (blocks : list (str * question)) rest :
  Forall block_ok blocks -> (forall q, one_line (task_of q) = true) ->
  entries_of_lines rest = [] ->
  Forall2 (fun e q => tasked_record (task_of q) e q)
    (entries_of_lines (flat_map (tasked_block task_of) blocks ++ rest))
    (map snd blocks).
Proof.
  intros H Ht Hrest. induction H as [|[now q] blocks (Hid & _ & Hnow) Hb IH].
  - simpl. rewrite Hrest. constructor.
  - cbn [fst snd] in *. cbn [flat_map map snd]. unfold tasked_block at 1.
    cbn [fst snd]. rewrite <- app_assoc. cbn [app entries_of_lines].
    rewrite (heading_line_is_heading q Hid). cbn [app].
    rewrite take_block_app by reflexivity.
    rewrite entries_of_lines_skip by reflexivity.
    constructor; [|exact IH]. now apply tasked_entry.
Qed.

Lemma tasked_heading_ok task_of (blocks : list (str * question)) :
  Forall block_ok blocks ->
  forallb heading_ok (flat_map (tasked_block task_of) blocks) = true.
Proof.
  intros H. induction H as [|[now q] blocks (Hid & _) Hb IH]; [reflexivity|].
  cbn [flat_map fst snd]. rewrite forallb_app. apply andb_true_iff. split.
  - unfold tasked_block, task_lines. cbn [fst snd forallb].
    rewrite (heading_line_ok q Hid). reflexivity.
  - exact IH.
Qed.

Lemma tasked_one_line task_of (blocks : list (str * question)) :
  Forall block_ok blocks -> (forall q, one_line (task_of q) = true) ->
  Forall (fun l => one_line l = true) (flat_map (tasked_block task_of) blocks).
Proof.
  intros H Ht. induction H as [|nq blocks Hnq Hb IH]; [constructor|].
  cbn [flat_map]. apply Forall_app. split; [|exact IH].
  now apply tasked_block_one_line.
Qed.

(** The text of a report with its tasks parses, and its records are those of
    the questions with their tasks. *)
Lemma tasked_parses task_of pillar url (blocks : list (str * question)) :
  forallb (fun l => one_line l && negb (is_hash_line l))
          (header_lines pillar url ++ footer_lines url) = true ->
  Forall block_ok blocks -> (forall q, one_line (task_of q) = true) ->
  lines (unlines (tasked_lines task_of pillar url blocks))
  = tasked_lines task_of pillar url blocks ++ [[]]
  /\ _parse_questions_from_report (unlines (tasked_lines task_of pillar url blocks))
     = Ok (entries_of_lines
             (flat_map (tasked_block task_of) blocks ++ footer_lines url ++ [[]]))
  /\ Forall2 (fun e q => tasked_record (task_of q) e q)
       (entries_of_lines
          (flat_map (tasked_block task_of) blocks ++ footer_lines url ++ [[]]))
       (map snd blocks).
Proof.
  intros Hframe Hb Ht.
  destruct (frame_parts pillar url Hframe) as (Fh1 & Ff1 & Fh2 & Ff2).
  assert (L : lines (unlines (tasked_lines task_of pillar url blocks))
              = tasked_lines task_of pillar url blocks ++ [[]]).
  { rewrite <- (app_nil_r (unlines _)). apply lines_unlines.
    unfold tasked_lines. rewrite !Forall_app. repeat split; try assumption.
    now apply tasked_one_line. }
  assert (S : entries_of_lines (tasked_lines task_of pillar url blocks ++ [[]])
              = entries_of_lines
                  (flat_map (tasked_block task_of) blocks
                   ++ footer_lines url ++ [[]])).
  { unfold tasked_lines. rewrite <- !app_assoc.
    now rewrite entries_of_lines_skip by exact Fh2. }
  split; [exact L|]. split.
  - rewrite <- S, <- L. apply parse_lines_ok. rewrite L. unfold tasked_lines.
    rewrite !forallb_app. rewrite (tasked_heading_ok task_of blocks Hb).
    assert (E1 : forallb heading_ok (header_lines pillar url) = true).
    { apply (forallb_impl (fun l => negb (is_hash_line l))); [|exact Fh2].
      intros l Hl. apply not_hash_ok. now apply negb_true_iff. }
    assert (E3 : forallb heading_ok (footer_lines url) = true).
    { apply (forallb_impl (fun l => negb (is_hash_line l))); [|exact Ff2].
      intros l Hl. apply not_hash_ok. now apply negb_true_iff. }
    rewrite E1, E3. reflexivity.
  - apply tasked_entries; try assumption.
    now rewrite entries_of_lines_skip by exact Ff2.
Qed.

(** *** The reports after [_apply_kanbus_ids] *)

Section FreshReports.

Variable kmap : kanbus_map.
Hypothesis tasks_simple : forall k v, In (k, v) (tasks kmap) -> simple v = true.

Variable clock : nat -> str.
Hypothesis clock_one_line : forall n, one_line (clock n) = true.

Variable questions : list question.
Hypothesis ids_ok :
  forall q, In q questions -> In (q_pillar q) PILLARS ->
    id_ok (q_question_id q) = true /\ hash_free (q_question_id q) = true.
Hypothesis ids_apart :
  forall pillar, In pillar PILLARS ->
    NoDup (map q_question_id (questions_of pillar questions)).

Lemma stamped_ok pillar tick :
  In pillar PILLARS ->
  Forall block_ok (stamped clock pillar questions tick)
  /\ NoDup (map (fun nq => q_question_id (snd nq))
                (stamped clock pillar questions tick)).
Proof.
  intros Hp. split.
  - apply Forall_forall. intros nq Hnq.
    assert (Hq : In (snd nq) (questions_of pillar questions)).
    { rewrite <- (stamped_questions clock pillar questions tick).
      now apply in_map. }
    apply filter_In in Hq as [Hq Hpq]. apply eqb_str_eq in Hpq.
    rewrite <- Hpq in Hp. destruct (ids_ok _ Hq Hp) as [H1 H2].
    destruct (stamped_clock _ _ _ _ _ Hnq) as [n Hn].
    repeat split; try assumption. rewrite Hn. apply clock_one_line.
  - rewrite <- (map_map snd q_question_id), stamped_questions.
    now apply ids_apart.
Qed.

(** The rewrite of the fresh report of a pillar. *)
Lemma fresh_report_tasks pillar tick :
  In pillar PILLARS ->
  (entries <- _parse_questions_from_report
                (report_text clock questions pillar tick) ;;
   apply_ids_entries (tasks kmap) entries
                     (report_text clock questions pillar tick))
  = Ok (tasked_text kmap clock questions pillar tick).
Proof.
  intros Hp. destruct (pillar_frame pillar Hp) as (url & Hurl & Hframe).
  destruct (stamped_ok pillar tick Hp) as [Hb Hnd].
  rewrite report_text_unlines. unfold tasked_text. rewrite Hurl. cbn [get].
  set (blocks := stamped clock pillar questions tick) in *.
  change (report_lines pillar url blocks)
    with (tasked_lines (fun _ => []) pillar url blocks).
  destruct (tasked_parses (fun _ => []) pillar url blocks Hframe Hb
              (fun _ => eq_refl)) as (_ & P & _).
  rewrite P. cbn [bind].
  assert (I := inject_blocks kmap tasks_simple pillar url Hframe blocks []).
  cbn [app flat_map] in I. rewrite app_nil_r in I.
  unfold tasked_lines at 1. rewrite unlines_app.
  now apply I.
Qed.

(** The loop of [_apply_kanbus_ids] over the pillars, on fresh reports. *)
Lemma fresh_pillars_tasks ps : forall st,
  NoDup ps -> (forall p, In p ps -> In p PILLARS) ->
  (forall p, In p ps ->
     exists t, st p = Some (report_text clock questions p t)) ->
  exists st',
    apply_ids_pillars kmap ps st = (st', Ok tt)
    /\ (forall p, In p ps ->
          exists t, st' p = Some (tasked_text kmap clock questions p t))
    /\ (forall p, ~ In p ps -> st' p = st p).
Proof.
  induction ps as [|p ps IH]; intros st Hnd Hps Hst.
  - exists st. split; [reflexivity|]. split; [intros ? []|reflexivity].
  - apply NoDup_cons_iff in Hnd as [Hn Hnd].
    destruct (Hst p (or_introl eq_refl)) as [t Ht].
    cbn [apply_ids_pillars]. rewrite Ht.
    rewrite (fresh_report_tasks p t (Hps p (or_introl eq_refl))).
    set (new := tasked_text kmap clock questions p t).
    set (content := report_text clock questions p t) in *.
    set (st1 := if eqb_str new content then st else write st p new).
    assert (S1 : st1 p = Some new).
    { unfold st1. destruct (eqb_str new content) eqn:E.
      - apply eqb_str_eq in E. now rewrite E.
      - apply write_same. }
    assert (S2 : forall r, r <> p -> st1 r = st r).
    { intros r Hr. unfold st1. destruct (eqb_str new content); [reflexivity|].
      now apply write_other. }
    destruct (IH st1 Hnd) as (st' & W & Hin & Hout).
    + intros r Hr. apply Hps. now right.
    + intros r Hr. rewrite S2 by (intros ->; contradiction).
      apply Hst. now right.
    + exists st'. split; [exact W|]. split.
      * intros r [<-|Hr]; [|now apply Hin].
        exists t. now rewrite (Hout p Hn).
      * intros r Hr. rewrite Hout by (intros Hr'; apply Hr; now right).
        apply S2. intros ->. apply Hr. now left.
Qed.

(** The reports of an assessment after [_write_reports] and
    [_apply_kanbus_ids]. *)
Lemma fresh_store_tasks assessment st :
  exists st',
    _apply_kanbus_ids kmap
      (fst (snd (_write_reports clock questions assessment st))) = (st', Ok tt)
    /\ forall pillar, In pillar PILLARS ->
         exists t entries,
           st' pillar = Some (tasked_text kmap clock questions pillar t)
           /\ _parse_questions_from_report
                (tasked_text kmap clock questions pillar t) = Ok entries
           /\ Forall2 (fun e q => tasked_record (task_in kmap q) e q)
                      entries (questions_of pillar questions).
Proof.
  unfold _write_reports, _apply_kanbus_ids. cbn [snd].
  destruct (write_pillars_spec clock questions PILLARS st 0 PILLARS_NoDup
              (fun p H => H)) as (st1 & W & Hin & _).
  rewrite W. cbn [fst].
  destruct (fresh_pillars_tasks PILLARS st1 PILLARS_NoDup (fun p H => H) Hin)
    as (st' & A & Hin' & _).
  exists st'. split; [exact A|]. intros pillar Hp.
  destruct (Hin' pillar Hp) as [t Ht]. exists t.
  destruct (pillar_frame pillar Hp) as (url & Hurl & Hframe).
  destruct (stamped_ok pillar t Hp) as [Hb _].
  destruct (tasked_parses (task_in kmap) pillar url
              (stamped clock pillar questions t) Hframe Hb
              (fun q => simple_one_line _ (task_in_simple kmap q tasks_simple)))
    as (_ & P & F).
  eexists. split; [exact Ht|]. unfold tasked_text. rewrite Hurl. cbn [get].
  split; [exact P|]. now rewrite stamped_questions in F.
Qed.

End FreshReports.

(** X20.  On the reports that [_write_reports] has written,
    [_apply_kanbus_ids] returns, and afterwards the report of every pillar
    parses to the records of the questions of the pillar, in cache order, each
    as it was written but for the Kanbus Task field, which holds the task that
    the map has for the stripped question identifier, stripped (and is empty
    when the map has none).  This holds when the question identifiers of the
    six pillars are not empty, hold no colon, no line boundary and no [#] and
    are distinct within every pillar, and the clock readings and the task
    identifiers are on one line without backslash. *)
Theorem fresh_reports_tasks
    (kmap : kanbus_map) (clock : nat -> str) (questions : list question)
    (assessment : str) (st : store) :
  (forall k v, In (k, v) (tasks kmap) -> simple v = true) ->
  (forall n, one_line (clock n) = true) ->
  (forall q, In q questions -> In (q_pillar q) PILLARS ->
     id_ok (q_question_id q) = true /\ hash_free (q_question_id q) = true) ->
  (forall pillar, In pillar PILLARS ->
     NoDup (map q_question_id (questions_of pillar questions))) ->
  let st1 := fst (snd (_write_reports clock questions assessment st)) in
  snd (_apply_kanbus_ids kmap st1) = Ok tt
  /\ forall pillar, In pillar PILLARS ->
       exists content entries,
         fst (_apply_kanbus_ids kmap st1) pillar = Some content
         /\ _parse_questions_from_report content = Ok entries
         /\ Forall2 (fun e q => tasked_record (task_in kmap q) e q)
                    entries (questions_of pillar questions).
Proof.
  intros Ht Hc Hid Hnd. cbv zeta.
  destruct (fresh_store_tasks kmap Ht clock Hc questions Hid Hnd assessment st)
    as (st' & A & H).
  rewrite A. cbn [fst snd]. split; [reflexivity|].
  intros pillar Hp. destruct (H pillar Hp) as (t & entries & H1 & H2 & H3).
  now exists (tasked_text kmap clock questions pillar t), entries.
Qed.

Lemma fresh_reports_tasks_witness :
  let st1 := fst (snd (_write_reports still_clock two_questions (lit "demo")
                                      (fun _ => None))) in
  snd (_apply_kanbus_ids two_tasks_map st1) = Ok tt
  /\ exists content entries,
       fst (_apply_kanbus_ids two_tasks_map st1) (lit "security") = Some content
       /\ _parse_questions_from_report content = Ok entries
       /\ Forall2 (fun e q => tasked_record (task_in two_tasks_map q) e q)
                  entries (questions_of (lit "security") two_questions).
Proof.
  destruct (fresh_reports_tasks two_tasks_map still_clock two_questions
              (lit "demo") (fun _ => None)) as [A B].
  - intros k v [H|[H|[]]]; injection H as <- <-; reflexivity.
  - intros n. reflexivity.
  - intros q [<-|[<-|[]]] _; split; reflexivity.
  - intros pillar Hp. simpl in Hp.
    destruct Hp as [<-|[<-|[<-|[<-|[<-|[<-|[]]]]]]];
      vm_compute; repeat constructor; simpl; tauto.
  - split; [exact A|]. apply B. right. now left.
Defined.

(** ** Initialising an assessment *)

Lemma Forall2_impl_in {A B} (R R' : A -> B -> Prop) l1 l2 :
  Forall2 R l1 l2 -> (forall a b, In b l2 -> R a b -> R' a b) ->
  Forall2 R' l1 l2.
Proof.
  intros F. induction F as [|a b l1 l2 Hab F IH]; intros H; constructor.
  - apply H; [now left|exact Hab].
  - apply IH. intros a' b' Hb. apply H. now right.
Qed.

(** X21.  [cmd_init] from end to end.  When the target directory and the
    cache are there and the tracker structure is built, [cmd_init] returns;
    the index is written; the report of every pillar parses to the records of
    the cached questions of the pillar, in cache order, and every record
    holds, in its Kanbus Task field, the identifier of the task that the map
    has for its question, which starts with [kanbus-]; and the reports pass
    [cmd_validate].  This holds when the question identifiers of the six
    pillars are stripped, not empty, hold no colon, no line boundary and no
    [#] and are distinct within every pillar, and the clock readings and the
    identifiers that the tracker gave are on one line without backslash. *)
Theorem init_end_to_end
    (tracker : list command -> command -> outcome)
    (json_issues : str -> option (list issue))
    (is_word : char -> bool) (clock : nat -> str)
    (questions : list question) (assessment : str) (st : store)
    (h : list command) :
  (forall n, one_line (clock n) = true) ->
  (forall q, In q questions -> In (q_pillar q) PILLARS ->
     id_ok (q_question_id q) = true /\ hash_free (q_question_id q) = true
     /\ strip (q_question_id q) = q_question_id q) ->
  (forall pillar, In pillar PILLARS ->
     NoDup (map q_question_id (questions_of pillar questions))) ->
  let out := cmd_init tracker json_issues is_word clock true (Some questions)
                      assessment st h in
  forall initiative_id kmap,
    out_map out = Some (initiative_id, kmap) ->
    (forall k v, In (k, v) (tasks kmap) -> simple v = true) ->
    out_result out = Ok tt
    /\ out_index out = Some (index_text assessment)
    /\ cmd_validate (out_reports out) = Ok []
    /\ forall pillar, In pillar PILLARS ->
         exists content entries,
           out_reports out pillar = Some content
           /\ _parse_questions_from_report content = Ok entries
           /\ Forall2
                (fun e q =>
                   entry_id e = q_question_id q
                   /\ exists t,
                        lookup (tasks kmap) (q_question_id q) = Some t
                        /\ startswith t KANBUS_PREFIX = true
                        /\ entry_kanbus e = strip t)
                entries (questions_of pillar questions).
Proof.
  intros Hc Hid Hnd. cbv zeta. intros initiative_id kmap Hmap Hs.
  unfold cmd_init in *. cbn [negb] in *.
  assert (W : _write_reports clock questions assessment st
              = (index_text assessment,
                 (fst (snd (_write_reports clock questions assessment st)),
                  Ok tt))).
  { unfold _write_reports.
    destruct (write_pillars_spec clock questions PILLARS st 0 PILLARS_NoDup
                (fun p H => H)) as (st1 & W & _).
    now rewrite W. }
  set (st1 := fst (snd (_write_reports clock questions assessment st))) in *.
  rewrite W in *.
  destruct (init_structure_facts tracker json_issues is_word assessment
              questions h) as (ext & _ & _ & Facts). cbv zeta in Facts.
  destruct (init_structure tracker json_issues is_word assessment questions h)
    as [h' [[i k]|e]]; [|discriminate Hmap].
  destruct (Facts i k eq_refl) as (_ & _ & Q & _ & _ & P).
  destruct (fresh_store_tasks k) with (clock := clock) (questions := questions)
    (assessment := assessment) (st := st) as (st' & A & H).
  - destruct (_apply_kanbus_ids k st1); cbn [out_map] in Hmap.
    injection Hmap as _ <-. exact Hs.
  - exact Hc.
  - intros q Hq Hp. destruct (Hid q Hq Hp) as (H1 & H2 & _). now split.
  - exact Hnd.
  - fold st1 in A. rewrite A in *. cbn [out_map out_result out_index out_reports] in *.
    injection Hmap as <- <-.
    assert (R : forall pillar, In pillar PILLARS ->
              exists content entries,
                st' pillar = Some content
                /\ _parse_questions_from_report content = Ok entries
                /\ Forall2 (fun e q => tasked_record (task_in k q) e q)
                           entries (questions_of pillar questions)).
    { intros pillar Hp. destruct (H pillar Hp) as (t & entries & H1 & H2 & H3).
      now exists (tasked_text k clock questions pillar t), entries. }
    split; [reflexivity|]. split; [reflexivity|]. split.
    + unfold cmd_validate. apply validate_pillars_nil. intros pillar Hp.
      destruct (R pillar Hp) as (content & entries & H1 & H2 & F).
      exists content, entries. split; [exact H1|]. split; [exact H2|].
      apply validate_entries_nil. split; [intros e _ []|]. split.
      * replace (map entry_id entries)
          with (map q_question_id (questions_of pillar questions));
          [now apply Hnd|].
        assert (G : forall q, In q (questions_of pillar questions) ->
                      strip (q_question_id q) = q_question_id q).
        { intros q Hq. apply filter_In in Hq as [Hq Hpq].
          apply eqb_str_eq in Hpq. rewrite <- Hpq in Hp.
          now apply (Hid q Hq Hp). }
        clear -F G. induction F as [|e q es qs (E & _) _ IH]; [reflexivity|].
        cbn [map]. rewrite E, G by now left. f_equal.
        apply IH. intros q' Hq'. apply G. now right.
      * intros e He. clear -F He.
        induction F as [|e' q es qs (_ & _ & _ & Es & Ec & _) _ IH];
          [contradiction|].
        destruct He as [<-|He]; [|now apply IH].
        rewrite Es, Ec. split; right; simpl; tauto.
    + intros pillar Hp.
      destruct (R pillar Hp) as (content & entries & H1 & H2 & F).
      exists content, entries. split; [exact H1|]. split; [exact H2|].
      apply (Forall2_impl_in _ _ _ _ F). intros e q Hq (E & _ & _ & _ & _ & K).
      apply filter_In in Hq as [Hq Hpq]. apply eqb_str_eq in Hpq.
      rewrite <- Hpq in Hp. destruct (Hid q Hq Hp) as (_ & _ & S).
      rewrite S in E. split; [exact E|].
      unfold task_in in K. rewrite S in K.
      destruct (lookup (tasks k) (q_question_id q)) as [t|] eqn:L;
        [|now contradiction (Q q Hq Hp)].
      exists t. split; [reflexivity|]. split; [|exact K].
      apply lookup_In in L as [k' Hk']. apply (P k' t).
      apply in_or_app. now left.
Qed.

Lemma init_end_to_end_witness :
  let out := cmd_init demo_tracker (fun _ => None) ascii_word still_clock true
                      (Some two_questions) (lit "demo") (fun _ => None) [] in
  out_result out = Ok tt
  /\ cmd_validate (out_reports out) = Ok []
  /\ exists content entries,
       out_reports out (lit "security") = Some content
       /\ _parse_questions_from_report content = Ok entries
       /\ Forall2
            (fun e q =>
               entry_id e = q_question_id q
               /\ exists t,
                    lookup (tasks demo_map) (q_question_id q) = Some t
                    /\ startswith t KANBUS_PREFIX = true
                    /\ entry_kanbus e = strip t)
            entries (questions_of (lit "security") two_questions).
Proof.
  cbv zeta.
  assert (Hnd : forall pillar, In pillar PILLARS ->
     NoDup (map q_question_id (questions_of pillar two_questions))).
  { intros pillar Hp. simpl in Hp.
    destruct Hp as [<-|[<-|[<-|[<-|[<-|[<-|[]]]]]]];
      vm_compute; repeat constructor; simpl; tauto. }
  destruct (init_end_to_end demo_tracker (fun _ => None) ascii_word still_clock
              two_questions (lit "demo") (fun _ => None) []) with
    (initiative_id := lit "kanbus-0") (kmap := demo_map) as (R & _ & V & P);
    [intros n; reflexivity
    |intros q [<-|[<-|[]]] _; repeat split; reflexivity
    |exact Hnd
    |vm_compute; reflexivity
    |intros key v [H|[H|[]]]; injection H as <- <-; reflexivity
    |].
  split; [exact R|]. split; [exact V|].
  apply P. right. now left.
Defined.

Lemma init_structure_spec_witness :
  exists ext,
    fst (init_structure demo_tracker (fun _ => None) ascii_word
                        (lit "demo") two_questions []) = ext
    /\ snd (init_structure demo_tracker (fun _ => None) ascii_word
                           (lit "demo") two_questions [])
       = Ok (lit "kanbus-0", demo_map)
    /\ creates ext
       = init_creates (lit "demo") two_questions (lit "kanbus-0") demo_map
    /\ creates ext
       = map (map lit)
           [ ["kanbus"; "create"; "Well-Architected Assessment: demo"; "--type";
              "initiative"];
             ["kanbus"; "create"; "Operational Excellence Pillar"; "--type";
              "epic"; "--parent"; "kanbus-0"];
             ["kanbus"; "create"; "Security Pillar"; "--type"; "epic";
              "--parent"; "kanbus-0"];
             ["kanbus"; "create"; "SEC-1 How do you  manage identities?";
              "--type"; "task"; "--parent"; "kanbus-4"];
             ["kanbus"; "create"; "Reliability Pillar"; "--type"; "epic";
              "--parent"; "kanbus-0"];
             ["kanbus"; "create"; "REL-1 How do you plan for failure?";
              "--type"; "task"; "--parent"; "kanbus-8"];
             ["kanbus"; "create"; "Performance Efficiency Pillar"; "--type";
              "epic"; "--parent"; "kanbus-0"];
             ["kanbus"; "create"; "Cost Optimization Pillar"; "--type"; "epic";
              "--parent"; "kanbus-0"];
             ["kanbus"; "create"; "Sustainability Pillar"; "--type"; "epic";
              "--parent"; "kanbus-0"] ].
Proof.
  destruct (init_structure_spec demo_tracker (fun _ => None) ascii_word
              (lit "demo") two_questions []) as (ext & H1 & _ & H3).
  assert (S : snd (init_structure demo_tracker (fun _ => None) ascii_word
                                  (lit "demo") two_questions [])
              = Ok (lit "kanbus-0", demo_map)) by (vm_compute; reflexivity).
  destruct (H3 (lit "kanbus-0") demo_map S) as (C & _).
  exists ext. split; [exact H1|]. split; [exact S|]. split; [exact C|].
  rewrite C. vm_compute. reflexivity.
Defined.

Lemma apply_evidence_reports_witness :
  exists c',
    apply_evidence_report (summary_of python_inventory) fresh_report = Ok c'
    /\ fst (cmd_apply_evidence (Some python_inventory) one_record_store)
           (lit "security") = Some c'
    /\ fst (cmd_apply_evidence (Some python_inventory) one_record_store)
           (lit "reliability") = None.
Proof.
  destruct (apply_evidence_reports (Some python_inventory) one_record_store)
    as (H1 & _ & H3 & _).
  destruct H3 as (inv & E & H); [vm_compute; reflexivity|].
  injection E as <-.
  destruct (H (lit "security") fresh_report) as (c' & R & S);
    [right; now left|reflexivity|].
  exists c'. split; [exact R|]. split; [exact S|].
  now apply H1.
Defined.
